(* ===== verification/_CoqProject ===== *)
-Q . S2P
Prelude.v
GoStrings.v
Selector.v
RegistryModel.v
ReplicationModel.v
WatchHub.v
Codec.v
Files.v
Wal.v
WalLog.v
WalCrash.v
Engine.v
StateMachine.v
Pebble.v
Snapshot.v
Cleanup.v
RaftConfig.v
PebbleTotal.v
Raft.v
RaftNode.v
RaftReads.v
Replay.v
Recovery.v
Restart.v
RaftFacts.v
Agreement.v
Tracker.v
AddressBook.v
Transport.v
CatchUp.v
Dto.v
DataNode.v
Http.v
QueryFacts.v
WriteFacts.v
Samples.v
WriteSamples.v
Sse.v
Replication.v
ReplicationFacts.v
Watch.v
Mirror.v
Region.v
RegionSamples.v
Membership.v
MembershipFacts.v
MembershipSamples.v
NetAddr.v
Prometheus.v
PrometheusFacts.v
Control.v
Server.v
ControlFacts.v
ControlSamples.v
Ctl.v
CtlFacts.v
CtlSamples.v
Daemon.v
DaemonFacts.v
DaemonSamples.v
AppLife.v
AppLifeFacts.v
AppLifeSamples.v
Logging.v
LogAdapters.v
Metrics.v
MetricsFacts.v
MetricsSamples.v
Sessions.v
MetricsRegister.v
Main.v
MainSamples.v
