(* ===== verification/Prelude.v ===== *)
(** * StellMap: a verification development of the registry service

    StellMap keeps a directory of service instances in a raft cluster.  Clients register instances,
    renew their leases and query or watch the directory over HTTP; every write is a command that
    raft replicates and that each node applies to a Pebble store; snapshots and a write-ahead log
    make a node restart; a cluster copies services of another region by watching it; administrators
    change the membership over a second listener.

    ** How a request travels, and where it is modelled

    - [cmd/stellmapd] reads its configuration, takes over the logs ([Logging], [LogAdapters]) and builds
      the parts ([Daemon]), the application starts them, runs their loops and stops them ([AppLife]);
      [Main] is the process from its flags to its exit code.
    - A request passes the router, the counters and, on the admin listener, the guard ([Server]); the
      handlers of the data plane are in [Http] and [Watch], those of the control plane in [Control],
      service discovery in [Prometheus], the counters per client and per RPC in [Metrics].
    - The data plane normalises identities, keys, leases, queries and selectors ([RegistryModel],
      [Selector], [ReplicationModel]) and talks to the node through the class [DataNode].
    - The node ([RaftNode], with its configuration in [RaftConfig]) hands proposals and reads to the
      raft library and persists each ready batch: [Wal], [Snapshot], [Pebble], in this order.  Messages
      to other nodes leave and arrive through [Transport], by the addresses of [AddressBook].
    - Committed entries become events of the [WatchHub], membership changes of [Membership]; expired
      instances are deleted by the sweep of [Cleanup]; another region follows the events
      ([Sse], [Replication], [Tracker]).
    - [cmd/stellmapctl] is [Ctl], with what [http.Client.Do] of Go 1.25 makes of a redirect.

    ** Files, by the sources they model

    - [GoStrings], [NetAddr]: what is used of Go's strings, strconv, utf8 and net.  [Files]: a directory
      with a trace of system calls, for crashes.  [Codec], [Engine], [Raft]: the classes that stand for
      JSON, for Pebble and for the raft library with its protobuf messages.
    - [Selector], [RegistryModel], [ReplicationModel], [WatchHub], [Cleanup]: [internal/registry].
    - [StateMachine], [Pebble]: [internal/storage].  [Wal]: [internal/wal].  [Snapshot]: [internal/snapshot].
    - [RaftConfig], [RaftNode]: [internal/raftnode].
    - [Tracker]: [internal/replication].  [AddressBook], [Transport]: [internal/runtime], [internal/transport/grpc].
    - [Dto], [DataNode], [Http], [Watch], [Sse], [Prometheus], [Control], [Server]: [internal/transport/http].
    - [Replication], [Membership], [AppLife], [Daemon], [Main]: [internal/app], [cmd/stellmapd].  [Metrics],
      [MetricsRegister]: [internal/metrics], [replication/collector.go] and the hooks of [grpc/server.go].
      [Logging], [LogAdapters]: [internal/logging].  [Ctl]: [cmd/stellmapctl].

    A file [XFacts] proves the theorems on [X]; a file [XSamples] instantiates the classes with
    concrete functions and applies the theorems there.  [WalLog] and [WalCrash] are on [Wal];
    [PebbleTotal] on [Pebble]; [RaftReads], [Replay], [Recovery], [Restart], [RaftFacts], [Agreement] on [RaftNode];
    [QueryFacts] and [WriteFacts] on [Http]; [Mirror] and [Region] put the watch of one region and the
    copy in another together, [CatchUp] two nodes and the transport between them, [Sessions] the hub, the
    session gauge and the handlers that hold both.

    ** Conventions of the models

    A Go string or byte slice is a list of bytes; machine integers are [Z] with [u64] and [i64] where
    they wrap.  A fallible function returns [result]; a panic is an error value of its own or [None].  Code
    that changes state is in the monad [ST] of this file, which returns the state on errors as well, as
    Go does.  Maps are [gmap]s, and a loop over one goes through [range] of the class [GoRange], which
    may order it in any way.  The clock, random bytes and everything that arrives from outside are
    arguments.  Names are those of the code; a definition that models a fragment of a function has a
    name of its own.

    ** Interfaces

    [StateMachine] is what the node needs of a store; the in-memory machine and Pebble implement it.
    [DataNode] is what the handlers need of a node, [MemberStore] what keeps member records,
    [TransportNode] what receives raft messages.  The theorems of a client are proved against the class.
    Third-party code is a class without a definition: [PebbleEngine] (iterators in key order, batches
    applied as a whole), [Raftpb] and [Raft] (encodings that decode to what was encoded, calls that
    raft answers), [RaftBehaviour] (the answers themselves), [Json] ([json_faithful] says on which values
    encoding is exact), [CaseTable], [UrlLib].  Each has an instance that the witnesses evaluate.

    ** What is proved

    - Storage: under the calls of a raft client the write-ahead log refines a contiguous log
      ([wal_refines_log]); a crash in [Append] or
      [Create] leaves the state before or after ([Append_crash], [Create_crash]); snapshots and restores are
      inverse ([Snapshot_Restore]), and a directory of snapshots keeps the newest two and nothing else of them
      ([Create_OpenLatest]); a node that restarts has the state it had
      ([node_recovers]); a follower that installs the export of a leader has the leader's contents,
      through a restart ([snapshot_catches_up]).
    - Reads and writes: a confirmed read index is not older than its request ([read_confirmed]), and a read
      let through with it finds the contents after a committed prefix that reaches to that index
      ([linearizable_read]); nodes with the same committed log hold and answer the same
      ([replicas_agree]); each
      write proposes exactly its command and answers accordingly ([Register_visible], [Deregister_hides],
      [Heartbeat_correct]); queries return exactly the matching live instances
      ([QueryInstances_correct]), parsing of queries, keys and selectors is exact; a lease ends in exactly
      its last second ([IsAlive_exact]).
    - Watching: every subscriber gets every event once and in order or is closed ([watch_delivery],
      [watch_resume]), within bounded memory ([hub_bounded]); no session outlives its stream
      ([sessions_counted]); a frame is read back as it was written ([run_rendered]); a copy of a service is a
      mirror of the source ([replication_mirrors], [region_mirror]).
    - The cluster: what a batch has for a peer arrives there, messages and snapshots ([Forward_delivers],
      [transfer_roundtrip]); addresses survive restarts ([addresses_survive], [stop_keeps_addresses]); a
      learner that was added is known everywhere ([AddLearner_recorded]); only a local administrator
      with the token changes the cluster ([control_isolated]); a configuration that is accepted is sound
      ([newServerApp_sound], [cluster_roundtrip]); the sweep comes to every expired instance
      ([sweep_visits]); a command of the client ends and asks only for what it says ([command_ends]); a process that
      ends well has stopped its application and given its logs back, gRPC's excepted ([exit_and_logs]).
    - Monitoring: scrape targets and collected metrics are complete and well formed
      ([PrometheusSD_correct], [target_labels], [active_instances_counted]), every metric reaches the
      registry ([metrics_registered]), and observing an RPC does not change it ([rpcs_observed]).
    - Errors the code has: [stale_append_dropped], [promotion_forgets], [signal_loses_book], [interrupted_snapshot],
      [interrupted_transfer], [heartbeat_resurrects], [publish_unsubscribe_panic], [restart_reapplies], the hard
      state of [snapshot_catches_up], the logs of a failing process in [exit_and_logs], and the lemmas of [RaftFacts],
      [PrometheusFacts] and [Snapshot] that are stated on concrete inputs.

    ** Fuel

    Loops over a slice recurse over the list.  The others have fuel that a lemma shows to be enough:
    splitting and trimming of strings and reading of log records by the length of the input, the digits
    of a number by 20 for 64 bits, the chunks of a snapshot by its length, and the exchanges of the
    client by 2, behind which more fuel changes nothing ([command_ends]).  That [http.Client] gives up
    after ten requests is behaviour, not fuel.

    ** Interleavings

    Where the program runs goroutines over shared state, a step is what a lock or a channel makes atomic:
    the publisher and the subscribers of the hub, the readers and the ready loop of a node, the requests
    between the read and the write of a heartbeat, the starts and ends of watch sessions, the iterations of
    the loops of the application.

    ** Not modelled

    The generated protobuf code; what zap, its bridge and the stellspec runtime do with a message; the flag, TOML and URL parsers; sockets, TLS and the servers'
    own loops; deadlines and timers, beyond the choice of which comes first where it matters; failures
    of the file system other than missing files; SHA-256, which is a parameter.  The raft library is a
    parameter, so that agreement of the committed logs is an assumption here and never a conclusion; what it
    means for the stores of the nodes is.  The
    counters of the metrics are integers, not floats. *)
From stdpp Require Import gmap strings list sorting.
From Stdlib Require Import Ascii ZArith Sorted.

(** ** Go strings

    A Go [string] (and a [[]byte]) is a finite sequence of bytes.  It is kept as
    a list of [ascii] so that the list library applies to it. *)
Abbreviation str := (list ascii).
Definition lit (s : string) : str := String.list_ascii_of_string s.
Definition byte (n : nat) : ascii := ascii_of_nat n.
Definition bval (c : ascii) : N := N_of_ascii c.

Lemma bval_inj c d : bval c = bval d → c = d.
Proof.
  intros H. rewrite <-(ascii_N_embedding c), <-(ascii_N_embedding d).
  unfold bval in H. by rewrite H.
Qed.

(** ** Results

    A fallible Go function returns [(T, error)]: the value is only read when the
    error is nil, so the pair is a sum.  Panics are error values as well. *)
Inductive result (E A : Type) : Type :=
  | Ok (a : A)
  | Err (e : E).
Arguments Ok {E A} a.
Arguments Err {E A} e.

#[export] Instance result_ret E : MRet (result E) := λ A a, Ok a.
#[export] Instance result_bind E : MBind (result E) := λ A B f r,
  match r with Ok a => f a | Err e => Err e end.
#[export] Instance result_fmap E : FMap (result E) := λ A B f r,
  match r with Ok a => Ok (f a) | Err e => Err e end.
#[export] Instance result_eq_dec E A `{EqDecision E, EqDecision A} :
  EqDecision (result E A).
Proof. solve_decision. Defined.

Definition map_err {E F A} (f : E → F) (r : result E A) : result F A :=
  match r with Ok a => Ok a | Err e => Err (f e) end.
Definition is_ok {E A} (r : result E A) : Prop := ∃ a, r = Ok a.

(** [guard b e ;; k]: return the error [e] early when the test [b] holds. *)
Definition fail_if {E} (b : bool) (e : E) : result E unit :=
  if b then Err e else Ok tt.

Lemma result_bind_ok {E A B} (r : result E A) (f : A → result E B) b :
  r ≫= f = Ok b ↔ ∃ a, r = Ok a ∧ f a = Ok b.
Proof. destruct r; cbn; split; [by eauto|by intros (?&[= ->]&?)|done|by intros (?&?&?)]. Qed.
Lemma fail_if_ok {E} b (e : E) u : fail_if b e = Ok u ↔ b = false.
Proof. destruct b, u; naive_solver. Qed.
Lemma map_err_ok {E F A} (f : E → F) (r : result E A) a :
  map_err f r = Ok a ↔ r = Ok a.
Proof. destruct r; naive_solver. Qed.

(** Inversion of a chain of fallible steps: the rewrite base turns [m ≫= f = Ok b], guards and
    relabelled errors into their parts, [results in H] runs it on a hypothesis. *)
Create HintDb results discriminated.
#[export] Hint Rewrite @result_bind_ok @fail_if_ok @map_err_ok : results.
Ltac results_in H := autorewrite with results in H.
Tactic Notation "results" "in" hyp(H) := results_in H.

(** Equality with a success, as a boolean that evaluates without the error type. *)
Definition is_ok_eq {E A} `{EqDecision A} (r : result E A) (a : A) : bool :=
  match r with Ok a' => bool_decide (a' = a) | Err _ => false end.
Lemma ok_unpack {E A} `{EqDecision A} (r : result E A) a : is_ok_eq r a = true → r = Ok a.
Proof. destruct r; cbn; [|done]. by intros ->%bool_decide_eq_true. Qed.
Lemma run_unpack {S E A} `{EqDecision A} (p : S * result E A) a :
  is_ok_eq p.2 a = true → p = (p.1, Ok a).
Proof. destruct p as [s r]; cbn. by intros ->%ok_unpack. Qed.

(** A loop that stops at the first error ([for ... { if err != nil { return err } }]). *)
Fixpoint foldM {E S A} (f : S → A → result E S) (s : S) (l : list A) : result E S :=
  match l with
  | [] => Ok s
  | x :: l => s' ← f s x; foldM f s' l
  end.

Lemma foldM_app {E S A} (f : S → A → result E S) s l1 l2 :
  foldM f s (l1 ++ l2) = foldM f s l1 ≫= λ s', foldM f s' l2.
Proof. revert s; induction l1; intros s; cbn; [done|]. by destruct (f s a); cbn. Qed.

(** Invariant rule for such loops. *)
Lemma foldM_inv {E S A} (P : S → Prop) (f : S → A → result E S) s l s' :
  P s → (∀ t x t', P t → f t x = Ok t' → P t') →
  foldM f s l = Ok s' → P s'.
Proof.
  intros HP Hstep. revert s HP. induction l as [|x l IH]; intros s HP; cbn; [naive_solver|].
  destruct (f s x) eqn:Hf; cbn; [|done]. eauto.
Qed.

(** ** Stateful functions that may fail

    A method that writes to its receiver and returns an error: the state is kept on
    every path, as Go keeps what was written before the error. *)
Definition ST (S E A : Type) : Type := S → S * result E A.
#[export] Instance ST_ret S E : MRet (ST S E) := λ A a s, (s, Ok a).
#[export] Instance ST_bind S E : MBind (ST S E) := λ A B f m s,
  match m s with
  | (s', Ok a) => f a s'
  | (s', Err e) => (s', Err e)
  end.
Definition st_get {S E} : ST S E S := λ s, (s, Ok s).
Definition st_put {S E} (s' : S) : ST S E unit := λ _, (s', Ok tt).
Definition st_modify {S E} (f : S → S) : ST S E unit := λ s, (f s, Ok tt).
Definition st_fail {S E A} (e : E) : ST S E A := λ s, (s, Err e).
Definition st_lift {S E A} (r : result E A) : ST S E A := λ s, (s, r).
Fixpoint st_iter {S E A} (f : A → ST S E unit) (l : list A) : ST S E unit :=
  match l with
  | [] => mret tt
  | x :: l => f x;; st_iter f l
  end.
Fixpoint st_fold {S E A B} (f : B → A → ST S E B) (b : B) (l : list A) : ST S E B :=
  match l with
  | [] => mret b
  | x :: l => b ← f b x; st_fold f b l
  end.
Lemma st_bind_ok {S E A B} (m : ST S E A) (f : A → ST S E B) s s1 a :
  m s = (s1, Ok a) → (m ≫= f) s = f a s1.
Proof. intros H. unfold mbind, ST_bind. by rewrite H. Qed.
Lemma st_bind_err {S E A B} (m : ST S E A) (f : A → ST S E B) s s1 e :
  m s = (s1, Err e) → (m ≫= f) s = (s1, Err e).
Proof. intros H. unfold mbind, ST_bind. by rewrite H. Qed.

(** Inversion of a run that succeeds. *)
Lemma st_bind_inv {S E A B} (m : ST S E A) (k : A → ST S E B) s s' b :
  (m ≫= k) s = (s', Ok b) → ∃ s1 a, m s = (s1, Ok a) ∧ k a s1 = (s', Ok b).
Proof. unfold mbind, ST_bind. destruct (m s) as [s1 [a|e]]; [|done]. by exists s1, a. Qed.
(** [run H as s a Hm]: the first step of the run [H] ends in [s] with [a]; [H] is the rest. *)
Tactic Notation "run" hyp(H) "as" simple_intropattern(s) simple_intropattern(a) simple_intropattern(Hm) :=
  apply st_bind_inv in H as (s&a&Hm&H).

(** ** What a step leaves alone *)
Section frame.
Context {S X E : Type} (f : S → X).
Definition keeps {A} (m : ST S E A) : Prop := ∀ s, f (m s).1 = f s.
Lemma keeps_ret {A} (a : A) : keeps (mret a).
Proof. done. Qed.
Lemma keeps_bind {A B} (m : ST S E A) (k : A → ST S E B) : keeps m → (∀ a, keeps (k a)) → keeps (m ≫= k).
Proof.
  intros Hm Hk s. specialize (Hm s). unfold mbind, ST_bind. destruct (m s) as [s1 [a|e]]; cbn [fst] in *; [|done].
  by rewrite (Hk a s1).
Qed.
Lemma keeps_fold {A B} (g : B → A → ST S E B) b l : (∀ b a, keeps (g b a)) → keeps (st_fold g b l).
Proof. intros Hg. revert b; induction l as [|a l IH]; intros b; [done|]. apply keeps_bind; [apply Hg|intros b'; apply IH]. Qed.
End frame.

(** ** Machine integers: two's complement wrap-around at width 64 *)
Definition u64 (z : Z) : Z := z `mod` 2 ^ 64.
Definition i64 (z : Z) : Z := (z + 2 ^ 63) `mod` 2 ^ 64 - 2 ^ 63.
Definition is_u64 (z : Z) : Prop := (0 ≤ z < 2 ^ 64)%Z.
Definition is_i64 (z : Z) : Prop := (- 2 ^ 63 ≤ z < 2 ^ 63)%Z.
#[export] Instance is_u64_dec z : Decision (is_u64 z) := decide (0 ≤ z < 2 ^ 64)%Z.
#[export] Instance is_i64_dec z : Decision (is_i64 z) := decide (- 2 ^ 63 ≤ z < 2 ^ 63)%Z.

Lemma u64_id z : is_u64 z → u64 z = z.
Proof. intros H. apply Z.mod_small, H. Qed.
Lemma u64_range z : is_u64 (u64 z).
Proof. apply Z.mod_pos_bound. lia. Qed.
Lemma u64_small z : (0 ≤ z < 2 ^ 32)%Z → is_u64 z.
Proof. unfold is_u64. lia. Qed.
Lemma i64_id z : is_i64 z → i64 z = z.
Proof. unfold is_i64, i64. intros H. rewrite Z.mod_small; lia. Qed.
Lemma i64_range z : is_i64 (i64 z).
Proof.
  unfold is_i64, i64. pose proof (Z.mod_pos_bound (z + 2 ^ 63) (2 ^ 64)). lia.
Qed.
Create HintDb stellmap discriminated.
#[export] Hint Resolve u64_range u64_small i64_range : stellmap.
#[export] Hint Rewrite u64_id i64_id using (solve [eauto with stellmap]) : stellmap.
Lemma i64_wrap_high z : (2 ^ 63 ≤ z < 2 ^ 64 + 2 ^ 63)%Z → i64 z = (z - 2 ^ 64)%Z.
Proof.
  intros H. unfold i64.
  replace (z + 2 ^ 63)%Z with ((z - 2 ^ 63) + 1 * 2 ^ 64)%Z by lia.
  rewrite Z.mod_add by lia. rewrite Z.mod_small by lia. lia.
Qed.
Lemma u64_add_wrap z : u64 z = 0%Z → u64 (z + 1) = 1%Z.
Proof.
  unfold u64. intros H. rewrite <-(Zplus_mod_idemp_l z), H. done.
Qed.

(** ** Iteration order of Go maps

    [for k, v := range m] visits every binding of [m] once, in an order the
    language leaves open.  A definition that ranges over a map takes the order
    from this class, and its theorems hold for every instance. *)
Class GoRange := {
  range : ∀ {K V : Type} `{Countable K}, gmap K V → list (K * V);
  range_perm : ∀ {K V : Type} `{Countable K} (m : gmap K V), range m ≡ₚ map_to_list m
}.
Definition range_by_key : GoRange.
Proof.
  refine {| range := λ K V _ _ m, map_to_list m |}. done.
Defined.

(** ** Lexicographic order of byte strings (Go's [<] on strings) *)
Fixpoint str_ltb (a b : str) : bool :=
  match a, b with
  | _, [] => false
  | [], _ :: _ => true
  | x :: a', y :: b' =>
      if N.ltb (bval x) (bval y) then true
      else if N.ltb (bval y) (bval x) then false
      else str_ltb a' b'
  end.
Definition str_lt (a b : str) : Prop := str_ltb a b = true.
Definition str_le (a b : str) : Prop := str_ltb b a = false.
#[export] Instance str_lt_dec : RelDecision str_lt := λ a b, decide (str_ltb a b = true).
#[export] Instance str_le_dec : RelDecision str_le := λ a b, decide (str_ltb b a = false).

Lemma str_ltb_irrefl a : str_ltb a a = false.
Proof. induction a as [|x a IH]; cbn; [done|]. by rewrite N.ltb_irrefl. Qed.

Lemma str_lt_cons x a y b :
  str_lt (x :: a) (y :: b) ↔ (bval x < bval y)%N ∨ x = y ∧ str_lt a b.
Proof.
  unfold str_lt. cbn.
  destruct (N.ltb_spec (bval x) (bval y)); [naive_solver|].
  destruct (N.ltb_spec (bval y) (bval x)).
  - split; [done|]. intros [?|[-> _]]; [lia|]. lia.
  - assert (x = y) as -> by (apply bval_inj; lia).
    split; [by right|]. intros [?|[_ ?]]; [lia|done].
Qed.

Lemma str_lt_nil_r a : ¬ str_lt a [].
Proof. destruct a; done. Qed.
Lemma str_lt_nil_cons x a : str_lt [] (x :: a).
Proof. done. Qed.

#[export] Instance str_lt_trans : Transitive str_lt.
Proof.
  intros a b c. revert b c. induction a as [|x a IH]; intros [|y b] [|z c] H1 H2; try done.
  apply str_lt_cons in H1, H2. apply str_lt_cons.
  destruct H1 as [?|[? ?]], H2 as [?|[? ?]]; subst; [left; lia|by left|by left|right; eauto].
Qed.

Lemma str_lt_trichotomy a b : str_lt a b ∨ a = b ∨ str_lt b a.
Proof.
  revert b. induction a as [|x a IH]; intros [|y b]; [by right; left|by left|by right; right|].
  rewrite !str_lt_cons.
  destruct (N.lt_trichotomy (bval x) (bval y)) as [?|[?%bval_inj|?]]; [by do 2 left| |by do 2 right; left].
  subst y. destruct (IH b) as [?|[->|?]]; naive_solver.
Qed.

Lemma str_lt_irrefl a : ¬ str_lt a a.
Proof. unfold str_lt. by rewrite str_ltb_irrefl. Qed.
Lemma str_lt_asym a b : str_lt a b → ¬ str_lt b a.
Proof. intros H1 H2. eapply str_lt_irrefl. by etrans. Qed.
Lemma str_le_lteq a b : str_le a b ↔ str_lt a b ∨ a = b.
Proof.
  unfold str_le. rewrite <-not_true_iff_false. fold (str_lt b a). split.
  - intros H. destruct (str_lt_trichotomy a b) as [?|[?|?]]; naive_solver.
  - intros [?| ->]; [by apply str_lt_asym|apply str_lt_irrefl].
Qed.
Lemma str_lt_le a b : str_lt a b → str_le a b.
Proof. rewrite str_le_lteq. by left. Qed.
Lemma str_not_lt_le a b : ¬ str_lt a b ↔ str_le b a.
Proof. unfold str_lt, str_le. by rewrite not_true_iff_false. Qed.

#[export] Instance str_le_trans : Transitive str_le.
Proof.
  intros a b c. rewrite !str_le_lteq. intros [?| ->] [?| ->]; [left; by etrans|by left|by left|by right].
Qed.
#[export] Instance str_le_refl : Reflexive str_le.
Proof. intros a. apply str_le_lteq. by right. Qed.
#[export] Instance str_le_antisym : AntiSymm (=) str_le.
Proof.
  intros a b. rewrite !str_le_lteq. intros [H1|?] [H2|?]; try done. by destruct (str_lt_asym _ _ H1).
Qed.
#[export] Instance str_le_total : Total str_le.
Proof.
  intros a b. rewrite !str_le_lteq. destruct (str_lt_trichotomy a b) as [?|[?|?]]; naive_solver.
Qed.
Lemma str_le_lt_trans a b c : str_le a b → str_lt b c → str_lt a c.
Proof. rewrite str_le_lteq. intros [?| ->] ?; [by etrans|done]. Qed.
Lemma str_lt_le_trans a b c : str_lt a b → str_le b c → str_lt a c.
Proof. rewrite str_le_lteq. intros ? [?| <-]; [by etrans|done]. Qed.

Lemma str_lt_app_l p a b : str_lt (p ++ a) (p ++ b) ↔ str_lt a b.
Proof.
  induction p as [|x p IH]; [done|]. cbn [app]. rewrite str_lt_cons, IH.
  split; [intros [?|[_ ?]]; [lia|done]|by right].
Qed.
Lemma str_le_app_l p a b : str_le (p ++ a) (p ++ b) ↔ str_le a b.
Proof. rewrite <-!str_not_lt_le. by rewrite str_lt_app_l. Qed.
Lemma str_le_nil a : str_le [] a.
Proof. destruct a; done. Qed.
Lemma str_lt_snoc a c : str_lt a (a ++ [c]).
Proof. rewrite <-(app_nil_r a) at 1. by apply str_lt_app_l. Qed.

(** [k ++ "\x00"] is the immediate successor of [k]. *)
Lemma str_succ_spec k x : str_lt k x ↔ str_le (k ++ [zero]) x.
Proof.
  split.
  - revert x. induction k as [|c k IH]; intros [|d x] H; [done| |done|].
    + cbn. rewrite str_le_lteq. destruct (decide (d = zero)) as [->|Hd].
      * destruct x as [|e x]; [by right|]. left. apply str_lt_cons. by right.
      * left. apply str_lt_cons. left.
        assert (bval d ≠ 0%N) by (intros Hz; by apply Hd, bval_inj).
        change (bval zero) with 0%N. lia.
    + apply str_lt_cons in H. cbn [app]. apply str_le_lteq.
      destruct H as [?|[-> [?| <-]%IH%str_le_lteq]]; [| |by right];
        left; apply str_lt_cons; [by left|by right].
  - intros H. eapply str_lt_le_trans; [apply str_lt_snoc|done].
Qed.

(** ** Sorted lists *)
Lemma StronglySorted_filter {A} (R : A → A → Prop) (P : A → Prop) `{∀ x, Decision (P x)} l :
  StronglySorted R l → StronglySorted R (filter P l).
Proof.
  induction 1 as [|a l Hs IH Hall]; [constructor|]. rewrite filter_cons. destruct (decide (P a)); [|done].
  constructor; [done|]. rewrite Forall_forall in *. intros b [_ Hb]%list_elem_of_filter. by apply Hall.
Qed.
