(* ===== verification/GoStrings.v ===== *)
(** * The part of Go's [strings], [strconv], [unicode/utf8] and [fmt] packages
    the service uses, over byte strings, with the lemmas the components share. *)
From Stdlib Require Import Ascii ZArith.
From stdpp Require Import gmap strings list sorting.
From S2P Require Import Prelude.

(** ** [strings.HasPrefix], [HasSuffix], [TrimPrefix] *)
Fixpoint HasPrefix (s p : str) {struct p} : bool :=
  match p, s with
  | [], _ => true
  | _ :: _, [] => false
  | c :: p', d :: s' => bool_decide (c = d) && HasPrefix s' p'
  end.
Definition HasSuffix (s p : str) : bool := HasPrefix (rev s) (rev p).
Definition TrimPrefix (s p : str) : str :=
  if HasPrefix s p then drop (length p) s else s.

Lemma HasPrefix_spec s p : HasPrefix s p = true ↔ ∃ t, s = p ++ t.
Proof.
  revert s. induction p as [|c p IH]; intros s; cbn.
  { split; [intros _; by exists s|done]. }
  destruct s as [|d s]; [split; [done|by intros [t [=]]]|].
  rewrite andb_true_iff, bool_decide_eq_true, IH. split.
  - intros [-> [t ->]]. by exists t.
  - intros [t [= -> ->]]. eauto.
Qed.
Lemma HasPrefix_app p t : HasPrefix (p ++ t) p = true.
Proof. apply HasPrefix_spec. by exists t. Qed.
Lemma HasPrefix_nil s : HasPrefix s [] = true.
Proof. done. Qed.
Lemma HasPrefix_app_inv s p q : HasPrefix s (p ++ q) = true → HasPrefix s p = true.
Proof. rewrite !HasPrefix_spec. intros [t ->]. exists (q ++ t). by rewrite app_assoc. Qed.
Lemma HasPrefix_length s p : HasPrefix s p = true → length p ≤ length s.
Proof. intros [t ->]%HasPrefix_spec. rewrite length_app. lia. Qed.
Lemma TrimPrefix_app p t : TrimPrefix (p ++ t) p = t.
Proof. unfold TrimPrefix. by rewrite HasPrefix_app, drop_app_length. Qed.
Lemma HasPrefix_drop s p : HasPrefix s p = true → s = p ++ drop (length p) s.
Proof. intros [t ->]%HasPrefix_spec. by rewrite drop_app_length. Qed.

(** ** [strings.TrimSpace]

    [unicode.IsSpace] holds of 25 runes; a string starts (ends) with one iff its
    UTF-8 encoding is a prefix (suffix), because every encoding below is valid. *)
Definition space_runes : list str :=
  (λ n, [byte n]) <$> [9; 10; 11; 12; 13; 32].
Definition wide_space_runes : list str :=
  [ [byte 0xC2; byte 0x85]; [byte 0xC2; byte 0xA0]; [byte 0xE1; byte 0x9A; byte 0x80];
    [byte 0xE2; byte 0x80; byte 0xA8]; [byte 0xE2; byte 0x80; byte 0xA9];
    [byte 0xE2; byte 0x80; byte 0xAF]; [byte 0xE2; byte 0x81; byte 0x9F];
    [byte 0xE3; byte 0x80; byte 0x80] ] ++
  ((λ n, [byte 0xE2; byte 0x80; byte n]) <$> seq 0x80 11).
Definition spaces : list str := space_runes ++ wide_space_runes.

(** Strip runes of [rs] from the front until none matches. *)
Definition strip_rune (rs : list str) (s : str) : option str :=
  match filter (λ r, HasPrefix s r = true) rs with
  | r :: _ => Some (drop (length r) s)
  | [] => None
  end.
Fixpoint trim_front (fuel : nat) (rs : list str) (s : str) : str :=
  match fuel with
  | O => s
  | S n => match strip_rune rs s with Some s' => trim_front n rs s' | None => s end
  end.
Definition TrimLeftSpace (s : str) : str := trim_front (length s) spaces s.
Definition TrimRightSpace (s : str) : str :=
  rev (trim_front (length s) (map (@rev ascii) spaces) (rev s)).
Definition TrimSpace (s : str) : str := TrimRightSpace (TrimLeftSpace s).

(** [strings.TrimRight(s, "/")]: the cutset is one ASCII byte. *)
Fixpoint trim_front_byte (c : ascii) (s : str) : str :=
  match s with
  | d :: s' => if bool_decide (c = d) then trim_front_byte c s' else s
  | [] => []
  end.
Definition TrimRightByte (s : str) (c : ascii) : str := rev (trim_front_byte c (rev s)).

Section trim.
Context (rs : list str).
Hypothesis rs_nonempty : Forall (λ r, r ≠ []) rs.

Lemma strip_rune_None s :
  strip_rune rs s = None ↔ ∀ r, r ∈ rs → HasPrefix s r = false.
Proof.
  unfold strip_rune. destruct (filter _ rs) as [|r l] eqn:E; split; intros H; try done.
  - intros r Hr. destruct (HasPrefix s r) eqn:Hp; [|done].
    assert (r ∈ filter (λ r, HasPrefix s r = true) rs) as Hin by (by apply list_elem_of_filter).
    rewrite E in Hin. by apply elem_of_nil in Hin.
  - assert (r ∈ filter (λ r, HasPrefix s r = true) rs) as Hin by (rewrite E; left).
    apply list_elem_of_filter in Hin as [Hp Hin]. rewrite H in Hp; done.
Qed.

Lemma strip_rune_Some s s' :
  strip_rune rs s = Some s' → ∃ r, r ∈ rs ∧ s = r ++ s' ∧ length s' < length s.
Proof.
  unfold strip_rune. destruct (filter _ rs) as [|r l] eqn:E; intros [= <-].
  assert (r ∈ filter (λ r, HasPrefix s r = true) rs) as Hin by (rewrite E; left).
  apply list_elem_of_filter in Hin as [Hp Hin]. exists r.
  pose proof (HasPrefix_drop _ _ Hp) as Hs. repeat split; [done|done|].
  rewrite Forall_forall in rs_nonempty. specialize (rs_nonempty _ Hin).
  pose proof (HasPrefix_length _ _ Hp). rewrite length_drop.
  destruct r; [done|]. cbn in *. lia.
Qed.

Lemma trim_front_stop n s : length s ≤ n → strip_rune rs (trim_front n rs s) = None.
Proof.
  revert s. induction n as [|n IH]; intros s Hn; cbn.
  - destruct s; [|cbn in Hn; lia]. apply strip_rune_None. intros r Hr.
    rewrite Forall_forall in rs_nonempty. destruct r; [by destruct (rs_nonempty _ Hr)|done].
  - destruct (strip_rune rs s) as [s'|] eqn:E; [|done].
    apply IH. apply strip_rune_Some in E as (?&?&?&?). lia.
Qed.

Lemma trim_front_id n s : strip_rune rs s = None → trim_front n rs s = s.
Proof. intros H. destruct n; cbn; [done|]. by rewrite H. Qed.

Lemma trim_front_suffix n s : ∃ t, s = t ++ trim_front n rs s.
Proof.
  revert s. induction n as [|n IH]; intros s; cbn; [by exists []|].
  destruct (strip_rune rs s) as [s'|] eqn:E; [|by exists []].
  apply strip_rune_Some in E as (r&_&->&_). destruct (IH s') as [t Ht].
  exists (r ++ t). rewrite <-app_assoc. by rewrite <-Ht.
Qed.

Lemma trim_front_length n s : length (trim_front n rs s) ≤ length s.
Proof. destruct (trim_front_suffix n s) as [t Ht]. rewrite Ht at 2. rewrite length_app. lia. Qed.
End trim.

(** A string without surrounding space is what [TrimSpace] leaves unchanged. *)
Definition trimmed (s : str) : Prop := TrimSpace s = s.
Definition no_lead (s : str) : Prop := strip_rune spaces s = None.
Definition no_trail (s : str) : Prop := strip_rune (map (@rev ascii) spaces) (rev s) = None.

Lemma spaces_nonempty : Forall (λ r : str, r ≠ []) spaces.
Proof. apply (bool_decide_unpack _). vm_compute. done. Qed.
Lemma rev_spaces_nonempty : Forall (λ r : str, r ≠ []) (map (@rev ascii) spaces).
Proof. apply (bool_decide_unpack _). vm_compute. done. Qed.

Lemma no_lead_app s t : no_lead (s ++ t) → no_lead s.
Proof.
  unfold no_lead. rewrite !strip_rune_None. intros H r Hr. specialize (H r Hr).
  destruct (HasPrefix s r) eqn:E; [|done].
  apply HasPrefix_spec in E as [u ->]. by rewrite <-app_assoc, HasPrefix_app in H.
Qed.

Lemma TrimLeftSpace_no_lead s : no_lead (TrimLeftSpace s).
Proof. apply trim_front_stop; [apply spaces_nonempty|done]. Qed.
Lemma TrimRightSpace_no_trail s : no_trail (TrimRightSpace s).
Proof.
  unfold no_trail, TrimRightSpace. rewrite rev_involutive.
  apply trim_front_stop; [apply rev_spaces_nonempty|]. by rewrite length_rev.
Qed.
Lemma TrimRightSpace_prefix s : ∃ t, s = TrimRightSpace s ++ t.
Proof.
  unfold TrimRightSpace.
  destruct (trim_front_suffix _ rev_spaces_nonempty (length s) (rev s)) as [t Ht].
  exists (rev t). rewrite <-rev_app_distr, <-Ht. by rewrite rev_involutive.
Qed.
Lemma TrimSpace_no_lead s : no_lead (TrimSpace s).
Proof.
  unfold TrimSpace. destruct (TrimRightSpace_prefix (TrimLeftSpace s)) as [t Ht].
  eapply no_lead_app. rewrite <-Ht. apply TrimLeftSpace_no_lead.
Qed.
Lemma TrimSpace_no_trail s : no_trail (TrimSpace s).
Proof. apply TrimRightSpace_no_trail. Qed.

Lemma trimmed_iff s : trimmed s ↔ no_lead s ∧ no_trail s.
Proof.
  split.
  - intros <-. split; [apply TrimSpace_no_lead|apply TrimSpace_no_trail].
  - intros [Hl Ht]. unfold trimmed, TrimSpace, TrimLeftSpace, TrimRightSpace.
    rewrite (trim_front_id _ _ s) by done. rewrite trim_front_id by done. apply rev_involutive.
Qed.
(** Trimming is idempotent. *)
Lemma TrimSpace_trimmed s : trimmed (TrimSpace s).
Proof. apply trimmed_iff. split; [apply TrimSpace_no_lead|apply TrimSpace_no_trail]. Qed.
Lemma TrimSpace_idemp s : TrimSpace (TrimSpace s) = TrimSpace s.
Proof. apply TrimSpace_trimmed. Qed.
Lemma TrimSpace_infix s : ∃ a b, s = a ++ TrimSpace s ++ b.
Proof.
  unfold TrimSpace, TrimLeftSpace.
  destruct (trim_front_suffix _ spaces_nonempty (length s) s) as [a Ha].
  destruct (TrimRightSpace_prefix (trim_front (length s) spaces s)) as [b Hb].
  exists a, b. by rewrite <-Hb.
Qed.
Lemma TrimSpace_elem c s : c ∈ TrimSpace s → c ∈ s.
Proof. destruct (TrimSpace_infix s) as (a&b&Hs). rewrite Hs at 2. set_solver. Qed.
Lemma trimmed_nil : trimmed [].
Proof. done. Qed.
#[export] Instance trimmed_dec s : Decision (trimmed s) := decide (TrimSpace s = s).

(** ** [strings.Index], [Contains], [Split], [SplitN(_, _, 2)], [Join] *)

(** The text before and after the first occurrence of [sep]. *)
Fixpoint cut (s sep : str) {struct s} : option (str * str) :=
  if HasPrefix s sep then Some ([], drop (length sep) s)
  else match s with
       | [] => None
       | c :: s' => match cut s' sep with
                    | Some (b, a) => Some (c :: b, a)
                    | None => None
                    end
       end.
Definition Index (s sep : str) : option nat := (λ p : str * str, length p.1) <$> cut s sep.
Definition Contains (s sep : str) : bool := bool_decide (is_Some (cut s sep)).
Definition SplitN2 (s sep : str) : list str :=
  match cut s sep with Some (b, a) => [b; a] | None => [s] end.
(** [sep] is never empty in this program, so every cut is strictly shorter and
    [length s + 1] steps suffice. *)
Fixpoint split_fuel (fuel : nat) (s sep : str) : list str :=
  match fuel with
  | O => [s]
  | S n => match cut s sep with
           | Some (b, a) => b :: split_fuel n a sep
           | None => [s]
           end
  end.
Definition Split (s sep : str) : list str := split_fuel (S (length s)) s sep.
Fixpoint Join (parts : list str) (sep : str) : str :=
  match parts with
  | [] => []
  | [p] => p
  | p :: ps => p ++ sep ++ Join ps sep
  end.

Lemma cut_some s sep b a : cut s sep = Some (b, a) → s = b ++ sep ++ a.
Proof.
  revert b a. induction s as [|c s IH]; intros b a; cbn.
  - destruct sep; [|done]. intros [= <- <-]. done.
  - destruct (HasPrefix (c :: s) sep) eqn:E.
    + intros [= <- <-]. apply (HasPrefix_drop _ _ E).
    + destruct (cut s sep) as [[b' a']|]; [|done]. intros [= <- <-]. cbn. f_equal. by apply IH.
Qed.
Lemma cut_byte_none s c : cut s [c] = None ↔ c ∉ s.
Proof.
  induction s as [|d s IH]; cbn; [split; [intros _; set_solver|done]|].
  rewrite bool_decide_decide, andb_true_r.
  destruct (decide (c = d)) as [->|Hne]; [split; [done|set_solver]|].
  destruct (cut s [c]) as [[b a]|]; split; intros H; try done; set_solver.
Qed.
Lemma cut_byte_app b c a : c ∉ b → cut (b ++ c :: a) [c] = Some (b, a).
Proof.
  induction b as [|d b IH]; intros Hb; cbn.
  - by rewrite bool_decide_true.
  - rewrite bool_decide_false by set_solver. cbn. by rewrite IH by set_solver.
Qed.
Lemma cut_byte_some s c b a : cut s [c] = Some (b, a) → c ∉ b ∧ s = b ++ c :: a.
Proof.
  intros H. split; [|by apply cut_some in H].
  revert b a H. induction s as [|d s IH]; intros b a; cbn; [done|].
  rewrite andb_true_r. destruct (bool_decide_reflect (c = d)).
  - intros [= <- _]. set_solver.
  - destruct (cut s [c]) as [[b' a']|]; [|done]. intros [= <- _].
    specialize (IH _ _ eq_refl). set_solver.
Qed.

Lemma split_fuel_join n (parts : list str) c :
  parts ≠ [] → Forall (λ p, c ∉ p) parts → length (Join parts [c]) < n →
  split_fuel n (Join parts [c]) [c] = parts.
Proof.
  revert n. induction parts as [|p ps IH]; intros n Hne Hall Hn; [done|].
  apply Forall_cons in Hall as [Hp Hps].
  destruct ps as [|q ps]; cbn [Join] in *.
  - destruct n; cbn; [lia|]. by rewrite (proj2 (cut_byte_none p c)).
  - destruct n as [|n]; [lia|]. cbn [split_fuel app]. rewrite cut_byte_app by done.
    f_equal. apply IH; [done|done|]. rewrite !length_app in Hn. cbn [length] in Hn. lia.
Qed.
(** [Split] inverts [Join] on parts that do not hold the separator. *)
Lemma Split_Join (parts : list str) c :
  parts ≠ [] → Forall (λ p, c ∉ p) parts → Split (Join parts [c]) [c] = parts.
Proof. intros. apply split_fuel_join; [done|done|lia]. Qed.

Lemma split_fuel_parts n s c :
  length s < n →
  split_fuel n s [c] ≠ [] ∧ Forall (λ p, c ∉ p) (split_fuel n s [c]) ∧
  Join (split_fuel n s [c]) [c] = s.
Proof.
  revert s. induction n as [|n IH]; intros s Hn; [lia|]. cbn [split_fuel].
  destruct (cut s [c]) as [[b a]|] eqn:E.
  - apply cut_byte_some in E as [Hb ->].
    destruct (IH a) as (Hne&Hall&Hj); [rewrite length_app in Hn; cbn in Hn; lia|].
    split; [done|]. split; [by constructor|].
    cbn [Join]. destruct (split_fuel n a [c]) as [|q l] eqn:E'; [done|]. by rewrite Hj.
  - apply cut_byte_none in E. split; [done|]. split; [by repeat constructor|done].
Qed.
(** [Join] inverts [Split], and no part holds the separator. *)
Lemma Join_Split s c : Join (Split s [c]) [c] = s.
Proof. apply split_fuel_parts. lia. Qed.
Lemma Split_parts s c : Forall (λ p, c ∉ p) (Split s [c]).
Proof. apply split_fuel_parts. lia. Qed.

(** ** Decimal numbers: [strconv.FormatUint], [%d], [%020d], [ParseUint], [Atoi] *)
Definition digit (z : Z) : ascii := byte (Z.to_nat (48 + z)).
Definition digit_val (c : ascii) : option Z :=
  let v := Z.of_N (bval c) in
  if bool_decide (48 ≤ v ≤ 57)%Z then Some (v - 48)%Z else None.
(** [n] decimal digits of [z], most significant first ([%0nd] for [z < 10^n]). *)
Fixpoint dec_fixed (n : nat) (z : Z) : str :=
  match n with
  | O => []
  | S n => dec_fixed n (z / 10) ++ [digit (z mod 10)]
  end.
(** The number of digits [%d] prints for [0 ≤ z < 10^(fuel+1)]. *)
Fixpoint dec_len (fuel : nat) (z : Z) : nat :=
  match fuel with
  | O => 1
  | S f => if (z <? 10)%Z then 1 else S (dec_len f (z / 10))
  end.
Definition FormatUint (z : Z) : str := dec_fixed (dec_len 20 z) z.
Definition Format020 (z : Z) : str := dec_fixed 20 z.

Fixpoint dec_value (s : str) (acc : Z) : option Z :=
  match s with
  | [] => Some acc
  | c :: s' => match digit_val c with
               | Some d => dec_value s' (10 * acc + d)
               | None => None
               end
  end.
(** [strconv.ParseUint(s, 10, 64)]: [None] for a syntax or a range error. *)
Definition ParseUint (s : str) : option Z :=
  match s with
  | [] => None
  | _ => z ← dec_value s 0; if (z <? 2 ^ 64)%Z then Some z else None
  end.
(** [strconv.Atoi] on a 64-bit platform. *)
Definition Atoi (s : str) : option Z :=
  let go (neg : bool) (s : str) :=
    match s with
    | [] => None
    | _ => z ← dec_value s 0;
           let z := if neg then (- z)%Z else z in
           if bool_decide (is_i64 z) then Some z else None
    end in
  match s with
  | c :: s' => if bool_decide (c = byte 45) then go true s'
               else if bool_decide (c = byte 43) then go false s' else go false s
  | [] => None
  end.

Lemma bval_byte n : n < 256 → bval (byte n) = N.of_nat n.
Proof.
  intros H. unfold bval, byte.
  rewrite <-(nat_ascii_embedding n) at 2 by done. unfold nat_of_ascii. by rewrite N2Nat.id.
Qed.
Lemma digit_bval z : (0 ≤ z < 10)%Z → Z.of_N (bval (digit z)) = (48 + z)%Z.
Proof. intros H. unfold digit. rewrite bval_byte by lia. lia. Qed.
Lemma digit_val_digit z : (0 ≤ z < 10)%Z → digit_val (digit z) = Some z.
Proof.
  intros H. unfold digit_val. rewrite digit_bval by done.
  rewrite bool_decide_true by lia. f_equal. lia.
Qed.
Lemma digit_ltb y z :
  (0 ≤ y < 10)%Z → (0 ≤ z < 10)%Z → (bval (digit y) < bval (digit z))%N ↔ (y < z)%Z.
Proof. intros Hy Hz. pose proof (digit_bval y Hy). pose proof (digit_bval z Hz). lia. Qed.

Lemma dec_value_app s t acc : dec_value (s ++ t) acc = dec_value s acc ≫= dec_value t.
Proof.
  revert acc. induction s as [|c s IH]; intros acc; cbn; [done|].
  destruct (digit_val c); cbn; [apply IH|done].
Qed.
Lemma length_dec_fixed n z : length (dec_fixed n z) = n.
Proof. revert z. induction n; intros z; cbn; [done|]. rewrite length_app, IHn. cbn. lia. Qed.
Lemma dec_value_fixed n z acc :
  (0 ≤ z < 10 ^ Z.of_nat n)%Z → dec_value (dec_fixed n z) acc = Some (acc * 10 ^ Z.of_nat n + z)%Z.
Proof.
  revert z. induction n as [|n IH]; intros z Hz; cbn [dec_fixed].
  - cbn. f_equal. change (10 ^ Z.of_nat 0)%Z with 1%Z in *. lia.
  - rewrite Nat2Z.inj_succ, Z.pow_succ_r in * by lia.
    rewrite dec_value_app, IH by (split; [apply Z.div_pos; lia|apply Z.div_lt_upper_bound; lia]).
    pose proof (Z.mod_pos_bound z 10). pose proof (Z.div_mod z 10).
    cbn. rewrite digit_val_digit by lia. f_equal. lia.
Qed.
Lemma dec_len_bound f z : (0 ≤ z < 10 ^ (Z.of_nat f + 1))%Z → (z < 10 ^ Z.of_nat (dec_len f z))%Z.
Proof.
  revert z. induction f as [|f IH]; intros z Hz; cbn [dec_len].
  - change (10 ^ (Z.of_nat 0 + 1))%Z with 10%Z in Hz. cbn. lia.
  - destruct (Z.ltb_spec z 10); [cbn; lia|].
    rewrite Nat2Z.inj_succ, Z.pow_succ_r by lia.
    assert (z / 10 < 10 ^ Z.of_nat (dec_len f (z / 10)))%Z.
    { apply IH. split; [apply Z.div_pos; lia|]. apply Z.div_lt_upper_bound; [lia|].
      rewrite Nat2Z.inj_succ in Hz. rewrite <-Z.add_1_l, <-Z.add_assoc, Z.pow_add_r in Hz by lia.
      change (10 ^ 1)%Z with 10%Z in Hz. lia. }
    pose proof (Z.mod_pos_bound z 10). pose proof (Z.div_mod z 10). lia.
Qed.
Lemma dec_len_pos f z : dec_len f z ≠ 0.
Proof. destruct f; cbn; [done|]. by destruct (z <? 10)%Z. Qed.

(** [ParseUint] inverts [FormatUint] on the [uint64] range. *)
Lemma ParseUint_FormatUint z : is_u64 z → ParseUint (FormatUint z) = Some z.
Proof.
  intros Hz. unfold is_u64 in Hz. unfold ParseUint.
  assert (dec_value (FormatUint z) 0 = Some z) as Hv.
  { unfold FormatUint. rewrite dec_value_fixed; [f_equal; lia|].
    split; [lia|]. apply dec_len_bound. split; [lia|].
    etrans; [apply Hz|]. vm_compute. done. }
  rewrite Hv. destruct (FormatUint z) as [|c s] eqn:E.
  - unfold FormatUint in E. apply (f_equal length) in E. rewrite length_dec_fixed in E.
    by destruct (dec_len_pos 20 z).
  - cbn. destruct (Z.ltb_spec z (2 ^ 64)); [done|lia].
Qed.
Lemma FormatUint_inj y z : is_u64 y → is_u64 z → FormatUint y = FormatUint z → y = z.
Proof.
  intros Hy Hz H%(f_equal ParseUint). rewrite !ParseUint_FormatUint in H by done. congruence.
Qed.

(** Bytes that are not digits do not occur in a printed number. *)
Lemma dec_fixed_digits n z c : c ∈ dec_fixed n z → is_Some (digit_val c).
Proof.
  revert z. induction n as [|n IH]; intros z; cbn; [by intros ?%elem_of_nil|].
  rewrite elem_of_app, list_elem_of_singleton. intros [?| ->]; [by eapply IH|].
  pose proof (Z.mod_pos_bound z 10). rewrite digit_val_digit by lia. done.
Qed.
Lemma FormatUint_no c z : digit_val c = None → c ∉ FormatUint z.
Proof. intros Hc Hin%dec_fixed_digits. rewrite Hc in Hin. by destruct Hin. Qed.

(** Zero-padded numbers of one width sort like the numbers themselves. *)
Lemma str_lt_fixed_app (a b c d : str) :
  length a = length b → str_lt (a ++ c) (b ++ d) ↔ str_lt a b ∨ a = b ∧ str_lt c d.
Proof.
  revert b. induction a as [|x a IH]; intros [|y b] Hlen; try done; cbn [app].
  - split; [by right|]. by intros [?%str_lt_irrefl|[_ ?]].
  - rewrite !str_lt_cons, IH by (cbn in Hlen; lia). split.
    + intros [?|[-> [?|[-> ?]]]]; [by left; left|by left; right|by right].
    + intros [[?|[-> ?]]|[[= -> ->] ?]]; [by left|by right; auto|by right; auto].
Qed.
Lemma dec_fixed_lt n y z :
  (0 ≤ y < 10 ^ Z.of_nat n)%Z → (0 ≤ z < 10 ^ Z.of_nat n)%Z →
  str_lt (dec_fixed n y) (dec_fixed n z) ↔ (y < z)%Z.
Proof.
  revert y z. induction n as [|n IH]; intros y z Hy Hz.
  - change (10 ^ Z.of_nat 0)%Z with 1%Z in *. cbn. split; [by intros ?%str_lt_irrefl|lia].
  - rewrite Nat2Z.inj_succ, Z.pow_succ_r in * by lia. cbn [dec_fixed].
    pose proof (Z.mod_pos_bound y 10). pose proof (Z.div_mod y 10).
    pose proof (Z.mod_pos_bound z 10). pose proof (Z.div_mod z 10).
    assert (0 ≤ y / 10 < 10 ^ Z.of_nat n)%Z by (split; [apply Z.div_pos|apply Z.div_lt_upper_bound]; lia).
    assert (0 ≤ z / 10 < 10 ^ Z.of_nat n)%Z by (split; [apply Z.div_pos|apply Z.div_lt_upper_bound]; lia).
    rewrite str_lt_fixed_app by (by rewrite !length_dec_fixed).
    rewrite IH by done. rewrite str_lt_cons, digit_ltb by lia. split.
    + intros [?|[Heq [?|[_ ?%str_lt_irrefl]]]]; [lia| |done].
      assert (y / 10 = z / 10)%Z; [|lia].
      apply (f_equal (λ s, dec_value s 0)) in Heq. rewrite !dec_value_fixed in Heq by done.
      injection Heq. lia.
    + intros Hlt. destruct (Z.lt_trichotomy (y / 10) (z / 10)) as [?|[E|?]]; [by left| |lia].
      right. rewrite E. split; [done|]. left. lia.
Qed.

(** Twenty digits hold every [uint64]: [%020d] sorts as the number. *)
Lemma u64_20_digits z : is_u64 z → (0 ≤ z < 10 ^ Z.of_nat 20)%Z.
Proof.
  unfold is_u64. assert (2 ^ 64 < 10 ^ Z.of_nat 20)%Z by done. lia.
Qed.
Lemma Format020_lt a b : is_u64 a → is_u64 b → str_lt (Format020 a) (Format020 b) ↔ (a < b)%Z.
Proof. intros Ha Hb. apply dec_fixed_lt; by apply u64_20_digits. Qed.
Lemma Format020_inj a b : is_u64 a → is_u64 b → Format020 a = Format020 b → a = b.
Proof.
  intros Ha Hb E. destruct (Z.lt_trichotomy a b) as [Hl|[Hl|Hl]]; [|done|].
  - pose proof (proj2 (Format020_lt a b Ha Hb) Hl) as Hs. rewrite E in Hs. by apply str_lt_irrefl in Hs.
  - pose proof (proj2 (Format020_lt b a Hb Ha) Hl) as Hs. rewrite E in Hs. by apply str_lt_irrefl in Hs.
Qed.
Lemma ParseUint_Format020 z : is_u64 z → ParseUint (Format020 z) = Some z.
Proof.
  intros Hz. pose proof (u64_20_digits z Hz) as Hd. unfold ParseUint, Format020.
  pose proof (length_dec_fixed 20 z) as Hl. destruct (dec_fixed 20 z) eqn:E; [done|].
  rewrite <-E, dec_value_fixed by done. cbn [mbind option_bind]. rewrite Z.add_0_l.
  by rewrite (proj2 (Z.ltb_lt _ _)) by apply Hz.
Qed.

(** ** [unicode/utf8]: the runes a [for range] over a string visits *)
Definition rune_error : N := 0xFFFD.
Definition cont (c : ascii) : bool := bool_decide (0x80 ≤ bval c ≤ 0xBF)%N.
Definition low6 (c : ascii) : N := N.land (bval c) 0x3F.
(** Bounds of the second byte for a first byte of a 3- or 4-byte sequence. *)
Definition second_ok (b0 : N) (c : ascii) : bool :=
  let lo := if N.eqb b0 0xE0 then 0xA0%N else if N.eqb b0 0xF0 then 0x90%N else 0x80%N in
  let hi := if N.eqb b0 0xED then 0x9F%N else if N.eqb b0 0xF4 then 0x8F%N else 0xBF%N in
  bool_decide (lo ≤ bval c ≤ hi)%N.
(** [utf8.DecodeRuneInString]: the rune and its width; [(RuneError, 1)] for an
    invalid sequence. *)
Definition DecodeRune (c0 : ascii) (s : str) : N * nat :=
  let b0 := bval c0 in
  if (b0 <? 0x80)%N then (b0, 1)
  else if (b0 <? 0xC2)%N then (rune_error, 1)
  else if (b0 <? 0xE0)%N then
    match s with
    | c1 :: _ => if cont c1 then (N.lor (N.shiftl (N.land b0 0x1F) 6) (low6 c1), 2)
                 else (rune_error, 1)
    | _ => (rune_error, 1)
    end
  else if (b0 <? 0xF0)%N then
    match s with
    | c1 :: c2 :: _ =>
        if second_ok b0 c1 && cont c2
        then (N.lor (N.shiftl (N.land b0 0x0F) 12) (N.lor (N.shiftl (low6 c1) 6) (low6 c2)), 3)
        else (rune_error, 1)
    | _ => (rune_error, 1)
    end
  else if (b0 <? 0xF5)%N then
    match s with
    | c1 :: c2 :: c3 :: _ =>
        if second_ok b0 c1 && cont c2 && cont c3
        then (N.lor (N.shiftl (N.land b0 0x07) 18)
                (N.lor (N.shiftl (low6 c1) 12) (N.lor (N.shiftl (low6 c2) 6) (low6 c3))), 4)
        else (rune_error, 1)
    | _ => (rune_error, 1)
    end
  else (rune_error, 1).
Fixpoint runes_fuel (fuel : nat) (s : str) : list N :=
  match fuel, s with
  | S n, c :: s' => let '(r, w) := DecodeRune c s' in r :: runes_fuel n (drop (w - 1) s')
  | _, _ => []
  end.
Definition runes (s : str) : list N := runes_fuel (length s) s.
Definition nbyte (n : N) : ascii := ascii_of_N n.
(** [utf8.AppendRune] *)
Definition EncodeRune (r : N) : str :=
  let c6 (sh : N) := nbyte (N.lor 0x80 (N.land (N.shiftr r sh) 0x3F)) in
  if (r <? 0x80)%N then [nbyte r]
  else if (r <? 0x800)%N then [nbyte (N.lor 0xC0 (N.shiftr r 6)); c6 0%N]
  else if bool_decide (0xD800 ≤ r ≤ 0xDFFF)%N || (0x10FFFF <? r)%N then
    [nbyte 0xEF; nbyte 0xBF; nbyte 0xBD]
  else if (r <? 0x10000)%N then [nbyte (N.lor 0xE0 (N.shiftr r 12)); c6 6%N; c6 0%N]
  else [nbyte (N.lor 0xF0 (N.shiftr r 18)); c6 12%N; c6 6%N; c6 0%N].

(** [strings.ToLower]: [strings.Map] of [unicode.ToLower], rune by rune.  Above
    ASCII the mapping is the Unicode case table, a parameter. *)
Class CaseTable := unicode_lower : N → N.
(** A table for examples: no case above ASCII. *)
Definition identity_case : CaseTable := λ r, r.
Definition rune_lower `{CaseTable} (r : N) : N :=
  if (r <? 0x80)%N then
    if bool_decide (65 ≤ r ≤ 90)%N then (r + 32)%N else r
  else unicode_lower r.
Definition ToLower `{CaseTable} (s : str) : str := concat (map (λ r, EncodeRune (rune_lower r)) (runes s)).

Definition ascii_only (s : str) : Prop := Forall (λ c, (bval c < 128)%N) s.
#[export] Instance ascii_only_dec s : Decision (ascii_only s) := _.

Lemma runes_fuel_ascii n s :
  length s ≤ n → ascii_only s → runes_fuel n s = bval <$> s.
Proof.
  revert s. induction n as [|n IH]; intros [|c s] Hn Ha; try done; [cbn in Hn; lia|].
  apply Forall_cons in Ha as [Hc Hs]. cbn. unfold DecodeRune.
  destruct (N.ltb_spec (bval c) 0x80); [|lia]. cbn. f_equal. apply IH; [cbn in Hn; lia|done].
Qed.
Lemma runes_ascii s : ascii_only s → runes s = bval <$> s.
Proof. apply runes_fuel_ascii. lia. Qed.
(** On ASCII text [ToLower] is bytewise and keeps every position. *)
Definition byte_lower (c : ascii) : ascii :=
  if bool_decide (65 ≤ bval c ≤ 90)%N then nbyte (bval c + 32) else c.
Lemma ToLower_ascii `{CaseTable} s : ascii_only s → ToLower s = byte_lower <$> s.
Proof.
  intros Ha. unfold ToLower. rewrite runes_ascii by done.
  induction s as [|c s IH]; [done|]. apply Forall_cons in Ha as [Hc Hs]. cbn. rewrite IH by done.
  unfold rune_lower, byte_lower, EncodeRune.
  destruct (N.ltb_spec (bval c) 0x80); [|lia].
  destruct (bool_decide_reflect (65 ≤ bval c ≤ 90)%N).
  - destruct (N.ltb_spec (bval c + 32) 0x80); [done|lia].
  - destruct (N.ltb_spec (bval c) 0x80); [|lia]. cbn. unfold nbyte, bval.
    by rewrite ascii_N_embedding.
Qed.
Lemma length_ToLower_ascii `{CaseTable} s : ascii_only s → length (ToLower s) = length s.
Proof. intros. rewrite ToLower_ascii by done. apply length_fmap. Qed.

(** Go slicing [s[:i]] and [s[i:]]: [None] is the run-time panic. *)
Definition slice_to (s : str) (i : nat) : option str :=
  if bool_decide (i ≤ length s) then Some (take i s) else None.
Definition slice_from (s : str) (i : nat) : option str :=
  if bool_decide (i ≤ length s) then Some (drop i s) else None.

(** ** Graphic ASCII text

    Bytes 33..126 are neither white space nor part of the encoding of a
    white-space rune, so text that starts and ends with one is trimmed. *)
Definition graphic (c : ascii) : Prop := (33 ≤ bval c < 127)%N.
#[export] Instance graphic_dec c : Decision (graphic c) := _.

Definition non_graphic_head (r : str) : Prop :=
  match r with [] => False | c :: _ => ¬ graphic c end.
#[export] Instance non_graphic_head_dec r : Decision (non_graphic_head r).
Proof. destruct r; cbn; apply _. Defined.
Lemma spaces_non_graphic : Forall non_graphic_head spaces.
Proof. apply (bool_decide_unpack _). vm_compute. done. Qed.
Lemma rev_spaces_non_graphic : Forall non_graphic_head (map (@rev ascii) spaces).
Proof. apply (bool_decide_unpack _). vm_compute. done. Qed.

Lemma strip_rune_graphic rs c s :
  Forall non_graphic_head rs → graphic c → strip_rune rs (c :: s) = None.
Proof.
  intros Hrs Hc. apply strip_rune_None. intros r Hr.
  rewrite Forall_forall in Hrs. specialize (Hrs r Hr).
  destruct r as [|d r]; [done|]. cbn in *. rewrite bool_decide_false; [done|]. by intros ->.
Qed.
Lemma no_lead_graphic c s : graphic c → no_lead (c :: s).
Proof. apply strip_rune_graphic, spaces_non_graphic. Qed.
Lemma no_trail_graphic s c : graphic c → no_trail (s ++ [c]).
Proof.
  intros. unfold no_trail. rewrite rev_app_distr.
  by apply strip_rune_graphic; [apply rev_spaces_non_graphic|].
Qed.
Lemma trimmed_graphic s : Forall graphic s → trimmed s.
Proof.
  intros Hs. apply trimmed_iff. split.
  - destruct s; [done|]. apply no_lead_graphic. by apply Forall_cons in Hs as [? _].
  - destruct s as [|c s _] using rev_ind; [done|].
    apply no_trail_graphic. apply Forall_app in Hs as [_ Hs]. by apply Forall_cons in Hs as [? _].
Qed.
(** Decimal numbers have no surrounding space. *)
Lemma FormatUint_text z : Forall (λ c, is_Some (digit_val c)) (FormatUint z).
Proof. apply Forall_forall. intros c Hc. by eapply dec_fixed_digits. Qed.
Lemma digit_graphic c : is_Some (digit_val c) → graphic c.
Proof. unfold digit_val, graphic. intros [z Hz]. case_bool_decide; [|done]. lia. Qed.
Lemma FormatUint_graphic z : Forall graphic (FormatUint z).
Proof. eapply Forall_impl; [apply FormatUint_text|apply digit_graphic]. Qed.
Lemma FormatUint_trimmed z : trimmed (FormatUint z).
Proof. apply trimmed_graphic, FormatUint_graphic. Qed.
Lemma FormatUint_nonempty z : is_u64 z → FormatUint z ≠ [].
Proof. intros Hz E. pose proof (ParseUint_FormatUint z Hz) as Hp. by rewrite E in Hp. Qed.
Lemma trimmed_ends c s d : graphic c → graphic d → trimmed (c :: s ++ [d]).
Proof.
  intros. apply trimmed_iff. split; [by apply no_lead_graphic|].
  by apply (no_trail_graphic (c :: s)).
Qed.
Lemma TrimSpace_space s : trimmed s → TrimSpace (byte 32 :: s) = s.
Proof.
  intros [Hl Ht]%trimmed_iff. unfold TrimSpace, TrimLeftSpace.
  assert (trim_front (length (byte 32 :: s)) spaces (byte 32 :: s) = s) as ->.
  { cbn [length trim_front].
    assert (strip_rune spaces (byte 32 :: s) = Some s) as -> by reflexivity.
    by apply trim_front_id. }
  unfold TrimRightSpace. rewrite trim_front_id by done. apply rev_involutive.
Qed.
(** White space does not extend over a graphic byte. *)
Lemma spaces_no_graphic : Forall (λ r : str, Forall (λ c, ¬ graphic c) r) spaces.
Proof. apply (bool_decide_unpack _). vm_compute. done. Qed.
Lemma rev_spaces_no_graphic : Forall (λ r : str, Forall (λ c, ¬ graphic c) r) (map (@rev ascii) spaces).
Proof. apply (bool_decide_unpack _). vm_compute. done. Qed.
Lemma HasPrefix_stop p c s r :
  Forall (λ c, ¬ graphic c) r → graphic c → HasPrefix (p ++ c :: s) r = true → HasPrefix p r = true.
Proof.
  intros Hr Hc. revert p. induction Hr as [|d r Hd Hr IH]; intros p; [done|].
  destruct p as [|e p]; cbn; rewrite andb_true_iff, bool_decide_eq_true.
  - by intros [-> _].
  - intros [-> Hp]. rewrite bool_decide_true by done. by apply IH.
Qed.
Lemma strip_rune_stop rs p c s :
  Forall (λ r : str, Forall (λ c, ¬ graphic c) r) rs → graphic c →
  strip_rune rs p = None → strip_rune rs (p ++ c :: s) = None.
Proof.
  rewrite !strip_rune_None, Forall_forall. intros Hrs Hc Hp r Hr. specialize (Hp r Hr).
  apply not_true_iff_false. intros Ht. apply HasPrefix_stop in Ht; [congruence|by apply Hrs|done].
Qed.
Lemma no_lead_app_graphic p c s : no_lead p → graphic c → no_lead (p ++ c :: s).
Proof. intros ? ?. apply strip_rune_stop; [apply spaces_no_graphic|done|done]. Qed.
Lemma no_trail_app_graphic p c s : no_trail s → graphic c → no_trail (p ++ c :: s).
Proof.
  intros Hs Hc. unfold no_trail. rewrite rev_app_distr. cbn [rev]. rewrite <-app_assoc. cbn [app].
  apply strip_rune_stop; [apply rev_spaces_no_graphic|done|done].
Qed.
Lemma Join_trimmed ps c : Forall trimmed ps → graphic c → trimmed (Join ps [c]).
Proof.
  intros Hps Hc. apply trimmed_iff. split.
  - destruct ps as [|p ps]; [done|]. apply Forall_cons in Hps as [[Hl _]%trimmed_iff _].
    destruct ps as [|q ps]; [done|].
    change (Join (p :: q :: ps) [c]) with (p ++ c :: Join (q :: ps) [c]). by apply no_lead_app_graphic.
  - induction ps as [|p ps IH]; [done|]. apply Forall_cons in Hps as [[_ Hl]%trimmed_iff Hps].
    destruct ps as [|q ps]; [done|].
    change (Join (p :: q :: ps) [c]) with (p ++ c :: Join (q :: ps) [c]).
    apply no_trail_app_graphic; [by apply IH|done].
Qed.
Lemma graphic_ascii s : Forall graphic s → ascii_only s.
Proof. intros H. eapply Forall_impl; [done|]. unfold graphic. intros. lia. Qed.

Lemma cut_none_head c p s : c ∉ s → cut s (c :: p) = None.
Proof.
  induction s as [|d s IH]; intros H; cbn; [done|].
  rewrite bool_decide_false by set_solver. cbn. by rewrite IH by set_solver.
Qed.
Lemma cut_head c p a b : c ∉ a → cut (a ++ (c :: p) ++ b) (c :: p) = Some (a, b).
Proof.
  induction a as [|d a IH]; intros H; cbn.
  - by rewrite bool_decide_true, HasPrefix_app, drop_app_length.
  - rewrite bool_decide_false by set_solver. cbn. cbn in IH. by rewrite IH by set_solver.
Qed.
Lemma cut_skip c p a rest :
  c ∉ a → HasPrefix rest p = false →
  cut (a ++ c :: rest) (c :: p) =
    (λ q : str * str, (a ++ c :: q.1, q.2)) <$> cut rest (c :: p).
Proof.
  intros Ha Hr. induction a as [|d a IH]; cbn.
  - rewrite bool_decide_true, Hr by done. by destruct (cut rest (c :: p)) as [[??]|].
  - rewrite bool_decide_false by set_solver. cbn. rewrite IH by set_solver.
    by destruct (cut rest (c :: p)) as [[??]|].
Qed.

#[global] Arguments TrimSpace : simpl never.
#[global] Arguments Split : simpl never.
#[global] Arguments ToLower : simpl never.
#[global] Arguments FormatUint : simpl never.
#[global] Arguments Format020 : simpl never.
