(* ===== verification/Selector.v ===== *)
(** * Label selectors ([internal/registry/selector.go])

    The parser of the [selector=] and [label=] query parameters and the matcher
    that evaluates the parsed requirements on the labels of an instance. *)
From Stdlib Require Import Ascii ZArith.
From stdpp Require Import gmap strings list.
From S2P Require Import Prelude GoStrings.

(** [labelSelectorOperator] is a string type with six constants; any other
    string is kept as [OpOther]. *)
Inductive labelSelectorOperator :=
  | OpExists | OpNotExists | OpEquals | OpNotEquals | OpIn | OpNotIn
  | OpOther (raw : str).
Record labelRequirement := LabelRequirement {
  Key : str;
  Operator : labelSelectorOperator;
  Values : list str
}.
Abbreviation Selector := (list labelRequirement).

(** The errors of the parser, with the text they quote, and the run-time panic
    of a slice expression. *)
Inductive SelectorError :=
  | ErrUnexpectedClose (raw : str)
  | ErrEmptyRequirement (raw : str)
  | ErrUnbalanced (raw : str)
  | ErrEmptyExpression
  | ErrKeyRequired (expression : str)
  | ErrExpectedValues (expression : str)
  | ErrKeyAndValueRequired (expression : str)
  | ErrEmptySetValues
  | ErrInSelector (expression : str) (e : SelectorError)
  | ErrLegacyFormat (item : str)
  | ErrLegacyKeyValue (item : str)
  | WithSyntaxGuide (e : SelectorError)
  | WithLegacyExample (e : SelectorError)
  | PanicSlice.

#[export] Instance labelSelectorOperator_eq_dec : EqDecision labelSelectorOperator.
Proof. solve_decision. Defined.
#[export] Instance labelRequirement_eq_dec : EqDecision labelRequirement.
Proof. solve_decision. Defined.
#[export] Instance SelectorError_eq_dec : EqDecision SelectorError.
Proof. solve_decision. Defined.

Definition ch_comma : ascii := byte 44.
Definition ch_open : ascii := byte 40.
Definition ch_close : ascii := byte 41.
Definition ch_eq : ascii := byte 61.
Definition ch_bang : ascii := byte 33.

(** ** Splitting a selector at its top-level commas

    [cur] is [raw[start:index]] and [acc] the expressions found so far. *)
Fixpoint split_loop (raw rest cur : str) (depth : Z) (acc : list str) : result SelectorError (list str) :=
  match rest with
  | [] =>
      if negb (depth =? 0)%Z then Err (ErrUnbalanced raw)
      else let tail := TrimSpace cur in
           if bool_decide (tail = []) then Err (ErrEmptyRequirement raw)
           else Ok (acc ++ [tail])
  | c :: rest' =>
      if bool_decide (c = ch_open) then split_loop raw rest' (cur ++ [c]) (depth + 1) acc
      else if bool_decide (c = ch_close) then
        if (depth - 1 <? 0)%Z then Err (ErrUnexpectedClose raw)
        else split_loop raw rest' (cur ++ [c]) (depth - 1) acc
      else if bool_decide (c = ch_comma) && (depth =? 0)%Z then
        let expression := TrimSpace cur in
        if bool_decide (expression = []) then Err (ErrEmptyRequirement raw)
        else split_loop raw rest' [] depth (acc ++ [expression])
      else split_loop raw rest' (cur ++ [c]) depth acc
  end.
Definition splitSelectorExpressions (raw0 : str) : result SelectorError (list str) :=
  let raw := TrimSpace raw0 in
  if bool_decide (raw = []) then Ok [] else split_loop raw raw [] 0 [].

(** ** One expression *)
Definition parseBinarySelectorExpression (expression : str) (index operatorLength : nat)
    (operator : labelSelectorOperator) : result SelectorError labelRequirement :=
  match slice_to expression index, slice_from expression (index + operatorLength) with
  | Some k, Some v =>
      let key := TrimSpace k in
      let value := TrimSpace v in
      if bool_decide (key = []) || bool_decide (value = [])
      then Err (ErrKeyAndValueRequired expression)
      else Ok (LabelRequirement key operator [value])
  | _, _ => Err PanicSlice
  end.

(** [seen] and [values] hold the same strings, in order of first occurrence. *)
Fixpoint set_values_loop (items values : list str) : result SelectorError (list str) :=
  match items with
  | [] => if bool_decide (values = []) then Err ErrEmptySetValues else Ok values
  | item :: items =>
      let value := TrimSpace item in
      if bool_decide (value = []) then Err ErrEmptySetValues
      else if bool_decide (value ∈ values) then set_values_loop items values
      else set_values_loop items (values ++ [value])
  end.
Definition parseSetSelectorValues (raw : str) : result SelectorError (list str) :=
  set_values_loop (Split raw [ch_comma]) [].

Section parser.
Context `{CaseTable}.

(** One candidate of the token table: [None] when the token does not occur. *)
Definition try_candidate (expression lower token : str) (operator : labelSelectorOperator)
    : option (result SelectorError labelRequirement) :=
  index ← Index lower token;
  Some (match slice_to expression index with
        | None => Err PanicSlice
        | Some k =>
          let key := TrimSpace k in
          if bool_decide (key = []) then Err (ErrKeyRequired expression)
          else match slice_from expression (index + length token) with
          | None => Err PanicSlice
          | Some v =>
            let valuesText := TrimSpace v in
            if negb (HasPrefix valuesText [ch_open]) || negb (HasSuffix valuesText [ch_close])
            then Err (ErrExpectedValues expression)
            else
              (* valuesText[1 : len(valuesText)-1] *)
              values ← map_err (ErrInSelector expression)
                         (parseSetSelectorValues (take (length valuesText - 2) (drop 1 valuesText)));
              Ok (LabelRequirement key operator values)
          end
        end).
Definition parseSetSelectorExpression (expression : str) : option (result SelectorError labelRequirement) :=
  let lower := ToLower expression in
  match try_candidate expression lower (lit " notin") OpNotIn with
  | Some r => Some r
  | None => try_candidate expression lower (lit " in") OpIn
  end.

Definition parseSelectorExpression (expression0 : str) : result SelectorError labelRequirement :=
  let expression := TrimSpace expression0 in
  if bool_decide (expression = []) then Err ErrEmptyExpression else
  match parseSetSelectorExpression expression with
  | Some r => r
  | None =>
    match Index expression [ch_bang; ch_eq] with
    | Some idx => parseBinarySelectorExpression expression idx 2 OpNotEquals
    | None =>
    match Index expression [ch_eq; ch_eq] with
    | Some idx => parseBinarySelectorExpression expression idx 2 OpEquals
    | None =>
    match Index expression [ch_eq] with
    | Some idx => parseBinarySelectorExpression expression idx 1 OpEquals
    | None =>
      if HasPrefix expression [ch_bang] then
        let key := TrimSpace (drop 1 expression) in
        if bool_decide (key = []) then Err (ErrKeyRequired expression)
        else Ok (LabelRequirement key OpNotExists [])
      else Ok (LabelRequirement expression OpExists [])
    end end end
  end.

Definition add_requirement (selector : Selector) (expression : str) : result SelectorError Selector :=
  requirement ← parseSelectorExpression expression;
  Ok (selector ++ [requirement]).
Definition add_item (selector : Selector) (item0 : str) : result SelectorError Selector :=
  let item := TrimSpace item0 in
  if bool_decide (item = []) then Ok selector
  else expressions ← splitSelectorExpressions item;
       foldM add_requirement selector expressions.
Definition parseLabelSelectors (items : list str) : result SelectorError Selector :=
  foldM add_item [] items.
End parser.

Definition add_legacy (selector : Selector) (item0 : str) : result SelectorError Selector :=
  let item := TrimSpace item0 in
  if bool_decide (item = []) then Ok selector
  else match SplitN2 item [ch_eq] with
       | [k; v] =>
         let key := TrimSpace k in
         let value := TrimSpace v in
         if bool_decide (key = []) || bool_decide (value = []) then Err (ErrLegacyKeyValue item)
         else Ok (selector ++ [LabelRequirement key OpEquals [value]])
       | _ => Err (ErrLegacyFormat item)
       end.
Definition parseLegacyLabelFilters (items : list str) : result SelectorError Selector :=
  foldM add_legacy [] items.

Definition ParseLabelSelectorFilters `{CaseTable} (selectors legacyLabels : list str)
    : result SelectorError Selector :=
  parsed ← map_err WithSyntaxGuide (parseLabelSelectors selectors);
  legacy ← map_err WithLegacyExample (parseLegacyLabelFilters legacyLabels);
  Ok (parsed ++ legacy).

(** ** Matching

    [requirement.Values[0]] panics on an empty slice: [None]. *)
Fixpoint containsString (items : list str) (target : str) : bool :=
  match items with
  | [] => false
  | item :: items => if bool_decide (item = target) then true else containsString items target
  end.
Definition matchesLabelRequirement (instanceLabels : gmap str str) (requirement : labelRequirement)
    : option bool :=
  let found := instanceLabels !! Key requirement in
  match Operator requirement with
  | OpExists => Some (bool_decide (is_Some found))
  | OpNotExists => Some (bool_decide (found = None))
  | OpEquals => match found with
                | None => Some false
                | Some value => v0 ← Values requirement !! 0; Some (bool_decide (value = v0))
                end
  | OpNotEquals => match found with
                   | None => Some true
                   | Some value => v0 ← Values requirement !! 0; Some (bool_decide (value ≠ v0))
                   end
  | OpIn => match found with
            | None => Some false
            | Some value => Some (containsString (Values requirement) value)
            end
  | OpNotIn => match found with
               | None => Some true
               | Some value => Some (negb (containsString (Values requirement) value))
               end
  | OpOther _ => Some false
  end.
Fixpoint MatchesLabelSelector (instanceLabels : gmap str str) (selector : Selector) : option bool :=
  match selector with
  | [] => Some true
  | requirement :: selector =>
      match matchesLabelRequirement instanceLabels requirement with
      | Some true => MatchesLabelSelector instanceLabels selector
      | Some false => Some false
      | None => None
      end
  end.

(** ** Well-formed requirements: what the parser produces *)
Definition wf_requirement (r : labelRequirement) : Prop :=
  Key r ≠ [] ∧
  match Operator r with
  | OpExists | OpNotExists => Values r = []
  | OpEquals | OpNotEquals => ∃ v, v ≠ [] ∧ Values r = [v]
  | OpIn | OpNotIn => Values r ≠ [] ∧ NoDup (Values r) ∧ [] ∉ Values r
  | OpOther _ => False
  end.

(** Which labels a requirement accepts, stated on the label map. *)
Definition satisfies (labels : gmap str str) (r : labelRequirement) : Prop :=
  match Operator r with
  | OpExists => is_Some (labels !! Key r)
  | OpNotExists => labels !! Key r = None
  | OpEquals | OpIn => ∃ v, labels !! Key r = Some v ∧ v ∈ Values r
  | OpNotEquals | OpNotIn => ∀ v, labels !! Key r = Some v → v ∉ Values r
  | OpOther _ => False
  end.

Lemma containsString_spec items t : containsString items t = bool_decide (t ∈ items).
Proof.
  induction items as [|x items IH]; cbn; [by rewrite bool_decide_false by apply not_elem_of_nil|].
  rewrite IH. destruct (bool_decide_reflect (x = t)) as [->|?].
  - by rewrite bool_decide_true by left.
  - apply bool_decide_ext. rewrite elem_of_cons. naive_solver.
Qed.

Lemma matchesLabelRequirement_spec labels r :
  wf_requirement r → ∃ b, matchesLabelRequirement labels r = Some b ∧ (b = true ↔ satisfies labels r).
Proof.
  destruct r as [k op vs]. intros [_ Hop]. unfold matchesLabelRequirement, satisfies; cbn in *.
  destruct op as [| | | | | |raw]; cbn; try done;
    try (by eexists; split; [done|rewrite bool_decide_eq_true]).
  - destruct Hop as (v0&_&->).
    destruct (labels !! k) as [v|]; eexists; (split; [done|]);
      rewrite ?bool_decide_eq_true; set_solver.
  - destruct Hop as (v0&_&->).
    destruct (labels !! k) as [v|]; eexists; (split; [done|]);
      rewrite ?bool_decide_eq_true; set_solver.
  - destruct (labels !! k) as [v|]; eexists; (split; [done|]);
      rewrite ?containsString_spec, ?bool_decide_eq_true; set_solver.
  - destruct (labels !! k) as [v|]; eexists; (split; [done|]);
      rewrite ?containsString_spec, ?negb_true_iff, ?bool_decide_eq_false; set_solver.
Qed.

Lemma MatchesLabelSelector_spec labels sel :
  Forall wf_requirement sel →
  ∃ b, MatchesLabelSelector labels sel = Some b ∧ (b = true ↔ Forall (satisfies labels) sel).
Proof.
  induction 1 as [|r sel Hr _ (b&Hb&Hs)]; cbn; [by exists true|].
  destruct (matchesLabelRequirement_spec labels r Hr) as (b0&->&Hb0).
  destruct b0.
  - exists b. split; [done|]. rewrite Forall_cons. naive_solver.
  - exists false. split; [done|]. rewrite Forall_cons. naive_solver.
Qed.

(** ** The parser produces well-formed requirements *)
Lemma set_values_loop_wf items values vs :
  set_values_loop items values = Ok vs → NoDup values → [] ∉ values →
  vs ≠ [] ∧ NoDup vs ∧ [] ∉ vs.
Proof.
  revert values. induction items as [|item items IH]; intros values; cbn.
  - destruct (bool_decide_reflect (values = [])); [done|]. by intros [= <-].
  - destruct (bool_decide_reflect (TrimSpace item = [])); [done|].
    destruct (bool_decide_reflect (TrimSpace item ∈ values)); [by apply IH|].
    intros H Hnd Hne. apply (IH _ H).
    + apply NoDup_app. split; [done|]. split; [set_solver|]. apply NoDup_singleton.
    + set_solver.
Qed.

Lemma parseBinary_wf e i l op r :
  op = OpEquals ∨ op = OpNotEquals →
  parseBinarySelectorExpression e i l op = Ok r → wf_requirement r.
Proof.
  intros Hop. unfold parseBinarySelectorExpression.
  destruct (slice_to e i) as [k|]; [|done]. destruct (slice_from e (i + l)) as [v|]; [|done].
  destruct (bool_decide_reflect (TrimSpace k = [])); [done|].
  destruct (bool_decide_reflect (TrimSpace v = [])); [done|].
  intros [= <-]. split; cbn; [done|]. destruct Hop as [-> | ->]; eauto.
Qed.

Section parser_wf.
Context `{CaseTable}.

Lemma try_candidate_wf e lower token op r :
  op = OpIn ∨ op = OpNotIn →
  try_candidate e lower token op = Some (Ok r) → wf_requirement r.
Proof.
  intros Hop. unfold try_candidate. destruct (Index lower token) as [i|]; [|done]. cbn.
  destruct (slice_to e i) as [k|]; [|done].
  destruct (bool_decide_reflect (TrimSpace k = [])); [done|].
  destruct (slice_from e _) as [v|]; [|done].
  destruct (_ || _); [done|].
  intros [= Hr]. apply result_bind_ok in Hr as (vs&E%map_err_ok&[= <-]). split; cbn; [done|].
  apply set_values_loop_wf in E; [|apply NoDup_nil_2|apply not_elem_of_nil].
  by destruct Hop as [-> | ->].
Qed.

Lemma parseSelectorExpression_wf e r : parseSelectorExpression e = Ok r → wf_requirement r.
Proof.
  unfold parseSelectorExpression, parseSetSelectorExpression.
  destruct (bool_decide_reflect (TrimSpace e = [])); [done|].
  destruct (try_candidate _ _ (lit " notin") _) as [r1|] eqn:E1.
  { intros ->. by eapply try_candidate_wf; [|exact E1]; auto. }
  destruct (try_candidate _ _ (lit " in") _) as [r2|] eqn:E2.
  { intros ->. by eapply try_candidate_wf; [|exact E2]; auto. }
  destruct (Index _ [ch_bang; ch_eq]); [by apply parseBinary_wf; auto|].
  destruct (Index _ [ch_eq; ch_eq]); [by apply parseBinary_wf; auto|].
  destruct (Index _ [ch_eq]); [by apply parseBinary_wf; auto|].
  destruct (HasPrefix _ _).
  - destruct (bool_decide_reflect (TrimSpace (drop 1 (TrimSpace e)) = [])); [done|].
    by intros [= <-].
  - by intros [= <-].
Qed.

Lemma parseLabelSelectors_wf items sel :
  parseLabelSelectors items = Ok sel → Forall wf_requirement sel.
Proof.
  apply foldM_inv; [done|]. clear items sel. intros sel item sel' Hsel.
  unfold add_item. destruct (bool_decide _); [by intros [= <-]|].
  rewrite result_bind_ok. intros (es&_&Hes). revert Hes.
  apply foldM_inv; [done|]. clear. intros sel e sel' Hsel.
  unfold add_requirement. rewrite result_bind_ok. intros (r&Hr&[= <-]).
  apply Forall_app. split; [done|]. apply Forall_singleton. by eapply parseSelectorExpression_wf.
Qed.

Lemma parseLegacyLabelFilters_wf items sel :
  parseLegacyLabelFilters items = Ok sel → Forall wf_requirement sel.
Proof.
  apply foldM_inv; [done|]. clear. intros sel item sel' Hsel.
  unfold add_legacy. destruct (bool_decide _); [by intros [= <-]|].
  destruct (SplitN2 _ _) as [|k [|v [|]]]; try done.
  destruct (bool_decide_reflect (TrimSpace k = [])); [done|].
  destruct (bool_decide_reflect (TrimSpace v = [])); [done|]. intros [= <-].
  apply Forall_app. split; [done|]. apply Forall_singleton. split; cbn; [done|]. eauto.
Qed.

Lemma ParseLabelSelectorFilters_wf ss ls sel :
  ParseLabelSelectorFilters ss ls = Ok sel → Forall wf_requirement sel.
Proof.
  unfold ParseLabelSelectorFilters. rewrite result_bind_ok. intros (p&Hp&Hl).
  rewrite result_bind_ok in Hl. destruct Hl as (l&Hl&[= <-]).
  rewrite map_err_ok in Hp, Hl. apply Forall_app.
  split; [by eapply parseLabelSelectors_wf|by eapply parseLegacyLabelFilters_wf].
Qed.
End parser_wf.

(** ** Printing requirements in the documented syntax *)
Definition token_char (c : ascii) : Prop :=
  graphic c ∧ c ∉ [ch_comma; ch_open; ch_close; ch_eq; ch_bang].
#[export] Instance token_char_dec c : Decision (token_char c) := _.
Definition token (s : str) : Prop := s ≠ [] ∧ Forall token_char s.
#[export] Instance token_dec s : Decision (token s) := _.

Definition render_requirement (r : labelRequirement) : str :=
  match Operator r with
  | OpExists => Key r
  | OpNotExists => ch_bang :: Key r
  | OpEquals => Key r ++ ch_eq :: concat (Values r)
  | OpNotEquals => Key r ++ ch_bang :: ch_eq :: concat (Values r)
  | OpIn => Key r ++ lit " in (" ++ Join (Values r) [ch_comma] ++ [ch_close]
  | OpNotIn => Key r ++ lit " notin (" ++ Join (Values r) [ch_comma] ++ [ch_close]
  | OpOther raw => raw
  end.
Definition render_selector (sel : Selector) : str := Join (map render_requirement sel) [ch_comma].
Definition token_requirement (r : labelRequirement) : Prop :=
  wf_requirement r ∧ token (Key r) ∧ Forall token (Values r).

Lemma token_graphic s : token s → Forall graphic s.
Proof. intros [_ H]. eapply Forall_impl; [done|]. by intros ? [? _]. Qed.
Lemma token_no s c : token s → c ∈ [ch_comma; ch_open; ch_close; ch_eq; ch_bang] → c ∉ s.
Proof. intros [_ H] Hc Hin. rewrite Forall_forall in H. by destruct (H c Hin). Qed.
Lemma token_no_space s : token s → byte 32 ∉ s.
Proof.
  intros [_ H] Hin. rewrite Forall_forall in H. destruct (H _ Hin) as [Hg _].
  unfold graphic in Hg. change (bval (byte 32)) with 32%N in Hg. lia.
Qed.
Lemma token_trimmed s : token s → TrimSpace s = s.
Proof. intros. by apply trimmed_graphic, token_graphic. Qed.
Lemma token_ends s : token s → ∃ c s', s = c :: s' ∧ graphic c.
Proof. intros [Hne H]. destruct s as [|c s]; [done|]. apply Forall_cons in H as [[? _] _]. eauto. Qed.

Lemma token_last s : token s → ∃ t d, s = t ++ [d] ∧ graphic d.
Proof.
  intros Ht. pose proof (token_graphic _ Ht) as Hg. destruct Ht as [Hne _].
  destruct s as [|d t _] using rev_ind; [done|].
  apply Forall_app in Hg as [_ Hg]. apply Forall_cons in Hg as [? _]. eauto.
Qed.

Lemma Join_graphic vs :
  Forall token vs → Forall graphic (Join vs [ch_comma]).
Proof.
  induction 1 as [|v vs Hv Hvs IH]; [done|]. destruct vs as [|w vs]; cbn [Join].
  - by apply token_graphic.
  - apply Forall_app. split; [by apply token_graphic|].
    apply Forall_cons. split; [by vm_compute|done].
Qed.

(** The value list of a set selector parses back. *)
Lemma set_values_loop_id items values :
  NoDup (values ++ items) → Forall token items → values ++ items ≠ [] →
  set_values_loop items values = Ok (values ++ items).
Proof.
  revert values. induction items as [|v items IH]; intros values Hnd Ht Hne; cbn.
  - rewrite app_nil_r in *. by rewrite bool_decide_false.
  - apply Forall_cons in Ht as [Hv Ht]. rewrite token_trimmed by done.
    rewrite bool_decide_false by (by apply Hv).
    rewrite bool_decide_false by (apply NoDup_app in Hnd; set_solver).
    replace (values ++ v :: items) with ((values ++ [v]) ++ items) in * by (by rewrite <-app_assoc).
    by apply IH.
Qed.
Lemma parseSetSelectorValues_Join vs :
  vs ≠ [] → NoDup vs → Forall token vs →
  parseSetSelectorValues (Join vs [ch_comma]) = Ok vs.
Proof.
  intros. unfold parseSetSelectorValues. rewrite Split_Join; [by apply set_values_loop_id|done|].
  eapply Forall_impl; [done|]. intros v Hv. apply token_no; [done|set_solver].
Qed.

Lemma render_shape r : token_requirement r → ∃ c s d, render_requirement r = c :: s ∧ graphic c ∧
  ∃ s', c :: s = s' ++ [d] ∧ graphic d.
Proof.
  destruct r as [k op vs]. intros ((_&Hop)&Hk&Hv); cbn in *.
  destruct (token_ends _ Hk) as (c&k'&->&Hc). destruct (token_last _ Hk) as (t&d&Ht&Hd).
  destruct op; cbn; try done.
  - exists c, k', d. eauto.
  - exists ch_bang, (c :: k'), d. split; [done|]. split; [by vm_compute|].
    exists (ch_bang :: t). by rewrite Ht.
  - destruct Hop as (v&_&->). rewrite Forall_singleton in Hv. destruct (token_last _ Hv) as (t'&d'&->&?).
    exists c, (k' ++ ch_eq :: concat [t' ++ [d']]), d'. split; [done|]. split; [done|].
    exists (c :: k' ++ ch_eq :: t'). rewrite <-?app_comm_cons, <-?app_assoc; cbn; by rewrite ?app_nil_r, <-?app_assoc.
  - destruct Hop as (v&_&->). rewrite Forall_singleton in Hv. destruct (token_last _ Hv) as (t'&d'&->&?).
    exists c, (k' ++ ch_bang :: ch_eq :: concat [t' ++ [d']]), d'. split; [done|]. split; [done|].
    exists (c :: k' ++ ch_bang :: ch_eq :: t'). rewrite <-?app_comm_cons, <-?app_assoc; cbn; by rewrite ?app_nil_r, <-?app_assoc.
  - eexists _, _, ch_close. split; [done|]. split; [done|].
    exists (c :: k' ++ lit " in (" ++ Join vs [ch_comma]). cbn. by rewrite <-?app_assoc.
  - eexists _, _, ch_close. split; [done|]. split; [done|].
    exists (c :: k' ++ lit " notin (" ++ Join vs [ch_comma]). cbn. by rewrite <-?app_assoc.
Qed.
Lemma render_trimmed r : token_requirement r → TrimSpace (render_requirement r) = render_requirement r.
Proof.
  intros (c&s&d&->&Hc&s'&Hs&Hd)%render_shape.
  apply trimmed_iff. split; [by apply no_lead_graphic|]. rewrite Hs. by apply no_trail_graphic.
Qed.
Lemma render_nonempty r : token_requirement r → render_requirement r ≠ [].
Proof. by intros (c&s&d&->&_)%render_shape. Qed.

(** ** Parsing a printed requirement *)
Lemma byte_lower_space (s : str) : byte 32 ∉ s → byte 32 ∉ byte_lower <$> s.
Proof.
  rewrite list_elem_of_fmap. intros Hs (c&Hc&Hin). unfold byte_lower in Hc.
  destruct (bool_decide_reflect (65 ≤ bval c ≤ 90)%N) as [Hr|]; [|by subst].
  apply (f_equal bval) in Hc. change (bval (byte 32)) with 32%N in Hc.
  unfold nbyte, bval in *. rewrite N_ascii_embedding in Hc by lia. lia.
Qed.
Lemma Join_no_space vs : Forall token vs → byte 32 ∉ Join vs [ch_comma].
Proof.
  intros H Hin. pose proof (Join_graphic _ H) as Hg. rewrite Forall_forall in Hg.
  specialize (Hg _ Hin). unfold graphic in Hg. change (bval (byte 32)) with 32%N in Hg. lia.
Qed.
Lemma token_head_not s c : token s → c ∈ [ch_comma; ch_open; ch_close; ch_eq; ch_bang] →
  HasPrefix s [c] = false.
Proof.
  intros Ht Hc. destruct s as [|d s]; [done|]. cbn. rewrite bool_decide_false; [done|].
  intros ->. eapply token_no; [done|done|]. left.
Qed.
Lemma slice_to_app a b : slice_to (a ++ b) (length a) = Some a.
Proof.
  unfold slice_to. rewrite bool_decide_true by (rewrite length_app; lia). by rewrite take_app_length.
Qed.
Lemma slice_from_app a b : slice_from (a ++ b) (length a) = Some b.
Proof.
  unfold slice_from. rewrite bool_decide_true by (rewrite length_app; lia). by rewrite drop_app_length.
Qed.

Section parse_render.
Context `{CaseTable}.

Lemma parseBinary_render k sep v op :
  token k → token v →
  parseBinarySelectorExpression (k ++ sep ++ v) (length k) (length sep) op
  = Ok (LabelRequirement k op [v]).
Proof.
  intros Hk Hv. unfold parseBinarySelectorExpression. rewrite slice_to_app.
  rewrite <-length_app. rewrite app_assoc, slice_from_app.
  rewrite !token_trimmed by done.
  rewrite !bool_decide_false by (by apply Hk || by apply Hv). done.
Qed.

Lemma no_set_candidate e token' op :
  ascii_only e → byte 32 ∉ e → try_candidate e (ToLower e) (byte 32 :: token') op = None.
Proof.
  intros Ha Hs. unfold try_candidate, Index. rewrite ToLower_ascii by done.
  by rewrite cut_none_head by (by apply byte_lower_space).
Qed.

(** [key word(v1,v2)], with [word] = [" in "] or [" notin "]. *)
Lemma set_candidate k word vs op :
  token k → vs ≠ [] → NoDup vs → Forall token vs →
  let e := k ++ (byte 32 :: word) ++ lit " (" ++ Join vs [ch_comma] ++ [ch_close] in
  try_candidate e ((byte_lower <$> k) ++ (byte 32 :: word) ++
      (byte_lower <$> lit " (" ++ Join vs [ch_comma] ++ [ch_close])) (byte 32 :: word) op
  = Some (Ok (LabelRequirement k op vs)).
Proof.
  intros Hk Hne Hnd Hvs e.
  assert (slice_to e (length k) = Some k) as Hto by apply slice_to_app.
  assert (slice_from e (length k + length (byte 32 :: word)) =
          Some (lit " (" ++ Join vs [ch_comma] ++ [ch_close])) as Hfrom.
  { unfold e. rewrite app_assoc, <-length_app. apply slice_from_app. }
  assert (TrimSpace (lit " (" ++ Join vs [ch_comma] ++ [ch_close]) =
          ch_open :: Join vs [ch_comma] ++ [ch_close]) as Htrim.
  { apply TrimSpace_space, trimmed_ends; by vm_compute. }
  assert (HasSuffix (ch_open :: Join vs [ch_comma] ++ [ch_close]) [ch_close] = true) as Hsuf.
  { unfold HasSuffix. cbn [rev app]. rewrite rev_app_distr. cbn. by rewrite bool_decide_true. }
  assert (take (length (ch_open :: Join vs [ch_comma] ++ [ch_close]) - 2)
            (drop 1 (ch_open :: Join vs [ch_comma] ++ [ch_close])) = Join vs [ch_comma]) as Hinner.
  { cbn [drop length]. rewrite drop_0, length_app. cbn [length].
    replace (S (length (Join vs [ch_comma]) + 1) - 2) with (length (Join vs [ch_comma])) by lia.
    apply take_app_length. }
  unfold try_candidate, Index.
  rewrite cut_head by (by apply byte_lower_space, token_no_space).
  cbn [fmap option_fmap option_map fst mbind option_bind].
  rewrite length_fmap, Hto, Hfrom, Htrim, Hsuf, token_trimmed by done. cbv beta iota zeta.
  rewrite bool_decide_false by (by apply Hk). cbn [HasPrefix].
  rewrite bool_decide_true by done. cbn [negb andb orb].
  rewrite Hinner. by rewrite parseSetSelectorValues_Join.
Qed.

Lemma set_ascii k word vs :
  token k → Forall token vs → ascii_only word →
  ascii_only (k ++ word ++ Join vs [ch_comma] ++ [ch_close]).
Proof.
  intros Hk Hvs Hw. unfold ascii_only. rewrite !Forall_app. repeat split; [|done| |by repeat constructor].
  - by apply graphic_ascii, token_graphic.
  - by apply graphic_ascii, Join_graphic.
Qed.

Lemma parse_in k vs :
  token k → vs ≠ [] → NoDup vs → Forall token vs →
  parseSetSelectorExpression (k ++ lit " in (" ++ Join vs [ch_comma] ++ [ch_close])
  = Some (Ok (LabelRequirement k OpIn vs)).
Proof.
  intros Hk Hne Hnd Hvs. unfold parseSetSelectorExpression.
  rewrite ToLower_ascii by (apply set_ascii; [done|done|by apply (bool_decide_unpack _); vm_compute]).
  rewrite !fmap_app.
  assert (try_candidate (k ++ lit " in (" ++ Join vs [ch_comma] ++ [ch_close])
    ((byte_lower <$> k) ++ (byte_lower <$> lit " in (") ++ (byte_lower <$> Join vs [ch_comma]) ++
     (byte_lower <$> [ch_close])) (lit " notin") OpNotIn = None) as ->.
  { unfold try_candidate, Index. change (lit " notin") with (byte 32 :: lit "notin").
    change (byte_lower <$> lit " in (") with (byte 32 :: lit "in (").
    rewrite <-app_comm_cons, cut_skip; [|by apply byte_lower_space, token_no_space|done].
    change (lit "in (") with (lit "in" ++ byte 32 :: lit "(").
    rewrite <-app_assoc, <-app_comm_cons, cut_skip; [|by apply (bool_decide_unpack _); vm_compute|done].
    rewrite cut_none_head; [done|]. rewrite !not_elem_of_app.
    split; [by apply (bool_decide_unpack _); vm_compute|].
    split; [by apply byte_lower_space, Join_no_space|by apply (bool_decide_unpack _); vm_compute]. }
  pose proof (set_candidate k (lit "in") vs OpIn Hk Hne Hnd Hvs) as Hc.
  cbn in Hc |- *. rewrite fmap_app in Hc. exact Hc.
Qed.
Lemma parse_notin k vs :
  token k → vs ≠ [] → NoDup vs → Forall token vs →
  parseSetSelectorExpression (k ++ lit " notin (" ++ Join vs [ch_comma] ++ [ch_close])
  = Some (Ok (LabelRequirement k OpNotIn vs)).
Proof.
  intros Hk Hne Hnd Hvs. unfold parseSetSelectorExpression.
  rewrite ToLower_ascii by (apply set_ascii; [done|done|by apply (bool_decide_unpack _); vm_compute]).
  rewrite !fmap_app.
  pose proof (set_candidate k (lit "notin") vs OpNotIn Hk Hne Hnd Hvs) as Hc.
  assert (try_candidate (k ++ lit " notin (" ++ Join vs [ch_comma] ++ [ch_close])
    ((byte_lower <$> k) ++ (byte_lower <$> lit " notin (") ++ (byte_lower <$> Join vs [ch_comma]) ++
     (byte_lower <$> [ch_close])) (lit " notin") OpNotIn
    = Some (Ok (LabelRequirement k OpNotIn vs))) as ->; [|done].
  cbn in Hc |- *. rewrite fmap_app in Hc. exact Hc.
Qed.

Lemma parse_plain e :
  TrimSpace e = e → e ≠ [] → ascii_only e → byte 32 ∉ e →
  parseSelectorExpression e =
  match Index e [ch_bang; ch_eq] with
  | Some idx => parseBinarySelectorExpression e idx 2 OpNotEquals
  | None =>
  match Index e [ch_eq; ch_eq] with
  | Some idx => parseBinarySelectorExpression e idx 2 OpEquals
  | None =>
  match Index e [ch_eq] with
  | Some idx => parseBinarySelectorExpression e idx 1 OpEquals
  | None =>
    if HasPrefix e [ch_bang] then
      if bool_decide (TrimSpace (drop 1 e) = []) then Err (ErrKeyRequired e)
      else Ok (LabelRequirement (TrimSpace (drop 1 e)) OpNotExists [])
    else Ok (LabelRequirement e OpExists [])
  end end end.
Proof.
  intros Ht Hne Ha Hs. unfold parseSelectorExpression, parseSetSelectorExpression.
  rewrite Ht, bool_decide_false by done.
  rewrite (no_set_candidate e (lit "notin")), (no_set_candidate e (lit "in")) by done. done.
Qed.
End parse_render.

Section roundtrip.
Context `{CaseTable}.

Lemma render_no_space r : token_requirement r →
  match Operator r with OpIn | OpNotIn => True | _ => byte 32 ∉ render_requirement r ∧ ascii_only (render_requirement r) end.
Proof.
  destruct r as [k op vs]. intros ((_&Hop)&Hk&Hv); cbn in *.
  pose proof (token_no_space _ Hk). pose proof (graphic_ascii _ (token_graphic _ Hk)).
  assert (∀ c, c = ch_eq ∨ c = ch_bang → byte 32 ≠ c ∧ (bval c < 128)%N)
    by (intros c [-> | ->]; by vm_compute).
  destruct op; cbn; try done.
  - rewrite not_elem_of_cons. unfold ascii_only. rewrite Forall_cons. naive_solver.
  - destruct Hop as (v&_&->). rewrite Forall_singleton in Hv.
    pose proof (token_no_space _ Hv). pose proof (graphic_ascii _ (token_graphic _ Hv)).
    cbn. rewrite app_nil_r, not_elem_of_app, not_elem_of_cons. unfold ascii_only in *.
    rewrite Forall_app, Forall_cons. naive_solver.
  - destruct Hop as (v&_&->). rewrite Forall_singleton in Hv.
    pose proof (token_no_space _ Hv). pose proof (graphic_ascii _ (token_graphic _ Hv)).
    cbn. rewrite app_nil_r, not_elem_of_app, !not_elem_of_cons. unfold ascii_only in *.
    rewrite Forall_app, !Forall_cons. naive_solver.
Qed.

Lemma parse_render_requirement r :
  token_requirement r → parseSelectorExpression (render_requirement r) = Ok r.
Proof.
  intros Hr. pose proof (render_trimmed _ Hr) as Ht. pose proof (render_nonempty _ Hr) as Hne.
  pose proof (render_no_space _ Hr) as Hns.
  destruct r as [k op vs]. destruct Hr as ((_&Hop)&Hk&Hv). cbn in Hop, Hk, Hv, Hns.
  pose proof (λ c, token_no k c Hk) as Hkc.
  destruct op; try done;
    try (rewrite parse_plain by (done || by apply Hns)); unfold render_requirement in *; cbn [Operator Key Values] in *.
  - unfold Index. rewrite !cut_none_head by (apply Hkc; set_solver). cbn [fmap option_fmap option_map].
    rewrite token_head_not by (done || set_solver). by rewrite Hop.
  - unfold Index.
    assert (cut (ch_bang :: k) [ch_bang; ch_eq] = None) as ->.
    { pose proof (cut_skip ch_bang [ch_eq] [] k) as Hcut. cbn [app] in Hcut. rewrite Hcut.
      - by rewrite cut_none_head by (apply Hkc; set_solver).
      - apply not_elem_of_nil.
      - apply token_head_not; [done|set_solver]. }
    rewrite !(cut_none_head ch_eq).
    2, 3: rewrite not_elem_of_cons; split; [done|apply Hkc; set_solver].
    cbn [fmap option_fmap option_map HasPrefix]. rewrite bool_decide_true by done. cbn [andb drop].
    rewrite drop_0, token_trimmed, bool_decide_false by (done || by apply Hk). by rewrite Hop.
  - destruct Hop as (v&_&->). rewrite Forall_singleton in Hv. cbn [concat] in *. rewrite app_nil_r in *.
    pose proof (λ c, token_no v c Hv) as Hvc. unfold Index.
    rewrite (cut_none_head ch_bang).
    2:{ rewrite not_elem_of_app, not_elem_of_cons. split; [apply Hkc; set_solver|].
        split; [done|apply Hvc; set_solver]. }
    rewrite cut_skip by (apply Hkc; set_solver) || (apply token_head_not; [done|set_solver]).
    rewrite cut_none_head by (apply Hvc; set_solver).
    rewrite cut_byte_app by (apply Hkc; set_solver). cbn [fmap option_fmap option_map fst].
    by apply (parseBinary_render k [ch_eq]).
  - destruct Hop as (v&_&->). rewrite Forall_singleton in Hv. cbn [concat] in *. rewrite app_nil_r in *.
    unfold Index. pose proof (cut_head ch_bang [ch_eq] k v) as Hcut. cbn [app] in Hcut.
    rewrite Hcut by (apply Hkc; set_solver).
    cbn [fmap option_fmap option_map fst]. by apply (parseBinary_render k [ch_bang; ch_eq]).
  - unfold parseSelectorExpression. rewrite Ht, bool_decide_false by done.
    by rewrite parse_in by (apply Hop || done).
  - unfold parseSelectorExpression. rewrite Ht, bool_decide_false by done.
    by rewrite parse_notin by (apply Hop || done).
Qed.

(** The splitter walks over a printed requirement and comes back at depth 0. *)
Lemma split_loop_plain raw e rest cur acc depth :
  ch_open ∉ e → ch_close ∉ e → (ch_comma ∉ e ∨ (depth ≠ 0)%Z) →
  split_loop raw (e ++ rest) cur depth acc = split_loop raw rest (cur ++ e) depth acc.
Proof.
  revert cur. induction e as [|c e IH]; intros cur Ho Hc Hd; cbn [app split_loop].
  { by rewrite app_nil_r. }
  rewrite !not_elem_of_cons in *. rewrite !bool_decide_false by naive_solver.
  assert (bool_decide (c = ch_comma) && (depth =? 0)%Z = false) as ->.
  { apply andb_false_iff. destruct Hd as [Hd|Hd].
    - left. apply bool_decide_false. naive_solver.
    - right. by apply Z.eqb_neq. }
  rewrite IH by naive_solver. by rewrite <-app_assoc.
Qed.
Lemma split_loop_set raw k word inner rest cur acc :
  token k → ch_open ∉ word → ch_close ∉ word → ch_comma ∉ word → ch_open ∉ inner → ch_close ∉ inner →
  split_loop raw ((k ++ word ++ [ch_open] ++ inner ++ [ch_close]) ++ rest) cur 0 acc
  = split_loop raw rest (cur ++ (k ++ word ++ [ch_open] ++ inner ++ [ch_close])) 0 acc.
Proof.
  intros Hk ?????. rewrite <-!app_assoc.
  rewrite split_loop_plain by (try left; apply token_no; [done|set_solver]).
  rewrite split_loop_plain by (by auto). cbn [app split_loop].
  rewrite bool_decide_true by done. cbn [Z.add].
  rewrite split_loop_plain by (by auto). cbn [app split_loop].
  rewrite bool_decide_false, bool_decide_true by done. cbn. by rewrite <-!app_assoc.
Qed.
Lemma split_loop_render raw r rest cur acc :
  token_requirement r →
  split_loop raw (render_requirement r ++ rest) cur 0 acc
  = split_loop raw rest (cur ++ render_requirement r) 0 acc.
Proof.
  destruct r as [k op vs]. intros ((_&Hop)&Hk&Hv); cbn in *.
  pose proof (λ c, token_no k c Hk) as Hkc.
  assert (ch_open ∉ Join vs [ch_comma] ∧ ch_close ∉ Join vs [ch_comma]) as [Ho Hc].
  { clear Hop. induction Hv as [|v vs Hv Hvs [IH1 IH2]]; [split; apply not_elem_of_nil|].
    pose proof (λ c, token_no v c Hv) as Hvc.
    destruct vs; cbn [Join]; [split; apply Hvc; set_solver|].
    rewrite !not_elem_of_app, !list_elem_of_singleton.
    split_and!; try done; apply Hvc; set_solver. }
  destruct op; unfold render_requirement; cbn [Operator Key Values]; try done.
  - apply split_loop_plain; try left; apply Hkc; set_solver.
  - apply split_loop_plain; try left; rewrite not_elem_of_cons; (split; [done|]); apply Hkc; set_solver.
  - destruct Hop as (v&_&->). rewrite Forall_singleton in Hv. cbn. rewrite app_nil_r.
    pose proof (λ c, token_no v c Hv) as Hvc.
    apply split_loop_plain; try left; rewrite not_elem_of_app, not_elem_of_cons;
      (split_and!; [apply Hkc; set_solver|done|apply Hvc; set_solver]).
  - destruct Hop as (v&_&->). rewrite Forall_singleton in Hv. cbn. rewrite app_nil_r.
    pose proof (λ c, token_no v c Hv) as Hvc.
    apply split_loop_plain; try left; rewrite not_elem_of_app, !not_elem_of_cons;
      (split_and!; [apply Hkc; set_solver|done|done|apply Hvc; set_solver]).
  - apply (split_loop_set raw k (lit " in ") (Join vs [ch_comma])); try done;
      by apply (bool_decide_unpack _); vm_compute.
  - apply (split_loop_set raw k (lit " notin ") (Join vs [ch_comma])); try done;
      by apply (bool_decide_unpack _); vm_compute.
Qed.
End roundtrip.

Section filters.
Context `{CaseTable}.

Lemma split_loop_selector raw sel acc :
  sel ≠ [] → Forall token_requirement sel →
  split_loop raw (render_selector sel) [] 0 acc = Ok (acc ++ map render_requirement sel).
Proof.
  intros Hne Hall. revert acc. induction Hall as [|r sel Hr Hall IH]; intros acc; [done|].
  pose proof (render_trimmed _ Hr) as Ht. pose proof (render_nonempty _ Hr) as Hn.
  unfold render_selector in *. destruct sel as [|r' sel]; cbn [map Join] in *.
  - rewrite <-(app_nil_r (render_requirement r)) at 1. rewrite split_loop_render by done.
    cbn [app split_loop Z.eqb negb]. by rewrite Ht, bool_decide_false.
  - rewrite split_loop_render by done. cbn [app split_loop].
    rewrite !bool_decide_false, bool_decide_true by done. cbn [andb Z.eqb].
    rewrite Ht, bool_decide_false by done. rewrite IH by done. by rewrite <-app_assoc.
Qed.

Lemma render_selector_trimmed sel :
  Forall token_requirement sel → TrimSpace (render_selector sel) = render_selector sel.
Proof.
  intros Hall. destruct sel as [|r sel]; [done|].
  assert (∃ c s, render_selector (r :: sel) = c :: s ∧ graphic c) as (c&s&Hc&?).
  { apply Forall_cons in Hall as [(c&s&d&Hs&?&_)%render_shape _].
    unfold render_selector. destruct sel; cbn [map Join]; rewrite Hs; cbn; eauto. }
  assert (∃ s' d, render_selector (r :: sel) = s' ++ [d] ∧ graphic d) as (s'&d&Hd&?).
  { clear -Hall. revert r Hall. induction sel as [|r' sel IH]; intros r [Hr Hall]%Forall_cons.
    - apply render_shape in Hr as (c&s&d&Hs&_&s'&Hs'&?).
      exists s', d. unfold render_selector; cbn [map Join]. by rewrite Hs.
    - destruct (IH r') as (s'&d&Hs&?); [done|]. unfold render_selector in *.
      exists (render_requirement r ++ [ch_comma] ++ s'), d.
      cbn [map Join]. cbn [map Join] in Hs. rewrite Hs. by rewrite <-!app_assoc. }
  apply trimmed_iff. split; [rewrite Hc; by apply no_lead_graphic|rewrite Hd; by apply no_trail_graphic].
Qed.

Lemma add_requirements sel sel0 :
  Forall token_requirement sel →
  foldM add_requirement sel0 (map render_requirement sel) = Ok (sel0 ++ sel).
Proof.
  intros Hall. revert sel0. induction Hall as [|r sel Hr Hall IH]; intros sel0; cbn [map foldM].
  { by rewrite app_nil_r. }
  assert (add_requirement sel0 (render_requirement r) = Ok (sel0 ++ [r])) as ->.
  { unfold add_requirement. by rewrite parse_render_requirement. }
  cbn [mbind result_bind]. rewrite IH. by rewrite <-app_assoc.
Qed.

Lemma render_selector_nonempty sel :
  sel ≠ [] → Forall token_requirement sel → render_selector sel ≠ [].
Proof.
  intros Hne Hall. destruct sel as [|r sel]; [done|].
  apply Forall_cons in Hall as [Hr _]. pose proof (render_nonempty _ Hr) as Hn.
  unfold render_selector. destruct sel; cbn [map Join]; [done|]. by destruct (render_requirement r).
Qed.

(** ** No slice panic on ASCII selectors *)
Fixpoint panics (e : SelectorError) : bool :=
  match e with
  | PanicSlice => true
  | WithSyntaxGuide e | WithLegacyExample e | ErrInSelector _ e => panics e
  | _ => false
  end.
Definition no_panic {A} (r : result SelectorError A) : Prop :=
  match r with Ok _ => True | Err e => panics e = false end.
Lemma no_panic_bind {A B} (r : result SelectorError A) (f : A → result SelectorError B) :
  no_panic r → (∀ a, r = Ok a → no_panic (f a)) → no_panic (r ≫= f).
Proof. destruct r; cbn; eauto. Qed.
Lemma no_panic_map_err {A} f (r : result SelectorError A) :
  (∀ e, panics (f e) = panics e) → no_panic r → no_panic (map_err f r).
Proof. destruct r; cbn; [done|]. by intros ->. Qed.
Lemma no_panic_foldM {S A} (f : S → A → result SelectorError S) s l :
  (∀ s x, x ∈ l → no_panic (f s x)) → no_panic (foldM f s l).
Proof.
  revert s. induction l as [|x l IH]; intros s Hf; cbn; [done|].
  apply no_panic_bind; [apply Hf; left|]. intros s' _. apply IH. intros. apply Hf. by right.
Qed.

Lemma Index_bound s sep i : Index s sep = Some i → i + length sep ≤ length s.
Proof.
  unfold Index. destruct (cut s sep) as [[b a]|] eqn:E; [|done]. cbn. intros [= <-].
  apply cut_some in E as ->. rewrite !length_app. lia.
Qed.
Lemma slice_to_ok s i : i ≤ length s → slice_to s i = Some (take i s).
Proof. intros. unfold slice_to. by rewrite bool_decide_true. Qed.
Lemma slice_from_ok s i : i ≤ length s → slice_from s i = Some (drop i s).
Proof. intros. unfold slice_from. by rewrite bool_decide_true. Qed.
Lemma set_values_no_panic items values : no_panic (set_values_loop items values).
Proof.
  revert values. induction items as [|i items IH]; intros values; cbn;
    repeat case_bool_decide; cbn; eauto.
Qed.
Lemma split_loop_no_panic raw rest cur depth acc : no_panic (split_loop raw rest cur depth acc).
Proof.
  revert cur depth acc. induction rest as [|c rest IH]; intros cur depth acc; cbn.
  - destruct (negb _); [done|]. by case_bool_decide.
  - case_bool_decide; [apply IH|]. case_bool_decide; [by destruct (_ <? 0)%Z; [|apply IH]|].
    destruct (_ && _); [|apply IH]. case_bool_decide; [done|apply IH].
Qed.
Lemma split_loop_elem raw rest cur depth acc es e c :
  split_loop raw rest cur depth acc = Ok es → e ∈ es → c ∈ e →
  c ∈ rest ∨ c ∈ cur ∨ ∃ e', e' ∈ acc ∧ c ∈ e'.
Proof.
  revert cur depth acc. induction rest as [|d rest IH]; intros cur depth acc; cbn.
  - destruct (negb _); [done|]. case_bool_decide; [done|]. intros [= <-].
    rewrite elem_of_app, list_elem_of_singleton. intros [?| ->] Hc; [by eauto|].
    right; left. by apply TrimSpace_elem.
  - intros Hs He Hc. repeat (case_bool_decide || destruct (_ <? 0)%Z || destruct (_ =? 0)%Z); cbn in Hs; try done;
      (apply IH in Hs; [|done..]); destruct Hs as [?|[?|(e'&He'&?)]]; try set_solver.
    rewrite elem_of_app, list_elem_of_singleton in He'. destruct He' as [?| ->]; [by eauto|].
    right; left. by apply TrimSpace_elem.
Qed.

Lemma try_candidate_no_panic e token' op r :
  ascii_only e → try_candidate e (ToLower e) token' op = Some r → no_panic r.
Proof.
  intros Ha. unfold try_candidate. destruct (Index (ToLower e) token') as [i|] eqn:E; [|done]. cbn.
  apply Index_bound in E. rewrite length_ToLower_ascii in E by done.
  rewrite slice_to_ok, slice_from_ok by lia. intros [= <-].
  case_bool_decide; [done|]. destruct (_ || _); [done|].
  apply no_panic_bind; [|done]. apply no_panic_map_err; [done|]. apply set_values_no_panic.
Qed.
Lemma parseBinary_no_panic e sep i op :
  Index e sep = Some i → no_panic (parseBinarySelectorExpression e i (length sep) op).
Proof.
  intros Hi%Index_bound. unfold parseBinarySelectorExpression.
  rewrite slice_to_ok, slice_from_ok by lia. by destruct (_ || _).
Qed.
Lemma TrimSpace_ascii s : ascii_only s → ascii_only (TrimSpace s).
Proof.
  unfold ascii_only. rewrite !Forall_forall. intros Ha c Hc. apply Ha. by apply TrimSpace_elem.
Qed.
Lemma parseSelectorExpression_no_panic e : ascii_only e → no_panic (parseSelectorExpression e).
Proof.
  intros Ha. unfold parseSelectorExpression, parseSetSelectorExpression.
  assert (ascii_only (TrimSpace e)) as Ht.
  { by apply TrimSpace_ascii. }
  case_bool_decide; [done|].
  destruct (try_candidate _ _ (lit " notin") _) eqn:E1; [by eapply try_candidate_no_panic|].
  destruct (try_candidate _ _ (lit " in") _) eqn:E2; [by eapply try_candidate_no_panic|].
  destruct (Index _ [ch_bang; ch_eq]) eqn:E3; [by apply (parseBinary_no_panic _ [ch_bang; ch_eq])|].
  destruct (Index _ [ch_eq; ch_eq]) eqn:E4; [by apply (parseBinary_no_panic _ [ch_eq; ch_eq])|].
  destruct (Index _ [ch_eq]) eqn:E5; [by apply (parseBinary_no_panic _ [ch_eq])|].
  destruct (HasPrefix _ _); [by case_bool_decide|done].
Qed.
Lemma parseLabelSelectors_no_panic items :
  Forall ascii_only items → no_panic (parseLabelSelectors items).
Proof.
  intros Hall. apply no_panic_foldM. intros sel item Hin. unfold add_item.
  case_bool_decide; [done|].
  assert (ascii_only (TrimSpace item)) as Ha.
  { apply TrimSpace_ascii. rewrite Forall_forall in Hall. by apply Hall. }
  apply no_panic_bind.
  { unfold splitSelectorExpressions. case_bool_decide; [done|]. apply split_loop_no_panic. }
  intros es Hes. apply no_panic_foldM. intros sel' e He. unfold add_requirement.
  apply no_panic_bind; [|done]. apply parseSelectorExpression_no_panic.
  unfold splitSelectorExpressions in Hes. case_bool_decide; [set_solver|].
  unfold ascii_only in *. rewrite Forall_forall in *. intros c Hc. apply Ha.
  destruct (split_loop_elem _ _ _ _ _ _ _ c Hes He Hc) as [?|[?|(e'&?&_)]]; [|set_solver..].
  by apply TrimSpace_elem.
Qed.
Lemma parseLegacyLabelFilters_no_panic items : no_panic (parseLegacyLabelFilters items).
Proof.
  apply no_panic_foldM. intros sel item _. unfold add_legacy. case_bool_decide; [done|].
  destruct (SplitN2 _ _) as [|k [|v [|]]]; try done. by destruct (_ || _).
Qed.
End filters.

(** ** Properties *)
Definition invalid_selector : str := replicate 5 (byte 255) ++ lit " in (a)".

Section properties.
Context `{CaseTable}.

(** C27: a selector the parser accepts is evaluated without a panic on every
    label map, and the verdict is exactly that all its requirements hold. *)
Theorem selector_match_correct selectors legacyLabels sel labels :
  ParseLabelSelectorFilters selectors legacyLabels = Ok sel →
  ∃ b, MatchesLabelSelector labels sel = Some b ∧ (b = true ↔ Forall (satisfies labels) sel).
Proof. intros Hp. eapply MatchesLabelSelector_spec, ParseLabelSelectorFilters_wf, Hp. Qed.

(** Parsing the documented rendering of requirements whose keys and values
    are plain tokens gives the requirements back. *)
Theorem selector_roundtrip sel :
  sel ≠ [] → Forall token_requirement sel →
  ParseLabelSelectorFilters [render_selector sel] [] = Ok sel.
Proof.
  intros Hne Hall. unfold ParseLabelSelectorFilters, parseLabelSelectors. cbn [foldM].
  assert (add_item [] (render_selector sel) = Ok sel) as ->; [|cbn; by rewrite app_nil_r].
  pose proof (render_selector_trimmed _ Hall) as Ht.
  pose proof (render_selector_nonempty _ Hne Hall) as Hn.
  unfold add_item, splitSelectorExpressions. rewrite !Ht, !bool_decide_false by done.
  rewrite split_loop_selector by done. by apply (add_requirements sel []).
Qed.

(** On ASCII input the parser never slices out of range. *)
Theorem selector_ascii_no_panic selectors legacyLabels :
  Forall ascii_only selectors →
  no_panic (ParseLabelSelectorFilters selectors legacyLabels).
Proof.
  intros Ha. unfold ParseLabelSelectorFilters.
  apply no_panic_bind; [apply no_panic_map_err; [done|by apply parseLabelSelectors_no_panic]|].
  intros p _. apply no_panic_bind; [|done].
  apply no_panic_map_err; [done|apply parseLegacyLabelFilters_no_panic].
Qed.

(** Outside ASCII the parser can panic: the index of a set operator is found
    in the lower-cased copy and used to slice the original, and an invalid
    byte grows to the three bytes of the replacement character. *)
Theorem selector_lower_index_panic :
  unicode_lower rune_error = rune_error →
  ∃ raw, ParseLabelSelectorFilters [raw] [] = Err (WithSyntaxGuide PanicSlice).
Proof.
  intros Hl. exists invalid_selector.
  assert (rune_lower rune_error = rune_error) as Hr by exact Hl.
  assert (ToLower invalid_selector = concat (replicate 5 (EncodeRune rune_error)) ++ lit " in (a)") as Ht.
  { unfold ToLower.
    change (runes invalid_selector) with (replicate 5 rune_error ++ [32; 105; 110; 32; 40; 97; 41]%N).
    cbn [replicate app map]. rewrite Hr. by vm_compute. }
  assert (parseSelectorExpression invalid_selector = Err PanicSlice) as He.
  { unfold parseSelectorExpression, parseSetSelectorExpression.
    change (TrimSpace invalid_selector) with invalid_selector. rewrite Ht. by vm_compute. }
  unfold ParseLabelSelectorFilters, parseLabelSelectors, add_item. cbn [foldM].
  change (splitSelectorExpressions (TrimSpace invalid_selector)) with
    (@Ok SelectorError _ [invalid_selector]).
  change (bool_decide (TrimSpace invalid_selector = [])) with false.
  cbn [mbind result_bind foldM]. unfold add_requirement. by rewrite He.
Qed.

(** The search for the set operators also looks inside the value: an equality
    written with spaces whose value starts with "in" is rejected. *)
Theorem selector_equality_shadowed k w :
  token k → token w →
  parseSelectorExpression (k ++ lit " = in" ++ w)
  = Err (ErrExpectedValues (k ++ lit " = in" ++ w)).
Proof.
  intros Hk Hw. set (e := k ++ lit " = in" ++ w).
  assert (TrimSpace e = e) as Ht.
  { destruct (token_ends _ Hk) as (c&k'&->&?). destruct (token_last _ Hw) as (w'&d&->&?).
    replace e with (c :: (k' ++ lit " = in" ++ w') ++ [d]); [by apply trimmed_ends|].
    unfold e. cbn. by rewrite <-!app_assoc. }
  assert (ascii_only e) as Ha.
  { unfold e, ascii_only. rewrite !Forall_app.
    split_and!; [by apply graphic_ascii, token_graphic|by repeat constructor|by apply graphic_ascii, token_graphic]. }
  assert (byte_lower <$> e = (byte_lower <$> k) ++ byte 32 :: lit "=" ++ byte 32 :: lit "in" ++ (byte_lower <$> w)) as Hl.
  { unfold e. rewrite !fmap_app. by vm_compute (byte_lower <$> lit " = in"). }
  unfold parseSelectorExpression, parseSetSelectorExpression. rewrite Ht.
  rewrite bool_decide_false by (intros E; apply (f_equal length) in E; unfold e in E; rewrite !length_app in E; cbn in E; lia).
  rewrite ToLower_ascii, Hl by done.
  pose proof (byte_lower_space _ (token_no_space _ Hk)) as Hks.
  pose proof (byte_lower_space _ (token_no_space _ Hw)) as Hws.
  unfold try_candidate, Index.
  change (lit " notin") with (byte 32 :: lit "notin"). change (lit " in") with (byte 32 :: lit "in").
  rewrite (cut_skip (byte 32) (lit "notin")), cut_skip; [|by apply (bool_decide_unpack _); vm_compute|done|done|done].
  rewrite cut_none_head by (rewrite not_elem_of_app; split; [by apply (bool_decide_unpack _); vm_compute|done]).
  cbn [fmap option_fmap option_map mbind option_bind].
  rewrite (cut_skip (byte 32) (lit "in")) by done.
  replace (lit "=" ++ byte 32 :: lit "in" ++ (byte_lower <$> w))
    with (lit "=" ++ (byte 32 :: lit "in") ++ (byte_lower <$> w)) by done.
  rewrite cut_head by (by apply (bool_decide_unpack _); vm_compute).
  cbn [fmap option_fmap option_map mbind option_bind fst].
  assert (length ((byte_lower <$> k) ++ byte 32 :: lit "=") = length (k ++ lit " =")) as ->.
  { by rewrite !length_app, length_fmap. }
  assert (e = (k ++ lit " =") ++ lit " in" ++ w) as He by (unfold e; by rewrite <-app_assoc).
  rewrite He at 1. rewrite slice_to_app.
  assert (TrimSpace (k ++ lit " =") = k ++ lit " =") as ->.
  { destruct (token_ends _ Hk) as (c&k'&->&?).
    change (lit " =") with ([byte 32] ++ [ch_eq]). rewrite app_assoc.
    by apply (trimmed_ends c (k' ++ [byte 32]) ch_eq). }
  rewrite bool_decide_false by (by destruct k).
  assert (slice_from e (length (k ++ lit " =") + length (byte 32 :: lit "in")) = Some w) as ->.
  { rewrite He, app_assoc, <-(length_app _ (lit " in")). apply slice_from_app. }
  rewrite token_trimmed by done. by rewrite token_head_not by (done || set_solver).
Qed.
End properties.

(** ** Instances of the properties *)
Definition env_in : labelRequirement := LabelRequirement (lit "env") OpIn [lit "a"; lit "b"].
Lemma selector_match_correct_witness :
  ∃ b, MatchesLabelSelector {[lit "env" := lit "a"]} [env_in] = Some b ∧
       (b = true ↔ Forall (satisfies {[lit "env" := lit "a"]}) [env_in]).
Proof. apply (@selector_match_correct identity_case [lit " env IN (a, b ,a)"] []). by vm_compute. Defined.
Lemma selector_roundtrip_witness :
  @ParseLabelSelectorFilters identity_case [render_selector [env_in; LabelRequirement (lit "canary") OpNotExists []]] []
  = Ok [env_in; LabelRequirement (lit "canary") OpNotExists []].
Proof.
  apply selector_roundtrip; [done|]. repeat constructor; cbn; try done;
    try (by apply (bool_decide_unpack _); vm_compute).
Defined.
Lemma selector_ascii_no_panic_witness :
  no_panic (@ParseLabelSelectorFilters identity_case [lit "env in (a"] [lit "zone=z1"]).
Proof. apply (@selector_ascii_no_panic identity_case). by apply (bool_decide_unpack _); vm_compute. Defined.
Lemma selector_lower_index_panic_witness :
  ∃ raw, @ParseLabelSelectorFilters identity_case [raw] [] = Err (WithSyntaxGuide PanicSlice).
Proof. by apply (@selector_lower_index_panic identity_case). Defined.
Lemma selector_equality_shadowed_witness :
  @parseSelectorExpression identity_case (lit "team = infra") = Err (ErrExpectedValues (lit "team = infra")).
Proof.
  apply (@selector_equality_shadowed identity_case (lit "team") (lit "fra"));
    by apply (bool_decide_unpack _); vm_compute.
Defined.
