(* ===== verification/RegistryModel.v ===== *)
(** * Registry data model ([internal/registry/model.go])

    Service identities, the normalisation of a registration, the keys an instance
    is stored under, leases, and the filters of a query.  A nil slice or map of the
    code is the empty list or map here; the two differ only in how JSON prints
    them.  A function that writes through pointers returns the new values. *)
From Stdlib Require Import Ascii ZArith.
From stdpp Require Import gmap strings list.
From S2P Require Import Prelude GoStrings Selector.

Definition RootPrefix : str := lit "/registry/".
Definition DefaultLeaseTTLSeconds : Z := 30.
Definition DefaultEndpointWeight : Z := 100.

Record Endpoint := MkEndpoint {
  ep_Name : str; ep_Protocol : str; ep_Host : str;
  ep_Port : Z; ep_Path : str; ep_Weight : Z
}.
(** The five levels of a structured service name. *)
Record Dimensions := Dims {
  Organization : str; BusinessDomain : str; CapabilityDomain : str;
  Application : str; Role : str
}.
(** The six identity fields that the request and value structs repeat. *)
Record Identity := MkIdentity { Service : str; dims : Dimensions }.
Record RegisterInput := MkRegisterInput {
  ri_Namespace : str; ri_Identity : Identity; ri_InstanceID : str; ri_Zone : str;
  ri_Labels : gmap str str; ri_Metadata : gmap str str;
  ri_Endpoints : list Endpoint; ri_LeaseTTLSeconds : Z
}.
Record DeregisterRequest := MkDeregisterRequest {
  dr_Namespace : str; dr_Identity : Identity; dr_InstanceID : str
}.
Record HeartbeatRequest := MkHeartbeatRequest {
  hr_Namespace : str; hr_Identity : Identity; hr_InstanceID : str; hr_LeaseTTLSeconds : Z
}.
Record Value := MkValue {
  v_Namespace : str; v_Identity : Identity; v_InstanceID : str; v_Zone : str;
  v_Labels : gmap str str; v_Metadata : gmap str str; v_Endpoints : list Endpoint;
  v_LeaseTTLSeconds : Z; v_RegisteredAtUnix : Z; v_LastHeartbeatUnix : Z
}.
Record Query := MkQuery {
  q_Namespace : str; q_Service : str; q_Services : list str; q_ServicePrefixes : list str;
  q_Zone : str; q_Endpoint : str; q_Selector : Selector; q_Limit : Z
}.

Inductive RegistryError :=
  | ErrLeaseTTLNegative | ErrNoEndpoint
  | ErrEndpointProtocol | ErrEndpointHost | ErrEndpointPort | ErrEndpointWeight
  | ErrDuplicateEndpoint (name : str)
  | ErrServiceRequired | ErrDimensionsRequired
  | ErrServiceMismatch (service canonical : str)
  | ErrNamespaceRequired | ErrHierarchyGap
  | ErrLimitSyntax (raw : str) | ErrLimitNegative
  | ErrSelector (e : SelectorError).

#[export] Instance Endpoint_eq_dec : EqDecision Endpoint.
Proof. solve_decision. Defined.
#[export] Instance Dimensions_eq_dec : EqDecision Dimensions.
Proof. solve_decision. Defined.
#[export] Instance Identity_eq_dec : EqDecision Identity.
Proof. solve_decision. Defined.
#[export] Instance RegisterInput_eq_dec : EqDecision RegisterInput.
Proof. solve_decision. Defined.
#[export] Instance Value_eq_dec : EqDecision Value.
Proof. solve_decision. Defined.
#[export] Instance Query_eq_dec : EqDecision Query.
Proof. solve_decision. Defined.
#[export] Instance RegistryError_eq_dec : EqDecision RegistryError.
Proof. solve_decision. Defined.

Definition ch_dot : ascii := byte 46.
Definition ch_slash : ascii := byte 47.
Definition empty_dims : Dimensions := Dims [] [] [] [] [].
Definition dims_list (d : Dimensions) : list str :=
  [Organization d; BusinessDomain d; CapabilityDomain d; Application d; Role d].
Definition map_dims (f : str → str) (d : Dimensions) : Dimensions :=
  Dims (f (Organization d)) (f (BusinessDomain d)) (f (CapabilityDomain d))
       (f (Application d)) (f (Role d)).

(** ** Service names *)
Definition ComposeServiceName (d : Dimensions) : str :=
  Join (map TrimSpace (dims_list d)) [ch_dot].
#[global] Arguments ComposeServiceName : simpl never.
Definition blank (s : str) : bool := bool_decide (TrimSpace s = []).
Definition ParseServiceName (service0 : str) : option Dimensions :=
  let service := TrimSpace service0 in
  if bool_decide (service = []) then None
  else match Split service [ch_dot] with
       | [o; b; c; a; r] =>
           if existsb blank [o; b; c; a; r] then None else Some (Dims o b c a r)
       | _ => None
       end.

Definition hasAnyServiceDimension (values : list str) : bool :=
  existsb (λ v, negb (blank v)) values.
Definition hasAllServiceDimensions (values : list str) : bool :=
  forallb (λ v, negb (blank v)) values && negb (bool_decide (values = [])).
Fixpoint gap_loop (seenEmpty : bool) (values : list str) : bool :=
  match values with
  | [] => false
  | v :: values => if blank v then gap_loop true values
                   else if seenEmpty then true else gap_loop seenEmpty values
  end.
Definition hasGapInServiceDimensions (values : list str) : bool := gap_loop false values.
Fixpoint take_nonempty (values : list str) : list str :=
  match values with
  | [] => []
  | v :: values => if bool_decide (v = []) then [] else v :: take_nonempty values
  end.
Definition serviceHierarchyDimensions (d : Dimensions) : list str :=
  take_nonempty (map TrimSpace (dims_list d)).

(** [if *x == "" { *x = parsed }] on each level. *)
Definition or_parsed (x parsed : str) : str := if bool_decide (x = []) then parsed else x.
Definition merge_dims (d p : Dimensions) : Dimensions :=
  Dims (or_parsed (Organization d) (Organization p))
       (or_parsed (BusinessDomain d) (BusinessDomain p))
       (or_parsed (CapabilityDomain d) (CapabilityDomain p))
       (or_parsed (Application d) (Application p))
       (or_parsed (Role d) (Role p)).
Definition parsed_dims (service : str) : Dimensions :=
  default empty_dims (ParseServiceName service).

Definition NormalizeStructuredServiceIdentity (i : Identity) : result RegistryError Identity :=
  let service := TrimSpace (Service i) in
  let d0 := map_dims TrimSpace (dims i) in
  let d := if bool_decide (service = []) then d0 else merge_dims d0 (parsed_dims service) in
  if negb (bool_decide (service = [])) && negb (hasAnyServiceDimension (dims_list d))
  then Ok (MkIdentity service d)
  else if negb (hasAnyServiceDimension (dims_list d)) then
    if bool_decide (service = []) then Err ErrServiceRequired else Ok (MkIdentity service d)
  else if negb (hasAllServiceDimensions (dims_list d)) then Err ErrDimensionsRequired
  else
    let canonical := ComposeServiceName d in
    if bool_decide (service = []) then Ok (MkIdentity canonical d)
    else if bool_decide (service = canonical) then Ok (MkIdentity service d)
    else Err (ErrServiceMismatch service canonical).

Definition NormalizeInstanceIdentity (namespace service instanceID : str) : str * str * str :=
  (TrimSpace namespace, TrimSpace service, TrimSpace instanceID).

(** ** Registration *)
Definition EffectiveLeaseTTLSeconds (ttl : Z) : Z :=
  if (0 <? ttl)%Z then ttl else DefaultLeaseTTLSeconds.

Section clone.
Context `{GoRange}.
Definition clone_entry (cloned : gmap str str) (kv : str * str) : gmap str str :=
  let key := TrimSpace kv.1 in
  if bool_decide (key = []) then cloned else <[key := TrimSpace kv.2]> cloned.
Definition CloneStringMap (source : gmap str str) : gmap str str :=
  if bool_decide (source = ∅) then ∅ else fold_left clone_entry (range source) ∅.
End clone.

Definition clone_endpoint (e : Endpoint) : Endpoint :=
  MkEndpoint (ep_Name e) (ep_Protocol e) (ep_Host e) (ep_Port e) (ep_Path e) (ep_Weight e).
Definition CloneEndpoints (source : list Endpoint) : list Endpoint := map clone_endpoint source.

(** One iteration of the endpoint loop; the state is the normalised prefix, whose
    names are the keys of [seen]. *)
Definition normalize_endpoint (normalized : list Endpoint) (e : Endpoint)
    : result RegistryError (list Endpoint) :=
  let name := TrimSpace (ep_Name e) in
  let protocol := TrimSpace (ep_Protocol e) in
  let host := TrimSpace (ep_Host e) in
  let path := TrimSpace (ep_Path e) in
  fail_if (bool_decide (protocol = [])) ErrEndpointProtocol;;
  let name := if bool_decide (name = []) then protocol else name in
  fail_if (bool_decide (host = [])) ErrEndpointHost;;
  fail_if ((ep_Port e <=? 0)%Z || (65535 <? ep_Port e)%Z) ErrEndpointPort;;
  fail_if (ep_Weight e <? 0)%Z ErrEndpointWeight;;
  let weight := if (ep_Weight e =? 0)%Z then DefaultEndpointWeight else ep_Weight e in
  fail_if (bool_decide (name ∈ map ep_Name normalized)) (ErrDuplicateEndpoint name);;
  Ok (normalized ++ [MkEndpoint name protocol host (ep_Port e) path weight]).

Definition NormalizeRegisterInput `{GoRange} (request : RegisterInput) : result RegistryError RegisterInput :=
  let namespace := TrimSpace (ri_Namespace request) in
  identity ← NormalizeStructuredServiceIdentity (ri_Identity request);
  let instanceID := TrimSpace (ri_InstanceID request) in
  let zone := TrimSpace (ri_Zone request) in
  let labels := CloneStringMap (ri_Labels request) in
  let metadata := CloneStringMap (ri_Metadata request) in
  fail_if (ri_LeaseTTLSeconds request <? 0)%Z ErrLeaseTTLNegative;;
  let ttl := EffectiveLeaseTTLSeconds (ri_LeaseTTLSeconds request) in
  fail_if (bool_decide (ri_Endpoints request = [])) ErrNoEndpoint;;
  normalized ← foldM normalize_endpoint [] (ri_Endpoints request);
  Ok (MkRegisterInput namespace identity instanceID zone labels metadata normalized ttl).
Definition NormalizeRegisterRequest `{GoRange} := NormalizeRegisterInput.

Definition NewValue `{GoRange} (request : RegisterInput) (now : Z) : Value :=
  MkValue (ri_Namespace request) (ri_Identity request) (ri_InstanceID request) (ri_Zone request)
    (CloneStringMap (ri_Labels request)) (CloneStringMap (ri_Metadata request))
    (CloneEndpoints (ri_Endpoints request))
    (EffectiveLeaseTTLSeconds (ri_LeaseTTLSeconds request)) now now.

(** ** Keys *)
Definition ServicePrefix (namespace service : str) : str :=
  RootPrefix ++ namespace ++ [ch_slash] ++ service ++ [ch_slash].
Definition NamespacePrefix (namespace : str) : str :=
  RootPrefix ++ TrimSpace namespace ++ [ch_slash].
Definition Key (namespace service instanceID : str) : str :=
  RootPrefix ++ namespace ++ [ch_slash] ++ service ++ [ch_slash] ++ instanceID.
Definition ParseKey (key : str) : option (str * str * str) :=
  if negb (HasPrefix key RootPrefix) then None
  else match Split (TrimPrefix key RootPrefix) [ch_slash] with
       | [n; s; i] => if blank n || blank s || blank i then None else Some (n, s, i)
       | _ => None
       end.

(** ** Leases *)
Definition IsAlive (value : Value) (now : Z) : bool :=
  if (now <=? 0)%Z then true
  else
    let lastHeartbeat := if (v_LastHeartbeatUnix value <=? 0)%Z
                         then v_RegisteredAtUnix value else v_LastHeartbeatUnix value in
    if (lastHeartbeat <=? 0)%Z then true
    else (now <=? i64 (lastHeartbeat + EffectiveLeaseTTLSeconds (v_LeaseTTLSeconds value)))%Z.

(** ** Queries *)
Definition FilterEndpoints (endpoints : list Endpoint) (expected : str) : list Endpoint :=
  if bool_decide (expected = []) then CloneEndpoints endpoints
  else map clone_endpoint
         (List.filter (λ e, bool_decide (ep_Name e = expected) || bool_decide (ep_Protocol e = expected))
            endpoints).

Definition match_prefix (service prefix : str) : bool :=
  bool_decide (service = prefix) || HasPrefix service (prefix ++ [ch_dot]) || HasPrefix service prefix.
Definition MatchServiceQuery (service0 : str) (query : Query) : bool :=
  let service := TrimSpace service0 in
  if negb (bool_decide (q_Service query = [])) && negb (bool_decide (service = q_Service query)) then false
  else if negb (bool_decide (q_Services query = [])) &&
          negb (existsb (λ expected, bool_decide (service = expected)) (q_Services query)) then false
  else if negb (bool_decide (q_ServicePrefixes query = [])) &&
          negb (existsb (match_prefix service) (q_ServicePrefixes query)) then false
  else true.

(** [None] is the panic of the label matcher. *)
Definition MatchQuery (value : Value) (query : Query) : option bool :=
  if negb (bool_decide (q_Namespace query = [])) && negb (bool_decide (v_Namespace value = q_Namespace query))
  then Some false
  else if negb (MatchServiceQuery (Service (v_Identity value)) query) then Some false
  else if negb (bool_decide (q_Zone query = [])) && negb (bool_decide (v_Zone value = q_Zone query))
  then Some false
  else match MatchesLabelSelector (v_Labels value) (q_Selector query) with
       | None => None
       | Some false => Some false
       | Some true =>
           Some (negb (negb (bool_decide (q_Endpoint query = [])) &&
                       bool_decide (FilterEndpoints (v_Endpoints value) (q_Endpoint query) = [])))
       end.

(** [url.Values]; [Get] returns the first value or the empty string. *)
Abbreviation url_Values := (gmap str (list str)).
Definition url_all (values : url_Values) (key : string) : list str := default [] (values !! lit key).
Definition url_Get (values : url_Values) (key : string) : str :=
  match url_all values key with v :: _ => v | [] => [] end.

Definition parseLimit (raw : str) : result RegistryError Z :=
  if blank raw then Ok 0%Z
  else match Atoi raw with
       | None => Err (ErrLimitSyntax raw)
       | Some limit => if (limit <? 0)%Z then Err ErrLimitNegative else Ok limit
       end.
Fixpoint unique_loop (values result : list str) : list str :=
  match values with
  | [] => result
  | v :: values =>
      let value := TrimSpace v in
      if bool_decide (value = []) || bool_decide (value ∈ result) then unique_loop values result
      else unique_loop values (result ++ [value])
  end.
Definition normalizeStringSlice (values : list str) : list str := unique_loop values [].
Definition appendUniqueString (values : list str) (value0 : str) : list str :=
  let value := TrimSpace value0 in
  if bool_decide (value = []) || bool_decide (value ∈ values) then values else values ++ [value].

Definition query_dims (values : url_Values) (service : str) : Dimensions :=
  let d := map_dims TrimSpace
    (Dims (url_Get values "organization") (url_Get values "businessDomain")
          (url_Get values "capabilityDomain") (url_Get values "application") (url_Get values "role")) in
  if bool_decide (service = []) then d else merge_dims d (parsed_dims service).
Definition set_service (query : Query) (service : str) (services : list str) : Query :=
  MkQuery (q_Namespace query) service services (q_ServicePrefixes query) (q_Zone query)
    (q_Endpoint query) (q_Selector query) (q_Limit query).
Definition set_prefixes (query : Query) (prefixes : list str) : Query :=
  MkQuery (q_Namespace query) (q_Service query) (q_Services query) prefixes (q_Zone query)
    (q_Endpoint query) (q_Selector query) (q_Limit query).
Definition normalizeQueryServiceIdentity (values : url_Values) (query : Query) : result RegistryError Query :=
  let service := q_Service query in
  let d := query_dims values service in
  if negb (hasAnyServiceDimension (dims_list d)) then Ok query
  else if hasGapInServiceDimensions (dims_list d) then Err ErrHierarchyGap
  else if hasAllServiceDimensions (dims_list d) then
    let canonical := ComposeServiceName d in
    if negb (bool_decide (service = [])) && negb (bool_decide (service = canonical))
    then Err (ErrServiceMismatch service canonical)
    else Ok (set_service query canonical (appendUniqueString (q_Services query) canonical))
  else
    let prefix := Join (serviceHierarchyDimensions d) [ch_dot] in
    if bool_decide (prefix = []) then Ok query
    else Ok (set_prefixes query (appendUniqueString (q_ServicePrefixes query) prefix)).

Definition ParseQuery `{CaseTable} (values : url_Values) : result RegistryError Query :=
  let namespace := TrimSpace (url_Get values "namespace") in
  let service := TrimSpace (url_Get values "service") in
  fail_if (bool_decide (namespace = [])) ErrNamespaceRequired;;
  let services := normalizeStringSlice (url_all values "service") in
  let service := match services with [s] => s | _ => service end in
  let prefixes := normalizeStringSlice (url_all values "servicePrefix") in
  query ← normalizeQueryServiceIdentity values
    (MkQuery namespace service services prefixes (TrimSpace (url_Get values "zone"))
       (TrimSpace (url_Get values "endpoint")) [] 0);
  limit ← parseLimit (url_Get values "limit");
  selector ← map_err ErrSelector
    (ParseLabelSelectorFilters (url_all values "selector") (url_all values "label"));
  Ok (MkQuery (q_Namespace query) (q_Service query) (q_Services query) (q_ServicePrefixes query)
        (q_Zone query) (q_Endpoint query) selector limit).

(** ** Service names: lemmas *)
Definition byte_count (c : ascii) (s : str) : nat := length (filter (c =.) s).
Lemma byte_count_app c s t : byte_count c (s ++ t) = byte_count c s + byte_count c t.
Proof. unfold byte_count. by rewrite filter_app, length_app. Qed.
Lemma byte_count_zero c s : byte_count c s = 0 ↔ c ∉ s.
Proof.
  unfold byte_count. rewrite length_zero_iff_nil. split.
  - intros H Hin. assert (c ∈ filter (c =.) s) as Hf by (by apply list_elem_of_filter).
    rewrite H in Hf. by apply elem_of_nil in Hf.
  - intros H. destruct (filter (c =.) s) as [|d l] eqn:E; [done|].
    assert (d ∈ filter (c =.) s) as Hf by (rewrite E; left).
    by apply list_elem_of_filter in Hf as [<- ?].
Qed.
Lemma byte_count_Join c parts :
  parts ≠ [] → byte_count c (Join parts [c]) + 1 = length parts + sum_list (map (byte_count c) parts).
Proof.
  induction parts as [|p ps IH]; intros Hne; [done|].
  destruct ps as [|q ps]; [cbn [Join map sum_list length]; unfold byte_count; cbn; lia|].
    change (Join (p :: q :: ps) [c]) with (p ++ [c] ++ Join (q :: ps) [c]).
  rewrite !byte_count_app. assert (byte_count c [c] = 1) as ->.
  { unfold byte_count. by rewrite filter_cons_True. }
  specialize (IH ltac:(done)).
  change (sum_list (map (byte_count c) (p :: q :: ps)))
    with (byte_count c p + sum_list (map (byte_count c) (q :: ps))).
  cbn [length] in *. lia.
Qed.
(** A joined text that splits into as many parts has no separator in any part. *)
Lemma Join_parts_inj c (ps qs : list str) :
  length ps = length qs → qs ≠ [] → Forall (λ p, c ∉ p) qs → Join ps [c] = Join qs [c] → ps = qs.
Proof.
  intros Hlen Hne Hqs Hj. assert (ps ≠ []) as Hps by (by destruct ps, qs).
  assert (Forall (λ p, c ∉ p) ps).
  { pose proof (byte_count_Join c ps Hps) as H1. pose proof (byte_count_Join c qs Hne) as H2.
    assert (sum_list (map (byte_count c) qs) = 0) as Hz.
    { clear -Hqs. induction Hqs as [|q qs Hq Hqs IH]; [done|]. cbn. apply byte_count_zero in Hq. lia. }
    assert (sum_list (map (byte_count c) ps) = 0) as Hz' by (rewrite Hj in H1; lia).
    clear -Hz'. induction ps as [|p ps IH]; [done|]. cbn in Hz'.
    constructor; [apply byte_count_zero; lia|apply IH; lia]. }
  rewrite <-(Split_Join ps c), <-(Split_Join qs c) by done. by rewrite Hj.
Qed.

Lemma blank_true s : blank s = true ↔ TrimSpace s = [].
Proof. apply bool_decide_eq_true. Qed.
Lemma blank_false s : blank s = false ↔ TrimSpace s ≠ [].
Proof. apply bool_decide_eq_false. Qed.
Lemma blank_trimmed s : trimmed s → blank s = bool_decide (s = []).
Proof. unfold blank. by intros ->. Qed.

Lemma ParseServiceName_Some s d :
  ParseServiceName s = Some d →
  Join (dims_list d) [ch_dot] = TrimSpace s ∧
  Forall (λ p, ch_dot ∉ p) (dims_list d) ∧ Forall (λ p, TrimSpace p ≠ []) (dims_list d).
Proof.
  unfold ParseServiceName. case_bool_decide; [done|].
  pose proof (Join_Split (TrimSpace s) ch_dot) as Hj. pose proof (Split_parts (TrimSpace s) ch_dot) as Hp.
  destruct (Split (TrimSpace s) [ch_dot]) as [|o [|b [|c [|a [|r [|]]]]]]; try done.
  destruct (existsb blank [o; b; c; a; r]) eqn:E; intros [= <-]. split_and!; [done|done|].
  cbn in E. rewrite !orb_false_iff, !blank_false in E. repeat constructor; naive_solver.
Qed.

(** The canonical name of dot-free, trimmed, non-empty levels parses back. *)
Definition clean_dims (d : Dimensions) : Prop :=
  Forall (λ p, trimmed p ∧ p ≠ []) (dims_list d).
Definition dotless_dims (d : Dimensions) : Prop := Forall (λ p, ch_dot ∉ p) (dims_list d).
#[export] Instance clean_dims_dec d : Decision (clean_dims d) := _.
#[export] Instance dotless_dims_dec d : Decision (dotless_dims d) := _.

Lemma map_trim_clean d : clean_dims d → map TrimSpace (dims_list d) = dims_list d.
Proof.
  intros Hd. rewrite <-(map_id (dims_list d)) at 2. apply map_ext_in. intros p Hp%list_elem_of_In.
  unfold clean_dims in Hd. rewrite Forall_forall in Hd. by apply Hd.
Qed.
Lemma ComposeServiceName_clean d : clean_dims d → ComposeServiceName d = Join (dims_list d) [ch_dot].
Proof. intros Hd. unfold ComposeServiceName. by rewrite map_trim_clean. Qed.
Lemma ParseServiceName_Compose d :
  clean_dims d → dotless_dims d → ParseServiceName (ComposeServiceName d) = Some d.
Proof.
  intros Hd Hdot. rewrite ComposeServiceName_clean by done.
  assert (trimmed (Join (dims_list d) [ch_dot])) as Ht.
  { apply Join_trimmed; [|by vm_compute]. eapply Forall_impl; [exact Hd|]. by intros ? [? _]. }
  unfold ParseServiceName. rewrite Ht.
  rewrite bool_decide_false.
  2:{ intros E. destruct d as [o b c a r]. apply Forall_cons in Hd as [[_ Ho] _]. by destruct o. }
  rewrite Split_Join by done. destruct d as [o b c a r]. cbn [dims_list Organization BusinessDomain CapabilityDomain Application Role].
  assert (existsb blank [o; b; c; a; r] = false) as ->; [|done].
  apply not_true_iff_false. intros (p&Hin&Hb)%existsb_exists.
  apply list_elem_of_In in Hin. unfold clean_dims in Hd. rewrite Forall_forall in Hd.
  destruct (Hd p Hin) as [Hp1 Hp2]. apply blank_true in Hb. congruence.
Qed.

Lemma Forall_dims (P : str → Prop) d :
  Forall P (dims_list d) ↔
  P (Organization d) ∧ P (BusinessDomain d) ∧ P (CapabilityDomain d) ∧ P (Application d) ∧ P (Role d).
Proof. unfold dims_list. rewrite !Forall_cons, Forall_nil. naive_solver. Qed.

(** ** Normalised identities *)
Definition wf_identity (i : Identity) : Prop :=
  trimmed (Service i) ∧ Service i ≠ [] ∧
  (dims i = empty_dims ∧ ParseServiceName (Service i) = None ∨
   clean_dims (dims i) ∧ Service i = ComposeServiceName (dims i)).

Lemma hasAny_false d : hasAnyServiceDimension (dims_list d) = false ↔ Forall (λ p, TrimSpace p = []) (dims_list d).
Proof.
  unfold hasAnyServiceDimension. rewrite <-not_true_iff_false, Forall_forall. split.
  - intros H p Hp. destruct (blank p) eqn:E; [by apply blank_true|]. destruct H.
    apply existsb_exists. exists p. rewrite E. split; [by apply list_elem_of_In|done].
  - intros H (p&Hp%list_elem_of_In&Hb)%existsb_exists. apply negb_true_iff, blank_false in Hb. by apply Hb, H.
Qed.
Lemma hasAll_true d : hasAllServiceDimensions (dims_list d) = true ↔ Forall (λ p, TrimSpace p ≠ []) (dims_list d).
Proof.
  unfold hasAllServiceDimensions. rewrite andb_true_iff, forallb_forall, Forall_forall. split.
  - intros [H _] p Hp%list_elem_of_In. by apply blank_false, negb_true_iff, H.
  - intros H. split; [|done]. intros p Hp%list_elem_of_In. by apply negb_true_iff, blank_false, H.
Qed.
Lemma trimmed_blank_dims d :
  Forall trimmed (dims_list d) → Forall (λ p, TrimSpace p = []) (dims_list d) → d = empty_dims.
Proof.
  rewrite !Forall_dims. unfold trimmed. destruct d; cbn. intros (?&?&?&?&?) (?&?&?&?&?).
  unfold empty_dims. f_equal; congruence.
Qed.
Lemma map_dims_trimmed d : Forall trimmed (dims_list (map_dims TrimSpace d)).
Proof. destruct d. repeat constructor; apply TrimSpace_idemp. Qed.
Lemma or_parsed_cases x p : or_parsed x p = x ∨ x = [] ∧ or_parsed x p = p.
Proof. unfold or_parsed. case_bool_decide; auto. Qed.
Lemma or_parsed_trimmed x p : trimmed x → trimmed p → trimmed (or_parsed x p).
Proof. intros ??. by destruct (or_parsed_cases x p) as [-> | [_ ->]]. Qed.
Lemma or_parsed_blank x p : trimmed x → TrimSpace (or_parsed x p) = [] → TrimSpace p = [].
Proof. unfold or_parsed, trimmed. case_bool_decide; [done|]. intros -> ?. done. Qed.
Lemma merge_trimmed d p : Forall trimmed (dims_list d) → Forall trimmed (dims_list p) →
  Forall trimmed (dims_list (merge_dims d p)).
Proof.
  rewrite !Forall_dims. destruct d, p; cbn. intros (?&?&?&?&?) (?&?&?&?&?).
  split_and!; by apply or_parsed_trimmed.
Qed.
(** Merged levels that compose to the service name are trimmed: the name has
    exactly four dots, so no level can hide a dot, and each level is then a part
    of the name. *)
Lemma merge_canonical d0 s p :
  Forall trimmed (dims_list d0) → ParseServiceName s = Some p →
  TrimSpace s = ComposeServiceName (merge_dims d0 p) →
  Forall trimmed (dims_list (merge_dims d0 p)).
Proof.
  intros Hd0 Hp Hs. apply ParseServiceName_Some in Hp as (Hj&Hdot&_).
  assert (map TrimSpace (dims_list (merge_dims d0 p)) = dims_list p) as Hm.
  { apply (Join_parts_inj ch_dot); [done|done|done|]. rewrite Hj. symmetry. exact Hs. }
  clear Hj Hdot Hs. rewrite Forall_dims in Hd0 |- *. destruct d0, p; cbn in *.
  destruct Hd0 as (?&?&?&?&?). injection Hm as E1 E2 E3 E4 E5.
  assert (∀ x y, trimmed x → TrimSpace (or_parsed x y) = y → trimmed (or_parsed x y)) as Hor.
  { intros x y Hx Hy. destruct (or_parsed_cases x y) as [->|[_ E]]; [done|]. by rewrite E in *. }
  split_and!; by apply Hor.
Qed.

Lemma NormalizeStructuredServiceIdentity_wf i i' :
  NormalizeStructuredServiceIdentity i = Ok i' → wf_identity i'.
Proof.
  unfold NormalizeStructuredServiceIdentity. pose proof (map_dims_trimmed (dims i)) as Ht.
  set (d0 := map_dims TrimSpace (dims i)) in *. pose proof (TrimSpace_trimmed (Service i)) as Hst.
  set (s := TrimSpace (Service i)) in *.
  destruct (bool_decide_reflect (s = [])) as [Hs|Hs]; cbn [negb andb].
  - destruct (hasAnyServiceDimension (dims_list d0)) eqn:Hany; cbn [negb]; [|done].
    destruct (hasAllServiceDimensions (dims_list d0)) eqn:Hall; cbn [negb]; [|done].
    apply hasAll_true in Hall. intros [= <-]. unfold wf_identity. cbn [Service dims].
    assert (clean_dims d0) as Hc.
    { unfold clean_dims. rewrite Forall_forall in *. intros p Hp. split; [by apply Ht|].
      intros E. apply (Hall p Hp). by rewrite E. }
    split; [|split; [|by right]].
    + rewrite ComposeServiceName_clean by done. by apply Join_trimmed; [|by vm_compute].
    + rewrite ComposeServiceName_clean by done. destruct d0 as [o b c a r].
      apply Forall_cons in Hc as [[_ Ho] _]. by destruct o.
  - destruct (hasAnyServiceDimension _) eqn:Hany; cbn [negb].
    + destruct (hasAllServiceDimensions _) eqn:Hall; cbn [negb]; [|done].
      case_bool_decide as Hcan; [|done]. intros [= <-]. unfold wf_identity. cbn [Service dims].
      split; [done|]. split; [done|]. right. split; [|done].
      apply hasAll_true in Hall.
      assert (Forall trimmed (dims_list (merge_dims d0 (parsed_dims s)))) as Hm.
      { unfold parsed_dims in *. destruct (ParseServiceName s) as [p|] eqn:E; cbn [default from_option] in *.
        - apply (merge_canonical _ s); [done|done|]. by rewrite Hst.
        - apply merge_trimmed; [done|]. by repeat constructor. }
      unfold clean_dims. rewrite Forall_forall in *. intros p Hp. split; [by apply Hm|].
      intros E. apply (Hall p Hp). by rewrite E.
    + intros [= <-]. unfold wf_identity. cbn [Service dims]. split; [done|]. split; [done|]. left.
      apply hasAny_false in Hany.
      assert (ParseServiceName s = None) as Hp.
      { destruct (ParseServiceName s) as [p|] eqn:E; [|done].
        unfold parsed_dims in Hany. rewrite E in Hany. cbn in Hany.
        apply ParseServiceName_Some in E as (_&_&Hne). rewrite Forall_dims in Hany, Hne, Ht. destruct d0 as [o b c a r], p as [o' b' c' a' r'].
        cbn in Hany, Hne, Ht. destruct Hany as [Ho _], Hne as [Ho' _], Ht as [Hto _].
        exfalso. by eapply Ho', or_parsed_blank, Ho. }
      split; [|done]. apply trimmed_blank_dims; [|done].
      apply merge_trimmed; [done|]. unfold parsed_dims. rewrite Hp. by repeat constructor.
Qed.

Lemma clean_map_id d : clean_dims d → map_dims TrimSpace d = d.
Proof.
  intros H%map_trim_clean. destruct d as [o b c a r]. cbn in H. unfold map_dims. cbn.
  injection H as -> -> -> -> ->. done.
Qed.
Lemma merge_clean d p : clean_dims d → merge_dims d p = d.
Proof.
  unfold clean_dims. rewrite Forall_dims. destruct d; cbn.
  intros ([_ ?]&[_ ?]&[_ ?]&[_ ?]&[_ ?]). unfold merge_dims, or_parsed; cbn. by rewrite !bool_decide_false.
Qed.
(** A normalised identity is a fixed point. *)
Lemma NormalizeStructuredServiceIdentity_fix i :
  wf_identity i → NormalizeStructuredServiceIdentity i = Ok i.
Proof.
  destruct i as [s d]. intros (Ht&Hne&Hd). cbn [Service dims] in *.
  unfold NormalizeStructuredServiceIdentity. cbn [Service dims]. rewrite Ht, bool_decide_false by done.
  cbn [negb andb]. destruct Hd as [[-> Hp]|[Hc Hs]].
  - unfold parsed_dims. rewrite Hp. done.
  - rewrite clean_map_id, merge_clean by done.
    assert (hasAllServiceDimensions (dims_list d) = true) as Hall.
    { apply hasAll_true. unfold clean_dims in Hc. rewrite Forall_forall in *.
      intros p Hp. destruct (Hc p Hp) as [Htp ?]. by rewrite Htp. }
    assert (hasAnyServiceDimension (dims_list d) = true) as ->.
    { apply not_false_iff_true. rewrite hasAny_false. apply hasAll_true in Hall.
      destruct d as [o b c a r]. apply Forall_cons in Hall as [? _]. intros [? _]%Forall_cons. done. }
    rewrite Hall. cbn [negb]. by rewrite bool_decide_true.
Qed.

(** ** Label and metadata maps *)
Definition clean_map (m : gmap str str) : Prop :=
  map_Forall (λ k v, trimmed k ∧ k ≠ [] ∧ trimmed v) m.

Section clone_lemmas.
Context `{GoRange}.

Lemma clone_fold_lookup l acc k :
  NoDup (l.*1) → Forall (λ kv, trimmed kv.1 ∧ kv.1 ≠ [] ∧ trimmed kv.2) l →
  fold_left clone_entry l acc !! k =
  match (list_to_map l : gmap str str) !! k with Some v => Some v | None => acc !! k end.
Proof.
  revert acc. induction l as [|[k' v'] l IH]; intros acc Hnd Hl; [done|].
  apply NoDup_cons in Hnd as [Hk' Hnd]. apply Forall_cons in Hl as [(Hk&Hne&Hv) Hl].
  cbn in Hk, Hne, Hv. cbn [fold_left list_to_map foldr]. rewrite IH by done.
  unfold clone_entry. cbn [fst snd]. rewrite Hk, Hv, bool_decide_false by done.
  destruct (decide (k = k')) as [->|Hkk].
  - rewrite lookup_insert_eq. cbn. rewrite lookup_insert_eq.
    by rewrite (not_elem_of_list_to_map_1 l k' Hk').
  - rewrite lookup_insert_ne by done. cbn. by rewrite lookup_insert_ne.
Qed.
(** A map with trimmed, non-blank keys and trimmed values is copied as it is. *)
Lemma CloneStringMap_id m : clean_map m → CloneStringMap m = m.
Proof.
  intros Hm. unfold CloneStringMap. case_bool_decide as He; [done|].
  apply map_eq. intros k.
  assert (NoDup ((range m).*1)) as Hnd by (rewrite range_perm; apply NoDup_fst_map_to_list).
  rewrite clone_fold_lookup; [|done|].
  - rewrite lookup_empty.
    rewrite (list_to_map_proper _ (map_to_list m)) by (done || apply range_perm).
    rewrite list_to_map_to_list. by destruct (m !! k).
  - apply Forall_forall. intros [k' v'] Hin. rewrite range_perm in Hin.
    apply elem_of_map_to_list in Hin. apply (Hm _ _ Hin).
Qed.
Lemma CloneStringMap_clean m : clean_map (CloneStringMap m).
Proof.
  unfold CloneStringMap. case_bool_decide; [apply map_Forall_empty|].
  assert (∀ l acc, clean_map acc → clean_map (fold_left clone_entry l acc)) as Hf.
  { induction l as [|[k v] l IH]; intros acc Hacc; [done|]. apply IH.
    unfold clone_entry. cbn [fst snd]. case_bool_decide; [done|].
    apply map_Forall_insert_2; [|done]. split_and!; [apply TrimSpace_trimmed|done|apply TrimSpace_trimmed]. }
  apply Hf, map_Forall_empty.
Qed.
End clone_lemmas.

(** ** Normalised endpoints and registrations *)
Definition wf_endpoint (e : Endpoint) : Prop :=
  (trimmed (ep_Name e) ∧ ep_Name e ≠ []) ∧ (trimmed (ep_Protocol e) ∧ ep_Protocol e ≠ []) ∧
  (trimmed (ep_Host e) ∧ ep_Host e ≠ []) ∧ (1 ≤ ep_Port e ≤ 65535)%Z ∧
  trimmed (ep_Path e) ∧ (0 < ep_Weight e)%Z.
Definition wf_endpoints (es : list Endpoint) : Prop :=
  Forall wf_endpoint es ∧ NoDup (map ep_Name es).
Record wf_input (r : RegisterInput) : Prop := {
  wf_namespace : trimmed (ri_Namespace r);
  wf_id : wf_identity (ri_Identity r);
  wf_instance : trimmed (ri_InstanceID r);
  wf_zone : trimmed (ri_Zone r);
  wf_labels : clean_map (ri_Labels r);
  wf_metadata : clean_map (ri_Metadata r);
  wf_nonempty : ri_Endpoints r ≠ [];
  wf_eps : wf_endpoints (ri_Endpoints r);
  wf_ttl : (0 < ri_LeaseTTLSeconds r)%Z
}.

Lemma normalize_endpoint_ok es e es' :
  normalize_endpoint es e = Ok es' →
  ∃ e', es' = es ++ [e'] ∧ wf_endpoint e' ∧ ep_Name e' ∉ map ep_Name es ∧
        ep_Host e' = TrimSpace (ep_Host e) ∧ ep_Port e' = ep_Port e.
Proof.
  unfold normalize_endpoint. set (name := if bool_decide (TrimSpace (ep_Name e) = []) then _ else _).
  rewrite !result_bind_ok. intros (?&Hp%fail_if_ok&H). rewrite !result_bind_ok in H.
  destruct H as (?&Hh%fail_if_ok&H). rewrite !result_bind_ok in H.
  destruct H as (?&Ho%fail_if_ok&H). rewrite !result_bind_ok in H.
  destruct H as (?&Hw%fail_if_ok&H). rewrite !result_bind_ok in H.
  destruct H as (?&Hd%fail_if_ok&[= <-]).
  apply bool_decide_eq_false in Hp, Hh, Hd. apply orb_false_iff in Ho as [Ho1 Ho2].
  eexists. split; [done|]. split; [|by split_and!].
  unfold wf_endpoint; cbn. pose proof TrimSpace_trimmed as Ht.
  split_and!; try done; try (apply Ht).
  - unfold name. case_bool_decide; apply Ht.
  - unfold name. by case_bool_decide.
  - lia.
  - lia.
  - unfold DefaultEndpointWeight. destruct (Z.eqb_spec (ep_Weight e) 0); lia.
Qed.
Lemma normalize_endpoints_ok es0 es es' :
  foldM normalize_endpoint es0 es = Ok es' → wf_endpoints es0 →
  wf_endpoints es' ∧ length es' = length es0 + length es.
Proof.
  revert es0. induction es as [|e es IH]; intros es0; cbn [foldM].
  - intros [= <-] ?. cbn. split; [done|lia].
  - rewrite result_bind_ok. intros (es1&(e'&->&He&Hn&_)%normalize_endpoint_ok&H) [Hall Hnd].
    destruct (IH _ H) as [? Hlen].
    + split; [by apply Forall_app; split; [|by constructor]|].
      rewrite map_app, NoDup_app. cbn. split_and!; [done|set_solver|apply NoDup_singleton].
    + split; [done|]. rewrite Hlen, length_app. cbn. lia.
Qed.
Lemma normalize_endpoint_fix es e :
  wf_endpoint e → ep_Name e ∉ map ep_Name es → normalize_endpoint es e = Ok (es ++ [e]).
Proof.
  destruct e as [n p h po pa w]. intros ((Hn&Hne)&(Hp&Hpe)&(Hh&Hhe)&Hpo&Hpa&Hw) Hd.
  unfold normalize_endpoint; cbn [ep_Name ep_Protocol ep_Host ep_Port ep_Path ep_Weight] in *.
  rewrite Hn, Hp, Hh, Hpa. rewrite !bool_decide_false by done. unfold fail_if.
  replace (po <=? 0)%Z with false by lia. replace (65535 <? po)%Z with false by lia.
  replace (w <? 0)%Z with false by lia. replace (w =? 0)%Z with false by lia. done.
Qed.
Lemma normalize_endpoints_fix es0 es :
  wf_endpoints (es0 ++ es) → foldM normalize_endpoint es0 es = Ok (es0 ++ es).
Proof.
  revert es0. induction es as [|e es IH]; intros es0 [Hall Hnd]; cbn [foldM]; [by rewrite app_nil_r|].
  rewrite normalize_endpoint_fix.
  - cbn [mbind result_bind]. rewrite IH; [by rewrite <-app_assoc|]. unfold wf_endpoints. by rewrite <-app_assoc.
  - apply Forall_app in Hall as [_ Hall]. by apply Forall_cons in Hall as [? _].
  - rewrite map_app in Hnd. apply NoDup_app in Hnd as (_&Hnd&_). intros Hin. apply (Hnd _ Hin). left.
Qed.

Section normalize.
Context `{GoRange}.

Lemma NormalizeRegisterInput_ok request r :
  NormalizeRegisterInput request = Ok r → wf_input r ∧ NormalizeRegisterInput r = Ok r.
Proof.
  intros Hn. assert (wf_input r) as Hwf.
  { revert Hn. unfold NormalizeRegisterInput. rewrite result_bind_ok.
    intros (i&Hi%NormalizeStructuredServiceIdentity_wf&H'). rewrite result_bind_ok in H'.
    destruct H' as (?&Httl%fail_if_ok&H'). rewrite result_bind_ok in H'.
    destruct H' as (?&He%fail_if_ok&H'). rewrite result_bind_ok in H'.
    destruct H' as (es&Hes&[= <-]). apply bool_decide_eq_false in He.
    apply normalize_endpoints_ok in Hes as [Hes Hlen]; [|split; constructor].
    split; cbn; try apply TrimSpace_trimmed; try apply CloneStringMap_clean; try done.
    - intros ->. by destruct (ri_Endpoints request).
    - unfold EffectiveLeaseTTLSeconds, DefaultLeaseTTLSeconds. destruct (Z.ltb_spec 0 (ri_LeaseTTLSeconds request)); lia. }
  split; [done|]. destruct r as [ns i id z l m es ttl], Hwf; cbn in *.
  unfold NormalizeRegisterInput; cbn [ri_Namespace ri_Identity ri_InstanceID ri_Zone ri_Labels ri_Metadata ri_Endpoints ri_LeaseTTLSeconds].
  rewrite NormalizeStructuredServiceIdentity_fix by done. cbn [mbind result_bind].
  replace (ttl <? 0)%Z with false by lia. rewrite bool_decide_false by done. cbn [fail_if mbind result_bind].
  rewrite (normalize_endpoints_fix []) by done. cbn [app mbind result_bind].
  rewrite wf_namespace0, wf_instance0, wf_zone0, !CloneStringMap_id by done.
  unfold EffectiveLeaseTTLSeconds. by replace (0 <? ttl)%Z with true by lia.
Qed.
(** C25: an accepted registration is well formed, and normalising it again
    changes nothing. *)
Theorem NormalizeRegisterInput_correct request r :
  NormalizeRegisterInput request = Ok r → wf_input r ∧ NormalizeRegisterInput r = Ok r.
Proof. apply NormalizeRegisterInput_ok. Qed.
End normalize.

(** ** Keys *)
Definition segment (s : str) : Prop := ch_slash ∉ s ∧ blank s = false.
#[export] Instance segment_dec s : Decision (segment s) := _.

Lemma Key_Join n s i : Key n s i = RootPrefix ++ Join [n; s; i] [ch_slash].
Proof. done. Qed.
Lemma slash_app_inj (a b x y : str) :
  ch_slash ∉ a → ch_slash ∉ b → a ++ ch_slash :: x = b ++ ch_slash :: y → a = b ∧ x = y.
Proof.
  intros Ha Hb E. apply (f_equal (λ s, cut s [ch_slash])) in E.
  rewrite !cut_byte_app in E by done. by injection E.
Qed.
Lemma ParseKey_sound key n s i :
  ParseKey key = Some (n, s, i) → key = Key n s i ∧ segment n ∧ segment s ∧ segment i.
Proof.
  unfold ParseKey. destruct (HasPrefix key RootPrefix) eqn:Hp; [|done]. cbn [negb].
  apply HasPrefix_spec in Hp as [t ->]. rewrite TrimPrefix_app.
  pose proof (Join_Split t ch_slash) as Hj. pose proof (Split_parts t ch_slash) as Hs.
  destruct (Split t [ch_slash]) as [|n' [|s' [|i' [|]]]]; try done.
  destruct (blank n' || blank s' || blank i') eqn:Hb; [done|]. intros [= -> -> ->].
  rewrite !orb_false_iff in Hb. destruct Hb as [[? ?] ?].
  rewrite !Forall_cons in Hs. destruct Hs as (?&?&?&_). rewrite Key_Join, Hj. by split_and!.
Qed.
Lemma ParseKey_complete n s i :
  segment n → segment s → segment i → ParseKey (Key n s i) = Some (n, s, i).
Proof.
  intros [Hn Hbn] [Hs Hbs] [Hi Hbi]. unfold ParseKey.
  rewrite Key_Join, HasPrefix_app, TrimPrefix_app. cbn [negb].
  rewrite Split_Join by (by repeat constructor). by rewrite Hbn, Hbs, Hbi.
Qed.

(** C28: reading a key back.  [ParseKey] accepts exactly the keys built from three
    non-blank fields without a slash, and returns those fields. *)
Theorem ParseKey_iff key n s i :
  ParseKey key = Some (n, s, i) ↔ key = Key n s i ∧ segment n ∧ segment s ∧ segment i.
Proof. split; [apply ParseKey_sound|]. intros (->&?&?&?). by apply ParseKey_complete. Qed.

(** The scan prefix of a service selects exactly the instances of that service. *)
Theorem ServicePrefix_exact n s n' s' i' :
  segment n → segment s → segment n' → segment s' →
  HasPrefix (Key n' s' i') (ServicePrefix n s) = true ↔ n' = n ∧ s' = s.
Proof.
  intros [Hn _] [Hs _] [Hn' _] [Hs' _]. rewrite HasPrefix_spec. unfold Key, ServicePrefix. split.
  - intros [t Ht]. rewrite <-!app_assoc in Ht. apply app_inv_head in Ht.
    cbn [app] in Ht. apply slash_app_inj in Ht as [-> Ht]; [|done|done].
    by apply slash_app_inj in Ht as [-> _].
  - intros [-> ->]. exists i'. by rewrite <-!app_assoc.
Qed.

Definition slashed_input (namespace service : string) : RegisterInput :=
  MkRegisterInput (lit namespace) (MkIdentity (lit service) empty_dims) (lit "i1") [] ∅ ∅
    [MkEndpoint (lit "http") (lit "http") (lit "10.0.0.1") 8080 [] 100] 30.
(** Nothing rejects a slash in an identity field, so two registrations with
    different identities, both accepted as they are, share one storage key. *)
Theorem Key_collision `{GoRange} :
  let a := slashed_input "prod/blue" "orders" in
  let b := slashed_input "prod" "blue/orders" in
  NormalizeRegisterInput a = Ok a ∧ NormalizeRegisterInput b = Ok b ∧
  Key (ri_Namespace a) (Service (ri_Identity a)) (ri_InstanceID a)
  = Key (ri_Namespace b) (Service (ri_Identity b)) (ri_InstanceID b) ∧ a ≠ b.
Proof.
  cbv zeta.
  assert (∀ n s, NormalizeStructuredServiceIdentity (MkIdentity (lit s) empty_dims) = Ok (MkIdentity (lit s) empty_dims) →
    TrimSpace (lit n) = lit n → NormalizeRegisterInput (slashed_input n s) = Ok (slashed_input n s)) as Hok.
  { intros n s Hi Hn. unfold NormalizeRegisterInput, slashed_input; cbn [ri_Namespace ri_Identity ri_Labels ri_Metadata ri_Zone ri_InstanceID ri_Endpoints ri_LeaseTTLSeconds].
    rewrite Hi, Hn, !CloneStringMap_id by apply map_Forall_empty. by vm_compute. }
  split; [by apply Hok; vm_compute|]. split; [by apply Hok; vm_compute|].
  split; [by vm_compute|]. by intros [=].
Qed.

(** ** Leases *)
Lemma EffectiveLeaseTTLSeconds_pos ttl : (0 < EffectiveLeaseTTLSeconds ttl)%Z.
Proof. unfold EffectiveLeaseTTLSeconds, DefaultLeaseTTLSeconds. destruct (Z.ltb_spec 0 ttl); lia. Qed.
(** The last sign of life: the heartbeat, or the registration before the first one. *)
Definition last_seen (v : Value) : Z :=
  if (v_LastHeartbeatUnix v <=? 0)%Z then v_RegisteredAtUnix v else v_LastHeartbeatUnix v.

Lemma IsAlive_spec v now :
  (0 < now)%Z → (0 < last_seen v)%Z →
  (last_seen v + EffectiveLeaseTTLSeconds (v_LeaseTTLSeconds v) < 2 ^ 63)%Z →
  IsAlive v now = true ↔ (now ≤ last_seen v + EffectiveLeaseTTLSeconds (v_LeaseTTLSeconds v))%Z.
Proof.
  intros Hnow Hseen Hov. unfold IsAlive. fold (last_seen v).
  replace (now <=? 0)%Z with false by lia. replace (last_seen v <=? 0)%Z with false by lia.
  pose proof (EffectiveLeaseTTLSeconds_pos (v_LeaseTTLSeconds v)).
  rewrite i64_id by (unfold is_i64; lia). by rewrite Z.leb_le.
Qed.
Lemma IsAlive_overflow v now :
  (0 < now)%Z → (0 < last_seen v < 2 ^ 63)%Z → (EffectiveLeaseTTLSeconds (v_LeaseTTLSeconds v) < 2 ^ 63)%Z →
  (2 ^ 63 ≤ last_seen v + EffectiveLeaseTTLSeconds (v_LeaseTTLSeconds v))%Z → IsAlive v now = false.
Proof.
  intros Hnow Hseen Httl Hov. unfold IsAlive. fold (last_seen v).
  replace (now <=? 0)%Z with false by lia. replace (last_seen v <=? 0)%Z with false by lia.
  rewrite i64_wrap_high by lia. apply Z.leb_gt. lia.
Qed.
(** C20: Leases, for every value whose fields are 64-bit integers: an instance is alive exactly until TTL
    seconds (the default ones when none are set) after its last sign of life, provided that
    second fits an int64; when it does not, the sum wraps and the instance counts as
    expired from the moment it registers. *)
Theorem IsAlive_exact v now :
  (0 < now)%Z → (0 < last_seen v)%Z → is_i64 (last_seen v) → is_i64 (v_LeaseTTLSeconds v) →
  let expiry := (last_seen v + EffectiveLeaseTTLSeconds (v_LeaseTTLSeconds v))%Z in
  IsAlive v now = true ↔ (now ≤ expiry ∧ expiry < 2 ^ 63)%Z.
Proof.
  intros Hnow Hseen [_ Hl] [_ Ht] expiry.
  assert (EffectiveLeaseTTLSeconds (v_LeaseTTLSeconds v) < 2 ^ 63)%Z as He
    by (unfold EffectiveLeaseTTLSeconds, DefaultLeaseTTLSeconds; destruct (0 <? _)%Z; lia).
  destruct (Z.lt_ge_cases expiry (2 ^ 63)) as [Hf|Hf].
  - rewrite IsAlive_spec by done. subst expiry. lia.
  - rewrite IsAlive_overflow by (done || lia). split; [done|lia].
Qed.

(** ** Queries *)
Definition matches_service (service : str) (q : Query) : Prop :=
  (q_Service q = [] ∨ service = q_Service q) ∧
  (q_Services q = [] ∨ service ∈ q_Services q) ∧
  (q_ServicePrefixes q = [] ∨ ∃ p, p ∈ q_ServicePrefixes q ∧ HasPrefix service p = true).
Definition matches_query (v : Value) (q : Query) : Prop :=
  (q_Namespace q = [] ∨ v_Namespace v = q_Namespace q) ∧
  matches_service (TrimSpace (Service (v_Identity v))) q ∧
  (q_Zone q = [] ∨ v_Zone v = q_Zone q) ∧
  Forall (satisfies (v_Labels v)) (q_Selector q) ∧
  (q_Endpoint q = [] ∨
   ∃ e, e ∈ v_Endpoints v ∧ (ep_Name e = q_Endpoint q ∨ ep_Protocol e = q_Endpoint q)).

Lemma match_prefix_spec s p : match_prefix s p = true ↔ HasPrefix s p = true.
Proof.
  unfold match_prefix. rewrite !orb_true_iff, bool_decide_eq_true. split; [|by right].
  intros [[->|H]|H]; [|by apply HasPrefix_app_inv in H|done]. rewrite <-(app_nil_r p) at 1. apply HasPrefix_app.
Qed.
Lemma MatchServiceQuery_spec s q :
  MatchServiceQuery s q = true ↔ matches_service (TrimSpace s) q.
Proof.
  unfold MatchServiceQuery, matches_service.
  assert (existsb (λ e, bool_decide (TrimSpace s = e)) (q_Services q) = true ↔ TrimSpace s ∈ q_Services q) as H1.
  { rewrite existsb_exists. setoid_rewrite <-list_elem_of_In. setoid_rewrite bool_decide_eq_true. naive_solver. }
  assert (existsb (match_prefix (TrimSpace s)) (q_ServicePrefixes q) = true ↔
          ∃ p, p ∈ q_ServicePrefixes q ∧ HasPrefix (TrimSpace s) p = true) as H2.
  { rewrite existsb_exists. setoid_rewrite <-list_elem_of_In. by setoid_rewrite match_prefix_spec. }
  destruct (existsb (λ e, _) _), (existsb (match_prefix _) _); repeat case_bool_decide; cbn; naive_solver.
Qed.
Lemma FilterEndpoints_nonempty es e :
  e ≠ [] → FilterEndpoints es e ≠ [] ↔ ∃ x, x ∈ es ∧ (ep_Name x = e ∨ ep_Protocol x = e).
Proof.
  intros He. unfold FilterEndpoints. rewrite bool_decide_false by done.
  assert (∀ x, In x (List.filter (λ e0, bool_decide (ep_Name e0 = e) || bool_decide (ep_Protocol e0 = e)) es)
          ↔ x ∈ es ∧ (ep_Name x = e ∨ ep_Protocol x = e)) as Hin.
  { intros x. by rewrite filter_In, list_elem_of_In, orb_true_iff, !bool_decide_eq_true. }
  setoid_rewrite <-Hin. destruct (List.filter _ es) as [|x l]; cbn; [naive_solver|].
  split; [intros _; exists x; by left|done].
Qed.
Lemma CloneEndpoints_id es : CloneEndpoints es = es.
Proof. unfold CloneEndpoints. rewrite <-(map_id es) at 2. apply map_ext. by intros []. Qed.

Lemma MatchQuery_spec v q :
  Forall wf_requirement (q_Selector q) →
  ∃ b, MatchQuery v q = Some b ∧ (b = true ↔ matches_query v q).
Proof.
  intros Hsel. unfold MatchQuery, matches_query.
  pose proof (MatchServiceQuery_spec (Service (v_Identity v)) q) as Hs.
  destruct (MatchesLabelSelector_spec (v_Labels v) _ Hsel) as (b&->&Hb).
  pose proof (FilterEndpoints_nonempty (v_Endpoints v) (q_Endpoint q)) as Hf.
  assert (∀ x y : str, negb (bool_decide (x = [])) && negb (bool_decide (y = x)) = false ↔ x = [] ∨ y = x) as Hnb.
  { intros x y. rewrite andb_false_iff, !negb_false_iff, !bool_decide_eq_true. done. }
  destruct (negb (bool_decide (q_Namespace q = [])) && _) eqn:E1.
  { exists false. split; [done|]. split; [done|]. intros (H%Hnb&_). congruence. }
  destruct (MatchServiceQuery _ q) eqn:E2; cbn [negb].
  2:{ exists false. split; [done|]. split; [done|]. intros (_&H%Hs&_). congruence. }
  destruct (negb (bool_decide (q_Zone q = [])) && _) eqn:E3.
  { exists false. split; [done|]. split; [done|]. intros (_&_&H%Hnb&_). congruence. }
  apply Hnb in E1, E3. assert (true = true) as E2' by done. apply Hs in E2'.
  destruct b.
  - eexists. split; [done|]. rewrite negb_true_iff, andb_false_iff, negb_false_iff, bool_decide_eq_true, bool_decide_eq_false.
    destruct (decide (q_Endpoint q = [])) as [He|He]; [naive_solver|]. rewrite Hf by done. naive_solver.
  - exists false. split; [done|]. split; [done|]. intros (_&_&_&H%Hb&_). done.
Qed.

(** The queries [ParseQuery] produces. *)
Record wf_query (q : Query) : Prop := {
  wq_namespace : trimmed (q_Namespace q) ∧ q_Namespace q ≠ [];
  wq_services : NoDup (q_Services q) ∧ Forall (λ s, trimmed s ∧ s ≠ []) (q_Services q);
  wq_prefixes : NoDup (q_ServicePrefixes q) ∧ Forall (λ s, trimmed s ∧ s ≠ []) (q_ServicePrefixes q);
  wq_service : q_Service q = [] ∨ q_Service q ∈ q_Services q;
  wq_selector : Forall wf_requirement (q_Selector q);
  wq_limit : (0 ≤ q_Limit q)%Z
}.
Definition unique_texts (l : list str) : Prop := NoDup l ∧ Forall (λ s, trimmed s ∧ s ≠ []) l.

Lemma unique_loop_unique vs acc : unique_texts acc → unique_texts (unique_loop vs acc).
Proof.
  revert acc. induction vs as [|v vs IH]; intros acc Hacc; cbn [unique_loop]; [done|].
  destruct (bool_decide_reflect (TrimSpace v = [])); [by apply IH|].
  destruct (bool_decide_reflect (TrimSpace v ∈ acc)); [by apply IH|]. cbn [orb]. apply IH.
  destruct Hacc as [Hnd Hall]. split.
  - apply NoDup_app. split; [done|]. split; [set_solver|apply NoDup_singleton].
  - apply Forall_app. split; [done|]. constructor; [|done]. split; [apply TrimSpace_trimmed|done].
Qed.
Lemma unique_loop_elem vs acc s :
  s ∈ unique_loop vs acc ↔ s ∈ acc ∨ s ≠ [] ∧ ∃ v, v ∈ vs ∧ s = TrimSpace v.
Proof.
  revert acc. induction vs as [|v vs IH]; intros acc; cbn [unique_loop]; [set_solver|].
  destruct (bool_decide_reflect (TrimSpace v = [])) as [E|E];
    destruct (bool_decide_reflect (TrimSpace v ∈ acc)) as [E'|E']; cbn [orb]; rewrite IH; set_solver.
Qed.
Lemma appendUniqueString_unique vs v : unique_texts vs → unique_texts (appendUniqueString vs v).
Proof.
  intros [Hnd Hall]. unfold appendUniqueString.
  destruct (bool_decide_reflect (TrimSpace v = [])); [done|].
  destruct (bool_decide_reflect (TrimSpace v ∈ vs)); [done|]. cbn [orb]. split.
  - apply NoDup_app. split; [done|]. split; [set_solver|apply NoDup_singleton].
  - apply Forall_app. split; [done|]. constructor; [|done]. split; [apply TrimSpace_trimmed|done].
Qed.
Lemma appendUniqueString_elem vs v x :
  x ∈ appendUniqueString vs v ↔ x ∈ vs ∨ x = TrimSpace v ∧ x ≠ [].
Proof.
  unfold appendUniqueString.
  destruct (bool_decide_reflect (TrimSpace v = [])) as [E|E];
    destruct (bool_decide_reflect (TrimSpace v ∈ vs)) as [E'|E']; cbn [orb]; set_solver.
Qed.
Lemma appendUniqueString_incl vs v x : x ∈ vs → x ∈ appendUniqueString vs v.
Proof. rewrite appendUniqueString_elem. by left. Qed.

Lemma ComposeServiceName_trimmed d : trimmed (ComposeServiceName d).
Proof.
  apply Join_trimmed; [|by vm_compute]. apply Forall_forall. intros p Hp.
  apply list_elem_of_fmap in Hp as (p'&->&_). apply TrimSpace_trimmed.
Qed.
Lemma ComposeServiceName_nonempty d : ComposeServiceName d ≠ [].
Proof.
  destruct d as [o b c a r]. intros E%(f_equal length). unfold ComposeServiceName in E.
  cbn [dims_list map Join] in E. rewrite !length_app in E. cbn [length] in E. lia.
Qed.
Lemma take_nonempty_spec l : Forall (λ s, trimmed s) l →
  Forall (λ s, trimmed s ∧ s ≠ []) (take_nonempty l).
Proof.
  induction 1 as [|s l Hs Hl IH]; cbn; [constructor|]. case_bool_decide; [constructor|]. by constructor.
Qed.

Record partial_wf (q : Query) : Prop := {
  pw_services : unique_texts (q_Services q);
  pw_prefixes : unique_texts (q_ServicePrefixes q);
  pw_service : q_Service q = [] ∨ q_Service q ∈ q_Services q
}.
Lemma normalizeQueryServiceIdentity_wf values q q' :
  normalizeQueryServiceIdentity values q = Ok q' → partial_wf q →
  partial_wf q' ∧ q_Namespace q' = q_Namespace q.
Proof.
  intros Hn [Hs Hp Hin]. revert Hn. unfold normalizeQueryServiceIdentity.
  set (d := query_dims values (q_Service q)).
  destruct (negb (hasAnyServiceDimension (dims_list d))); [by intros [= <-]|].
  destruct (hasGapInServiceDimensions (dims_list d)); [done|].
  destruct (hasAllServiceDimensions (dims_list d)).
  - destruct (_ && _); [done|]. intros [= <-]. split; [|done]. split; cbn.
    + by apply appendUniqueString_unique.
    + done.
    + right. apply appendUniqueString_elem. right. rewrite (ComposeServiceName_trimmed d : TrimSpace _ = _).
      split; [done|apply ComposeServiceName_nonempty].
  - case_bool_decide; intros [= <-]; [done|]. split; [|done]. split; cbn; [done| |done].
    by apply appendUniqueString_unique.
Qed.

Section query.
Context `{CaseTable}.

Lemma ParseQuery_ok values q :
  ParseQuery values = Ok q →
  wf_query q ∧ ∀ v, ∃ b, MatchQuery v q = Some b ∧ (b = true ↔ matches_query v q).
Proof.
  intros Hq. assert (wf_query q) as Hwf; [|split; [done|]; intros v; by apply MatchQuery_spec, Hwf].
  revert Hq. unfold ParseQuery. rewrite result_bind_ok. intros (?&Hns%fail_if_ok&Hq).
  apply bool_decide_eq_false in Hns. rewrite result_bind_ok in Hq. destruct Hq as (q0&Hq0&Hq).
  rewrite result_bind_ok in Hq. destruct Hq as (limit&Hl&Hq).
  rewrite result_bind_ok in Hq. destruct Hq as (sel&Hsel%map_err_ok&[= <-]).
  apply normalizeQueryServiceIdentity_wf in Hq0 as [[[??] [??] ?] Hns0].
  - cbn in Hns0. split; cbn; try done.
    + rewrite Hns0. split; [apply TrimSpace_trimmed|done].
    + by eapply ParseLabelSelectorFilters_wf.
    + unfold parseLimit in Hl. destruct (blank _); [by injection Hl as <-|].
      destruct (Atoi _) as [l|]; [|done]. destruct (Z.ltb_spec l 0); [done|]. by injection Hl as <-.
  - assert (unique_texts []) as Hnil by (split; constructor).
    split; cbn; [by apply unique_loop_unique..|].
    set (services := normalizeStringSlice _).
    assert (TrimSpace (url_Get values "service") = [] ∨ TrimSpace (url_Get values "service") ∈ services) as Hin.
    { destruct (decide (TrimSpace (url_Get values "service") = [])) as [|Hne]; [by left|right].
      unfold services, normalizeStringSlice. apply unique_loop_elem. right. split; [done|].
      unfold url_Get in *. destruct (url_all values "service") as [|v l]; [done|].
      exists v. split; [left|done]. }
    destruct services as [|s [|]]; [done|by right; left|done].
Qed.

(** A query for several services returns instances of the first one only:
    the first value also becomes the exact filter, so an instance of the second
    service is rejected although its name is in the list. *)
Theorem ParseQuery_several_services namespace a b :
  TrimSpace namespace ≠ [] → a ≠ b → trimmed a → trimmed b → a ≠ [] → b ≠ [] →
  ParseServiceName a = None →
  ∃ q, ParseQuery (<[lit "namespace" := [namespace]]> (<[lit "service" := [a; b]]> ∅)) = Ok q ∧
       q_Services q = [a; b] ∧ MatchServiceQuery a q = true ∧ MatchServiceQuery b q = false.
Proof.
  intros Hns Hab Ha Hb Hane Hbne Hp.
  set (values := <[lit "namespace" := [namespace]]> (<[lit "service" := [a; b]]> ∅) : url_Values).
  assert (normalizeStringSlice [a; b] = [a; b]) as Hs.
  { unfold normalizeStringSlice. cbn [unique_loop]. rewrite Ha, Hb.
    rewrite (bool_decide_false (a = [])), (bool_decide_false (b = [])) by done.
    rewrite !bool_decide_false by set_solver. done. }
  set (q := MkQuery (TrimSpace namespace) a [a; b] [] [] [] [] 0).
  assert (normalizeQueryServiceIdentity values q = Ok q) as Hn.
  { unfold normalizeQueryServiceIdentity, query_dims, parsed_dims. cbn [q q_Service].
    rewrite Hp, bool_decide_false by done. reflexivity. }
  exists q. split.
  - unfold ParseQuery. change (url_Get values "namespace") with namespace.
    change (url_Get values "service") with a. change (url_all values "service") with [a; b].
    rewrite Hs, Ha, bool_decide_false by done. cbn [fail_if mbind result_bind].
    change (normalizeStringSlice (url_all values "servicePrefix")) with (@nil str).
    change (TrimSpace (url_Get values "zone")) with (@nil ascii).
    change (TrimSpace (url_Get values "endpoint")) with (@nil ascii).
    fold q. rewrite Hn. reflexivity.
  - split; [done|]. split.
    + apply MatchServiceQuery_spec. rewrite Ha. split; [by right|]. split; [right; left|by left].
    + apply not_true_iff_false. rewrite MatchServiceQuery_spec, Hb. intros [[E|E] _]; cbn in E; congruence.
Qed.

(** A hierarchy filter is a plain string prefix: restricting to an
    organization also returns every organization whose name extends it. *)
Theorem hierarchy_prefix_leak namespace org rest other :
  TrimSpace namespace ≠ [] → trimmed org → org ≠ [] → trimmed (org ++ rest ++ ch_dot :: other) →
  ∃ q, ParseQuery (<[lit "namespace" := [namespace]]> (<[lit "organization" := [org]]> ∅)) = Ok q ∧
       q_ServicePrefixes q = [org] ∧ MatchServiceQuery (org ++ rest ++ ch_dot :: other) q = true.
Proof.
  intros Hns Ho Hone Ht.
  set (values := <[lit "namespace" := [namespace]]> (<[lit "organization" := [org]]> ∅) : url_Values).
  set (q := MkQuery (TrimSpace namespace) [] [] [org] [] [] [] 0).
  assert (normalizeQueryServiceIdentity values (MkQuery (TrimSpace namespace) [] [] [] [] [] [] 0) = Ok q) as Hn.
  { assert (query_dims values [] = Dims org [] [] [] []) as Hd.
    { change (query_dims values []) with (Dims (TrimSpace org) [] [] [] []). by rewrite Ho. }
    unfold normalizeQueryServiceIdentity. cbn [q_Service]. rewrite Hd.
    unfold hasAnyServiceDimension, hasGapInServiceDimensions, hasAllServiceDimensions, serviceHierarchyDimensions.
    cbn [dims_list existsb gap_loop forallb map Organization BusinessDomain CapabilityDomain Application Role].
    change (blank []) with true. change (TrimSpace []) with (@nil ascii).
    rewrite (blank_trimmed org), Ho, (bool_decide_false (org = [])) by done.
    cbn [negb orb andb take_nonempty]. rewrite (bool_decide_false (org = [])) by done.
    change (Join (org :: _) [ch_dot]) with org. rewrite (bool_decide_false (org = [])) by done.
    unfold appendUniqueString. rewrite Ho, (bool_decide_false (org = [])) by done. reflexivity. }
  exists q. split; [|split; [done|]].
  - unfold ParseQuery. change (url_Get values "namespace") with namespace.
    rewrite bool_decide_false by done. cbn [fail_if mbind result_bind].
    change (normalizeStringSlice (url_all values "servicePrefix")) with (@nil str).
    change (normalizeStringSlice (url_all values "service")) with (@nil str).
    change (TrimSpace (url_Get values "service")) with (@nil ascii).
    change (TrimSpace (url_Get values "zone")) with (@nil ascii).
    change (TrimSpace (url_Get values "endpoint")) with (@nil ascii).
    cbv beta iota zeta. rewrite Hn. reflexivity.
  - apply MatchServiceQuery_spec. rewrite Ht. split; [by left|]. split; [by left|]. right.
    exists org. split; [left|apply HasPrefix_app].
Qed.
End query.

(** ** Instances of the properties *)
Definition sample_input : RegisterInput :=
  MkRegisterInput (lit " prod ") (MkIdentity (lit "acme.pay.core.api.web ") empty_dims) (lit "i-1") [] ∅ ∅
    [MkEndpoint [] (lit " http") (lit "10.0.0.1") 8080 [] 0] 0.
Definition sample_normalized : RegisterInput :=
  MkRegisterInput (lit "prod")
    (MkIdentity (lit "acme.pay.core.api.web") (Dims (lit "acme") (lit "pay") (lit "core") (lit "api") (lit "web")))
    (lit "i-1") [] ∅ ∅ [MkEndpoint (lit "http") (lit "http") (lit "10.0.0.1") 8080 [] 100] 30.
Lemma NormalizeRegisterInput_correct_witness :
  wf_input sample_normalized ∧ @NormalizeRegisterInput range_by_key sample_normalized = Ok sample_normalized.
Proof. apply (@NormalizeRegisterInput_correct range_by_key sample_input). by vm_compute. Defined.
Lemma ServicePrefix_exact_witness :
  HasPrefix (Key (lit "prod") (lit "orders2") (lit "i-1")) (ServicePrefix (lit "prod") (lit "orders")) = true
  ↔ lit "prod" = lit "prod" ∧ lit "orders2" = lit "orders".
Proof. apply ServicePrefix_exact; by apply (bool_decide_unpack _); vm_compute. Defined.
Definition sample_value (ttl seen : Z) : Value :=
  MkValue (lit "prod") (MkIdentity (lit "orders") empty_dims) (lit "i-1") [] ∅ ∅ [] ttl 5 seen.
Lemma IsAlive_exact_witness :
  (IsAlive (sample_value 0 1000) 1030 = true ↔ (1030 ≤ 1030 ∧ 1030 < 2 ^ 63)%Z) ∧
  (IsAlive (sample_value (2 ^ 63 - 1) 1760000000) 1760000000 = true ↔
    (1760000000 ≤ 1760000000 + (2 ^ 63 - 1) ∧ 1760000000 + (2 ^ 63 - 1) < 2 ^ 63)%Z).
Proof.
  split; [apply (IsAlive_exact (sample_value 0 1000) 1030)|apply (IsAlive_exact (sample_value (2 ^ 63 - 1) 1760000000) 1760000000)];
    by vm_compute.
Defined.
Definition sample_url : url_Values :=
  <[lit "namespace" := [lit "prod"]]> (<[lit "organization" := [lit "acme"]]>
    (<[lit "limit" := [lit "5"]]> (<[lit "selector" := [lit "env=a"]]> ∅))).
Definition sample_query : Query :=
  MkQuery (lit "prod") [] [] [lit "acme"] [] [] [LabelRequirement (lit "env") OpEquals [lit "a"]] 5.
Lemma ParseQuery_several_services_witness :
  ∃ q, @ParseQuery identity_case (<[lit "namespace" := [lit "prod"]]> (<[lit "service" := [lit "orders"; lit "users"]]> ∅)) = Ok q ∧
       q_Services q = [lit "orders"; lit "users"] ∧
       MatchServiceQuery (lit "orders") q = true ∧ MatchServiceQuery (lit "users") q = false.
Proof. apply (@ParseQuery_several_services identity_case); by vm_compute. Defined.
Lemma hierarchy_prefix_leak_witness :
  ∃ q, @ParseQuery identity_case (<[lit "namespace" := [lit "prod"]]> (<[lit "organization" := [lit "acme"]]> ∅)) = Ok q ∧
       q_ServicePrefixes q = [lit "acme"] ∧
       MatchServiceQuery (lit "acme" ++ lit "-labs" ++ ch_dot :: lit "pay.core.api.web") q = true.
Proof. apply (@hierarchy_prefix_leak identity_case); by vm_compute. Defined.
