(* ===== verification/ReplicationModel.v ===== *)
(** * Replicated directory model ([internal/registry/replication.go])

    Instances copied from a remote cluster, the checkpoint of each copied service,
    and the keys both are stored under. *)
From Stdlib Require Import Ascii ZArith.
From stdpp Require Import gmap strings list.
From S2P Require Import Prelude GoStrings Selector RegistryModel.

Definition ReplicationRootPrefix : str := lit "/replication/".
Definition ReplicationRegistryPrefix : str := lit "/replication/regions/".
Definition ReplicationCheckpointPrefix : str := lit "/replication/checkpoints/".
Definition replicationRegistryMarker : str := lit "/registry/".

(** The embedded instance fields are those of [Value], plus the source. *)
Record ReplicatedValue := MkReplicatedValue {
  rv_Value : Value;
  rv_SourceRegion : str; rv_SourceClusterID : str; rv_SourceRevision : Z;
  rv_ReplicatedAtUnix : Z; rv_Origin : str
}.
Record ReplicationCheckpoint := MkReplicationCheckpoint {
  rc_SourceRegion : str; rc_SourceClusterID : str; rc_Namespace : str; rc_Service : str;
  rc_LastAppliedRevision : Z; rc_LastSnapshotRevision : Z; rc_UpdatedAtUnix : Z
}.
#[export] Instance ReplicatedValue_eq_dec : EqDecision ReplicatedValue.
Proof. solve_decision. Defined.
#[export] Instance ReplicationCheckpoint_eq_dec : EqDecision ReplicationCheckpoint.
Proof. solve_decision. Defined.

Definition ReplicationServicePrefix (sourceRegion sourceClusterID namespace service : str) : str :=
  ReplicationRegistryPrefix ++ TrimSpace sourceRegion ++ lit "/clusters/" ++ TrimSpace sourceClusterID ++
  lit "/registry/" ++ TrimSpace namespace ++ [ch_slash] ++ TrimSpace service ++ [ch_slash].
Definition ReplicatedKey (sourceRegion sourceClusterID namespace service instanceID : str) : str :=
  ReplicationRegistryPrefix ++ TrimSpace sourceRegion ++ lit "/clusters/" ++ TrimSpace sourceClusterID ++
  lit "/registry/" ++ TrimSpace namespace ++ [ch_slash] ++ TrimSpace service ++ [ch_slash] ++ TrimSpace instanceID.
Definition ReplicationCheckpointKey (sourceRegion sourceClusterID namespace service : str) : str :=
  ReplicationCheckpointPrefix ++ TrimSpace sourceRegion ++ [ch_slash] ++ TrimSpace sourceClusterID ++
  [ch_slash] ++ TrimSpace namespace ++ [ch_slash] ++ TrimSpace service.

Definition ParseReplicatedKey (raw : str) : option (str * str * str * str * str) :=
  if negb (HasPrefix raw ReplicationRegistryPrefix) then None
  else
    let withoutPrefix := TrimPrefix raw ReplicationRegistryPrefix in
    match SplitN2 withoutPrefix replicationRegistryMarker with
    | [p0; p1] =>
        match Split p0 [ch_slash] with
        | [s0; s1; s2] =>
            if negb (bool_decide (s1 = lit "clusters")) then None
            else match Split p1 [ch_slash] with
                 | [t0; t1; t2] =>
                     if existsb blank [s0; s2; t0; t1; t2] then None
                     else Some (TrimSpace s0, TrimSpace s2, TrimSpace t0, TrimSpace t1, TrimSpace t2)
                 | _ => None
                 end
        | _ => None
        end
    | _ => None
    end.
Definition ParseReplicationCheckpointKey (raw : str) : option (str * str * str * str) :=
  if negb (HasPrefix raw ReplicationCheckpointPrefix) then None
  else match Split (TrimPrefix raw ReplicationCheckpointPrefix) [ch_slash] with
       | [p0; p1; p2; p3] =>
           if existsb blank [p0; p1; p2; p3] then None
           else Some (TrimSpace p0, TrimSpace p1, TrimSpace p2, TrimSpace p3)
       | _ => None
       end.

(** [clock] is [time.Now().Unix()], read only when no time is passed. *)
Definition NewReplicatedValue `{GoRange} (clock : Z) (sourceRegion sourceClusterID : str)
    (sourceRevision : Z) (value : Value) (now : Z) : ReplicatedValue :=
  let now := if (now <=? 0)%Z then clock else now in
  MkReplicatedValue
    (MkValue (v_Namespace value) (v_Identity value) (v_InstanceID value) (v_Zone value)
       (CloneStringMap (v_Labels value)) (CloneStringMap (v_Metadata value))
       (CloneEndpoints (v_Endpoints value)) (EffectiveLeaseTTLSeconds (v_LeaseTTLSeconds value))
       (v_RegisteredAtUnix value) (v_LastHeartbeatUnix value))
    (TrimSpace sourceRegion) (TrimSpace sourceClusterID) sourceRevision now (lit "replicated").
Definition ToValue `{GoRange} (v : ReplicatedValue) : Value :=
  let value := rv_Value v in
  MkValue (v_Namespace value) (v_Identity value) (v_InstanceID value) (v_Zone value)
    (CloneStringMap (v_Labels value)) (CloneStringMap (v_Metadata value))
    (CloneEndpoints (v_Endpoints value)) (EffectiveLeaseTTLSeconds (v_LeaseTTLSeconds value))
    (v_RegisteredAtUnix value) (v_LastHeartbeatUnix value).

(** ** Keys *)
Definition trimmed_segment (s : str) : Prop := trimmed s ∧ s ≠ [] ∧ ch_slash ∉ s.
#[export] Instance trimmed_segment_dec s : Decision (trimmed_segment s) := _.
Lemma trimmed_segment_blank s : trimmed_segment s → blank s = false.
Proof. intros (Ht&Hne&_). apply blank_false. by rewrite Ht. Qed.

(** The marker "/registry/" is found behind the cluster, unless the cluster is
    itself called "registry". *)
Lemma cut_marker region cluster rest :
  ch_slash ∉ region → ch_slash ∉ cluster → cluster ≠ lit "registry" →
  cut (region ++ lit "/clusters/" ++ cluster ++ lit "/registry/" ++ rest) replicationRegistryMarker
  = Some (region ++ lit "/clusters/" ++ cluster, rest).
Proof.
  intros Hr Hc Hne.
  change replicationRegistryMarker with (ch_slash :: lit "registry/").
  change (lit "/clusters/" ++ cluster ++ lit "/registry/" ++ rest)
    with (ch_slash :: lit "clusters" ++ ch_slash :: cluster ++ (ch_slash :: lit "registry/") ++ rest).
  rewrite cut_skip by done.
  rewrite cut_skip.
  - rewrite cut_head by done. cbn [fmap option_fmap option_map fst snd]. do 2 f_equal.
  - by apply (bool_decide_unpack _); vm_compute.
  - apply not_true_iff_false. intros [t Ht]%HasPrefix_spec. apply Hne.
    change ((ch_slash :: lit "registry/") ++ rest) with (ch_slash :: lit "registry/" ++ rest) in Ht.
    change (lit "registry/" ++ t) with (lit "registry" ++ ch_slash :: t) in Ht.
    apply slash_app_inj in Ht as [-> _]; [done|done|]. by apply (bool_decide_unpack _); vm_compute.
Qed.

Lemma Split_source region cluster :
  ch_slash ∉ region → ch_slash ∉ cluster →
  Split (region ++ lit "/clusters/" ++ cluster) [ch_slash] = [region; lit "clusters"; cluster].
Proof.
  intros. change (lit "/clusters/" ++ cluster) with ([ch_slash] ++ lit "clusters" ++ [ch_slash] ++ cluster).
  apply (Split_Join [region; lit "clusters"; cluster]); [done|].
  repeat constructor; try done. by apply (bool_decide_unpack _); vm_compute.
Qed.

(** A replicated instance key parses back to its five fields. *)
Theorem ParseReplicatedKey_roundtrip region cluster ns svc id :
  Forall trimmed_segment [region; cluster; ns; svc; id] → cluster ≠ lit "registry" →
  ParseReplicatedKey (ReplicatedKey region cluster ns svc id) = Some (region, cluster, ns, svc, id).
Proof.
  rewrite !Forall_cons. intros (Hr&Hc&Hn&Hs&Hi&_) Hne. unfold ParseReplicatedKey, ReplicatedKey.
  rewrite HasPrefix_app, TrimPrefix_app. cbn [negb]. unfold SplitN2.
  rewrite (proj1 Hr), (proj1 Hc), (proj1 Hn), (proj1 Hs), (proj1 Hi).
  rewrite cut_marker by (apply Hr || apply Hc || done). rewrite Split_source by (apply Hr || apply Hc).
  rewrite bool_decide_true by done. cbn [negb].
  change (ns ++ [ch_slash] ++ svc ++ [ch_slash] ++ id) with (Join [ns; svc; id] [ch_slash]).
  rewrite Split_Join by (done || (repeat constructor; [apply Hn|apply Hs|apply Hi])).
  cbn [existsb]. rewrite !trimmed_segment_blank by done. cbn [orb].
  by rewrite (proj1 Hr), (proj1 Hc), (proj1 Hn), (proj1 Hs), (proj1 Hi).
Qed.

(** Instances copied from a cluster whose id is "registry" are stored under
    keys the parser rejects: they are never found again. *)
Theorem ParseReplicatedKey_registry_cluster region ns svc id :
  Forall trimmed_segment [region; ns; svc; id] →
  ParseReplicatedKey (ReplicatedKey region (lit "registry") ns svc id) = None.
Proof.
  rewrite !Forall_cons. intros (Hr&Hn&Hs&Hi&_). unfold ParseReplicatedKey, ReplicatedKey.
  rewrite HasPrefix_app, TrimPrefix_app. cbn [negb]. unfold SplitN2.
  rewrite (proj1 Hr), (proj1 Hn), (proj1 Hs), (proj1 Hi).
  change (TrimSpace (lit "registry")) with (lit "registry").
  set (rest := ns ++ _).
  change replicationRegistryMarker with (ch_slash :: lit "registry/").
  change (lit "/clusters/" ++ lit "registry" ++ lit "/registry/" ++ rest)
    with (ch_slash :: lit "clusters" ++ (ch_slash :: lit "registry/") ++ lit "registry/" ++ rest).
  rewrite cut_skip, cut_head; [|by apply (bool_decide_unpack _); vm_compute|apply Hr|done].
  cbn [fmap option_fmap option_map fst snd].
  change (region ++ ch_slash :: lit "clusters") with (Join [region; lit "clusters"] [ch_slash]).
  rewrite Split_Join; [done|done|]. repeat constructor; [apply Hr|].
  by apply (bool_decide_unpack _); vm_compute.
Qed.

(** A checkpoint key parses back to its four fields, and it is never taken for
    a replicated instance although both live under [ReplicationRootPrefix]. *)
Theorem ReplicationCheckpointKey_roundtrip region cluster ns svc :
  Forall trimmed_segment [region; cluster; ns; svc] →
  let key := ReplicationCheckpointKey region cluster ns svc in
  ParseReplicationCheckpointKey key = Some (region, cluster, ns, svc) ∧
  ParseReplicatedKey key = None ∧ ParseKey key = None ∧ HasPrefix key ReplicationRootPrefix = true.
Proof.
  rewrite !Forall_cons. intros (Hr&Hc&Hn&Hs&_). cbv zeta. split_and!; [|done..].
  unfold ParseReplicationCheckpointKey, ReplicationCheckpointKey.
  rewrite HasPrefix_app, TrimPrefix_app. cbn [negb].
  rewrite (proj1 Hr), (proj1 Hc), (proj1 Hn), (proj1 Hs).
  change (region ++ [ch_slash] ++ cluster ++ [ch_slash] ++ ns ++ [ch_slash] ++ svc)
    with (Join [region; cluster; ns; svc] [ch_slash]).
  rewrite Split_Join by (done || (repeat constructor; [apply Hr|apply Hc|apply Hn|apply Hs])).
  cbn [existsb]. rewrite !trimmed_segment_blank by done. cbn [orb].
  by rewrite (proj1 Hr), (proj1 Hc), (proj1 Hn), (proj1 Hs).
Qed.

(** ** Values *)
Record wf_value (v : Value) : Prop := {
  wv_labels : clean_map (v_Labels v);
  wv_metadata : clean_map (v_Metadata v);
  wv_ttl : (0 < v_LeaseTTLSeconds v)%Z
}.
Lemma NewValue_wf `{GoRange} r now : wf_value (NewValue r now).
Proof.
  split; cbn; [apply CloneStringMap_clean..|apply EffectiveLeaseTTLSeconds_pos].
Qed.
Lemma EffectiveLeaseTTLSeconds_id ttl : (0 < ttl)%Z → EffectiveLeaseTTLSeconds ttl = ttl.
Proof. intros. unfold EffectiveLeaseTTLSeconds. by replace (0 <? ttl)%Z with true by lia. Qed.
Lemma ToValue_NewReplicatedValue `{GoRange} clock region cluster rev v now :
  wf_value v → ToValue (NewReplicatedValue clock region cluster rev v now) = v.
Proof.
  intros [Hl Hm Ht]. destruct v as [ns i id z l m es ttl reg hb]. unfold ToValue, NewReplicatedValue; cbn in *.
  rewrite !CloneEndpoints_id, (EffectiveLeaseTTLSeconds_id (EffectiveLeaseTTLSeconds ttl)) by apply EffectiveLeaseTTLSeconds_pos.
  by rewrite (CloneStringMap_id l), (CloneStringMap_id m), (CloneStringMap_id l), (CloneStringMap_id m), EffectiveLeaseTTLSeconds_id by done.
Qed.
(** What a remote cluster registered is what a local query sees after
    replication: copying a registered value and converting it back is the identity. *)
Theorem replicated_value_roundtrip `{GoRange} clock region cluster rev request now at_ :
  ToValue (NewReplicatedValue clock region cluster rev (NewValue request now) at_) = NewValue request now.
Proof. apply ToValue_NewReplicatedValue, NewValue_wf. Qed.

(** ** Instances of the properties *)
Lemma ParseReplicatedKey_roundtrip_witness :
  ParseReplicatedKey (ReplicatedKey (lit "eu") (lit "c1") (lit "prod") (lit "orders") (lit "i-1"))
  = Some (lit "eu", lit "c1", lit "prod", lit "orders", lit "i-1").
Proof.
  apply ParseReplicatedKey_roundtrip; [by apply (bool_decide_unpack _); vm_compute|done].
Defined.
Lemma ParseReplicatedKey_registry_cluster_witness :
  ParseReplicatedKey (ReplicatedKey (lit "eu") (lit "registry") (lit "prod") (lit "orders") (lit "i-1")) = None.
Proof. apply ParseReplicatedKey_registry_cluster. by apply (bool_decide_unpack _); vm_compute. Defined.
Lemma ReplicationCheckpointKey_roundtrip_witness :
  let key := ReplicationCheckpointKey (lit "eu") (lit "c1") (lit "prod") (lit "orders") in
  ParseReplicationCheckpointKey key = Some (lit "eu", lit "c1", lit "prod", lit "orders") ∧
  ParseReplicatedKey key = None ∧ ParseKey key = None ∧ HasPrefix key ReplicationRootPrefix = true.
Proof. apply ReplicationCheckpointKey_roundtrip. by apply (bool_decide_unpack _); vm_compute. Defined.
