(* ===== verification/WatchHub.v ===== *)
(** * The watch hub ([internal/registry/watch.go])

    The hub keeps the last 2048 events and one buffered channel per watcher.
    [SubscribeSince], the cancel function and the two locked parts of [Publish] are
    atomic (they hold [mu]); the sends of [Publish] happen between them without the
    lock, so they are steps of their own.  The step function below interleaves one
    publisher, any number of subscribers and their receives. *)
From Stdlib Require Import Ascii ZArith Sorted.
From stdpp Require Import gmap strings list sorting.
From S2P Require Import Prelude GoStrings Selector RegistryModel.

Inductive WatchEventType := WatchEventUpsert | WatchEventDelete.
Record WatchEvent := MkWatchEvent {
  we_Revision : Z; we_Type : WatchEventType; we_Namespace : str; we_Service : str;
  we_InstanceID : str; we_Value : option Value
}.
#[export] Instance WatchEventType_eq_dec : EqDecision WatchEventType.
Proof. solve_decision. Defined.
#[export] Instance WatchEvent_eq_dec : EqDecision WatchEvent.
Proof. solve_decision. Defined.

Definition history_limit : nat := 2048.

(** A channel is a heap object: its queue, its capacity, whether it is closed.
    [ch_start] and [ch_got] are history variables: how many events had been published
    when it was made, and what its reader has taken from it. *)
Record Chan := MkChan {
  ch_buf : list WatchEvent; ch_cap : nat; ch_closed : bool;
  ch_start : nat; ch_got : list WatchEvent
}.
(** Where the publishing goroutine is: outside [Publish], between its locked parts
    (with the watchers it still has to serve and the slow ones), or dead. *)
Inductive Publisher :=
  | Idle
  | Sending (event : WatchEvent) (todo slowWatchers : gset Z)
  | Panicked.
#[export] Instance Publisher_eq_dec : EqDecision Publisher.
Proof. solve_decision. Defined.
(** [h_log] is a history variable: every event passed to [Publish]. *)
Record Hub := MkHub {
  h_nextID : Z; h_watchers : gset Z; h_history : list WatchEvent;
  h_chans : gmap Z Chan; h_pub : Publisher; h_log : list WatchEvent
}.
Definition NewWatchHub : Hub := MkHub 0 ∅ [] ∅ Idle [].

Definition appendHistoryLocked (history : list WatchEvent) (event : WatchEvent) : list WatchEvent :=
  let history := history ++ [event] in
  if decide (history_limit < length history)
  then drop (length history - history_limit) history else history.

Definition replaySinceLocked (history : list WatchEvent) (since : Z) : list WatchEvent * bool :=
  match history with
  | [] => ([], false)
  | first :: _ =>
      if (since =? 0)%Z then ([], false)
      else
        let oldest := we_Revision first in
        let latest := we_Revision (List.last history first) in
        if (latest <? since)%Z then ([], true)
        else if (u64 (since + 1) <? oldest)%Z then ([], false)
        else (List.filter (λ e, (since <? we_Revision e)%Z) history, true)
  end.

(** [SubscribeSince(buffer, since)]: the new state and [id, replay, exact]; the
    channel is [h_chans !! id]. *)
Definition SubscribeSince (h : Hub) (buffer since : Z) : Hub * (Z * list WatchEvent * bool) :=
  let buffer := if (buffer <=? 0)%Z then 64%Z else buffer in
  let id := u64 (h_nextID h + 1) in
  let '(replay, exact) := replaySinceLocked (h_history h) since in
  (MkHub id ({[id]} ∪ h_watchers h) (h_history h)
     (<[id := MkChan [] (Z.to_nat buffer) false (length (h_log h)) []]> (h_chans h))
     (h_pub h) (h_log h),
   (id, replay, exact)).
Definition Subscribe (h : Hub) (buffer : Z) : Hub * Z :=
  let '(h, (id, _, _)) := SubscribeSince h buffer 0 in (h, id).

Definition close_chan (c : Chan) : Chan := MkChan (ch_buf c) (ch_cap c) true (ch_start c) (ch_got c).
(** The cancel function of watcher [id].  ([sync.Once] only saves repeated calls the
    lock: after the first one the watcher is gone.) *)
Definition unsubscribe (h : Hub) (id : Z) : Hub :=
  if decide (id ∈ h_watchers h)
  then MkHub (h_nextID h) (h_watchers h ∖ {[id]}) (h_history h)
         (alter close_chan id (h_chans h)) (h_pub h) (h_log h)
  else h.

(** [Publish], first locked part: append to the history, copy the watcher table. *)
Definition publish_begin (h : Hub) (event : WatchEvent) : Hub :=
  MkHub (h_nextID h) (h_watchers h) (appendHistoryLocked (h_history h) event) (h_chans h)
    (Sending event (h_watchers h) ∅) (h_log h ++ [event]).
(** [select { case ch <- event: default: }]: a send on a closed channel panics. *)
Definition publish_send (h : Hub) (event : WatchEvent) (todo slow : gset Z) (id : Z) : option Hub :=
  c ← h_chans h !! id;
  let put chans pub := MkHub (h_nextID h) (h_watchers h) (h_history h) chans pub (h_log h) in
  Some (if ch_closed c then put (h_chans h) Panicked
        else if decide (length (ch_buf c) < ch_cap c) then
          put (<[id := MkChan (ch_buf c ++ [event]) (ch_cap c) false (ch_start c) (ch_got c)]> (h_chans h))
              (Sending event (todo ∖ {[id]}) slow)
        else put (h_chans h) (Sending event (todo ∖ {[id]}) ({[id]} ∪ slow))).
(** Second locked part: drop and close the slow watchers that are still there. *)
Definition publish_end (h : Hub) (slow : gset Z) : Hub :=
  let gone := slow ∩ h_watchers h in
  MkHub (h_nextID h) (h_watchers h ∖ gone) (h_history h)
    (map_imap (λ id c, Some (if decide (id ∈ gone) then close_chan c else c)) (h_chans h))
    Idle (h_log h).
Definition receive (h : Hub) (id : Z) : option Hub :=
  c ← h_chans h !! id;
  match ch_buf c with
  | [] => None
  | e :: buf =>
      Some (MkHub (h_nextID h) (h_watchers h) (h_history h)
              (<[id := MkChan buf (ch_cap c) (ch_closed c) (ch_start c) (ch_got c ++ [e])]> (h_chans h))
              (h_pub h) (h_log h))
  end.

Inductive Label :=
  | LSubscribe (buffer since : Z) | LUnsubscribe (id : Z)
  | LPublish (event : WatchEvent) | LSend (id : Z) | LPublished | LReceive (id : Z).
Definition hub_step (l : Label) (h : Hub) : option Hub :=
  if decide (h_pub h = Panicked) then None else
  match l with
  | LSubscribe buffer since => Some (SubscribeSince h buffer since).1
  | LUnsubscribe id => Some (unsubscribe h id)
  | LPublish event => match h_pub h with Idle => Some (publish_begin h event) | _ => None end
  | LSend id => match h_pub h with
                | Sending event todo slow =>
                    if decide (id ∈ todo) then publish_send h event todo slow id else None
                | _ => None
                end
  | LPublished => match h_pub h with
                  | Sending _ todo slow => if decide (todo = ∅) then Some (publish_end h slow) else None
                  | _ => None
                  end
  | LReceive id => receive h id
  end.
Fixpoint run (ls : list Label) (h : Hub) : option Hub :=
  match ls with
  | [] => Some h
  | l :: ls => h' ← hub_step l h; run ls h'
  end.
(** Fewer than 2^64 subscriptions: ids are not reused. *)
Definition fresh_ids (ls : list Label) : Prop := (Z.of_nat (length ls) < 2 ^ 64)%Z.

(** ** The history window *)
Lemma appendHistoryLocked_window log e :
  appendHistoryLocked (drop (length log - history_limit) log) e
  = drop (length (log ++ [e]) - history_limit) (log ++ [e]).
Proof.
  unfold appendHistoryLocked. rewrite !length_app, length_drop. cbn [length].
  destruct (decide (length log < history_limit)) as [Hl|Hl].
  - replace (length log - history_limit) with 0 by lia. rewrite drop_0, decide_False by lia.
    by replace (length log + 1 - history_limit) with 0 by lia.
  - rewrite decide_True by lia. rewrite <-drop_app_le by lia. rewrite drop_drop. f_equal. lia.
Qed.

Definition delivered (c : Chan) : list WatchEvent := ch_got c ++ ch_buf c.
(** The event the publisher still owes to (or has failed to give) a watcher. *)
Definition pending (pub : Publisher) (id : Z) : list WatchEvent :=
  match pub with
  | Sending event todo slow => if decide (id ∈ todo ∪ slow) then [event] else []
  | _ => []
  end.
Record chan_ok (pub : Publisher) (log : list WatchEvent) (id : Z) (c : Chan) : Prop := {
  co_start : ch_start c ≤ length log;
  co_cap : 0 < ch_cap c;
  co_bound : length (ch_buf c) ≤ ch_cap c;
  co_prefix : delivered c `prefix_of` drop (ch_start c) log;
  co_open : ch_closed c = false → pub ≠ Panicked →
            delivered c ++ pending pub id = drop (ch_start c) log
}.
Record hub_inv (n : Z) (h : Hub) : Prop := {
  hi_next : (0 ≤ h_nextID h ≤ n)%Z;
  hi_ids : ∀ id, is_Some (h_chans h !! id) → (1 ≤ id ≤ h_nextID h)%Z;
  hi_watchers : ∀ id, id ∈ h_watchers h ↔ ∃ c, h_chans h !! id = Some c ∧ ch_closed c = false;
  hi_history : h_history h = drop (length (h_log h) - history_limit) (h_log h);
  hi_chans : ∀ id c, h_chans h !! id = Some c → chan_ok (h_pub h) (h_log h) id c;
  hi_pub : match h_pub h with
           | Sending event todo slow =>
               todo ## slow ∧ (∀ id, id ∈ todo ∪ slow → is_Some (h_chans h !! id)) ∧
               ∃ l, h_log h = l ++ [event]
           | _ => True
           end
}.
Lemma NewWatchHub_inv : hub_inv 0 NewWatchHub.
Proof.
  split; cbn; try done.
  - intros id. rewrite lookup_empty. by intros [? ?].
  - intros id. rewrite lookup_empty. set_solver.
Qed.

Lemma chan_ok_log pub pub' log e id c :
  chan_ok pub log id c → ch_closed c = true ∨ (delivered c = drop (ch_start c) log ∧ pending pub' id = [e]) →
  chan_ok pub' (log ++ [e]) id c.
Proof.
  intros [Hs Hc Hb Hp Ho] Hor. split; [rewrite length_app; lia|done|done| |].
  - rewrite drop_app_le by lia. by apply prefix_app_r.
  - intros Hcl Hpan. destruct Hor as [?|[-> ->]]; [congruence|]. by rewrite drop_app_le by lia.
Qed.
Lemma chan_ok_close pub pub' log id c : chan_ok pub log id c → chan_ok pub' log id (close_chan c).
Proof. intros [????]. by split. Qed.
Lemma chan_ok_pub pub pub' log id c :
  chan_ok pub log id c → (ch_closed c = false → pub' ≠ Panicked → pub ≠ Panicked ∧ pending pub' id = pending pub id) →
  chan_ok pub' log id c.
Proof.
  intros [Hs Hc Hb Hp Ho] Hpub. split; try done. intros Hcl Hpan. destruct (Hpub Hcl Hpan) as [? ->]. by apply Ho.
Qed.

Section steps.
Context (n : Z) (h : Hub).
Hypothesis Hinv : hub_inv n h.

Lemma next_id : (n + 1 < 2 ^ 64)%Z → u64 (h_nextID h + 1) = (h_nextID h + 1)%Z.
Proof. intros Hn. destruct Hinv as [[??] _ _ _ _ _]. apply u64_id. unfold is_u64. lia. Qed.
Lemma next_fresh : h_chans h !! (h_nextID h + 1)%Z = None.
Proof.
  destruct (h_chans h !! (h_nextID h + 1)%Z) eqn:E; [|done].
  destruct (hi_ids _ _ Hinv (h_nextID h + 1)%Z); [by eexists|]. lia.
Qed.

Lemma subscribe_inv buffer since : (n + 1 < 2 ^ 64)%Z → hub_inv (n + 1) (SubscribeSince h buffer since).1.
Proof.
  intros Hn. unfold SubscribeSince. rewrite next_id by done.
  destruct (replaySinceLocked _ _) as [replay exact]. cbn [fst].
  pose proof next_fresh as Hf. destruct Hinv as [[??] Hids Hw Hh Hc Hp].
  set (buf := if (buffer <=? 0)%Z then _ else _).
  assert (0 < Z.to_nat buf) as Hbuf by (unfold buf; destruct (Z.leb_spec buffer 0); lia).
  split; cbn.
  - lia.
  - intros id. rewrite lookup_insert_is_Some. intros [<-|[_ ?%Hids]]; lia.
  - intros id. rewrite elem_of_union, elem_of_singleton.
    destruct (decide (id = (h_nextID h + 1)%Z)) as [->|Hne].
    + rewrite lookup_insert_eq. split; [eauto|by left].
    + rewrite lookup_insert_ne by done. rewrite Hw. naive_solver.
  - done.
  - intros id c. rewrite lookup_insert_Some. intros [[<- <-]|[_ ?%Hc]]; [|done].
    split; cbn; [lia|done|lia|apply prefix_nil|]. intros _ _.
    rewrite drop_all. destruct (h_pub h) as [|e todo slow|]; cbn; [done| |done].
    rewrite decide_False; [done|]. intros Hin. destruct Hp as (_&Hp&_). apply Hp in Hin.
    rewrite Hf in Hin. by destruct Hin.
  - destruct (h_pub h) as [|e todo slow|]; try done. destruct Hp as (?&Hp&?). split_and!; try done.
    intros id Hid%Hp. rewrite lookup_insert_is_Some'. by right.
Qed.

Lemma unsubscribe_inv id0 : hub_inv n (unsubscribe h id0).
Proof.
  unfold unsubscribe. destruct (decide _) as [Hin|Hin]; [|done].
  destruct Hinv as [? Hids Hw Hh Hc Hp]. split; cbn; try done.
  - intros id [c Hl]. apply Hids. destruct (decide (id0 = id)) as [->|].
    + rewrite lookup_alter_eq in Hl. destruct (h_chans h !! id); [by eexists|done].
    + rewrite lookup_alter_ne in Hl by done. by eexists.
  - intros id. rewrite elem_of_difference, elem_of_singleton, Hw.
    destruct (decide (id0 = id)) as [->|].
    + rewrite lookup_alter_eq. split; [naive_solver|]. intros (c&Hl&Hcl).
      destruct (h_chans h !! id); cbn in Hl; [|done]. by injection Hl as <-.
    + rewrite lookup_alter_ne by done. naive_solver.
  - intros id c. destruct (decide (id0 = id)) as [->|].
    + rewrite lookup_alter_eq. destruct (h_chans h !! id) as [c0|] eqn:E; [|done]. intros [= <-].
      by eapply chan_ok_close, Hc.
    + rewrite lookup_alter_ne by done. apply Hc.
  - destruct (h_pub h) as [|e todo slow|]; try done. destruct Hp as (?&Hp&?). split_and!; try done.
    intros id Hid%Hp. destruct (decide (id0 = id)) as [->|].
    + rewrite lookup_alter_eq. destruct Hid as [c ->]. by eexists.
    + by rewrite lookup_alter_ne.
Qed.

Lemma publish_begin_inv event : h_pub h = Idle → hub_inv n (publish_begin h event).
Proof.
  intros Hidle. destruct Hinv as [? Hids Hw Hh Hc Hp]. rewrite Hidle in *. split; cbn; try done.
  - rewrite Hh. apply appendHistoryLocked_window.
  - intros id c Hl. pose proof (Hc _ _ Hl) as Hok. eapply chan_ok_log; [done|].
    destruct (ch_closed c) eqn:Hcl; [by left|right].
    split.
    + destruct Hok as [_ _ _ _ Ho]. specialize (Ho Hcl ltac:(done)). cbn in Ho. by rewrite app_nil_r in Ho.
    + cbn. rewrite decide_True; [done|]. apply elem_of_union_l, Hw. eauto.
  - split_and!; [set_solver| |by eexists]. intros id [Hid|?]%elem_of_union; [|set_solver].
    apply Hw in Hid as (c&->&_). by eexists.
Qed.

Lemma publish_send_inv event todo slow id h' :
  h_pub h = Sending event todo slow → id ∈ todo →
  publish_send h event todo slow id = Some h' → hub_inv n h'.
Proof.
  intros Hpub Hid. unfold publish_send. destruct (h_chans h !! id) as [c|] eqn:Hl; [|done]. cbn.
  intros [= <-]. destruct Hinv as [? Hids Hw Hh Hc Hp]. rewrite Hpub in *. destruct Hp as (Hdis&Hdom&Hlog).
  destruct (ch_closed c) eqn:Hcl; [|destruct (decide _) as [Hroom|Hfull]].
  - split; cbn; try done. intros id' c' Hl'%Hc. by eapply chan_ok_pub.
  - assert (∀ id', id' ≠ id → pending (Sending event (todo ∖ {[id]}) slow) id' = pending (Sending event todo slow) id') as Hpend.
    { intros id' Hne. cbn. apply decide_ext. set_solver. }
    split; cbn; try done.
    + intros id' [<-|[_ ?]]%lookup_insert_is_Some; apply Hids; [by eexists|done].
    + intros id'. rewrite Hw. destruct (decide (id = id')) as [->|].
      * rewrite lookup_insert_eq, Hl. split; intros _; eauto.
      * by rewrite lookup_insert_ne.
    + intros id' c'. rewrite lookup_insert_Some. intros [[<- <-]|[Hne Hl']].
      * destruct (Hc _ _ Hl) as [? ? ? ? Ho]. specialize (Ho Hcl ltac:(done)). cbn in Ho.
        rewrite decide_True in Ho by set_solver. unfold delivered in *.
        split; cbn; try done.
        -- rewrite length_app. cbn. lia.
        -- unfold delivered; cbn. rewrite app_assoc, Ho. done.
        -- intros _ _. rewrite decide_False by set_solver. unfold delivered; cbn. by rewrite app_nil_r, app_assoc.
      * eapply chan_ok_pub; [by apply Hc|]. intros _ _. split; [done|]. by apply Hpend.
    + split_and!; [set_solver| |done]. intros id' Hid'. rewrite lookup_insert_is_Some'. right. apply Hdom. set_solver.
  - split; cbn; try done.
    + intros id' c' Hl'. eapply chan_ok_pub; [by apply Hc|]. intros _ _. split; [done|]. cbn.
      apply decide_ext. destruct (decide (id' = id)); set_solver.
    + split_and!; [set_solver| |done]. intros id' Hid'. apply Hdom. destruct (decide (id' = id)); set_solver.
Qed.

Lemma publish_end_inv event slow : h_pub h = Sending event ∅ slow → hub_inv n (publish_end h slow).
Proof.
  intros Hpub. destruct Hinv as [? Hids Hw Hh Hc Hp]. rewrite Hpub in *.
  assert (∀ id, map_imap (λ id c, Some (if decide (id ∈ slow ∩ h_watchers h) then close_chan c else c)) (h_chans h) !! id
    = (λ c, if decide (id ∈ slow ∩ h_watchers h) then close_chan c else c) <$> h_chans h !! id) as Hl.
  { intros id. rewrite map_lookup_imap. by destruct (h_chans h !! id). }
  split; cbn; try done.
  - intros id. rewrite Hl. intros [c Hc']. apply Hids. destruct (h_chans h !! id); [by eexists|done].
  - intros id. rewrite Hl, elem_of_difference, Hw. destruct (h_chans h !! id) as [c|] eqn:E; cbn; [|naive_solver].
    destruct (decide _) as [Hs|Hs]; [naive_solver|]. naive_solver.
  - intros id c. rewrite Hl. destruct (h_chans h !! id) as [c0|] eqn:E; cbn; [|done]. intros [= <-].
    destruct (decide _) as [Hs|Hs]; [by eapply chan_ok_close, Hc|].
    eapply chan_ok_pub; [by apply Hc|]. intros Hcl _. split; [done|]. cbn. rewrite decide_False; [done|].
    rewrite union_empty_l_L. intros Hin. apply Hs. apply elem_of_intersection. split; [done|].
    apply Hw. eauto.
Qed.

Lemma receive_inv id h' : receive h id = Some h' → hub_inv n h'.
Proof.
  unfold receive. destruct (h_chans h !! id) as [c|] eqn:Hl; [|done]. cbn.
  destruct (ch_buf c) as [|e buf] eqn:Hb; [done|]. intros [= <-].
  destruct Hinv as [? Hids Hw Hh Hc Hp]. split; cbn; try done.
  - intros id' [<-|[_ ?]]%lookup_insert_is_Some; apply Hids; [by eexists|done].
  - intros id'. rewrite Hw. destruct (decide (id = id')) as [->|].
    + rewrite lookup_insert_eq, Hl. split; intros (?&[= <-]&?); eauto.
    + by rewrite lookup_insert_ne.
  - intros id' c'. rewrite lookup_insert_Some. intros [[<- <-]|[Hne Hl']]; [|by apply Hc].
    destruct (Hc _ _ Hl) as [? ? Hbd Hpre Ho]. rewrite Hb in Hbd. cbn in Hbd.
    assert (delivered (MkChan buf (ch_cap c) (ch_closed c) (ch_start c) (ch_got c ++ [e])) = delivered c) as Hd.
    { unfold delivered; cbn. by rewrite Hb, <-app_assoc. }
    split; rewrite ?Hd; cbn; try done. lia.
  - destruct (h_pub h); try done. destruct Hp as (?&Hdom&?). split_and!; try done.
    intros id' Hid'. rewrite lookup_insert_is_Some'. right. by apply Hdom.
Qed.
End steps.

Lemma hub_inv_mono n m h : (n ≤ m)%Z → hub_inv n h → hub_inv m h.
Proof. intros ? [? ? ? ? ? ?]. split; try done. lia. Qed.
Lemma hub_step_inv n l h h' :
  (n + 1 < 2 ^ 64)%Z → hub_inv n h → hub_step l h = Some h' → hub_inv (n + 1) h'.
Proof.
  intros Hn Hinv. unfold hub_step. destruct (decide (h_pub h = Panicked)); [done|].
  assert (∀ h', hub_inv n h' → hub_inv (n + 1) h') as Hm by (intros ?; apply hub_inv_mono; lia).
  destruct l as [buffer since|id|event|id| |id].
  - intros [= <-]. by apply subscribe_inv.
  - intros [= <-]. by apply Hm, unsubscribe_inv.
  - destruct (h_pub h) eqn:E; [|done..]. intros [= <-]. by apply Hm, publish_begin_inv.
  - destruct (h_pub h) as [|e todo slow|] eqn:E; [done| |done]. destruct (decide (id ∈ todo)); [|done].
    intros Hs. eapply Hm, publish_send_inv; eauto.
  - destruct (h_pub h) as [|e todo slow|] eqn:E; [done| |done]. destruct (decide (todo = ∅)) as [->|]; [|done].
    intros [= <-]. eapply Hm, publish_end_inv; eauto.
  - intros Hr. eapply Hm, receive_inv; eauto.
Qed.
Lemma run_inv n ls h h' :
  (n + Z.of_nat (length ls) < 2 ^ 64)%Z → hub_inv n h → run ls h = Some h' →
  hub_inv (n + Z.of_nat (length ls)) h'.
Proof.
  revert n h. induction ls as [|l ls IH]; intros n h Hn Hinv; cbn [run length] in *.
  - intros [= <-]. by rewrite Z.add_0_r.
  - destruct (hub_step l h) as [h1|] eqn:E; [|done]. cbn. intros Hr.
    eapply IH in Hr; [| |eapply hub_step_inv; [|exact Hinv|exact E]; lia]; [|lia].
    replace (n + Z.of_nat (S (length ls)))%Z with (n + 1 + Z.of_nat (length ls))%Z by lia. done.
Qed.
Lemma run_app ls1 ls2 h : run (ls1 ++ ls2) h = run ls1 h ≫= run ls2.
Proof. revert h. induction ls1 as [|l ls1 IH]; intros h; cbn; [done|]. by destruct (hub_step l h); cbn. Qed.

(** What no step changes: the log only grows, and a channel keeps its start. *)
Record hub_frame (h h' : Hub) : Prop := {
  hf_log : h_log h `prefix_of` h_log h';
  hf_start : ∀ id c, h_chans h !! id = Some c → ∃ c', h_chans h' !! id = Some c' ∧ ch_start c' = ch_start c
}.
#[export] Instance hub_frame_refl : Reflexive hub_frame.
Proof. intros h. split; [done|eauto]. Qed.
#[export] Instance hub_frame_trans : Transitive hub_frame.
Proof.
  intros h1 h2 h3 [? H1] [? H2]. split; [by etrans|]. intros id c (c'&Hc'&?)%H1.
  apply H2 in Hc' as (c''&?&?). exists c''. split; [done|]. congruence.
Qed.
Lemma insert_start (chans : gmap Z Chan) id c0 c1 :
  chans !! id = Some c0 → ch_start c1 = ch_start c0 →
  ∀ i c, chans !! i = Some c → ∃ c', <[id := c1]> chans !! i = Some c' ∧ ch_start c' = ch_start c.
Proof.
  intros H0 Hs i c Hi. destruct (decide (id = i)) as [->|].
  - rewrite lookup_insert_eq. eexists. split; [done|]. congruence.
  - rewrite lookup_insert_ne by done. eauto.
Qed.
Lemma hub_step_frame n l h h' :
  (n + 1 < 2 ^ 64)%Z → hub_inv n h → hub_step l h = Some h' → hub_frame h h'.
Proof.
  intros Hn Hinv. unfold hub_step. destruct (decide (h_pub h = Panicked)); [done|].
  destruct l as [buffer since|id|event|id| |id].
  - intros [= <-]. unfold SubscribeSince. rewrite (next_id n) by done.
    destruct (replaySinceLocked _ _). split; cbn; [done|]. intros id c Hc.
    rewrite lookup_insert_ne; [eauto|]. intros <-. pose proof (next_fresh n h Hinv). congruence.
  - intros [= <-]. unfold unsubscribe. destruct (decide _); [|done]. split; cbn; [done|].
    intros i c Hc. destruct (decide (id = i)) as [->|].
    + rewrite lookup_alter_eq, Hc. cbn. eauto.
    + rewrite lookup_alter_ne by done. eauto.
  - destruct (h_pub h); [|done..]. intros [= <-]. split; cbn; [by apply prefix_app_r|eauto].
  - destruct (h_pub h) as [|e todo slow|]; [done| |done]. destruct (decide (id ∈ todo)); [|done].
    unfold publish_send. destruct (h_chans h !! id) as [c|] eqn:Hc; [|done]. cbn. intros [= <-].
    destruct (ch_closed c); [|destruct (decide _)]; split; cbn; eauto. by eapply insert_start.
  - destruct (h_pub h) as [|e todo slow|]; [done| |done]. destruct (decide (todo = ∅)); [|done].
    intros [= <-]. split; cbn; [done|]. intros i c Hc. rewrite map_lookup_imap, Hc. cbn.
    eexists. split; [done|]. by destruct (decide _).
  - unfold receive. destruct (h_chans h !! id) as [c|] eqn:Hc; [|done]. cbn.
    destruct (ch_buf c); [done|]. intros [= <-]. split; cbn; [done|]. by eapply insert_start.
Qed.
Lemma run_frame n ls h h' :
  (n + Z.of_nat (length ls) < 2 ^ 64)%Z → hub_inv n h → run ls h = Some h' → hub_frame h h'.
Proof.
  revert n h. induction ls as [|l ls IH]; intros n h Hn Hinv; cbn [run length] in *.
  - by intros [= <-].
  - destruct (hub_step l h) as [h1|] eqn:E; [|done]. cbn. intros Hr.
    transitivity h1; [by eapply hub_step_frame; [|exact Hinv|]; [lia|]|].
    eapply (IH (n + 1)%Z); [lia| |done]. eapply hub_step_inv; [|exact Hinv|exact E]; lia.
Qed.

(** C8: in every interleaving, what a subscription has delivered (read or still
    queued) is a gap-free, duplicate-free prefix of what was published since it was
    made; the queue never exceeds its capacity; and a subscription the hub still
    holds has been delivered everything once the publisher is idle. *)
Theorem watch_delivery ls h id c :
  fresh_ids ls → run ls NewWatchHub = Some h → h_chans h !! id = Some c →
  delivered c `prefix_of` drop (ch_start c) (h_log h) ∧ length (ch_buf c) ≤ ch_cap c ∧
  (id ∈ h_watchers h → h_pub h = Idle → delivered c = drop (ch_start c) (h_log h)).
Proof.
  intros Hf Hr Hc. eapply (run_inv 0) in Hr; [|exact Hf|apply NewWatchHub_inv].
  destruct (hi_chans _ _ Hr _ _ Hc) as [? ? ? ? Ho]. split_and!; [done|done|].
  intros (c'&?&Hcl)%(hi_watchers _ _ Hr) Hidle. simplify_eq.
  specialize (Ho Hcl). rewrite Hidle in Ho. cbn in Ho. rewrite app_nil_r in Ho. by apply Ho.
Qed.

(** C9: The memory of the hub is bounded, in every interleaving: the history holds the last events, at
    most [history_limit]; no queue exceeds the capacity its subscriber asked for; and a watcher that
    is still subscribed is behind by at most its capacity and the event being published, however slow
    its reader is (a slower one is dropped). *)
Theorem hub_bounded ls h : fresh_ids ls → run ls NewWatchHub = Some h →
  length (h_history h) = min history_limit (length (h_log h)) ∧ h_history h `suffix_of` h_log h ∧
  (0 ≤ h_nextID h ≤ Z.of_nat (length ls))%Z ∧
  ∀ id c, h_chans h !! id = Some c → length (ch_buf c) ≤ ch_cap c ∧
    (id ∈ h_watchers h → h_pub h ≠ Panicked → length (h_log h) - ch_start c - length (ch_got c) ≤ ch_cap c + 1).
Proof.
  intros Hf Hr. eapply (run_inv 0) in Hr; [|exact Hf|apply NewWatchHub_inv].
  split; [rewrite (hi_history _ _ Hr), length_drop; lia|].
  split; [rewrite (hi_history _ _ Hr); apply suffix_drop|]. split; [apply Hr|].
  intros id c Hc. destruct (hi_chans _ _ Hr _ _ Hc) as [? ? ? ? Ho]. split; [done|].
  intros (c'&?&Hcl)%(hi_watchers _ _ Hr) Hp. simplify_eq. specialize (Ho Hcl Hp). apply (f_equal length) in Ho.
  unfold delivered in Ho. rewrite !length_app, length_drop in Ho.
  assert (length (pending (h_pub h) id) ≤ 1) by (unfold pending; repeat case_match; cbn; lia). lia.
Qed.

(** ** Resuming from a revision *)
Definition newer (since : Z) (es : list WatchEvent) : list WatchEvent :=
  List.filter (λ e, (since <? we_Revision e)%Z) es.
Definition increasing (log : list WatchEvent) : Prop :=
  StronglySorted (λ a b, (we_Revision a < we_Revision b)%Z) log ∧ Forall (λ e, is_u64 (we_Revision e)) log.

Lemma newer_app since a b : newer since (a ++ b) = newer since a ++ newer since b.
Proof. unfold newer. apply List.filter_app. Qed.
Lemma newer_none since a : Forall (λ e, (we_Revision e ≤ since)%Z) a → newer since a = [].
Proof.
  induction 1 as [|e a He Ha IH]; [done|]. unfold newer in *. cbn.
  destruct (Z.ltb_spec since (we_Revision e)); [lia|done].
Qed.
Lemma sorted_le_last (l : list WatchEvent) d :
  StronglySorted (λ a b, (we_Revision a < we_Revision b)%Z) l →
  Forall (λ e, (we_Revision e ≤ we_Revision (List.last l d))%Z) l.
Proof.
  induction 1 as [|e l Hs IH Hall]; [constructor|]. destruct l as [|e' l]; [by repeat constructor|].
  change (List.last (e :: e' :: l) d) with (List.last (e' :: l) d).
  constructor; [|done]. apply Forall_cons in Hall as [? _]. apply Forall_cons in IH as [? _]. lia.
Qed.

(** An exact replay is every published event after [since]. *)
Lemma replay_exact old hist since replay :
  increasing (old ++ hist) → is_u64 since → replaySinceLocked hist since = (replay, true) →
  replay = newer since (old ++ hist).
Proof.
  intros [Hs Hu] Hsince. destruct hist as [|e l]; [done|]. unfold replaySinceLocked.
  destruct (since =? 0)%Z; [done|].
  apply StronglySorted_app in Hs as (Hcross&_&Hs). apply Forall_app in Hu as [Hou Hu].
  pose proof (sorted_le_last (e :: l) e Hs) as Hle. rewrite Forall_forall in Hle, Hou.
  destruct (Z.ltb_spec (we_Revision (List.last (e :: l) e)) since) as [Hlt|Hge].
  - intros [= <-]. symmetry. apply newer_none. apply Forall_app.
    pose proof (Hle e ltac:(left)) as He. split; apply Forall_forall; intros x Hx.
    + specialize (Hcross x e Hx ltac:(left)). lia.
    + specialize (Hle x Hx). lia.
  - destruct (Z.ltb_spec (u64 (since + 1)) (we_Revision e)) as [|Hcov]; [done|]. intros [= <-].
    rewrite newer_app, (newer_none since old); [done|].
    apply Forall_forall. intros x Hx. specialize (Hcross x e Hx ltac:(left)). specialize (Hou x Hx).
    unfold u64, is_u64 in *. destruct (decide (since + 1 < 2 ^ 64)%Z) as [Hb|Hb].
    + rewrite Z.mod_small in Hcov by lia. lia.
    + replace (since + 1)%Z with (2 ^ 64)%Z in Hcov by lia. rewrite Z_mod_same_full in Hcov. lia.
Qed.

(** Once an event as new as [since] was published, all later ones are newer. *)
Lemma newer_later since log later : increasing (log ++ later) → Exists (λ e, (since ≤ we_Revision e)%Z) log → newer since later = later.
Proof.
  intros [Hs _] (e&He&Hle)%Exists_exists. apply StronglySorted_app in Hs as (Hcross&_&_).
  assert (Hall : Forall (λ x, (since < we_Revision x)%Z) later) by (apply Forall_forall; intros x Hx; specialize (Hcross e x He Hx); lia).
  clear Hcross. unfold newer. induction Hall as [|x l Hx Hl IH]; [done|]. cbn. by rewrite (proj2 (Z.ltb_lt _ _) Hx), IH.
Qed.
(** C23: resuming from a revision loses nothing and repeats nothing.  When [SubscribeSince] reports an
    exact replay, then in every continuation in which the hub keeps the subscription and the
    publisher is idle, the replay followed by the deliveries newer than that revision is exactly what was
    published after it, in order; and if the hub had come to that revision already, the
    replay followed by all deliveries is. *)
Theorem watch_resume ls1 ls2 h h' h'' buffer since id replay c :
  fresh_ids (ls1 ++ LSubscribe buffer since :: ls2) →
  run ls1 NewWatchHub = Some h → h_pub h ≠ Panicked →
  SubscribeSince h buffer since = (h', (id, replay, true)) → is_u64 since →
  run ls2 h' = Some h'' → h_chans h'' !! id = Some c → id ∈ h_watchers h'' → h_pub h'' = Idle →
  increasing (h_log h'') →
  replay ++ newer since (delivered c) = newer since (h_log h'') ∧
  (Exists (λ e, (since ≤ we_Revision e)%Z) (h_log h) → replay ++ delivered c = newer since (h_log h'')).
Proof.
  intros Hf Hr1 Hnp Hsub Hsince Hr2 Hc Hw Hidle Hinc. unfold fresh_ids in Hf.
  rewrite length_app in Hf. cbn [length] in Hf.
  assert (0 + Z.of_nat (length ls1) < 2 ^ 64)%Z as Hn1 by lia.
  pose proof (run_inv 0 _ _ _ Hn1 NewWatchHub_inv Hr1) as Hinv. rewrite Z.add_0_l in Hinv.
  set (n := Z.of_nat (length ls1)) in *.
  assert (n + 1 + Z.of_nat (length ls2) < 2 ^ 64)%Z as Hn by (unfold n; lia). clear Hf.
  assert (hub_inv (n + 1) h') as Hinv'.
  { pose proof (subscribe_inv n h Hinv buffer since ltac:(lia)) as Hi. by rewrite Hsub in Hi. }
  pose proof (run_frame (n + 1) _ _ _ Hn Hinv' Hr2) as [Hlog Hstart].
  pose proof (run_inv (n + 1) _ _ _ Hn Hinv' Hr2) as Hinv''.
  revert Hsub. unfold SubscribeSince. destruct (replaySinceLocked (h_history h) since) as [rp ex] eqn:Hrep.
  intros [= <- <- <- ->]. cbn [h_chans h_log] in *.
  destruct (Hstart _ _ (lookup_insert_eq _ _ _)) as (c'&Hc'&Hst). simplify_eq. cbn in Hst.
  destruct (hi_chans _ _ Hinv'' _ _ Hc) as [? ? ? ? Ho].
  apply (hi_watchers _ _ Hinv'') in Hw as (c'&?&Hcl). simplify_eq.
  specialize (Ho Hcl). rewrite Hidle in Ho. cbn in Ho. rewrite app_nil_r in Ho.
  rewrite Ho, Hst by done. destruct Hlog as [tl Hlog]. rewrite Hlog in Hinc |- *. rewrite drop_app_length, newer_app.
  assert (rp = newer since (h_log h)) as ->.
  { rewrite (hi_history _ _ Hinv) in Hrep. destruct Hinc as [Hs Hu].
    rewrite <-(take_drop (length (h_log h) - history_limit) (h_log h)).
    apply replay_exact; [|done|done]. rewrite take_drop.
    split; [by apply StronglySorted_app in Hs as (_&?&_)|by apply Forall_app in Hu as [? _]]. }
  split; [done|]. intros Hex. by rewrite (newer_later since (h_log h) tl).
Qed.

(** [Publish] sends without the lock.  A subscriber that cancels between the
    copy of the watcher table and the send closes the channel under the publisher,
    whose send then panics; nothing recovers it. *)
Theorem publish_unsubscribe_panic ls h event todo slow id :
  fresh_ids ls → run ls NewWatchHub = Some h →
  h_pub h = Sending event todo slow → id ∈ todo → id ∈ h_watchers h →
  ∃ h', run [LUnsubscribe id; LSend id] h = Some h' ∧ h_pub h' = Panicked.
Proof.
  intros Hf Hr Hpub Hid Hw. eapply (run_inv 0) in Hr; [|exact Hf|apply NewWatchHub_inv].
  apply (hi_watchers _ _ Hr) in Hw as Hw'. destruct Hw' as (c&Hc&_).
  assert (hub_step (LUnsubscribe id) h = Some (unsubscribe h id)) as Hu.
  { unfold hub_step. by rewrite decide_False by congruence. }
  cbn [run]. rewrite Hu. cbn [mbind option_bind]. unfold unsubscribe. rewrite decide_True by done.
  unfold hub_step. cbn [h_pub]. rewrite Hpub, decide_False, decide_True by done.
  unfold publish_send. cbn [h_chans]. rewrite lookup_alter_eq, Hc. cbn. by eexists.
Qed.

(** ** Instances of the properties *)
Definition sample_event (rev : Z) : WatchEvent :=
  MkWatchEvent rev WatchEventDelete (lit "prod") (lit "orders") (lit "i-1") None.
Definition sample_run : list Label :=
  [LPublish (sample_event 5); LPublished; LSubscribe 1 4; LPublish (sample_event 7); LSend 1; LPublished].
Definition sample_hub : Hub := default NewWatchHub (run sample_run NewWatchHub).
Definition sample_chan : Chan := default (MkChan [] 0 true 0 []) (h_chans sample_hub !! 1%Z).
Lemma watch_delivery_witness :
  delivered sample_chan `prefix_of` drop (ch_start sample_chan) (h_log sample_hub) ∧
  length (ch_buf sample_chan) ≤ ch_cap sample_chan ∧
  (1%Z ∈ h_watchers sample_hub → h_pub sample_hub = Idle →
   delivered sample_chan = drop (ch_start sample_chan) (h_log sample_hub)).
Proof. apply (watch_delivery sample_run sample_hub 1); by vm_compute. Defined.
Lemma hub_bounded_witness :
  length (h_history sample_hub) = 2 ∧ h_history sample_hub `suffix_of` h_log sample_hub ∧
  (0 ≤ h_nextID sample_hub ≤ 6)%Z ∧
  ∀ id c, h_chans sample_hub !! id = Some c → length (ch_buf c) ≤ ch_cap c ∧
    (id ∈ h_watchers sample_hub → h_pub sample_hub ≠ Panicked →
     length (h_log sample_hub) - ch_start c - length (ch_got c) ≤ ch_cap c + 1).
Proof. apply (hub_bounded sample_run sample_hub); by vm_compute. Defined.
Definition sample_before : Hub := default NewWatchHub (run (take 2 sample_run) NewWatchHub).
Definition sample_subscribed : Hub := (SubscribeSince sample_before 1 4).1.
Lemma watch_resume_witness :
  [sample_event 5] ++ newer 4 (delivered sample_chan) = newer 4 (h_log sample_hub) ∧
  [sample_event 5] ++ delivered sample_chan = newer 4 (h_log sample_hub).
Proof.
  destruct (watch_resume (take 2 sample_run) (drop 3 sample_run) sample_before sample_subscribed sample_hub 1 4 1
           [sample_event 5] sample_chan) as [Hr Hall].
  - by vm_compute.
  - by vm_compute.
  - by vm_compute.
  - vm_compute. reflexivity.
  - by vm_compute.
  - vm_compute. reflexivity.
  - vm_compute. reflexivity.
  - assert (h_watchers sample_hub = {[1%Z]}) as -> by (vm_compute; reflexivity). by apply elem_of_singleton.
  - by vm_compute.
  - assert (h_log sample_hub = [sample_event 5; sample_event 7]) as -> by (vm_compute; reflexivity).
    split.
    + apply StronglySorted_cons. rewrite Forall_singleton. cbn. split; [lia|]. by repeat constructor.
    + rewrite !Forall_cons, Forall_nil. unfold is_u64; cbn. lia.
  - split; [exact Hr|]. apply Hall. assert (h_log sample_before = [sample_event 5]) as -> by (vm_compute; reflexivity).
    constructor. cbn. lia.
Defined.
Definition sending_hub : Hub :=
  default NewWatchHub (run [LSubscribe 1 0; LPublish (sample_event 5)] NewWatchHub).
Lemma publish_unsubscribe_panic_witness :
  ∃ h', run [LUnsubscribe 1; LSend 1] sending_hub = Some h' ∧ h_pub h' = Panicked.
Proof.
  apply (publish_unsubscribe_panic [LSubscribe 1 0; LPublish (sample_event 5)] sending_hub (sample_event 5) {[1%Z]} ∅ 1).
  - by vm_compute.
  - by vm_compute.
  - vm_compute. reflexivity.
  - by apply elem_of_singleton.
  - assert (h_watchers sending_hub = {[1%Z]}) as -> by (vm_compute; reflexivity). by apply elem_of_singleton.
Defined.
