(* ===== verification/Codec.v ===== *)
(** * Serialisation interfaces

    [encoding/json] is used through two calls on each type: [Marshal] /
    [Encoder.Encode] and [Unmarshal] / [Decoder.Decode].  The classes below state
    what the program relies on: on values JSON represents exactly ([json_faithful]:
    text fields are valid UTF-8), decoding inverts encoding.  The fixed-width
    integers of [encoding/binary] are defined outright. *)
From Stdlib Require Import Ascii ZArith.
From stdpp Require Import gmap strings list countable.
From S2P Require Import Prelude GoStrings.

Definition newline : ascii := byte 10.

Class Json (A : Type) := {
  json_marshal : A → option str;
  json_unmarshal : str → option A;
  (** [Decoder.Decode]: the first value of a stream. *)
  json_decode : str → option A;
  json_faithful : A → Prop;
  json_roundtrip a : json_faithful a → ∃ s, json_marshal a = Some s ∧ json_unmarshal s = Some a;
  json_unmarshal_newline s : json_unmarshal (s ++ [newline]) = json_unmarshal s;
  json_decode_line a s : json_faithful a → json_marshal a = Some s → json_decode (s ++ [newline]) = Some a
}.
(** [json.NewEncoder(w).Encode(v)] *)
Definition json_encode {A} `{Json A} (a : A) : option str :=
  s ← json_marshal a; Some (s ++ [newline]).

(** ** A concrete codec, for instantiating the interface

    Any countable type has one: the bits of its code between a tag and a newline. *)
Fixpoint pos_bits (p : positive) : str :=
  match p with
  | xH => []
  | xO p => byte 48 :: pos_bits p
  | xI p => byte 49 :: pos_bits p
  end.
Fixpoint bits_pos (s : str) : positive :=
  match s with
  | [] => xH
  | c :: s => if bool_decide (c = byte 48) then xO (bits_pos s) else xI (bits_pos s)
  end.
Fixpoint line (s : str) : str :=
  match s with
  | [] => []
  | c :: s => if bool_decide (c = newline) then [] else c :: line s
  end.
Lemma bits_pos_bits p : bits_pos (pos_bits p) = p.
Proof. induction p as [p IH|p IH|]; cbn; by rewrite ?IH. Qed.
Lemma line_bits p : line (pos_bits p) = pos_bits p.
Proof. induction p as [p IH|p IH|]; cbn; by rewrite ?IH. Qed.
Lemma line_app s t : line (line s ++ newline :: t) = line s.
Proof.
  induction s as [|c s IH]; cbn; [done|]. destruct (bool_decide_reflect (c = newline)); cbn; [done|].
  by rewrite bool_decide_false, IH.
Qed.
Lemma line_newline s : line (s ++ [newline]) = line s.
Proof. induction s as [|c s IH]; cbn; [done|]. case_bool_decide; [done|]. by rewrite IH. Qed.

Definition bits_marshal {A} `{Countable A} (tag : ascii) (a : A) : str := tag :: pos_bits (encode a).
Definition bits_unmarshal {A} `{Countable A} (tag : ascii) (s : str) : option A :=
  match s with
  | c :: s => if bool_decide (c = tag) then decode (bits_pos (line s)) else None
  | [] => None
  end.
Lemma bits_roundtrip {A} `{Countable A} tag (a : A) : bits_unmarshal tag (bits_marshal tag a) = Some a.
Proof. cbn. by rewrite bool_decide_true, line_bits, bits_pos_bits, decode_encode. Qed.
Lemma bits_line {A} `{Countable A} tag (a : A) :
  bits_unmarshal tag (bits_marshal tag a ++ [newline]) = Some a.
Proof.
  cbn. rewrite bool_decide_true by done. rewrite <-(line_bits (encode a)).
  by rewrite line_app, line_bits, bits_pos_bits, decode_encode.
Qed.
Program Definition bits_json {A} `{Countable A} (tag : ascii) (Htag : tag ≠ newline) : Json A := {|
  json_marshal a := Some (bits_marshal tag a);
  json_unmarshal := bits_unmarshal tag;
  json_decode := bits_unmarshal tag;
  json_faithful _ := True
|}.
Next Obligation. intros A ?? tag _ a _. eexists. split; [done|apply bits_roundtrip]. Qed.
Next Obligation.
  intros A ?? tag Htag [|c s]; cbn; [|by rewrite line_newline]. by rewrite bool_decide_false.
Qed.
Next Obligation. intros A ?? tag _ a s _ [= <-]. apply bits_line. Qed.

Lemma brace_tag : byte 123 ≠ newline.
Proof. by vm_compute. Qed.
Lemma bracket_tag : byte 91 ≠ newline.
Proof. by vm_compute. Qed.

(** ** Big-endian integers ([encoding/binary]) *)
Definition zbyte (z : Z) : ascii := byte (Z.to_nat (z mod 256)).
Fixpoint be_bytes (n : nat) (z : Z) : str :=
  match n with
  | O => []
  | S n => be_bytes n (z / 256) ++ [zbyte z]
  end.
Definition be_value (s : str) : Z := fold_left (λ acc c, acc * 256 + Z.of_N (bval c))%Z s 0%Z.
(** [PutUint64] / [Uint64] and [PutUint32] / [Uint32]. *)
Definition PutUint64 (z : Z) : str := be_bytes 8 (u64 z).
Definition PutUint32 (z : Z) : str := be_bytes 4 (z mod 2 ^ 32).

Lemma length_be_bytes n z : length (be_bytes n z) = n.
Proof. revert z. induction n; intros z; cbn; [done|]. rewrite length_app, IHn. cbn. lia. Qed.
Lemma zbyte_value z : Z.of_N (bval (zbyte z)) = (z mod 256)%Z.
Proof.
  unfold zbyte. pose proof (Z.mod_pos_bound z 256). rewrite bval_byte by lia. lia.
Qed.
Lemma be_value_app s c : be_value (s ++ [c]) = (be_value s * 256 + Z.of_N (bval c))%Z.
Proof. unfold be_value. by rewrite fold_left_app. Qed.
Lemma be_value_bytes n z : (0 ≤ z < 256 ^ Z.of_nat n)%Z → be_value (be_bytes n z) = z.
Proof.
  revert z. induction n as [|n IH]; intros z Hz; cbn [be_bytes].
  - change (256 ^ Z.of_nat 0)%Z with 1%Z in Hz. cbn. lia.
  - rewrite Nat2Z.inj_succ, Z.pow_succ_r in Hz by lia.
    rewrite be_value_app, IH, zbyte_value by (split; [apply Z.div_pos; lia|apply Z.div_lt_upper_bound; lia]).
    pose proof (Z.div_mod z 256). lia.
Qed.
Lemma PutUint64_value z : is_u64 z → be_value (PutUint64 z) = z.
Proof. intros Hz. unfold PutUint64. rewrite u64_id by done. apply be_value_bytes. exact Hz. Qed.
Lemma PutUint32_value z : (0 ≤ z < 2 ^ 32)%Z → be_value (PutUint32 z) = z.
Proof. intros Hz. unfold PutUint32. rewrite Z.mod_small by done. apply be_value_bytes. exact Hz. Qed.
