(* ===== verification/Files.v ===== *)
(** * A directory of files ([os], [path/filepath])

    The files of one directory, by base name, with the trace of the system calls
    that changed them.  The trace lets a theorem speak about a crash: the process may die
    between two calls, or in the middle of a write.  I/O errors other than a missing
    file are not modelled. *)
From Stdlib Require Import Ascii ZArith.
From stdpp Require Import gmap strings list sorting.
From S2P Require Import Prelude GoStrings.

Inductive FsOp :=
  | FCreate (name : str)                (* O_CREATE|O_TRUNC *)
  | FAppend (name data : str)           (* write at the end of an existing file *)
  | FRename (old new : str)
  | FRemove (name : str).
Abbreviation files := (gmap str str).
Definition fs_exec (f : files) (op : FsOp) : files :=
  match op with
  | FCreate n => <[n := []]> f
  | FAppend n d => alter (λ old, old ++ d) n f
  | FRename a b => match f !! a with Some d => <[b := d]> (delete a f) | None => f end
  | FRemove n => delete n f
  end.
Definition fs_run (f : files) (ops : list FsOp) : files := fold_left fs_exec ops f.
(** What a crash can leave of a trace: a prefix of the calls, the last one possibly a
    partial write. *)
Inductive crash (f : files) (ops : list FsOp) : files → Prop :=
  | crash_between k : crash f ops (fs_run f (take k ops))
  | crash_torn k n d d' : ops !! k = Some (FAppend n d) → d' `prefix_of` d →
      crash f ops (fs_exec (fs_run f (take k ops)) (FAppend n d')).

Lemma fs_run_app f ops1 ops2 : fs_run f (ops1 ++ ops2) = fs_run (fs_run f ops1) ops2.
Proof. apply fold_left_app. Qed.

(** [filepath.Glob(dir/"*"+suffix)], sorted: names ending in the suffix, in byte order. *)
Definition glob_suffix (suffix : str) (f : files) : files := filter (λ kv, HasSuffix kv.1 suffix = true) f.
Definition sorted_names (f : files) : list str := merge_sort str_le (map_to_list f).*1.

Lemma glob_insert suffix n d f :
  HasSuffix n suffix = true → glob_suffix suffix (<[n := d]> f) = <[n := d]> (glob_suffix suffix f).
Proof. intros. unfold glob_suffix. by rewrite map_filter_insert_True. Qed.
Lemma glob_insert_other suffix n d f :
  HasSuffix n suffix = false → glob_suffix suffix (<[n := d]> f) = glob_suffix suffix f.
Proof. intros Hn. unfold glob_suffix. apply map_filter_insert_not. intros y. cbn. congruence. Qed.
Lemma glob_delete suffix n f : glob_suffix suffix (delete n f) = delete n (glob_suffix suffix f).
Proof. apply map_filter_delete. Qed.
Lemma glob_delete_other suffix n f :
  HasSuffix n suffix = false → glob_suffix suffix (delete n f) = glob_suffix suffix f.
Proof.
  intros Hn. rewrite glob_delete. apply delete_id. unfold glob_suffix.
  rewrite map_lookup_filter_None. right. intros x _. cbn. congruence.
Qed.
Lemma glob_lookup suffix n f : HasSuffix n suffix = true → glob_suffix suffix f !! n = f !! n.
Proof.
  intros Hn. unfold glob_suffix. rewrite map_lookup_filter. destruct (f !! n); cbn; [|done].
  by rewrite option_guard_True.
Qed.
Lemma glob_alter suffix g n f :
  HasSuffix n suffix = true → glob_suffix suffix (alter g n f) = alter g n (glob_suffix suffix f).
Proof.
  intros Hn. apply map_eq. intros i. unfold glob_suffix. rewrite map_lookup_filter.
  destruct (decide (n = i)) as [->|Hne].
  - rewrite !lookup_alter_eq, map_lookup_filter. destruct (f !! i); cbn; [|done].
    by rewrite !option_guard_True.
  - by rewrite !lookup_alter_ne, map_lookup_filter.
Qed.
Lemma sorted_names_elem f n : n ∈ sorted_names f ↔ is_Some (f !! n).
Proof.
  unfold sorted_names. rewrite merge_sort_Permutation, list_elem_of_fmap. split.
  - intros ([k v]&->&?%elem_of_map_to_list). by exists v.
  - intros [v ?]. exists (n, v). by rewrite elem_of_map_to_list.
Qed.
Lemma sorted_names_nodup f : NoDup (sorted_names f).
Proof. unfold sorted_names. rewrite merge_sort_Permutation. apply NoDup_fst_map_to_list. Qed.

(** ** Crashes *)
Lemma fs_run_cons f op ops : fs_run f (op :: ops) = fs_run (fs_exec f op) ops.
Proof. done. Qed.
Lemma crash_app f a b g : crash f (a ++ b) g → crash f a g ∨ crash (fs_run f a) b g.
Proof.
  intros Hc. inversion Hc as [k E|k n d d' Hk Hp E]; subst.
  - destruct (decide (k ≤ length a)) as [Hk|Hk].
    + left. rewrite take_app_le by done. constructor.
    + right. rewrite take_app_ge, fs_run_app by lia. constructor.
  - destruct (decide (k < length a)) as [Hka|Hka].
    + left. rewrite lookup_app_l in Hk by done. rewrite take_app_le by lia. by econstructor.
    + right. rewrite lookup_app_r in Hk by lia. rewrite take_app_ge, fs_run_app by lia. by econstructor.
Qed.
Lemma crash_nil f g : crash f [] g → g = f.
Proof. intros Hc. inversion Hc; subst; [by rewrite take_nil|by rewrite lookup_nil in *]. Qed.
Lemma crash_cons f op ops g :
  crash f (op :: ops) g → g = f ∨ crash (fs_exec f op) ops g ∨
    ∃ n d d', op = FAppend n d ∧ d' `prefix_of` d ∧ g = fs_exec f (FAppend n d').
Proof.
  intros Hc. inversion Hc as [k E|k n d d' Hk Hp E]; subst.
  - destruct k as [|k]; [by left|]. right; left. exact (crash_between (fs_exec f op) ops k).
  - destruct k as [|k]; cbn in Hk.
    + injection Hk as ->. right; right. by exists n, d, d'.
    + right; left. exact (crash_torn (fs_exec f op) ops k n d d' Hk Hp).
Qed.
Lemma crash_start f ops : crash f ops f.
Proof. exact (crash_between f ops 0). Qed.
Lemma crash_extend f a b g : crash (fs_run f a) b g → crash f (a ++ b) g.
Proof.
  intros Hc. inversion Hc as [k E|k n d d' Hk Hp E]; subst.
  - rewrite <-fs_run_app. rewrite <-(take_app_add a). constructor.
  - rewrite <-fs_run_app, <-(take_app_add a). eapply crash_torn; [|done].
    by rewrite lookup_app_r, Nat.add_comm, Nat.add_sub by lia.
Qed.
