(* ===== verification/Wal.v ===== *)
(** * The write-ahead log ([internal/wal/*.go])

    [FileWAL] keeps the hard state in one file and the log entries in numbered
    segment files of length-prefixed records, with an in-memory mirror of both.
    Protobuf encoding is third-party code and a parameter ([Raftpb]). *)
From Stdlib Require Import Ascii ZArith Sorted.
From stdpp Require Import gmap strings list sorting.
From S2P Require Import Prelude GoStrings Codec Files.

(** The fields of [raftpb.HardState] and [raftpb.Entry] the program reads. *)
Inductive EntryType := EntryNormal | EntryConfChange | EntryConfChangeV2.
Record HardState := MkHardState { hs_Term : Z; hs_Vote : Z; hs_Commit : Z }.
Record Entry := MkEntry { e_Index : Z; e_Term : Z; e_Type : EntryType; e_Data : str }.
#[export] Instance EntryType_eq_dec : EqDecision EntryType.
Proof. solve_decision. Defined.
#[export] Instance HardState_eq_dec : EqDecision HardState.
Proof. solve_decision. Defined.
#[export] Instance Entry_eq_dec : EqDecision Entry.
Proof. solve_decision. Defined.
Definition zero_state : HardState := MkHardState 0 0 0.

(** Every field is a [uint64] in the code. *)
Definition state_ok (s : HardState) : Prop := is_u64 (hs_Term s) ∧ is_u64 (hs_Vote s) ∧ is_u64 (hs_Commit s).
Definition entry_ok (e : Entry) : Prop := is_u64 (e_Index e) ∧ is_u64 (e_Term e).
(** Generated protobuf code: marshalling a message whose fields are in range yields
    bytes that unmarshal to it. *)
Class Raftpb := {
  marshal_state : HardState → option str;
  unmarshal_state : str → option HardState;
  marshal_entry : Entry → option str;
  unmarshal_entry : str → option Entry;
  marshal_state_ok s : state_ok s → ∃ d, marshal_state s = Some d ∧ unmarshal_state d = Some s;
  marshal_entry_ok e : entry_ok e → ∃ d, marshal_entry e = Some d ∧ unmarshal_entry d = Some e
}.

Inductive WalErr :=
  | errWALNotOpen | ErrGap (first last : Z) | ErrBoundary (path : str)
  | ErrEncode | ErrDecode | ErrShortRecord | ErrNotExist (path : str).
#[export] Instance WalErr_eq_dec : EqDecision WalErr.
Proof. solve_decision. Defined.

Record Segment := MkSegment { sg_ID : Z; sg_FirstIndex : Z; sg_LastIndex : Z; sg_Path : str }.
(** The memory of a [FileWAL] together with its directory.  [w_trace] records the
    system calls that change files. *)
Record FileWAL := MkWAL {
  w_maxSegmentSize : Z;
  w_state : HardState; w_entries : list Entry; w_segments : list Segment; w_opened : bool;
  w_files : files; w_trace : list FsOp
}.
Definition defaultMaxSegmentSize : Z := 64 * 1024 * 1024.
Definition stateFileName : str := lit "hardstate.bin".
Definition dot_wal : str := lit ".wal".
Definition dot_tmp : str := lit ".tmp".
Definition segment_name (id : Z) : str := Format020 id ++ dot_wal.
Definition NewFileWAL (f : files) : FileWAL :=
  MkWAL defaultMaxSegmentSize zero_state [] [] false f [].

Definition set_state (st : HardState) (w : FileWAL) : FileWAL :=
  MkWAL (w_maxSegmentSize w) st (w_entries w) (w_segments w) (w_opened w) (w_files w) (w_trace w).
Definition set_entries (es : list Entry) (w : FileWAL) : FileWAL :=
  MkWAL (w_maxSegmentSize w) (w_state w) es (w_segments w) (w_opened w) (w_files w) (w_trace w).
Definition set_segments (sg : list Segment) (w : FileWAL) : FileWAL :=
  MkWAL (w_maxSegmentSize w) (w_state w) (w_entries w) sg (w_opened w) (w_files w) (w_trace w).
Definition set_opened (b : bool) (w : FileWAL) : FileWAL :=
  MkWAL (w_maxSegmentSize w) (w_state w) (w_entries w) (w_segments w) b (w_files w) (w_trace w).
Definition W (A : Type) : Type := ST FileWAL WalErr A.
(** A system call. *)
Definition sys (op : FsOp) : W unit := st_modify (λ w,
  MkWAL (w_maxSegmentSize w) (w_state w) (w_entries w) (w_segments w) (w_opened w)
    (fs_exec (w_files w) op) (w_trace w ++ [op])).
Definition read_file (name : str) : W (option str) := w ← st_get; mret (w_files w !! name).

(** ** Pure helpers *)
Definition isEmptyHardState (s : HardState) : bool :=
  (hs_Term s =? 0)%Z && (hs_Vote s =? 0)%Z && (hs_Commit s =? 0)%Z.
(** [sort.Search(n, f)] on a list: the first position whose element satisfies [f]
    (for the monotone predicates it is called with, binary search finds that one). *)
Fixpoint search {A} (f : A → bool) (l : list A) : nat :=
  match l with
  | [] => 0
  | x :: l => if f x then 0 else S (search f l)
  end.
Definition mergeEntries (existing incoming : list Entry) : list Entry :=
  match incoming, existing with
  | [], _ => existing
  | _, [] => incoming
  | e :: _, _ => take (search (λ x, (e_Index e <=? e_Index x)%Z) existing) existing ++ incoming
  end.
Definition nextSegmentID (segments : list Segment) : Z :=
  match List.last (map Some segments) None with
  | None => 1%Z
  | Some s => u64 (sg_ID s + 1)
  end.
(** [fmt.Sscanf(base, "%d.wal", &id)]: the leading digits; 0 when there are none or
    they exceed a uint64. *)
Fixpoint leading_digits (s : str) : str :=
  match s with
  | c :: s => match digit_val c with Some _ => c :: leading_digits s | None => [] end
  | [] => []
  end.
Definition parseSegmentID (path : str) : Z := default 0%Z (ParseUint (leading_digits path)).

Section wal.
Context `{Raftpb}.

(** [codec.go]: the codec of the log is protobuf. *)
Definition EncodeState (s : HardState) : result WalErr str :=
  match marshal_state s with Some d => Ok d | None => Err ErrEncode end.
Definition DecodeState (d : str) : result WalErr HardState :=
  match unmarshal_state d with Some s => Ok s | None => Err ErrDecode end.
Definition EncodeEntry (e : Entry) : result WalErr str :=
  match marshal_entry e with Some d => Ok d | None => Err ErrEncode end.
Definition DecodeEntry (d : str) : result WalErr Entry :=
  match unmarshal_entry d with Some e => Ok e | None => Err ErrDecode end.

(** ** Reading *)
Definition loadState : W HardState :=
  data ← read_file stateFileName;
  match data with
  | None => mret zero_state
  | Some d => st_lift (DecodeState d)
  end.
(** The record loop.  Each record takes at least its four length bytes, so the
    length of the file bounds the iterations. *)
Fixpoint read_records (fuel : nat) (s : str) : result WalErr (list Entry) :=
  match fuel with
  | O => Ok []
  | S fuel =>
      if length s <? 4 then Ok []
      else
        let recordLen := Z.to_nat (be_value (take 4 s)) in
        let rest := drop 4 s in
        if length rest <? recordLen then Err ErrShortRecord
        else
          entry ← DecodeEntry (take recordLen rest);
          entries ← read_records fuel (drop recordLen rest);
          Ok (entry :: entries)
  end.
Definition readSegment (content : str) : result WalErr (list Entry) := read_records (S (length content)) content.
Definition segment_of (path : str) (es : list Entry) : Segment :=
  match es with
  | [] => MkSegment (parseSegmentID path) 0 0 path
  | e :: _ => MkSegment (parseSegmentID path) (e_Index e) (e_Index (List.last es e)) path
  end.
Definition load_segment (f : files) (acc : list Entry * list Segment) (path : str)
    : result WalErr (list Entry * list Segment) :=
  match f !! path with
  | None => Err (ErrNotExist path)
  | Some content =>
      fileEntries ← readSegment content;
      if bool_decide (fileEntries = []) then Ok acc
      else Ok (acc.1 ++ fileEntries, acc.2 ++ [segment_of path fileEntries])
  end.
Definition loadEntries : W (list Entry * list Segment) :=
  w ← st_get;
  st_lift (foldM (load_segment (w_files w)) ([], []) (sorted_names (glob_suffix dot_wal (w_files w)))).
Definition Open : W unit :=
  w ← st_get;
  if w_opened w then mret tt
  else
    state ← loadState;
    es ← loadEntries;
    st_modify (λ w, set_opened true (set_segments es.2 (set_entries es.1 (set_state state w)))).
Definition Load : W (HardState * list Entry) :=
  w ← st_get;
  if w_opened w then mret (w_state w, w_entries w) else st_fail errWALNotOpen.
Definition Close : W unit := st_modify (set_opened false).

(** ** Writing *)
Definition persistState : W unit :=
  w ← st_get;
  data ← st_lift (EncodeState (w_state w));
  sys (FCreate (stateFileName ++ dot_tmp));;
  sys (FAppend (stateFileName ++ dot_tmp) data);;
  sys (FRename (stateFileName ++ dot_tmp) stateFileName).
Definition createSegment (id firstIndex : Z) : W Segment :=
  sys (FCreate (segment_name id));;
  mret (MkSegment id firstIndex (u64 (firstIndex - 1)) (segment_name id)).
Definition fileSize (path : str) : W Z :=
  data ← read_file path;
  match data with
  | None => st_fail (ErrNotExist path)
  | Some d => mret (Z.of_nat (length d))
  end.
Definition appendRecord (path record : str) : W unit :=
  data ← read_file path;
  match data with
  | None => st_fail (ErrNotExist path)
  | Some _ =>
      sys (FAppend path (PutUint32 (Z.of_nat (length record))));;
      sys (FAppend path record)
  end.
(** The state of the append loop: the segments, whether [lastSegment] points to the
    last of them, the next id. *)
Record AppendState := MkAppend { as_segments : list Segment; as_hasLast : bool; as_nextID : Z }.
Definition new_segment (s : AppendState) (index : Z) : W AppendState :=
  segment ← createSegment (as_nextID s) index;
  mret (MkAppend (as_segments s ++ [segment]) true (u64 (as_nextID s + 1))).
Definition last_segment (s : AppendState) : Segment :=
  default (MkSegment 0 0 0 []) (last (as_segments s)).
Definition touch_last (index : Z) (s : Segment) : Segment :=
  MkSegment (sg_ID s) (if (sg_FirstIndex s =? 0)%Z then index else sg_FirstIndex s) index (sg_Path s).
Definition append_entry (s : AppendState) (entry : Entry) : W AppendState :=
  record ← st_lift (EncodeEntry entry);
  let recordSize := (4 + Z.of_nat (length record))%Z in
  s ← (if as_hasLast s then mret s else new_segment s (e_Index entry));
  currentSize ← fileSize (sg_Path (last_segment s));
  w ← st_get;
  s ← (if ((0 <? currentSize) && (w_maxSegmentSize w <? currentSize + recordSize))%Z
       then new_segment s (e_Index entry) else mret s);
  appendRecord (sg_Path (last_segment s)) record;;
  mret (MkAppend (alter (touch_last (e_Index entry)) (length (as_segments s) - 1) (as_segments s))
          true (as_nextID s)).
Definition appendEntriesIncremental (entries : list Entry) (startSegmentID : Z) (appendToLast : bool) : W unit :=
  if bool_decide (entries = []) then mret tt
  else
    w ← st_get;
    let hasLast := appendToLast && negb (bool_decide (length (w_segments w) = 0)) &&
                   (startSegmentID =? nextSegmentID (w_segments w))%Z in
    s ← st_fold append_entry (MkAppend (w_segments w) hasLast startSegmentID) entries;
    st_modify (set_segments (as_segments s)).

(** [os.Remove], where a missing file is no error. *)
Definition remove_segment (s : Segment) : W unit := sys (FRemove (sg_Path s)).
Definition rewriteTail (overlapIndex : Z) (mergedEntries : list Entry) : W unit :=
  w ← st_get;
  if bool_decide (w_segments w = []) then
    st_modify (λ w, set_segments [] (set_entries [] w));;
    appendEntriesIncremental mergedEntries 1 false;;
    st_modify (set_entries mergedEntries)
  else
    let segmentIdx := search (λ s, (overlapIndex <=? sg_LastIndex s)%Z) (w_segments w) in
    match w_segments w !! segmentIdx with
    | None =>
        appendEntriesIncremental mergedEntries (nextSegmentID (w_segments w)) true;;
        st_modify (set_entries mergedEntries)
    | Some segment =>
        let rewriteFrom := sg_FirstIndex segment in
        let startSegmentID := sg_ID segment in
        st_iter remove_segment (drop segmentIdx (w_segments w));;
        let preservedEntries := List.filter (λ e, (e_Index e <? rewriteFrom)%Z) (w_entries w) in
        let rewriteEntries := List.filter (λ e, (rewriteFrom <=? e_Index e)%Z) mergedEntries in
        st_modify (λ w, set_entries preservedEntries (set_segments (take segmentIdx (w_segments w)) w));;
        appendEntriesIncremental rewriteEntries startSegmentID false;;
        st_modify (λ w, set_entries (w_entries w ++ rewriteEntries) w)
    end.

(** The part of [Append] that writes the entries. *)
Definition append_entries (entries : list Entry) : W unit :=
  match entries with
  | [] => mret tt
  | first :: _ =>
      w ← st_get;
      match last (w_entries w) with
      | None =>
          appendEntriesIncremental entries (nextSegmentID (w_segments w)) true;;
          st_modify (λ w, set_entries (w_entries w ++ entries) w)
      | Some tail =>
          if (e_Index first =? u64 (e_Index tail + 1))%Z then
            appendEntriesIncremental entries (nextSegmentID (w_segments w)) true;;
            st_modify (λ w, set_entries (w_entries w ++ entries) w)
          else if (u64 (e_Index tail + 1) <? e_Index first)%Z then
            st_fail (ErrGap (e_Index first) (e_Index tail))
          else rewriteTail (e_Index first) (mergeEntries (w_entries w) entries)
      end
  end.
Definition Append (state : HardState) (entries : list Entry) : W unit :=
  w ← st_get;
  if negb (w_opened w) then st_fail errWALNotOpen
  else
    (if isEmptyHardState state then mret tt else st_modify (set_state state));;
    persistState;;
    append_entries entries.

Definition rewriteSegmentFile (path : str) (entries : list Entry) : W unit :=
  sys (FCreate (path ++ dot_tmp));;
  st_iter (λ entry,
    record ← st_lift (EncodeEntry entry);
    sys (FAppend (path ++ dot_tmp) (PutUint32 (Z.of_nat (length record))));;
    sys (FAppend (path ++ dot_tmp) record)) entries;;
  sys (FRename (path ++ dot_tmp) path).
(** The loop that collects the remaining entries of the boundary segment; it breaks at
    the first entry behind the segment. *)
Fixpoint boundary_entries (index lastIndex : Z) (es : list Entry) : list Entry :=
  match es with
  | [] => []
  | e :: es =>
      if (e_Index e <? index)%Z then boundary_entries index lastIndex es
      else if (lastIndex <? e_Index e)%Z then []
      else e :: boundary_entries index lastIndex es
  end.
Definition drop_all_segments : W unit :=
  w ← st_get;
  st_iter remove_segment (w_segments w);;
  st_modify (λ w, set_segments [] (set_entries [] w));;
  persistState.
Definition TruncatePrefix (index : Z) : W unit :=
  w ← st_get;
  if negb (w_opened w) then st_fail errWALNotOpen
  else match w_entries w with
  | [] => persistState
  | first :: _ =>
      if (index <=? e_Index first)%Z then persistState
      else
        let filtered := List.filter (λ e, (index <=? e_Index e)%Z) (w_entries w) in
        if bool_decide (filtered = []) then drop_all_segments
        else
          let boundaryIdx := search (λ s, (index <=? sg_LastIndex s)%Z) (w_segments w) in
          match drop boundaryIdx (w_segments w) with
          | [] => drop_all_segments
          | boundary :: tail =>
              st_iter remove_segment (take boundaryIdx (w_segments w));;
              boundary' ←
                (if (sg_FirstIndex boundary <? index)%Z then
                   let boundaryEntries := boundary_entries index (sg_LastIndex boundary) filtered in
                   match boundaryEntries with
                   | [] => st_fail (ErrBoundary (sg_Path boundary))
                   | e :: _ =>
                       rewriteSegmentFile (sg_Path boundary) boundaryEntries;;
                       mret (MkSegment (sg_ID boundary) (e_Index e) (e_Index (List.last boundaryEntries e)) (sg_Path boundary))
                   end
                 else mret boundary);
              st_modify (λ w, set_segments (boundary' :: tail) (set_entries filtered w));;
              persistState
          end
  end.
Definition Sync : W unit :=
  w ← st_get;
  if w_opened w then persistState else st_fail errWALNotOpen.
Definition rewriteAllSegments : W unit :=
  w ← st_get;
  st_iter (λ path, sys (FRemove path)) (sorted_names (glob_suffix dot_wal (w_files w)));;
  st_modify (set_segments []);;
  appendEntriesIncremental (w_entries w) 1 false.
End wal.

(** ** [memory.go] *)
Record MemoryWAL := MkMemoryWAL { mw_state : HardState; mw_entries : list Entry; mw_opened : bool }.
Definition NewMemoryWAL : MemoryWAL := MkMemoryWAL zero_state [] false.
Definition mw_Open (w : MemoryWAL) : MemoryWAL := MkMemoryWAL (mw_state w) (mw_entries w) true.
Definition mw_Append (w : MemoryWAL) (state : HardState) (entries : list Entry) : MemoryWAL :=
  MkMemoryWAL state (mergeEntries (mw_entries w) entries) (mw_opened w).
Definition mw_Load (w : MemoryWAL) : HardState * list Entry := (mw_state w, mw_entries w).
Definition mw_TruncatePrefix (w : MemoryWAL) (index : Z) : MemoryWAL :=
  MkMemoryWAL (mw_state w) (List.filter (λ e, (index <=? e_Index e)%Z) (mw_entries w)) (mw_opened w).
Definition mw_Sync (w : MemoryWAL) : MemoryWAL := w.
Definition mw_Close (w : MemoryWAL) : MemoryWAL := MkMemoryWAL (mw_state w) (mw_entries w) false.
