(* ===== verification/WalLog.v ===== *)
(** * The log behind the write-ahead log

    [FileWAL] promises its client a hard state and a contiguous list of entries
    that survive a restart.  This file states the promise ([Log], [spec_step]), gives
    the invariant that ties it to the segments on disk ([wal_inv]), proves that
    [FileWAL] refines it, and says what a crash leaves behind. *)
From Stdlib Require Import Ascii ZArith Sorted.
From stdpp Require Import gmap strings list sorting.
From S2P Require Import Prelude GoStrings Codec Files Wal.

(** ** Contiguous logs *)
Fixpoint log_from (i : Z) (es : list Entry) : Prop :=
  match es with
  | [] => True
  | e :: es => e_Index e = i ∧ log_from (i + 1) es
  end.
(** A contiguous log of indices that start at one and leave room in a [uint64]. *)
Definition log_ok (es : list Entry) : Prop :=
  match es with
  | [] => True
  | e :: _ => (1 ≤ e_Index e)%Z ∧ log_from (e_Index e) es ∧ (e_Index e + Z.of_nat (length es) < 2 ^ 64)%Z
  end.
#[export] Instance log_from_dec i es : Decision (log_from i es).
Proof.
  revert i; induction es as [|e es IH]; intros i; cbn; [by left|].
  destruct (decide (e_Index e = i)); [|right; naive_solver].
  destruct (IH (i + 1)%Z); [by left|right; naive_solver].
Defined.
#[export] Instance log_ok_dec es : Decision (log_ok es).
Proof.
  destruct es as [|e es]; [by left|]. unfold log_ok.
  apply (and_dec _ _).
Defined.
Definition first_index (es : list Entry) : Z := match es with [] => 0 | e :: _ => e_Index e end.

Lemma log_from_app i l1 l2 :
  log_from i (l1 ++ l2) ↔ log_from i l1 ∧ log_from (i + Z.of_nat (length l1)) l2.
Proof.
  revert i; induction l1 as [|e l1 IH]; intros i; cbn.
  - rewrite Z.add_0_r. tauto.
  - rewrite IH. replace (i + Z.of_nat (S (length l1)))%Z with (i + 1 + Z.of_nat (length l1))%Z by lia. tauto.
Qed.
Lemma log_from_take i l n : log_from i l → log_from i (take n l).
Proof. intros H. rewrite <-(take_drop n l) in H. by apply log_from_app in H as [? _]. Qed.
Lemma log_from_drop i l n : n ≤ length l → log_from i l → log_from (i + Z.of_nat n) (drop n l).
Proof.
  intros Hn H. rewrite <-(take_drop n l) in H. apply log_from_app in H as [_ H].
  by rewrite length_take, Nat.min_l in H.
Qed.
Lemma log_from_lookup i l k e : log_from i l → l !! k = Some e → e_Index e = (i + Z.of_nat k)%Z.
Proof.
  revert i k; induction l as [|x l IH]; intros i [|k] H Hk; cbn in *; try done.
  - simplify_eq. lia.
  - destruct H as [_ H]. rewrite (IH _ _ H Hk). lia.
Qed.
Lemma log_from_elem i l e : log_from i l → e ∈ l → (i ≤ e_Index e < i + Z.of_nat (length l))%Z.
Proof.
  intros H [k Hk]%list_elem_of_lookup. rewrite (log_from_lookup _ _ _ _ H Hk).
  apply lookup_lt_Some in Hk. lia.
Qed.
Lemma log_from_first i l e l' : l = e :: l' → log_from i l → e_Index e = i.
Proof. intros ->. by intros [? _]. Qed.
Lemma log_from_filter_ge i l r :
  log_from i l → List.filter (λ e, (r <=? e_Index e)%Z) l = drop (Z.to_nat (r - i)) l.
Proof.
  revert i; induction l as [|e l IH]; intros i; cbn; [by rewrite drop_nil|]. intros [<- H].
  destruct (Z.leb_spec r (e_Index e)) as [Hr|Hr].
  - rewrite (IH _ H). replace (Z.to_nat (r - e_Index e)) with 0 by lia.
    by replace (Z.to_nat (r - (e_Index e + 1))) with 0 by lia.
  - rewrite (IH _ H). by replace (Z.to_nat (r - e_Index e)) with (S (Z.to_nat (r - (e_Index e + 1)))) by lia.
Qed.
Lemma log_from_filter_lt i l r :
  log_from i l → List.filter (λ e, (e_Index e <? r)%Z) l = take (Z.to_nat (r - i)) l.
Proof.
  revert i; induction l as [|e l IH]; intros i; cbn; [by rewrite take_nil|]. intros [<- H].
  destruct (Z.ltb_spec (e_Index e) r) as [Hr|Hr].
  - rewrite (IH _ H). by replace (Z.to_nat (r - e_Index e)) with (S (Z.to_nat (r - (e_Index e + 1)))) by lia.
  - rewrite (IH _ H). replace (Z.to_nat (r - e_Index e)) with 0 by lia.
    by replace (Z.to_nat (r - (e_Index e + 1))) with 0 by lia.
Qed.
Lemma log_from_search i l r :
  log_from i l → (i ≤ r ≤ i + Z.of_nat (length l))%Z → search (λ e, (r <=? e_Index e)%Z) l = Z.to_nat (r - i).
Proof.
  revert i; induction l as [|e l IH]; intros i H Hr; cbn in *; [lia|]. destruct H as [<- H].
  destruct (Z.leb_spec r (e_Index e)); [lia|]. rewrite (IH _ H) by lia. lia.
Qed.
Lemma log_from_boundary i l r b :
  log_from i l → boundary_entries r b l = take (Z.to_nat (b + 1 - Z.max i r)) (drop (Z.to_nat (r - i)) l).
Proof.
  revert i; induction l as [|e l IH]; intros i; cbn; [by rewrite drop_nil, take_nil|]. intros [<- H].
  destruct (Z.ltb_spec (e_Index e) r) as [Hr|Hr].
  - rewrite (IH _ H). replace (Z.to_nat (r - e_Index e)) with (S (Z.to_nat (r - (e_Index e + 1)))) by lia.
    cbn. f_equal. lia.
  - replace (Z.to_nat (r - e_Index e)) with 0 by lia. cbn.
    destruct (Z.ltb_spec b (e_Index e)) as [Hb|Hb].
    + by replace (Z.to_nat (b + 1 - e_Index e `max` r)) with 0 by lia.
    + rewrite (IH _ H).
      replace (Z.to_nat (b + 1 - e_Index e `max` r)) with (S (Z.to_nat (b + 1 - (e_Index e + 1) `max` r))) by lia.
      cbn. by replace (Z.to_nat (r - (e_Index e + 1))) with 0 by lia.
Qed.
Lemma log_ok_from es : es ≠ [] → log_ok es ↔
  (1 ≤ first_index es)%Z ∧ log_from (first_index es) es ∧ (first_index es + Z.of_nat (length es) < 2 ^ 64)%Z.
Proof. by destruct es. Qed.
Lemma log_last i l e : log_from i (l ++ [e]) → e_Index e = (i + Z.of_nat (length l))%Z.
Proof. intros [_ [? _]]%log_from_app. done. Qed.

(** ** [sort.Search] *)
Lemma search_bound {A} (f : A → bool) l : search f l ≤ length l.
Proof. induction l as [|x l IH]; cbn; [done|]. destruct (f x); lia. Qed.
Lemma search_before {A} (f : A → bool) l j x : j < search f l → l !! j = Some x → f x = false.
Proof.
  revert j; induction l as [|y l IH]; intros [|j] Hj Hl; cbn in *; try done.
  - simplify_eq. destruct (f x); [lia|done].
  - destruct (f y); [lia|]. eapply IH; [|done]. lia.
Qed.
Lemma search_at {A} (f : A → bool) l x : l !! search f l = Some x → f x = true.
Proof. induction l as [|y l IH]; cbn; [done|]. destruct (f y) eqn:E; cbn; [by intros [= <-]|done]. Qed.

(** ** Segment names *)
Lemma segment_name_suffix id : HasSuffix (segment_name id) dot_wal = true.
Proof. unfold HasSuffix, segment_name. rewrite rev_app_distr. apply HasPrefix_app. Qed.
Lemma str_lt_app_fixed a b c : length a = length b → str_lt (a ++ c) (b ++ c) ↔ str_lt a b.
Proof.
  revert b; induction a as [|x a IH]; intros [|y b] Hl; cbn in *; try done.
  - split; intros []%str_lt_irrefl.
  - rewrite !str_lt_cons, IH by lia. done.
Qed.
Lemma segment_name_lt a b : is_u64 a → is_u64 b → str_lt (segment_name a) (segment_name b) ↔ (a < b)%Z.
Proof.
  intros Ha Hb. unfold segment_name, Format020.
  rewrite str_lt_app_fixed by (by rewrite !length_dec_fixed). by apply Format020_lt.
Qed.
Lemma segment_name_inj a b : is_u64 a → is_u64 b → segment_name a = segment_name b → a = b.
Proof.
  intros Ha Hb E. destruct (Z.lt_trichotomy a b) as [H|[H|H]]; [|done|].
  - apply segment_name_lt in H; [|done..]. rewrite E in H. by apply str_lt_irrefl in H.
  - apply segment_name_lt in H; [|done..]. rewrite E in H. by apply str_lt_irrefl in H.
Qed.
Lemma leading_digits_app s t :
  Forall (λ c, is_Some (digit_val c)) s →
  (∀ c t', t = c :: t' → digit_val c = None) → leading_digits (s ++ t) = s.
Proof.
  intros Hs Ht. induction s as [|c s IH]; cbn.
  - destruct t as [|c t]; cbn; [done|]. by rewrite (Ht c t eq_refl).
  - apply Forall_cons in Hs as [[v Hv] Hs]. by rewrite Hv, IH.
Qed.
Lemma parseSegmentID_name id : is_u64 id → parseSegmentID (segment_name id) = id.
Proof.
  intros Hid. unfold parseSegmentID, segment_name. rewrite leading_digits_app.
  - by rewrite ParseUint_Format020.
  - apply Forall_forall. intros c. apply dec_fixed_digits.
  - intros c t' [= <- _]. done.
Qed.
Lemma state_not_segment : HasSuffix stateFileName dot_wal = false.
Proof. done. Qed.
Lemma tmp_not_segment p : HasSuffix (p ++ dot_tmp) dot_wal = false.
Proof. unfold HasSuffix. by rewrite rev_app_distr. Qed.

(** ** The segments and files of a log *)
Section wal.
Context `{Raftpb}.
(** A record fits its length prefix. *)
Definition storable (e : Entry) : Prop :=
  entry_ok e ∧ (Z.of_nat (length (default [] (marshal_entry e))) < 2 ^ 32)%Z.
#[export] Instance storable_dec e : Decision (storable e) := _.
Definition frame (d : str) : str := PutUint32 (Z.of_nat (length d)) ++ d.
Definition record_of (e : Entry) : str := frame (default [] (marshal_entry e)).
Definition file_of (es : list Entry) : str := concat (map record_of es).
#[local] Arguments PutUint32 : simpl never.
#[local] Arguments frame : simpl never.
#[local] Arguments record_of : simpl never.
#[local] Arguments file_of : simpl never.
(** A segment: its number and its entries. *)
Abbreviation chunk := (Z * list Entry)%type.
Definition seg_of (c : chunk) : Segment :=
  MkSegment c.1 (first_index c.2) (match c.2 with [] => 0%Z | e :: _ => e_Index (List.last c.2 e) end) (segment_name c.1).
Definition entries_of (cs : list chunk) : list Entry := concat (map snd cs).
(** The numbers increase, and each is at most the first index of its segment: this is why
    segment numbers never wrap. *)
Definition chunk_ok (c : chunk) : Prop := c.2 ≠ [] ∧ (1 ≤ c.1 ≤ first_index c.2)%Z ∧ is_u64 (first_index c.2).
Definition chunks_ok (cs : list chunk) : Prop :=
  Forall chunk_ok cs ∧ StronglySorted Z.lt (map fst cs) ∧ log_ok (entries_of cs) ∧ Forall storable (entries_of cs).
(** The segment files on disk; other [.wal] files are too short to hold a record. *)
Definition files_ok (f : files) (cs : list chunk) : Prop :=
  (∀ c, c ∈ cs → f !! segment_name c.1 = Some (file_of c.2)) ∧
  (∀ n d, f !! n = Some d → HasSuffix n dot_wal = true → n ∉ map (λ c, segment_name c.1) cs → length d < 4).
Definition state_stored (f : files) (s : HardState) : Prop :=
  state_ok s ∧
  match f !! stateFileName with
  | None => s = zero_state
  | Some d => unmarshal_state d = Some s
  end.
Definition wal_inv (w : FileWAL) : Prop := ∃ cs,
  w_opened w = true ∧ w_segments w = map seg_of cs ∧ w_entries w = entries_of cs ∧
  chunks_ok cs ∧ files_ok (w_files w) cs ∧ state_stored (w_files w) (w_state w).

Lemma chunk_id_u64 c : chunk_ok c → is_u64 c.1.
Proof. intros (_&?&?). unfold is_u64 in *. lia. Qed.
Lemma entries_of_app a b : entries_of (a ++ b) = entries_of a ++ entries_of b.
Proof. unfold entries_of. by rewrite map_app, concat_app. Qed.
Lemma entries_of_one c : entries_of [c] = c.2.
Proof. unfold entries_of. cbn. by rewrite app_nil_r. Qed.
Lemma file_of_app a b : file_of (a ++ b) = file_of a ++ file_of b.
Proof. unfold file_of. by rewrite map_app, concat_app. Qed.
Lemma file_of_one e : file_of [e] = record_of e.
Proof. unfold file_of. cbn. by rewrite app_nil_r. Qed.
Lemma file_of_cons e es : file_of (e :: es) = record_of e ++ file_of es.
Proof. done. Qed.
Lemma record_of_length e : 4 ≤ length (record_of e).
Proof. unfold record_of, frame, PutUint32. rewrite length_app, length_be_bytes. lia. Qed.
Lemma file_of_length es : es ≠ [] → 4 ≤ length (file_of es).
Proof.
  destruct es as [|e es]; [done|]. intros _. unfold file_of. cbn. rewrite length_app.
  pose proof (record_of_length e). lia.
Qed.
Lemma EncodeEntry_ok e : entry_ok e → EncodeEntry e = Ok (default [] (marshal_entry e)).
Proof. intros (d&Hd&_)%marshal_entry_ok. unfold EncodeEntry. by rewrite Hd. Qed.
Lemma EncodeState_ok s : state_ok s → ∃ d, EncodeState s = Ok d ∧ unmarshal_state d = Some s.
Proof. intros (d&Hd&?)%marshal_state_ok. exists d. unfold EncodeState. by rewrite Hd. Qed.

(** *** Reading a segment back *)
Lemma read_frame fuel d t e :
  (Z.of_nat (length d) < 2 ^ 32)%Z → unmarshal_entry d = Some e →
  read_records (S fuel) (frame d ++ t) = read_records fuel t ≫= λ es, Ok (e :: es).
Proof.
  intros Hd He. unfold frame. rewrite <-app_assoc. cbn [read_records].
  assert (Hp : length (PutUint32 (Z.of_nat (length d))) = 4) by apply length_be_bytes.
  rewrite (proj2 (Nat.ltb_ge _ _)) by (rewrite length_app; lia).
  rewrite take_app_length', drop_app_length' by done.
  rewrite PutUint32_value, Nat2Z.id by lia.
  rewrite (proj2 (Nat.ltb_ge _ _)) by (rewrite length_app; lia).
  rewrite take_app_length, drop_app_length. unfold DecodeEntry. by rewrite He.
Qed.
Lemma read_file_of es t fuel :
  Forall storable es → length es ≤ fuel →
  read_records fuel (file_of es ++ t) = read_records (fuel - length es) t ≫= λ r, Ok (es ++ r).
Proof.
  revert fuel; induction es as [|e es IH]; intros fuel Hes Hf; cbn.
  - rewrite Nat.sub_0_r. by destruct read_records.
  - apply Forall_cons in Hes as [[He Hl] Hes]. destruct fuel as [|fuel]; cbn in Hf; [lia|].
    destruct (marshal_entry_ok _ He) as (d&Hd&Hu). rewrite file_of_cons, <-app_assoc.
    assert (record_of e = frame d) as -> by (unfold record_of; by rewrite Hd).
    rewrite Hd in Hl. cbn in Hl. rewrite (read_frame _ _ _ e) by done. rewrite IH by (done || lia). cbn [Nat.sub length].
    by destruct read_records.
Qed.
Lemma read_short fuel t : length t < 4 → read_records fuel t = Ok [].
Proof. intros Ht. destruct fuel; [done|]. cbn [read_records]. by rewrite (proj2 (Nat.ltb_lt _ _)). Qed.
Lemma length_file_of es : 4 * length es ≤ length (file_of es).
Proof.
  induction es as [|e es IH]; [done|]. unfold file_of in *. cbn [map concat]. rewrite length_app.
  pose proof (record_of_length e). cbn [length]. lia.
Qed.
(** A segment with a torn header at its end reads as the segment. *)
Lemma readSegment_file es t : Forall storable es → length t < 4 → readSegment (file_of es ++ t) = Ok es.
Proof.
  intros Hes Ht. unfold readSegment. pose proof (length_file_of es).
  rewrite read_file_of by (done || (rewrite length_app; lia)).
  rewrite read_short by done. cbn. by rewrite app_nil_r.
Qed.
(** *** Loading the directory *)
Definition names_of (cs : list chunk) : list str := map (λ c, segment_name c.1) cs.
Lemma names_of_elem cs n : n ∈ names_of cs ↔ ∃ c, c ∈ cs ∧ n = segment_name c.1.
Proof. unfold names_of. rewrite list_elem_of_fmap. naive_solver. Qed.
Lemma names_sorted cs : Forall chunk_ok cs → StronglySorted Z.lt (map fst cs) → StronglySorted str_lt (names_of cs).
Proof.
  intros Hok Hs. induction cs as [|c cs IH]; cbn; [constructor|].
  apply Forall_cons in Hok as [Hc Hok]. cbn in Hs. apply StronglySorted_inv in Hs as [Hs Hlt].
  constructor; [by apply IH|]. apply Forall_forall. intros n (c'&Hc'&->)%names_of_elem.
  rewrite Forall_forall in Hok.
  apply segment_name_lt; [by apply chunk_id_u64|by apply chunk_id_u64, Hok|].
  apply (proj1 (Forall_forall _ _) Hlt). by apply list_elem_of_fmap_2.
Qed.
Lemma strict_le l : StronglySorted str_lt l → StronglySorted str_le l.
Proof.
  induction 1 as [|x l Hs IH Hx]; constructor; [done|].
  eapply Forall_impl; [done|]. intros; by apply str_lt_le.
Qed.
Lemma strict_nodup l : StronglySorted str_lt l → NoDup l.
Proof.
  induction 1 as [|x l Hs IH Hx]; constructor; [|done]. intros Hin.
  rewrite Forall_forall in Hx. apply (str_lt_irrefl x). by apply Hx.
Qed.
Lemma sorted_names_filter f (P : str → Prop) `{∀ x, Decision (P x)} l :
  StronglySorted str_lt l → (∀ n, n ∈ l ↔ P n ∧ is_Some (f !! n)) → filter P (sorted_names f) = l.
Proof.
  intros Hs Hl. apply (StronglySorted_unique str_le).
  - apply StronglySorted_filter. apply StronglySorted_merge_sort; apply _.
  - by apply strict_le.
  - apply NoDup_Permutation.
    + apply NoDup_filter, sorted_names_nodup.
    + by apply strict_nodup.
    + intros n. by rewrite list_elem_of_filter, sorted_names_elem, Hl.
Qed.
Lemma segment_of_name c : chunk_ok c → segment_of (segment_name c.1) c.2 = seg_of c.
Proof.
  intros Hc. pose proof (chunk_id_u64 _ Hc) as Hid. destruct c as [id [|e es]], Hc as (Hne&_); [done|].
  unfold segment_of, seg_of. cbn [fst snd]. by rewrite parseSegmentID_name.
Qed.
Lemma load_segment_chunk f acc c t :
  chunk_ok c → Forall storable c.2 → length t < 4 → f !! segment_name c.1 = Some (file_of c.2 ++ t) →
  load_segment f acc (segment_name c.1) = Ok (acc.1 ++ c.2, acc.2 ++ [seg_of c]).
Proof.
  intros Hc Hs Ht Hf. unfold load_segment. rewrite Hf, readSegment_file by done. cbn.
  rewrite bool_decide_eq_false_2 by apply Hc. by rewrite segment_of_name.
Qed.
Lemma load_segment_short f acc n d : f !! n = Some d → length d < 4 → load_segment f acc n = Ok acc.
Proof.
  intros Hf Hd. unfold load_segment. rewrite Hf. unfold readSegment. by rewrite read_short.
Qed.
(** What loading needs: every chunk's file holds it up to a torn header, and the other
    segment files hold no record. *)
Definition loadable (f : files) (cs : list chunk) : Prop :=
  Forall chunk_ok cs ∧ StronglySorted Z.lt (map fst cs) ∧ Forall storable (entries_of cs) ∧
  (∀ c, c ∈ cs → ∃ t, length t < 4 ∧ f !! segment_name c.1 = Some (file_of c.2 ++ t)) ∧
  (∀ n d, f !! n = Some d → HasSuffix n dot_wal = true → n ∉ names_of cs → length d < 4).
Lemma foldM_skip f (P : str → Prop) `{∀ x, Decision (P x)} names acc :
  (∀ n acc, n ∈ names → ¬ P n → load_segment f acc n = Ok acc) →
  foldM (load_segment f) acc names = foldM (load_segment f) acc (filter P names).
Proof.
  revert acc; induction names as [|n names IH]; intros acc Hskip; [done|].
  assert (IH' : ∀ acc, foldM (load_segment f) acc names = foldM (load_segment f) acc (filter P names)).
  { intros acc'. apply IH. intros; apply Hskip; [by right|done]. }
  cbn [foldM]. destruct (decide (P n)) as [HP|HP].
  - rewrite filter_cons_True by done. cbn [foldM]. by destruct (load_segment f acc n); cbn.
  - rewrite filter_cons_False by done. rewrite Hskip by (done || by left). cbn. apply IH'.
Qed.
Lemma foldM_chunks f cs acc :
  (∀ c, c ∈ cs → chunk_ok c ∧ Forall storable c.2 ∧ ∃ t, length t < 4 ∧ f !! segment_name c.1 = Some (file_of c.2 ++ t)) →
  foldM (load_segment f) acc (names_of cs) = Ok (acc.1 ++ entries_of cs, acc.2 ++ map seg_of cs).
Proof.
  revert acc; induction cs as [|c cs IH]; intros acc Hcs; cbn.
  - rewrite !app_nil_r. by destruct acc.
  - destruct (Hcs c) as (Hc&Hs&t&Ht&Hf); [by left|].
    rewrite (load_segment_chunk _ _ _ t) by done. cbn.
    fold (names_of cs). rewrite IH by (intros; apply Hcs; by right). cbn.
    unfold entries_of. cbn. by rewrite <-!app_assoc.
Qed.
Lemma chunk_storable cs c : Forall storable (entries_of cs) → c ∈ cs → Forall storable c.2.
Proof.
  intros Hs Hc. apply Forall_forall. intros e He. rewrite Forall_forall in Hs. apply Hs.
  unfold entries_of. apply list_elem_of_In, in_concat. exists c.2. split; apply list_elem_of_In; [|done].
  by apply list_elem_of_fmap_2.
Qed.
Lemma load_entries_ok f cs :
  loadable f cs →
  foldM (load_segment f) ([], []) (sorted_names (glob_suffix dot_wal f)) = Ok (entries_of cs, map seg_of cs).
Proof.
  intros (Hok&Hs&Hst&Hf&Hj). rewrite (foldM_skip _ (λ n, n ∈ names_of cs)).
  - rewrite (sorted_names_filter _ _ (names_of cs)), foldM_chunks; [done| |by apply names_sorted|].
    + intros c Hc. split; [by eapply Forall_forall|]. split; [by eapply chunk_storable|by apply Hf].
    + intros n. split; [|by intros []]. intros Hn. split; [done|].
      apply names_of_elem in Hn as (c&Hc&->). rewrite glob_lookup by apply segment_name_suffix.
      destruct (Hf _ Hc) as (t&_&->). done.
  - intros n acc Hn Hnc. apply sorted_names_elem in Hn as [d Hd].
    unfold glob_suffix in Hd. apply map_lookup_filter_Some in Hd as [Hd Hw].
    eapply load_segment_short; eauto.
Qed.
Lemma loadState_ok w s : state_stored (w_files w) s → loadState w = (w, Ok s).
Proof.
  intros [Hs Hf]. unfold loadState, read_file, mbind, ST_bind, st_get, mret, ST_ret.
  destruct (w_files w !! stateFileName) as [d|]; [|by subst].
  unfold st_lift, DecodeState. by rewrite Hf.
Qed.
Lemma Open_ok f s cs :
  loadable f cs → state_stored f s →
  Open (NewFileWAL f) = (MkWAL defaultMaxSegmentSize s (entries_of cs) (map seg_of cs) true f [], Ok tt).
Proof.
  intros Hl Hs. unfold Open, mbind, ST_bind, st_get. cbn [NewFileWAL w_opened].
  rewrite (loadState_ok (NewFileWAL f) s) by done.
  unfold loadEntries, mbind, ST_bind, st_get, st_lift. cbn [w_files NewFileWAL].
  by rewrite (load_entries_ok _ _ Hl).
Qed.
Lemma files_ok_loadable f cs : chunks_ok cs → files_ok f cs → loadable f cs.
Proof.
  intros (?&?&?&?) [Hf Hj]. repeat split; try done. intros c Hc. exists []. rewrite app_nil_r. split; [cbn; lia|by apply Hf].
Qed.
(** ** Writing

    [do_ops ops w]: the system calls [ops] happened and nothing else changed. *)
Definition do_ops (ops : list FsOp) (w : FileWAL) : FileWAL :=
  MkWAL (w_maxSegmentSize w) (w_state w) (w_entries w) (w_segments w) (w_opened w)
    (fs_run (w_files w) ops) (w_trace w ++ ops).
Lemma do_ops_app a b w : do_ops b (do_ops a w) = do_ops (a ++ b) w.
Proof. unfold do_ops; cbn. by rewrite fs_run_app, app_assoc. Qed.
Lemma do_ops_nil w : do_ops [] w = w.
Proof. unfold do_ops. rewrite app_nil_r. by destruct w. Qed.
Lemma sys_do op w : sys op w = (do_ops [op] w, Ok tt).
Proof. done. Qed.
Lemma sys_bind {A} op (k : unit → W A) w : (sys op ≫= k) w = k tt (do_ops [op] w).
Proof. done. Qed.
Lemma lift_bind {A B} (r : A) (k : A → W B) w : (st_lift (Ok r) ≫= k) w = k r w.
Proof. done. Qed.
Lemma get_bind {A} (k : FileWAL → W A) w : (st_get ≫= k) w = k w w.
Proof. done. Qed.
Lemma do_bind {A B} (m : W A) (k : A → W B) w w1 a : m w = (w1, Ok a) → (m ≫= k) w = k a w1.
Proof. apply st_bind_ok. Qed.
Lemma ret_bind {A B} (r : A) (k : A → W B) w : (mret r ≫= k) w = k r w.
Proof. done. Qed.
Lemma bind_assoc {A B C} (m : W A) (f : A → W B) (k : B → W C) w :
  ((m ≫= f) ≫= k) w = (m ≫= λ a, f a ≫= k) w.
Proof. unfold mbind, ST_bind. by destruct (m w) as [? []]. Qed.

Definition state_tmp : str := stateFileName ++ dot_tmp.
Definition persist_ops (d : str) : list FsOp :=
  [FCreate state_tmp; FAppend state_tmp d; FRename state_tmp stateFileName].
Lemma persistState_ok w : state_ok (w_state w) →
  ∃ d, unmarshal_state d = Some (w_state w) ∧ persistState w = (do_ops (persist_ops d) w, Ok tt).
Proof.
  intros (d&Hd&Hu)%EncodeState_ok. exists d. split; [done|].
  unfold persistState. rewrite get_bind, Hd, lift_bind, !sys_bind, sys_do.
  by rewrite !do_ops_app.
Qed.
Lemma persist_files f d n :
  fs_run f (persist_ops d) !! n =
    if decide (n = stateFileName) then Some d else if decide (n = state_tmp) then None else f !! n.
Proof.
  unfold fs_run, persist_ops. cbn [fold_left fs_exec].
  rewrite lookup_alter_eq, lookup_insert_eq. cbn [fmap option_fmap option_map app].
  destruct (decide (n = stateFileName)) as [->|Hn]; [by rewrite lookup_insert_eq|].
  rewrite lookup_insert_ne by done.
  destruct (decide (n = state_tmp)) as [->|Ht]; [by rewrite lookup_delete_eq|].
  by rewrite lookup_delete_ne, lookup_alter_ne, lookup_insert_ne by done.
Qed.
(** Names that are no segments do not matter to the segments. *)
Lemma files_ok_agree f g cs :
  (∀ n, HasSuffix n dot_wal = true → g !! n = f !! n) → files_ok f cs → files_ok g cs.
Proof.
  intros Hfg [Hf Hj]. split.
  - intros c Hc. rewrite Hfg by apply segment_name_suffix. by apply Hf.
  - intros n d Hn Hw. rewrite Hfg in Hn by done. eauto.
Qed.
Lemma state_stored_agree f g s :
  g !! stateFileName = f !! stateFileName → state_stored f s → state_stored g s.
Proof. unfold state_stored. by intros ->. Qed.
Lemma persist_files_ok f d cs : files_ok f cs → files_ok (fs_run f (persist_ops d)) cs.
Proof.
  apply files_ok_agree. intros n Hn. rewrite persist_files.
  destruct (decide (n = stateFileName)) as [->|_]; [by rewrite state_not_segment in Hn|].
  destruct (decide (n = state_tmp)) as [->|_]; [|done].
  unfold state_tmp in Hn. by rewrite tmp_not_segment in Hn.
Qed.
Lemma persist_state f d s : state_ok s → unmarshal_state d = Some s → state_stored (fs_run f (persist_ops d)) s.
Proof. intros Hs Hd. split; [done|]. rewrite persist_files. by rewrite decide_True. Qed.

(** *** One record

    What [append_entry] does to the segments: the record extends the last segment or
    starts a new one. *)
Definition record_ops (path : str) (e : Entry) : list FsOp :=
  let d := default [] (marshal_entry e) in [FAppend path (PutUint32 (Z.of_nat (length d))); FAppend path d].
Inductive append_step (cs : list chunk) (e : Entry) : list FsOp → list chunk → Prop :=
  | step_extend cs0 id es : cs = cs0 ++ [(id, es)] →
      append_step cs e (record_ops (segment_name id) e) (cs0 ++ [(id, es ++ [e])])
  | step_fresh id : Forall (λ c, (c.1 < id)%Z) cs → (1 ≤ id ≤ e_Index e)%Z →
      append_step cs e (FCreate (segment_name id) :: record_ops (segment_name id) e) (cs ++ [(id, [e])]).
Lemma record_files f p e content n :
  f !! p = Some content →
  fs_run f (record_ops p e) !! n = if decide (n = p) then Some (content ++ record_of e) else f !! n.
Proof.
  intros Hp. unfold fs_run, record_ops. cbn [fold_left fs_exec].
  destruct (decide (n = p)) as [->|Hn].
  - rewrite !lookup_alter_eq, Hp. cbn. by rewrite <-app_assoc.
  - by rewrite !lookup_alter_ne by done.
Qed.
Lemma names_ids cs id : Forall chunk_ok cs → is_u64 id → Forall (λ c, (c.1 < id)%Z) cs → segment_name id ∉ names_of cs.
Proof.
  intros Hok Hid Hlt (c&Hc&Hn)%names_of_elem. rewrite Forall_forall in Hok, Hlt.
  apply segment_name_inj in Hn; [|done|by apply chunk_id_u64, Hok]. apply Hlt in Hc. lia.
Qed.
Lemma names_of_app a b : names_of (a ++ b) = names_of a ++ names_of b.
Proof. apply map_app. Qed.
Lemma entries_first cs id es cs' :
  es ≠ [] → log_ok (entries_of (cs ++ (id, es) :: cs')) →
  first_index es = (first_index (entries_of (cs ++ (id, es) :: cs')) + Z.of_nat (length (entries_of cs)))%Z.
Proof.
  intros Hes Hlog. rewrite entries_of_app in *. unfold entries_of at 2 in Hlog. unfold entries_of at 2.
  cbn [map concat snd] in *. fold (entries_of cs') in *. destruct es as [|e es]; [done|].
  destruct (entries_of cs) as [|x l] eqn:El; [cbn; lia|].
  cbn [app] in Hlog. unfold log_ok in Hlog. destruct Hlog as (_&Hl&_). cbn [first_index app].
  by apply (log_from_app _ (x :: l)) in Hl as [_ [Hl _]].
Qed.
Lemma step_chunks cs e ops cs' :
  append_step cs e ops cs' → chunks_ok cs → log_ok (entries_of cs ++ [e]) → storable e →
  chunks_ok cs' ∧ entries_of cs' = entries_of cs ++ [e].
Proof.
  intros Hstep (Hok&Hs&Hlog&Hst) Hlog' He.
  assert (entries_of cs' = entries_of cs ++ [e]) as Heq.
  { destruct Hstep as [cs0 id es ->|id Hid Hr]; rewrite !entries_of_app, !entries_of_one; cbn; [|done].
    by rewrite app_assoc. }
  split; [|done]. unfold chunks_ok. rewrite Heq. split_and!; [| |done|].
  - destruct Hstep as [cs0 id es ->|id Hid Hr].
    + apply Forall_app in Hok as [Hok Hc]. apply Forall_app; split; [done|].
      apply Forall_singleton in Hc as (Hne&Hid&Hu). apply Forall_singleton. cbn in *.
      split; [by destruct es|]. by destruct es.
    + apply Forall_app; split; [done|]. apply Forall_singleton. split_and!; cbn; [done|lia..|apply He].
  - destruct Hstep as [cs0 id es ->|id Hid Hr]; [by rewrite map_app in *|].
    rewrite map_app. cbn. apply StronglySorted_app. split_and!; [|done|repeat constructor].
    intros a b Ha ->%list_elem_of_singleton. apply list_elem_of_fmap in Ha as (c&->&Hc).
    rewrite Forall_forall in Hid. by apply Hid.
  - apply Forall_app; split; [done|]. by apply Forall_singleton.
Qed.
Lemma step_files cs e ops cs' f :
  append_step cs e ops cs' → chunks_ok cs' → files_ok f cs → files_ok (fs_run f ops) cs'.
Proof.
  intros Hstep (Hok&Hs&_) [Hf Hj].
  assert (Hnd : NoDup (names_of cs')) by (by apply strict_nodup, names_sorted).
  destruct Hstep as [cs0 id es ->|id Hid Hr].
  - rewrite names_of_app in Hnd. apply NoDup_app in Hnd as (_&Hnd&_).
    assert (Hfile := Hf (id, es)). cbn in Hfile. rewrite elem_of_app in Hfile.
    specialize (Hfile (or_intror (list_elem_of_here _ _))). split.
    + intros c Hc. rewrite (record_files _ _ _ _ _ Hfile).
      apply elem_of_app in Hc as [Hc| ->%list_elem_of_singleton].
      * rewrite decide_False; [apply Hf, elem_of_app; by left|].
        intros E. apply (Hnd (segment_name c.1)); [apply names_of_elem; by eauto|].
        rewrite E. by left.
      * cbn. by rewrite decide_True, file_of_app, file_of_one.
    + intros n d. rewrite (record_files _ _ _ _ _ Hfile). intros Hn Hw Hni.
      rewrite map_app in Hni, Hj. cbn in Hni, Hj.
      rewrite decide_False in Hn; [by eapply Hj|]. intros ->. apply Hni, elem_of_app. right. by left.
  - change (fs_run f (FCreate (segment_name id) :: record_ops (segment_name id) e)) with
      (fs_run (<[segment_name id := []]> f) (record_ops (segment_name id) e)).
    assert (Hfile : (<[segment_name id := []]> f) !! segment_name id = Some []) by apply lookup_insert_eq.
    rewrite names_of_app in Hnd. apply NoDup_app in Hnd as (_&Hnd&_). split.
    + intros c Hc. rewrite (record_files _ _ _ _ _ Hfile).
      apply elem_of_app in Hc as [Hc| ->%list_elem_of_singleton].
      * assert (segment_name c.1 ≠ segment_name id).
        { intros E. apply (Hnd (segment_name c.1)); [apply names_of_elem; by eauto|]. rewrite E. by left. }
        rewrite decide_False, lookup_insert_ne by done. by apply Hf.
      * cbn. by rewrite decide_True, file_of_one.
    + intros n d. rewrite (record_files _ _ _ _ _ Hfile). intros Hn Hw Hni.
      rewrite map_app in Hni. cbn in Hni.
      assert (n ≠ segment_name id) by (intros ->; apply Hni, elem_of_app; right; by left).
      rewrite decide_False, lookup_insert_ne in Hn by done.
      eapply Hj; [done|done|]. intros Hin. apply Hni, elem_of_app. by left.
Qed.
(** *** The append loop *)
Lemma fileSize_ok p c w : w_files w !! p = Some c → fileSize p w = (w, Ok (Z.of_nat (length c))).
Proof. intros Hc. unfold fileSize, read_file. rewrite bind_assoc, get_bind, ret_bind. by rewrite Hc. Qed.
Lemma appendRecord_ok p e c w : w_files w !! p = Some c →
  appendRecord p (default [] (marshal_entry e)) w = (do_ops (record_ops p e) w, Ok tt).
Proof.
  intros Hc. unfold appendRecord, read_file. rewrite bind_assoc, get_bind, ret_bind. rewrite Hc.
  by rewrite sys_bind, sys_do, do_ops_app.
Qed.
Definition fresh_segment (id index : Z) : Segment := MkSegment id index (u64 (index - 1)) (segment_name id).
Lemma new_segment_ok s index w :
  new_segment s index w =
    (do_ops [FCreate (segment_name (as_nextID s))] w,
     Ok (MkAppend (as_segments s ++ [fresh_segment (as_nextID s) index]) true (u64 (as_nextID s + 1)))).
Proof. done. Qed.
Lemma alter_last {A} (g : A → A) l x : alter g (length (l ++ [x]) - 1) (l ++ [x]) = l ++ [g x].
Proof.
  rewrite length_app. cbn. replace (length l + 1 - 1) with (length l + 0) by lia.
  by rewrite (alter_app_r g).
Qed.
Lemma last_segment_app l x b n : last_segment (MkAppend (l ++ [x]) b n) = x.
Proof. unfold last_segment. cbn. by rewrite last_snoc. Qed.
Lemma touch_extend id es e : es ≠ [] → first_index es ≠ 0%Z →
  touch_last (e_Index e) (seg_of (id, es)) = seg_of (id, es ++ [e]).
Proof.
  intros Hne H0. unfold touch_last, seg_of. destruct es as [|x es]; [done|]. cbn in *.
  rewrite (proj2 (Z.eqb_neq _ _) H0). f_equal. by destruct (es ++ [e]) eqn:E; rewrite <-?E, ?List.last_last; [destruct es|].
Qed.
Lemma touch_fresh id e : e_Index e ≠ 0%Z → touch_last (e_Index e) (fresh_segment id (e_Index e)) = seg_of (id, [e]).
Proof. intros H0. unfold touch_last, fresh_segment, seg_of. cbn. by rewrite (proj2 (Z.eqb_neq _ _) H0). Qed.
(** The loop state [s] describes [cs], and the next entry has index [i]. *)
Definition loop_ok (s : AppendState) (cs : list chunk) (i : Z) : Prop :=
  as_segments s = map seg_of cs ∧ (as_hasLast s = true → cs ≠ []) ∧
  (1 ≤ as_nextID s ≤ i)%Z ∧ Forall (λ c, (c.1 < as_nextID s)%Z) cs.
Lemma ids_snoc (cs : list chunk) id es n :
  Forall (λ c, (c.1 < n)%Z) cs → (n ≤ id)%Z → Forall (λ c, (c.1 < id + 1)%Z) (cs ++ [(id, es)]).
Proof.
  intros Hc Hn. apply Forall_app. split; [eapply Forall_impl; [done|]; cbn; lia|].
  apply Forall_singleton. cbn. lia.
Qed.
Lemma append_fresh s cs e w :
  chunks_ok cs → loop_ok s cs (e_Index e) → (e_Index e + 1 < 2 ^ 64)%Z → entry_ok e →
  (∀ s1 w1, new_segment s (e_Index e) w = (w1, Ok s1) → ∃ ops s',
    (appendRecord (sg_Path (last_segment s1)) (default [] (marshal_entry e));;
     mret (MkAppend (alter (touch_last (e_Index e)) (length (as_segments s1) - 1) (as_segments s1))
          true (as_nextID s1))) w1 = (do_ops ops w, Ok s') ∧
    append_step cs e ops (cs ++ [(as_nextID s, [e])]) ∧ loop_ok s' (cs ++ [(as_nextID s, [e])]) (e_Index e + 1)).
Proof.
  intros Hcs (Hseg&Hlast&Hnext&Hids) Hmax He s1 w1. rewrite new_segment_ok. intros [= <- <-].
  rewrite last_segment_app. cbn [sg_Path fresh_segment].
  set (p := segment_name (as_nextID s)). set (w1 := do_ops [FCreate p] w).
  eexists _, _. split; [|split].
  - erewrite do_bind; [|apply (appendRecord_ok p e []), lookup_insert_eq].
    unfold w1. rewrite do_ops_app. done.
  - cbn [app]. by apply step_fresh.
  - cbn [as_segments as_nextID]. rewrite alter_last, touch_fresh by lia.
    rewrite u64_id by (unfold is_u64; lia). unfold loop_ok. cbn [as_segments as_nextID as_hasLast]. split_and!.
    + by rewrite map_app, <-Hseg.
    + intros _. by destruct cs.
    + lia.
    + lia.
    + by eapply ids_snoc.
Qed.
Lemma append_entry_ok s cs e w :
  chunks_ok cs → files_ok (w_files w) cs → loop_ok s cs (e_Index e) → (e_Index e + 1 < 2 ^ 64)%Z → entry_ok e →
  ∃ ops cs' s', append_entry s e w = (do_ops ops w, Ok s') ∧ append_step cs e ops cs' ∧ loop_ok s' cs' (e_Index e + 1).
Proof.
  intros Hcs Hf Hl Hmax He. unfold append_entry. rewrite EncodeEntry_ok, lift_bind by done. cbv zeta.
  destruct (as_hasLast s) eqn:Hlast.
  - rewrite ret_bind. pose proof Hl as (Hseg&Hne&Hnext&Hids).
    destruct cs as [|[id es] cs _] using rev_ind; [by destruct (Hne Hlast)|]. clear Hne.
    pose proof Hcs as (Hok&_&_). apply Forall_app in Hok as [_ Hc]. rewrite Forall_singleton in Hc.
    assert (Hfile : w_files w !! segment_name id = Some (file_of es)).
    { apply (proj1 Hf (id, es)). apply elem_of_app. right. by left. }
    assert (Hls : last_segment s = seg_of (id, es)).
    { destruct s as [sg b n]. cbn in Hseg. subst sg. rewrite map_app. apply last_segment_app. }
    erewrite do_bind; [|apply fileSize_ok; rewrite Hls; exact Hfile]. rewrite get_bind.
    case_match.
    + destruct (append_fresh s _ e w Hcs Hl Hmax He _ _ (new_segment_ok s _ w)) as (ops&s'&Heq&Hstep&Hl').
      erewrite do_bind; [|apply new_segment_ok]. eexists ops, _, s'. split; [exact Heq|done].
    + rewrite ret_bind, Hls. erewrite do_bind; [|apply (appendRecord_ok (segment_name id) e (file_of es)), Hfile].
      eexists _, (cs ++ [(id, es ++ [e])]), _. split; [done|]. split; [by constructor|].
      destruct Hc as (Hes&Hid&_). cbn in *.
      unfold loop_ok. cbn [as_segments as_nextID as_hasLast]. split_and!.
      * rewrite Hseg, map_app. cbn [map]. rewrite alter_last, touch_extend, map_app by (done || lia). done.
      * intros _. by destruct cs.
      * lia.
      * lia.
      * apply Forall_app in Hids as [Hids Hid']. apply Forall_app. split; [done|].
        rewrite Forall_singleton in *. done.
  - erewrite do_bind; [|apply new_segment_ok]. rewrite last_segment_app.
    erewrite do_bind; [|apply fileSize_ok, lookup_insert_eq]. rewrite get_bind.
    change (Z.of_nat (length [])) with 0%Z. rewrite Z.ltb_irrefl. cbn [andb]. rewrite ret_bind.
    destruct (append_fresh s _ e w Hcs Hl Hmax He _ _ (new_segment_ok s _ w)) as (ops&s'&Heq&Hstep&Hl').
    eexists ops, _, s'. split; [exact Heq|done].
Qed.
Inductive append_steps : list chunk → list Entry → list FsOp → list chunk → Prop :=
  | steps_nil cs : append_steps cs [] [] cs
  | steps_cons cs e es ops1 cs1 ops2 cs2 :
      append_step cs e ops1 cs1 → append_steps cs1 es ops2 cs2 → append_steps cs (e :: es) (ops1 ++ ops2) cs2.
Lemma log_ok_app_l a b : log_ok (a ++ b) → log_ok a.
Proof.
  destruct a as [|e a]; [done|]. cbn [app]. unfold log_ok. rewrite app_comm_cons, length_app.
  intros (?&[? _]%log_from_app&?). split_and!; [done|done|lia].
Qed.
Lemma log_ok_next a e b : log_ok (a ++ e :: b) →
  (1 ≤ e_Index e)%Z ∧ (e_Index e + 1 < 2 ^ 64)%Z ∧ (b = [] ∨ first_index b = (e_Index e + 1)%Z).
Proof.
  intros Hl. assert (∃ i, (1 ≤ i)%Z ∧ log_from i (a ++ e :: b) ∧ (i + Z.of_nat (length (a ++ e :: b)) < 2 ^ 64)%Z) as (i&Hi&Hf&Hm).
  { destruct a as [|x a]; cbn [app] in *; unfold log_ok in Hl; eauto. }
  apply log_from_app in Hf as [_ [He Hb]]. rewrite length_app in Hm. cbn [length] in Hm.
  split_and!; [lia|lia|]. destruct b as [|x b]; [by left|right]. destruct Hb as [Hb _]. cbn. lia.
Qed.
Lemma append_loop_ok es s cs w :
  chunks_ok cs → files_ok (w_files w) cs → loop_ok s cs (first_index es) ∨ es = [] ∧ as_segments s = map seg_of cs →
  Forall storable es → log_ok (entries_of cs ++ es) →
  ∃ ops cs' s', st_fold append_entry s es w = (do_ops ops w, Ok s') ∧ append_steps cs es ops cs' ∧
    chunks_ok cs' ∧ entries_of cs' = entries_of cs ++ es ∧ files_ok (fs_run (w_files w) ops) cs' ∧
    as_segments s' = map seg_of cs'.
Proof.
  revert s cs w; induction es as [|e es IH]; intros s cs w Hcs Hf Hl Hst Hlog.
  - exists [], cs, s. rewrite do_ops_nil, app_nil_r. split_and!; try done; [constructor|].
    by destruct Hl as [(?&_)|[_ ?]].
  - destruct Hl as [Hl|[? _]]; [|done]. apply Forall_cons in Hst as [He Hst].
    pose proof (log_ok_next _ _ _ Hlog) as (Hpos&Hmax&Hnext).
    assert (Hlog1 : log_ok (entries_of cs ++ [e])) by (apply (log_ok_app_l _ es); by rewrite <-app_assoc).
    cbn [first_index] in Hl.
    destruct (append_entry_ok s cs e w Hcs Hf Hl Hmax (proj1 He)) as (ops1&cs1&s1&Heq&Hstep&Hl1).
    destruct (step_chunks _ _ _ _ Hstep Hcs Hlog1 He) as [Hcs1 Hen1].
    pose proof (step_files _ _ _ _ _ Hstep Hcs1 Hf) as Hf1.
    destruct (IH s1 cs1 (do_ops ops1 w)) as (ops2&cs2&s2&Heq2&Hsteps&Hcs2&Hen2&Hf2&Hseg2); [done|done| |done| |].
    { destruct Hnext as [->| ->]; [right; split; [done|apply Hl1]|by left]. }
    { by rewrite Hen1, <-app_assoc. }
    exists (ops1 ++ ops2), cs2, s2. cbn [st_fold]. rewrite (do_bind _ _ _ _ _ Heq), Heq2, do_ops_app.
    split_and!; [done|by econstructor|done| | |done].
    + by rewrite Hen2, Hen1, <-app_assoc.
    + by rewrite fs_run_app.
Qed.
Lemma nextSegmentID_snoc cs id es : nextSegmentID (map seg_of (cs ++ [(id, es)])) = u64 (id + 1).
Proof. unfold nextSegmentID. rewrite !map_app. cbn [map]. by rewrite List.last_last. Qed.
(** [start] may number the first new segment. *)
Definition start_ok (start : Z) (cs : list chunk) (es : list Entry) : Prop :=
  (1 ≤ start ≤ first_index es)%Z ∧ Forall (λ c, (c.1 < start)%Z) cs.
Lemma chunk_last cs id es e es' :
  chunks_ok (cs ++ [(id, es)]) → log_ok (entries_of (cs ++ [(id, es)]) ++ e :: es') →
  (1 ≤ id ∧ id + 1 ≤ e_Index e ∧ e_Index e < 2 ^ 64)%Z ∧ Forall (λ c, (c.1 < id + 1)%Z) (cs ++ [(id, es)]).
Proof.
  intros (Hok&Hs&Hlog&_) Hlog'. apply Forall_app in Hok as [_ Hc]. rewrite Forall_singleton in Hc.
  destruct Hc as (Hes&Hid&_). cbn in Hes, Hid.
  pose proof (log_ok_next _ _ _ Hlog') as (_&Hmax&_). split.
  - pose proof (entries_first cs id es [] Hes Hlog) as Hfi.
    assert (Hf : log_from (first_index (entries_of (cs ++ [(id, es)]))) (entries_of (cs ++ [(id, es)]) ++ e :: es')).
    { destruct (entries_of (cs ++ [(id, es)])) eqn:E; [|apply Hlog'].
      rewrite entries_of_app, entries_of_one in E. cbn in E. apply app_eq_nil in E as [_ ->]. done. }
    apply log_from_app in Hf as [_ [He _]].
    rewrite entries_of_app, entries_of_one, length_app in He. cbn [snd] in He.
    rewrite entries_of_app, entries_of_one in Hfi. cbn [snd] in Hfi.
    destruct es; [done|]. cbn [length] in He. lia.
  - rewrite map_app in Hs. cbn in Hs. apply StronglySorted_app in Hs as (Hlt&_&_).
    apply Forall_app. split; [|apply Forall_singleton; cbn; lia]. apply Forall_forall. intros c Hc.
    assert (c.1 < id)%Z; [|lia]. apply Hlt; [by apply list_elem_of_fmap_2|by left].
Qed.
Lemma nextSegmentID_ok cs e es :
  chunks_ok cs → log_ok (entries_of cs ++ e :: es) → start_ok (nextSegmentID (map seg_of cs)) cs (e :: es).
Proof.
  intros Hcs Hlog. pose proof (log_ok_next _ _ _ Hlog) as (Hpos&_&_).
  destruct cs as [|[id l] cs _] using rev_ind; [split; [cbn; lia|constructor]|].
  destruct (chunk_last _ _ _ _ _ Hcs Hlog) as [Hid Hlt].
  rewrite nextSegmentID_snoc, u64_id by (unfold is_u64; lia). split; [cbn; lia|done].
Qed.
Lemma appendEntriesIncremental_ok es start toLast cs w :
  w_segments w = map seg_of cs → chunks_ok cs → files_ok (w_files w) cs →
  (es ≠ [] → start_ok start cs es) → Forall storable es → log_ok (entries_of cs ++ es) →
  ∃ ops cs', appendEntriesIncremental es start toLast w = (set_segments (map seg_of cs') (do_ops ops w), Ok tt) ∧
    append_steps cs es ops cs' ∧ chunks_ok cs' ∧ entries_of cs' = entries_of cs ++ es ∧
    files_ok (fs_run (w_files w) ops) cs'.
Proof.
  intros Hseg Hcs Hf Hstart Hst Hlog. unfold appendEntriesIncremental. case_bool_decide as Hes.
  - subst es. exists [], cs. rewrite do_ops_nil, app_nil_r, <-Hseg.
    split_and!; [by destruct w|constructor|done..].
  - destruct (Hstart Hes) as (Hs&Hids). rewrite get_bind. cbv zeta.
    set (hasLast := toLast && _ && _).
    assert (Hl : loop_ok (MkAppend (w_segments w) hasLast start) cs (first_index es)).
    { split_and!; cbn [as_segments as_hasLast as_nextID]; [done| |lia|lia|done].
      intros Ht ->. unfold hasLast in Ht. rewrite Hseg in Ht. cbn in Ht. by destruct toLast. }
    destruct (append_loop_ok es _ cs w Hcs Hf (or_introl Hl) Hst Hlog) as (ops&cs'&s'&Heq&Hsteps&Hcs'&Hen&Hf'&Hseg').
    exists ops, cs'. rewrite (do_bind _ _ _ _ _ Heq). split_and!; try done.
    unfold st_modify. by rewrite Hseg'.
Qed.
(** ** Removing segments *)
Definition remove_ops (cs : list chunk) : list FsOp := map (λ c, FRemove (segment_name c.1)) cs.
Lemma remove_segments_ok cs w : st_iter remove_segment (map seg_of cs) w = (do_ops (remove_ops cs) w, Ok tt).
Proof.
  revert w; induction cs as [|c cs IH]; intros w; cbn [map st_iter]; [by rewrite do_ops_nil|].
  erewrite do_bind; [|apply sys_do]. by rewrite IH, do_ops_app.
Qed.
Lemma remove_files f cs n : fs_run f (remove_ops cs) !! n = if decide (n ∈ names_of cs) then None else f !! n.
Proof.
  revert f; induction cs as [|c cs IH]; intros f; [done|].
  assert (fs_run f (remove_ops (c :: cs)) = fs_run (delete (segment_name c.1) f) (remove_ops cs)) as -> by done.
  rewrite IH. cbn [names_of map]. fold (names_of cs).
  destruct (decide (n ∈ names_of cs)) as [Hn|Hn]; [by rewrite decide_True by (by right)|].
  destruct (decide (n = segment_name c.1)) as [->|Hne].
  - by rewrite lookup_delete_eq, decide_True by left.
  - rewrite lookup_delete_ne by done. rewrite decide_False; [done|]. by intros [?|?]%elem_of_cons.
Qed.
#[local] Instance files_ok_perm f : Proper ((≡ₚ) ==> iff) (files_ok f).
Proof.
  intros a b Hab. unfold files_ok. split; intros [Hf Hj]; (split; [intros c Hc; apply Hf; by rewrite ?Hab, <-?Hab in *|]);
    intros n d Hn Hw Hni; apply (Hj n d); try done; by rewrite ?Hab, <-?Hab in *.
Qed.
Lemma remove_files_ok f a b : NoDup (names_of (a ++ b)) → files_ok f (a ++ b) → files_ok (fs_run f (remove_ops b)) a.
Proof.
  intros Hnd [Hf Hj]. rewrite names_of_app in Hnd. apply NoDup_app in Hnd as (_&Hnd&_). split.
  - intros c Hc. rewrite remove_files. rewrite decide_False.
    + apply Hf, elem_of_app. by left.
    + apply Hnd. apply names_of_elem. by exists c.
  - intros n d. rewrite remove_files. destruct (decide (n ∈ names_of b)) as [|Hnb]; [done|]. intros Hn Hw Hna.
    eapply Hj; [done|done|]. rewrite map_app, elem_of_app. by intros [|].
Qed.
Lemma chunks_nodup cs : chunks_ok cs → NoDup (names_of cs).
Proof. intros (?&?&_). by apply strict_nodup, names_sorted. Qed.
Lemma log_ok_app_r a b : log_ok (a ++ b) → log_ok b.
Proof.
  destruct a as [|e a]; [done|]. cbn [app]. unfold log_ok. rewrite app_comm_cons, length_app.
  intros (?&[_ Hb]%log_from_app&?). destruct b as [|x b]; [done|]. pose proof (proj1 Hb) as Hx.
  rewrite Hx. cbn [length] in *. split_and!; [lia|done|lia].
Qed.
Lemma chunks_ok_app a b : chunks_ok (a ++ b) → chunks_ok a ∧ chunks_ok b.
Proof.
  intros (Hok&Hs&Hlog&Hst). rewrite entries_of_app in *. apply Forall_app in Hok as [], Hst as [].
  rewrite map_app in Hs. apply StronglySorted_app in Hs as (_&?&?).
  split; split_and!; eauto using log_ok_app_l, log_ok_app_r.
Qed.
Lemma log_ok_first es : log_ok es → log_from (first_index es) es.
Proof. destruct es; [done|]. by intros (_&?&_). Qed.

(** ** [mergeEntries] *)
Definition connects (existing incoming : list Entry) : Prop :=
  match existing, incoming with
  | _ :: _, _ :: _ => (first_index existing ≤ first_index incoming ≤ first_index existing + Z.of_nat (length existing))%Z
  | _, _ => True
  end.
#[export] Instance connects_dec a b : Decision (connects a b).
Proof. destruct a, b; unfold connects; apply _. Defined.
Lemma merge_eq existing incoming :
  log_ok existing → existing ≠ [] → incoming ≠ [] → connects existing incoming →
  mergeEntries existing incoming = take (Z.to_nat (first_index incoming - first_index existing)) existing ++ incoming.
Proof.
  intros Hl%log_ok_first He Hi Hc. destruct incoming as [|e inc]; [done|]. destruct existing as [|x ex]; [done|].
  unfold mergeEntries, connects in *. by rewrite (log_from_search _ _ _ Hl) by done.
Qed.
Lemma merge_log_ok existing incoming :
  log_ok existing → log_ok incoming → connects existing incoming → log_ok (mergeEntries existing incoming).
Proof.
  intros He Hi Hc. destruct incoming as [|e inc]; [done|]. destruct existing as [|x ex]; [done|].
  rewrite merge_eq by done. pose proof (log_ok_first _ He) as Hef. unfold connects in Hc.
  destruct (Z.to_nat (first_index (e :: inc) - first_index (x :: ex))) as [|n] eqn:En; [done|].
  cbn [take app]. unfold log_ok in *. destruct He as (?&_&?), Hi as (?&Hif&?). split_and!; [done| |].
  - rewrite app_comm_cons. change (x :: take n ex) with (take (S n) (x :: ex)).
    cbn [first_index] in *. apply log_from_app. split; [by apply log_from_take|].
    rewrite length_take. replace (e_Index x + Z.of_nat (S n `min` length (x :: ex)))%Z with (e_Index e) by lia. done.
  - rewrite app_comm_cons, length_app. cbn [length first_index] in *. rewrite length_take. lia.
Qed.
Lemma seg_last i c : log_from i c.2 → c.2 ≠ [] → sg_LastIndex (seg_of c) = (i + Z.of_nat (length c.2) - 1)%Z.
Proof.
  destruct c as [id l]. cbn. intros Hl Hne. destruct l as [|z l _] using rev_ind; [done|].
  destruct (l ++ [z]) eqn:E; [by apply app_eq_nil in E as []|]. rewrite <-E in *. rewrite List.last_last, length_app. cbn.
  apply log_last in Hl. lia.
Qed.
Lemma seg_first i c : log_from i c.2 → c.2 ≠ [] → sg_FirstIndex (seg_of c) = i.
Proof. destruct c as [id [|x l]]; [done|]. cbn. by intros [? _]. Qed.
(** The segment that holds index [o]. *)
Lemma locate cs i o :
  Forall chunk_ok cs → log_from i (entries_of cs) → (i ≤ o < i + Z.of_nat (length (entries_of cs)))%Z →
  ∃ a c b, cs = a ++ c :: b ∧ search (λ s, (o <=? sg_LastIndex s)%Z) (map seg_of cs) = length a ∧
    log_from (i + Z.of_nat (length (entries_of a))) c.2 ∧
    (i + Z.of_nat (length (entries_of a)) ≤ o < i + Z.of_nat (length (entries_of a)) + Z.of_nat (length c.2))%Z.
Proof.
  revert i; induction cs as [|c cs IH]; intros i Hok Hlog Ho; [cbn in Ho; lia|].
  apply Forall_cons in Hok as [(Hc&_) Hok]. assert (Hen : entries_of (c :: cs) = c.2 ++ entries_of cs) by done.
  rewrite Hen in *. apply log_from_app in Hlog as [Hl Hlog]. rewrite length_app in Ho.
  cbn [map search]. rewrite (seg_last i) by done.
  destruct (Z.leb_spec o (i + Z.of_nat (length c.2) - 1)) as [Hle|Hgt].
  - exists [], c, cs. cbn [entries_of map concat length]. rewrite Z.add_0_r. split_and!; [done|done|done|lia|lia].
  - destruct (IH _ Hok Hlog) as (a&c'&b&->&Hs&Hl'&Ho'); [lia|].
    exists (c :: a), c', b. assert (Hea : entries_of (c :: a) = c.2 ++ entries_of a) by done.
    rewrite Hea, length_app, Nat2Z.inj_add, Z.add_assoc. rewrite Hs. split_and!; [done|done|done|lia|lia].
Qed.
(** What an append leaves: the segments of [cs'], with [cs'] holding [merged]. *)
Definition holds (w w' : FileWAL) (cs' : list chunk) (merged : list Entry) : Prop :=
  w_opened w' = w_opened w ∧ w_state w' = w_state w ∧ w_segments w' = map seg_of cs' ∧ w_entries w' = merged ∧
  chunks_ok cs' ∧ entries_of cs' = merged ∧ files_ok (w_files w') cs' ∧
  w_files w' !! stateFileName = w_files w !! stateFileName.
(** Calls that only concern segment files leave the other files alone. *)
Definition on_segment (op : FsOp) : Prop :=
  match op with
  | FCreate n | FAppend n _ | FRemove n => HasSuffix n dot_wal = true
  | FRename _ _ => False
  end.
Lemma on_segment_lookup f ops n :
  Forall on_segment ops → HasSuffix n dot_wal = false → fs_run f ops !! n = f !! n.
Proof.
  intros Hops Hn. revert f; induction Hops as [|op ops Hop _ IH]; intros f; [done|].
  assert (fs_run f (op :: ops) = fs_run (fs_exec f op) ops) as -> by done. rewrite IH.
  destruct op as [m|m d|a b|m]; cbn [fs_exec on_segment] in *; try done; assert (m ≠ n) by congruence.
  - by rewrite lookup_insert_ne.
  - by rewrite lookup_alter_ne.
  - by rewrite lookup_delete_ne.
Qed.
Lemma steps_on_segment cs es ops cs' : append_steps cs es ops cs' → Forall on_segment ops.
Proof.
  induction 1 as [|cs e es ops1 cs1 ops2 cs2 Hstep _ IH]; [constructor|]. apply Forall_app. split; [|done].
  destruct Hstep; repeat constructor; apply segment_name_suffix.
Qed.
Lemma remove_on_segment cs : Forall on_segment (remove_ops cs).
Proof. apply Forall_fmap, Forall_forall. intros c _. apply segment_name_suffix. Qed.

Lemma merged_split (A l B inc : list Entry) x o :
  log_from x (A ++ l ++ B) → (x + Z.of_nat (length A) ≤ o)%Z → log_from o inc → inc ≠ [] →
  (o ≤ x + Z.of_nat (length (A ++ l ++ B)))%Z →
  let r := take (Z.to_nat (o - x) - length A) (l ++ B) ++ inc in
  take (Z.to_nat (o - x)) (A ++ l ++ B) ++ inc = A ++ r ∧
  log_from x (A ++ r) ∧ first_index r = (x + Z.of_nat (length A))%Z.
Proof.
  intros Hlog Ho Hinc Hne Hlen r. apply log_from_app in Hlog as [HA HB].
  assert (Heq : take (Z.to_nat (o - x)) (A ++ l ++ B) ++ inc = A ++ r).
  { unfold r. by rewrite take_app_ge, <-app_assoc by lia. }
  assert (Hr : log_from (x + Z.of_nat (length A)) r).
  { unfold r. apply log_from_app. split; [by apply log_from_take|].
    rewrite length_take. rewrite length_app in Hlen.
    replace (_ + _ + _)%Z with o; [done|]. lia. }
  split; [done|]. split; [apply log_from_app; by split|].
  destruct r as [|z r'] eqn:E; [|by destruct Hr].
  unfold r in E. by apply app_eq_nil in E as [_ ->].
Qed.
Lemma set_entries_ops es w ops : set_entries es (do_ops ops w) = do_ops ops (set_entries es w).
Proof. done. Qed.
(** The overlap is in segment [c]: [rewriteTail] keeps [a] and rewrites the entries [r]. *)
Lemma rewrite_split cs inc :
  chunks_ok cs → entries_of cs ≠ [] → inc ≠ [] → log_ok inc → Forall storable inc →
  (first_index (entries_of cs) ≤ first_index inc < first_index (entries_of cs) + Z.of_nat (length (entries_of cs)))%Z →
  ∃ a c b r, cs = a ++ c :: b ∧
    search (λ s, (first_index inc <=? sg_LastIndex s)%Z) (map seg_of cs) = length a ∧
    mergeEntries (entries_of cs) inc = entries_of a ++ r ∧
    List.filter (λ e, (sg_FirstIndex (seg_of c) <=? e_Index e)%Z) (entries_of a ++ r) = r ∧
    List.filter (λ e, (e_Index e <? sg_FirstIndex (seg_of c))%Z) (entries_of cs) = entries_of a ∧
    start_ok c.1 a r ∧ Forall storable r ∧ log_ok (entries_of a ++ r) ∧
    (sg_FirstIndex (seg_of c) ≤ first_index inc)%Z.
Proof.
  intros Hcs Hne Hinc Hilog Hist Ho. pose proof Hcs as (Hok&Hids&Hlog&Hst).
  assert (Hcon : connects (entries_of cs) inc) by (unfold connects; repeat case_match; [done..|lia]).
  pose proof (merge_log_ok _ _ Hlog Hilog Hcon) as Hmlog.
  rewrite merge_eq in * by done. pose proof (log_ok_first _ Hlog) as Hlf.
  destruct (locate cs _ _ Hok Hlf Ho) as (a&c&b&->&Hs&Hc&Hoc).
  set (x := first_index (entries_of (a ++ c :: b))) in *. set (o := first_index inc) in *.
  assert (Hen : entries_of (a ++ c :: b) = entries_of a ++ c.2 ++ entries_of b) by (rewrite entries_of_app; done).
  rewrite Hen in *. destruct (merged_split _ _ _ inc x o Hlf) as (Hm&Hml&Hr); [lia|by apply log_ok_first|done|lia|].
  set (r := take _ (c.2 ++ entries_of b) ++ inc) in *. rewrite Hm in *.
  assert (Hcok : chunk_ok c) by (by apply Forall_app in Hok as [_ [? _]%Forall_cons]).
  assert (Hfi : sg_FirstIndex (seg_of c) = (x + Z.of_nat (length (entries_of a)))%Z) by (apply seg_first; [done|apply Hcok]).
  exists a, c, b, r. rewrite Hfi, (log_from_filter_ge _ _ _ Hml), (log_from_filter_lt x _ _ Hlf).
  replace (Z.to_nat (x + Z.of_nat (length (entries_of a)) - x)) with (length (entries_of a)) by lia.
  rewrite drop_app_length, take_app_length. split_and!; try done.
  - split; [rewrite Hr; destruct Hcok as (Hc2&Hcid&_); destruct c as [id [|y l]]; [done|destruct Hc as [Hc _]; cbn in *; lia]|].
    rewrite map_app in Hids. apply StronglySorted_app in Hids as (Hids&_&_).
    apply Forall_forall. intros c' Hc'. apply Hids; [by apply list_elem_of_fmap_2|by left].
  - apply Forall_app. split; [|done]. apply Forall_take. rewrite !Forall_app in Hst. apply Forall_app, Hst.
  - lia.
Qed.
Lemma rewriteTail_ok w cs inc :
  w_segments w = map seg_of cs → w_entries w = entries_of cs → chunks_ok cs → files_ok (w_files w) cs →
  entries_of cs ≠ [] → inc ≠ [] → log_ok inc → Forall storable inc →
  (first_index (entries_of cs) ≤ first_index inc < first_index (entries_of cs) + Z.of_nat (length (entries_of cs)))%Z →
  ∃ w' cs' a c b ops, rewriteTail (first_index inc) (mergeEntries (entries_of cs) inc) w = (w', Ok tt) ∧
    holds w w' cs' (mergeEntries (entries_of cs) inc) ∧
    cs = a ++ c :: b ∧ (sg_FirstIndex (seg_of c) ≤ first_index inc)%Z ∧
    w_trace w' = w_trace w ++ remove_ops (c :: b) ++ ops.
Proof.
  intros Hseg Hent Hcs Hf Hne Hinc Hilog Hist Ho.
  destruct (rewrite_split cs inc) as (a&c&b&r&->&Hs&Hm&Hge&Hlt&Hstart&Hr&Hlog&Hfirst); [done..|].
  pose proof (remove_files_ok _ _ _ (chunks_nodup _ Hcs) Hf) as Hfa.
  unfold rewriteTail. rewrite get_bind, Hseg, bool_decide_eq_false_2 by (by destruct a).
  cbv zeta. rewrite Hs, list_lookup_fmap, list_lookup_middle by done. cbn [fmap option_fmap option_map].
  rewrite Hm, Hge, Hent, Hlt, map_app, drop_app_length' by (by rewrite length_map).
  rewrite (do_bind _ _ _ _ _ (remove_segments_ok (c :: b) w)). rewrite (do_bind _ _ _ _ _ eq_refl).
  edestruct (appendEntriesIncremental_ok r c.1 false a) as (ops&cs'&Heq&Hsteps&Hcs'&Hen&Hf'); cycle -1.
  - rewrite (do_bind _ _ _ _ _ Heq). eexists _, cs', a, c, b, ops. split; [done|].
    split; [|split_and!; [done|done|cbn; by rewrite <-app_assoc]].
    split_and!; try done.
    cbn [set_entries set_segments do_ops w_files].
    rewrite on_segment_lookup by (done || by eapply steps_on_segment).
    by rewrite on_segment_lookup by (done || apply remove_on_segment).
  - cbn. by rewrite Hseg, map_app, take_app_length' by (by rewrite length_map).
  - by apply (chunks_ok_app a (c :: b)).
  - exact Hfa.
  - done.
  - done.
  - done.
Qed.
(** ** [Append] *)
Lemma entries_nil cs : Forall chunk_ok cs → entries_of cs = [] → cs = [].
Proof. destruct cs as [|[id l] cs]; [done|]. intros [(?&_) _]%Forall_cons. cbn. by intros [-> _]%app_eq_nil. Qed.
Lemma last_index es e : log_ok es → last es = Some e → (e_Index e + 1 = first_index es + Z.of_nat (length es))%Z.
Proof.
  intros Hl He. apply last_Some in He as [l ->].
  apply log_ok_first in Hl. apply log_last in Hl. rewrite Hl, length_app. cbn. lia.
Qed.
Lemma inv_holds w w' cs' merged :
  w_opened w = true → state_stored (w_files w) (w_state w) → holds w w' cs' merged → wal_inv w'.
Proof.
  intros Hop Hst (?&Hs&?&Hm&?&He&?&Hf). exists cs'. rewrite Hs. split_and!; try done; [congruence|congruence|].
  by eapply state_stored_agree.
Qed.
Lemma append_tail_ok w cs es start toLast :
  w_segments w = map seg_of cs → w_entries w = entries_of cs → chunks_ok cs → files_ok (w_files w) cs →
  start_ok start cs es → Forall storable es → log_ok (entries_of cs ++ es) → es ≠ [] →
  ∃ w' cs' ops, (appendEntriesIncremental es start toLast;; st_modify (λ w, set_entries (w_entries w ++ es) w)) w = (w', Ok tt) ∧
    holds w w' cs' (entries_of cs ++ es) ∧ append_steps cs es ops cs' ∧ w_trace w' = w_trace w ++ ops.
Proof.
  intros Hseg Hent Hcs Hf Hstart Hst Hlog Hne.
  destruct (appendEntriesIncremental_ok es start toLast cs w) as (ops&cs'&Heq&Hsteps&Hcs'&Hen&Hf'); [done..|].
  rewrite (do_bind _ _ _ _ _ Heq). eexists _, cs', ops. split; [done|]. rewrite <-Hent in *.
  split; [|by split]. split_and!; try done. cbn. by rewrite on_segment_lookup by (done || by eapply steps_on_segment).
Qed.
(** The hard state after [Append st]. *)
Definition next_state (old st : HardState) : HardState := if isEmptyHardState st then old else st.
Lemma Append_persist w st es : w_opened w = true → state_ok (w_state w) → state_ok st →
  ∃ d, unmarshal_state d = Some (next_state (w_state w) st) ∧
    Append st es w = append_entries es (do_ops (persist_ops d) (set_state (next_state (w_state w) st) w)).
Proof.
  intros Hop Hw Hst. set (w0 := set_state (next_state (w_state w) st) w).
  destruct (persistState_ok w0) as (d&Hd&Hp).
  { cbn. unfold next_state. by destruct isEmptyHardState. }
  exists d. split; [done|]. unfold Append. rewrite get_bind, Hop. cbn [negb].
  transitivity ((persistState;; append_entries es) w0).
  - unfold w0, next_state. destruct isEmptyHardState; [|done]. rewrite ret_bind. by destruct w.
  - by rewrite (do_bind _ _ _ _ _ Hp).
Qed.
(** The index that follows the log. *)
Definition next_index (es : list Entry) : Z := (first_index es + Z.of_nat (length es))%Z.
Lemma append_contiguous_ok w cs es :
  w_segments w = map seg_of cs → w_entries w = entries_of cs → chunks_ok cs → files_ok (w_files w) cs →
  log_ok es → Forall storable es → es ≠ [] → entries_of cs = [] ∨ first_index es = next_index (entries_of cs) →
  mergeEntries (entries_of cs) es = entries_of cs ++ es ∧
  ∃ w' cs' ops, append_entries es w = (w', Ok tt) ∧ holds w w' cs' (entries_of cs ++ es) ∧
    append_steps cs es ops cs' ∧ w_trace w' = w_trace w ++ ops.
Proof.
  intros Hseg Hent Hcs Hf Hlog Hes Hne Hnext. destruct es as [|e es]; [done|]. clear Hne.
  unfold append_entries. rewrite get_bind, Hseg, Hent. pose proof Hcs as (Hok&_&Hclog&_).
  destruct (last (entries_of cs)) as [tail|] eqn:Hlast.
  - pose proof (last_index _ _ Hclog Hlast) as Htail.
    assert (Hne : entries_of cs ≠ []) by (by intros E; rewrite E in Hlast).
    destruct Hnext as [?|Hnext]; [done|]. unfold next_index in Hnext. cbn [first_index] in Hnext.
    assert (Hcon : connects (entries_of cs) (e :: es)).
    { unfold connects. destruct (entries_of cs); [done|]. cbn [first_index] in *. lia. }
    pose proof (merge_log_ok _ _ Hclog Hlog Hcon) as Hmlog.
    rewrite u64_id by (unfold is_u64; apply log_ok_from in Hclog; [lia|done]).
    rewrite (proj2 (Z.eqb_eq _ _)) by lia.
    rewrite merge_eq in Hmlog |- * by done. rewrite take_ge in Hmlog |- * by (cbn [first_index]; lia).
    split; [done|]. apply append_tail_ok; try done. by apply nextSegmentID_ok.
  - apply last_None in Hlast. pose proof (entries_nil _ Hok Hlast) as ->. split; [done|].
    apply (append_tail_ok w [] (e :: es)); try done. by apply nextSegmentID_ok.
Qed.
Lemma append_overlap_ok w cs es :
  w_segments w = map seg_of cs → w_entries w = entries_of cs → chunks_ok cs → files_ok (w_files w) cs →
  log_ok es → Forall storable es → es ≠ [] →
  (first_index (entries_of cs) ≤ first_index es < next_index (entries_of cs))%Z →
  ∃ w' cs' a c b ops, append_entries es w = (w', Ok tt) ∧ holds w w' cs' (mergeEntries (entries_of cs) es) ∧
    cs = a ++ c :: b ∧ (sg_FirstIndex (seg_of c) ≤ first_index es)%Z ∧
    w_trace w' = w_trace w ++ remove_ops (c :: b) ++ ops.
Proof.
  intros Hseg Hent Hcs Hf Hlog Hes Hne Ho. destruct es as [|e es]; [done|]. pose proof Hcs as (_&_&Hclog&_).
  assert (Hcne : entries_of cs ≠ []) by (intros E; rewrite E in Ho; unfold next_index in Ho; cbn in Ho; lia).
  unfold append_entries. rewrite get_bind, Hent.
  destruct (last (entries_of cs)) as [tail|] eqn:Hlast; [|by apply last_None in Hlast].
  pose proof (last_index _ _ Hclog Hlast) as Htail. unfold next_index in Ho. cbn [first_index] in Ho.
  rewrite u64_id by (unfold is_u64; apply log_ok_from in Hclog; [lia|done]).
  rewrite (proj2 (Z.eqb_neq _ _)), (proj2 (Z.ltb_ge _ _)) by lia. by apply rewriteTail_ok.
Qed.
Lemma append_entries_ok w cs es :
  w_segments w = map seg_of cs → w_entries w = entries_of cs → chunks_ok cs → files_ok (w_files w) cs →
  log_ok es → Forall storable es → connects (entries_of cs) es →
  ∃ w' cs', append_entries es w = (w', Ok tt) ∧ holds w w' cs' (mergeEntries (entries_of cs) es).
Proof.
  intros Hseg Hent Hcs Hf Hlog Hes Hcon. destruct (decide (es = [])) as [->|Hne]; [by exists w, cs|].
  destruct (decide (entries_of cs = [] ∨ first_index es = next_index (entries_of cs))) as [Hn|Hn].
  - destruct (append_contiguous_ok w cs es) as (->&w'&cs'&ops&?&?&_); [done..|]. by exists w', cs'.
  - destruct (append_overlap_ok w cs es) as (w'&cs'&a&c&b&ops&?&?&_); try done; [|by exists w', cs'].
    unfold connects in Hcon. apply Decidable.not_or in Hn as [Hn1 Hn2]. unfold next_index in *.
    destruct (entries_of cs), es; try done. lia.
Qed.
Lemma Append_ok w st es :
  wal_inv w → state_ok st → log_ok es → Forall storable es → connects (w_entries w) es →
  ∃ w', Append st es w = (w', Ok tt) ∧ wal_inv w' ∧
    w_state w' = next_state (w_state w) st ∧ w_entries w' = mergeEntries (w_entries w) es.
Proof.
  intros (cs&Hop&Hseg&Hent&Hcs&Hf&Hss) Hst Hlog Hes Hcon.
  destruct (Append_persist w st es Hop (proj1 Hss) Hst) as (d&Hd&->). rewrite Hent in *.
  assert (Hst' : state_ok (next_state (w_state w) st)) by (unfold next_state; destruct isEmptyHardState; [apply Hss|done]).
  edestruct (append_entries_ok (do_ops (persist_ops d) (set_state (next_state (w_state w) st) w)) cs es)
    as (w'&cs'&->&Hh); try done; [by apply persist_files_ok|].
  exists w'. split_and!; [done| |apply Hh|apply Hh].
  eapply inv_holds; [| |exact Hh]; [done|by apply persist_state].
Qed.
(** ** [TruncatePrefix] *)
Definition rewrite_ops (p : str) (es : list Entry) : list FsOp :=
  FCreate (p ++ dot_tmp) :: concat (map (record_ops (p ++ dot_tmp)) es) ++ [FRename (p ++ dot_tmp) p].
Lemma write_records_ok p es w : Forall storable es →
  st_iter (λ entry,
    record ← st_lift (EncodeEntry entry);
    sys (FAppend p (PutUint32 (Z.of_nat (length record))));; sys (FAppend p record)) es w =
  (do_ops (concat (map (record_ops p) es)) w, Ok tt).
Proof.
  revert w; induction es as [|e es IH]; intros w Hes; [by rewrite do_ops_nil|].
  apply Forall_cons in Hes as [[He _] Hes]. cbn [st_iter map concat].
  erewrite do_bind; [|rewrite (EncodeEntry_ok _ He), lift_bind, sys_bind; apply sys_do].
  by rewrite IH, !do_ops_app.
Qed.
Lemma rewriteSegmentFile_ok p es w : Forall storable es → rewriteSegmentFile p es w = (do_ops (rewrite_ops p es) w, Ok tt).
Proof.
  intros Hes. unfold rewriteSegmentFile. rewrite sys_bind.
  rewrite (do_bind _ _ _ _ _ (write_records_ok _ _ _ Hes)), sys_do, !do_ops_app. done.
Qed.
Lemma records_files f p es content n :
  f !! p = Some content →
  fs_run f (concat (map (record_ops p) es)) !! n = if decide (n = p) then Some (content ++ file_of es) else f !! n.
Proof.
  revert f content; induction es as [|e es IH]; intros f content Hp; cbn [map concat].
  - destruct (decide (n = p)) as [->|]; [|done]. cbn. by rewrite Hp, app_nil_r.
  - rewrite fs_run_app, (IH _ (content ++ record_of e)).
    + rewrite (record_files _ _ _ _ _ Hp), file_of_cons, app_assoc. by destruct (decide (n = p)).
    + by rewrite (record_files _ _ _ _ _ Hp), decide_True.
Qed.
Lemma rewrite_files f p es n :
  fs_run f (rewrite_ops p es) !! n =
    if decide (n = p) then Some (file_of es) else if decide (n = p ++ dot_tmp) then None else f !! n.
Proof.
  assert (fs_run f (rewrite_ops p es) = fs_run (<[p ++ dot_tmp := []]> f) (concat (map (record_ops (p ++ dot_tmp)) es) ++ [FRename (p ++ dot_tmp) p])) as -> by done.
  rewrite fs_run_app. set (g := fs_run _ (concat _)).
  assert (Hg : ∀ m, g !! m = if decide (m = p ++ dot_tmp) then Some (file_of es) else f !! m).
  { intros m. unfold g. rewrite (records_files _ _ _ []) by apply lookup_insert_eq.
    destruct (decide (m = p ++ dot_tmp)); [done|]. by rewrite lookup_insert_ne. }
  unfold fs_run. cbn [fold_left fs_exec]. rewrite (Hg (p ++ dot_tmp)), decide_True by done.
  destruct (decide (n = p)) as [->|Hp]; [by rewrite lookup_insert_eq|]. rewrite lookup_insert_ne by done.
  destruct (decide (n = p ++ dot_tmp)) as [->|Ht]; [by rewrite lookup_delete_eq|].
  by rewrite lookup_delete_ne, Hg, decide_False by done.
Qed.
Lemma rewrite_files_ok f c l b :
  NoDup (names_of (c :: b)) → files_ok f (c :: b) → files_ok (fs_run f (rewrite_ops (segment_name c.1) l)) ((c.1, l) :: b).
Proof.
  intros Hnd [Hf Hj]. cbn in Hnd. apply NoDup_cons in Hnd as [Hni _].
  assert (Hagree : ∀ n, n ≠ segment_name c.1 → HasSuffix n dot_wal = true →
    fs_run f (rewrite_ops (segment_name c.1) l) !! n = f !! n).
  { intros n Hn Hw. rewrite rewrite_files, decide_False by done.
    destruct (decide _) as [->|]; [by rewrite tmp_not_segment in Hw|done]. }
  split.
  - intros c' [->|Hc']%elem_of_cons; [by rewrite rewrite_files, decide_True|].
    rewrite Hagree; [apply Hf; by right| |apply segment_name_suffix].
    intros E. apply Hni, names_of_elem. by exists c'.
  - intros n d Hn Hw Hnn. cbn in Hnn. apply not_elem_of_cons in Hnn as [Hn1 Hn2]. rewrite Hagree in Hn by done.
    eapply Hj; [done|done|]. cbn. by apply not_elem_of_cons.
Qed.
(** Everything but the stored hard state is in place. *)
Definition ready (w : FileWAL) (cs : list chunk) : Prop :=
  w_opened w = true ∧ w_segments w = map seg_of cs ∧ w_entries w = entries_of cs ∧
  chunks_ok cs ∧ files_ok (w_files w) cs ∧ state_ok (w_state w).
Lemma persist_inv w cs : ready w cs →
  ∃ w', persistState w = (w', Ok tt) ∧ wal_inv w' ∧ w_state w' = w_state w ∧ w_entries w' = entries_of cs.
Proof.
  intros (Hop&Hseg&Hent&Hcs&Hf&Hst). destruct (persistState_ok w Hst) as (d&Hd&->).
  eexists. split; [done|]. split_and!; [|done|done]. exists cs.
  split_and!; try done; [by apply persist_files_ok|by apply persist_state].
Qed.
Lemma inv_ready w : wal_inv w → ∃ cs, ready w cs.
Proof. intros (cs&?&?&?&?&?&[? _]). by exists cs. Qed.
Lemma chunks_ok_nil : chunks_ok [].
Proof. split_and!; constructor. Qed.
Lemma drop_all_ok w cs : ready w cs →
  ∃ w', drop_all_segments w = (w', Ok tt) ∧ wal_inv w' ∧ w_state w' = w_state w ∧ w_entries w' = [].
Proof.
  intros (Hop&Hseg&Hent&Hcs&Hf&Hst). unfold drop_all_segments. rewrite get_bind, Hseg.
  rewrite (do_bind _ _ _ _ _ (remove_segments_ok cs w)), (do_bind _ _ _ _ _ eq_refl).
  destruct (persist_inv (set_segments [] (set_entries [] (do_ops (remove_ops cs) w))) []) as (w'&?&?&?&?); [|by exists w'].
  split_and!; try done; [apply chunks_ok_nil|].
  apply (remove_files_ok _ [] cs); [by apply chunks_nodup|done].
Qed.
(** The index is in segment [c], [k] entries behind its first. *)
Lemma truncate_split cs index :
  chunks_ok cs →
  (first_index (entries_of cs) ≤ index < first_index (entries_of cs) + Z.of_nat (length (entries_of cs)))%Z →
  ∃ a c b k, cs = a ++ c :: b ∧ search (λ s, (index <=? sg_LastIndex s)%Z) (map seg_of cs) = length a ∧
    sg_FirstIndex (seg_of c) = (index - Z.of_nat k)%Z ∧ k < length c.2 ∧
    List.filter (λ e, (index <=? e_Index e)%Z) (entries_of cs) = drop k c.2 ++ entries_of b ∧
    boundary_entries index (sg_LastIndex (seg_of c)) (drop k c.2 ++ entries_of b) = drop k c.2 ∧
    first_index (drop k c.2) = index ∧ seg_of (c.1, drop k c.2) = MkSegment c.1 index (sg_LastIndex (seg_of c)) (segment_name c.1) ∧
    chunks_ok ((c.1, drop k c.2) :: b).
Proof.
  intros Hcs Ho. pose proof Hcs as (Hok&_&Hlog&_). pose proof (log_ok_first _ Hlog) as Hlf.
  destruct (locate cs _ _ Hok Hlf Ho) as (a&c&b&->&Hs&Hc&Hoc).
  set (x := first_index (entries_of (a ++ c :: b))) in *.
  assert (Hen : entries_of (a ++ c :: b) = entries_of a ++ c.2 ++ entries_of b) by (rewrite entries_of_app; done).
  rewrite Hen in *. set (k := Z.to_nat (index - x) - length (entries_of a)).
  assert (Hcok : chunk_ok c) by (by apply Forall_app in Hok as [_ [? _]%Forall_cons]).
  assert (Hk : k < length c.2) by lia.
  pose proof (log_from_drop _ _ k (Nat.lt_le_incl _ _ Hk) Hc) as Hd.
  replace (x + Z.of_nat (length (entries_of a)) + Z.of_nat k)%Z with index in Hd by lia.
  assert (Hdne : drop k c.2 ≠ []) by (intros E; apply (f_equal length) in E; rewrite length_drop in E; cbn in E; lia).
  assert (Hfi : first_index (drop k c.2) = index) by (destruct (drop k c.2); [done|by destruct Hd]).
  assert (Hlast : sg_LastIndex (seg_of c) = (index + Z.of_nat (length (drop k c.2)) - 1)%Z).
  { rewrite (seg_last _ _ Hc) by apply Hcok. rewrite length_drop. lia. }
  assert (Hbl : log_from index (drop k c.2 ++ entries_of b)).
  { apply log_from_app. split; [done|]. apply log_from_app in Hlf as [_ [_ Hb]%log_from_app].
    rewrite length_drop. replace (index + _)%Z with (x + Z.of_nat (length (entries_of a)) + Z.of_nat (length c.2))%Z by lia. done. }
  exists a, c, b, k. split_and!; try done.
  - rewrite (seg_first _ _ Hc) by apply Hcok. lia.
  - rewrite (log_from_filter_ge _ _ _ Hlf). replace (Z.to_nat (index - x)) with (length (entries_of a) + k) by lia.
    rewrite <-drop_drop, drop_app_length, drop_app_le by lia. done.
  - rewrite (log_from_boundary _ _ _ _ Hbl), Hlast, Z.max_id, Z.sub_diag. change (Z.to_nat 0) with 0. rewrite drop_0.
    replace (Z.to_nat _) with (length (drop k c.2)) by lia. by rewrite take_app_length.
  - pose proof (seg_first index (c.1, drop k c.2) Hd Hdne) as E1.
    pose proof (seg_last index (c.1, drop k c.2) Hd Hdne) as E2. cbn [snd] in E2. rewrite <-Hlast in E2.
    unfold seg_of in *. cbn [fst snd sg_FirstIndex sg_LastIndex sg_ID sg_Path] in *. by rewrite E1, E2.
  - destruct (chunks_ok_app a (c :: b) Hcs) as [_ (Hok'&Hs'&Hl'&Hst')].
    apply Forall_cons in Hok' as [_ Hok']. assert (Hcb : entries_of (c :: b) = c.2 ++ entries_of b) by done.
    rewrite Hcb in *. assert (Hcb' : entries_of ((c.1, drop k c.2) :: b) = drop k c.2 ++ entries_of b) by done.
    rewrite <-(take_drop k c.2), <-app_assoc in Hl', Hst'.
    unfold chunks_ok. rewrite Hcb'. split_and!; [|done|by eapply log_ok_app_r|by apply Forall_app in Hst' as []].
    constructor; [|done]. destruct Hcok as (_&Hid&Hu). unfold chunk_ok. cbn [fst snd]. rewrite Hfi.
    assert (first_index c.2 = x + Z.of_nat (length (entries_of a)))%Z.
    { destruct (c.2); [cbn in Hk; lia|by destruct Hc]. }
    apply log_ok_app_r in Hl'. apply log_ok_from in Hl'; [|by destruct (drop k c.2)].
    unfold is_u64 in *. destruct (drop k c.2) eqn:E; [done|]. cbn [app first_index length] in Hl', Hfi. split_and!; [done|lia..].
Qed.
Lemma truncate_ready w a c b k :
  ready w (a ++ c :: b) → chunks_ok ((c.1, drop k c.2) :: b) →
  let w1 := do_ops (remove_ops a) w in
  let w2 := if (sg_FirstIndex (seg_of c) <? sg_FirstIndex (seg_of c) + Z.of_nat k)%Z
            then do_ops (rewrite_ops (segment_name c.1) (drop k c.2)) w1 else w1 in
  ready (set_segments (map seg_of ((c.1, drop k c.2) :: b)) (set_entries (entries_of ((c.1, drop k c.2) :: b)) w2))
    ((c.1, drop k c.2) :: b).
Proof.
  intros (Hop&Hseg&Hent&Hcs&Hf&Hst) Hnew w1 w2.
  assert (Hnd : NoDup (names_of ((c :: b) ++ a))) by (unfold names_of; rewrite (Permutation_app_comm (c :: b)); by apply chunks_nodup).
  assert (Hf1 : files_ok (w_files w1) (c :: b)).
  { apply (remove_files_ok (w_files w) (c :: b) a); [done|]. by rewrite Permutation_app_comm. }
  rewrite names_of_app in Hnd. apply NoDup_app in Hnd as (Hnd&_&_).
  assert (Hf2 : files_ok (w_files w2) ((c.1, drop k c.2) :: b)).
  { unfold w2. destruct (Z.ltb_spec (sg_FirstIndex (seg_of c)) (sg_FirstIndex (seg_of c) + Z.of_nat k)).
    - by apply rewrite_files_ok.
    - replace k with 0 by lia. rewrite drop_0. by destruct c. }
  unfold ready. unfold w2 in *. destruct (_ <? _)%Z; by split_and!.
Qed.
Lemma TruncatePrefix_ok w index : wal_inv w →
  ∃ w', TruncatePrefix index w = (w', Ok tt) ∧ wal_inv w' ∧ w_state w' = w_state w ∧
    w_entries w' = List.filter (λ e, (index <=? e_Index e)%Z) (w_entries w).
Proof.
  intros Hinv. destruct (inv_ready _ Hinv) as (cs&Hr). pose proof Hr as (Hop&Hseg&Hent&Hcs&Hf&Hst).
  pose proof Hcs as (Hok&_&Hlog&Hsto). pose proof (log_ok_first _ Hlog) as Hlf.
  unfold TruncatePrefix. rewrite get_bind, Hop, Hent. cbn [negb].
  destruct (entries_of cs) as [|e es] eqn:Ees.
  { destruct (persist_inv w cs Hr) as (w'&?&?&?&Hw). rewrite Ees in Hw. by exists w'. }
  destruct (Z.leb_spec index (e_Index e)) as [Hle|Hgt].
  { rewrite (log_from_filter_ge _ _ _ Hlf). cbn [first_index].
    replace (Z.to_nat (index - e_Index e)) with 0 by lia. rewrite drop_0, <-Ees. by apply persist_inv. }
  rewrite <-Ees in *. cbv zeta. case_bool_decide as Hfil.
  { rewrite Hfil. by apply drop_all_ok with cs. }
  destruct (truncate_split cs index) as (a&c&b&k&->&Hs&Hfi&Hk&Hfilt&Hb&Hfd&Hsd&Hnew); [done| |].
  { rewrite (log_from_filter_ge _ _ _ Hlf) in Hfil. split; [rewrite Ees; cbn [first_index]; lia|].
    apply Z.nle_gt. intros Hn. apply Hfil. apply drop_ge. lia. }
  rewrite Hseg, Hs, Hfilt, map_app, drop_app_length', take_app_length' by (by rewrite length_map).
  cbn [map]. rewrite (do_bind _ _ _ _ _ (remove_segments_ok a w)).
  pose proof (truncate_ready w a c b k Hr Hnew) as Hready. cbv zeta in Hready.
  replace (sg_FirstIndex (seg_of c) + Z.of_nat k)%Z with index in Hready by lia.
  set (cs' := (c.1, drop k c.2) :: b) in *.
  destruct (persist_inv _ _ Hready) as (w'&Hp&Hinv'&Hst'&Hen').
  exists w'. split; [|split; [done|split; [|done]]].
  2: { rewrite Hst'. by destruct (_ <? _)%Z. }
  rewrite <-Hp. destruct (Z.ltb_spec (sg_FirstIndex (seg_of c)) index) as [Hlt|Hge].
  - rewrite Hb. destruct (drop k c.2) as [|x l] eqn:Ed.
    { apply (f_equal length) in Ed. rewrite length_drop in Ed. cbn in Ed. lia. }
    assert (Hxs : Forall storable (x :: l)) by (eapply (chunk_storable cs' (c.1, x :: l)); [apply Hnew|by left]).
    by rewrite bind_assoc, (do_bind _ _ _ _ _ (rewriteSegmentFile_ok _ _ _ Hxs)), ret_bind, (do_bind _ _ _ _ _ eq_refl).
  - assert (k = 0) as -> by lia. rewrite ret_bind, (do_bind _ _ _ _ _ eq_refl). unfold cs'. rewrite drop_0. by destruct c.
Qed.
(** ** The promise of the log

    What a client sees: a hard state and a list of entries.  [SReopen] stops the
    process and opens the directory again. *)
Record Log := MkLog { l_state : HardState; l_entries : list Entry }.
Inductive WalOp := SAppend (st : HardState) (es : list Entry) | STruncate (index : Z) | SSync | SReopen.
(** The first incoming index lies behind the next one to be written. *)
Definition gap (existing incoming : list Entry) : option WalErr :=
  match incoming, last existing with
  | e :: _, Some tail => if (e_Index tail + 1 <? e_Index e)%Z then Some (ErrGap (e_Index e) (e_Index tail)) else None
  | _, _ => None
  end.
Definition spec_step (l : Log) (op : WalOp) : Log * option WalErr :=
  match op with
  | SAppend st es =>
      let st' := next_state (l_state l) st in
      match gap (l_entries l) es with
      | Some e => (MkLog st' (l_entries l), Some e)
      | None => (MkLog st' (mergeEntries (l_entries l) es), None)
      end
  | STruncate i => (MkLog (l_state l) (List.filter (λ e, (i <=? e_Index e)%Z) (l_entries l)), None)
  | SSync | SReopen => (l, None)
  end.
(** The calls a raft client makes: a state and entries in range that a record can hold, contiguous,
    and not starting before the first entry that is stored (raft never replaces entries that a
    snapshot has taken over). *)
Definition admissible (l : Log) (op : WalOp) : Prop :=
  match op with
  | SAppend st es => state_ok st ∧ log_ok es ∧ Forall storable es ∧
      (es = [] ∨ l_entries l = [] ∨ (first_index (l_entries l) ≤ first_index es)%Z)
  | _ => True
  end.
#[export] Instance admissible_dec l op : Decision (admissible l op).
Proof. destruct op; cbn; apply _. Defined.
Fixpoint spec_run (l : Log) (ops : list WalOp) : Log * list (option WalErr) :=
  match ops with
  | [] => (l, [])
  | op :: ops =>
      let '(l1, e) := spec_step l op in
      let '(l2, es) := spec_run l1 ops in (l2, e :: es)
  end.
Fixpoint admissible_run (l : Log) (ops : list WalOp) : Prop :=
  match ops with
  | [] => True
  | op :: ops => admissible l op ∧ admissible_run (spec_step l op).1 ops
  end.
#[export] Instance admissible_run_dec l ops : Decision (admissible_run l ops).
Proof.
  revert l; induction ops as [|op ops IH]; intros l; cbn; [by left|].
  destruct (decide (admissible l op)); [|right; naive_solver].
  destruct (IH (spec_step l op).1); [by left|right; naive_solver].
Defined.
Definition wal_op (op : WalOp) : W unit :=
  match op with
  | SAppend st es => Append st es
  | STruncate i => TruncatePrefix i
  | SSync => Sync
  | SReopen => Close;; st_modify (λ w, NewFileWAL (w_files w));; Open
  end.
Definition error_of {A} (r : result WalErr A) : option WalErr := match r with Ok _ => None | Err e => Some e end.
Fixpoint wal_run (w : FileWAL) (ops : list WalOp) : FileWAL * list (option WalErr) :=
  match ops with
  | [] => (w, [])
  | op :: ops =>
      let '(w1, r) := wal_op op w in
      let '(w2, es) := wal_run w1 ops in (w2, error_of r :: es)
  end.

Definition represents (w : FileWAL) (l : Log) : Prop := wal_inv w ∧ w_state w = l_state l ∧ w_entries w = l_entries l.
Lemma Append_gap w st es e : wal_inv w → state_ok st → gap (w_entries w) es = Some e →
  ∃ w', Append st es w = (w', Err e) ∧ wal_inv w' ∧ w_state w' = next_state (w_state w) st ∧ w_entries w' = w_entries w.
Proof.
  intros (cs&Hop&Hseg&Hent&Hcs&Hf&Hss) Hst Hgap.
  destruct (Append_persist w st es Hop (proj1 Hss) Hst) as (d&Hd&->).
  set (w1 := do_ops _ _). exists w1. split_and!; [| |done|done].
  - unfold gap in Hgap. destruct es as [|x es]; [done|]. unfold append_entries. rewrite get_bind.
    change (w_entries w1) with (w_entries w). destruct (last (w_entries w)) as [tail|] eqn:Hl; [|done].
    destruct (Z.ltb_spec (e_Index tail + 1) (e_Index x)) as [Hlt|]; [|done]. injection Hgap as [= <-].
    rewrite Hent in Hl. pose proof (proj1 (proj2 (proj2 Hcs))) as Hlog.
    pose proof (last_index _ _ Hlog Hl) as Ht. rewrite u64_id.
    + rewrite (proj2 (Z.eqb_neq _ _)), (proj2 (Z.ltb_lt _ _)) by lia. done.
    + apply log_ok_from in Hlog; [unfold is_u64; lia|]. intros E. by rewrite E in Hl.
  - exists cs. split_and!; try done; [by apply persist_files_ok|].
    apply persist_state; [|done]. cbn. unfold next_state. destruct isEmptyHardState; [apply Hss|done].
Qed.
Lemma reopen_ok w : wal_inv w →
  ∃ w', wal_op SReopen w = (w', Ok tt) ∧ wal_inv w' ∧ w_state w' = w_state w ∧ w_entries w' = w_entries w ∧
    w_segments w' = w_segments w.
Proof.
  intros (cs&Hop&Hseg&Hent&Hcs&Hf&Hst). eexists. split.
  - cbn. rewrite (do_bind _ _ _ _ _ eq_refl), (do_bind _ _ _ _ _ eq_refl).
    exact (Open_ok _ _ _ (files_ok_loadable _ _ Hcs Hf) Hst).
  - split_and!; [|done|done|done]. by exists cs.
Qed.
Lemma gap_none_connects existing incoming :
  log_ok existing → gap existing incoming = None →
  incoming = [] ∨ existing = [] ∨ (first_index existing ≤ first_index incoming)%Z → connects existing incoming.
Proof.
  intros Hl Hg Ho. unfold connects. destruct existing as [|x ex]; [done|]. destruct incoming as [|e inc]; [done|].
  destruct Ho as [?|[?|Ho]]; [done..|]. split; [done|]. unfold gap in Hg.
  destruct (last (x :: ex)) as [tail|] eqn:E; [|by apply last_None in E].
  pose proof (last_index _ _ Hl E). destruct (Z.ltb_spec (e_Index tail + 1) (e_Index e)); [done|]. cbn [first_index] in *. lia.
Qed.
Lemma wal_step_ok w l op : represents w l → admissible l op →
  ∃ w' r, wal_op op w = (w', r) ∧ error_of r = (spec_step l op).2 ∧ represents w' (spec_step l op).1.
Proof.
  intros (Hinv&Hst&Hen) Hadm. assert (Hlog : log_ok (w_entries w)) by (destruct Hinv as (cs&_&_&->&(_&_&?&_)&_); done).
  destruct op as [st es|i| |]; cbn [spec_step].
  - cbn [wal_op]. destruct Hadm as (Hs&Hl&Hes&Ho). rewrite <-Hen, <-Hst in *. destruct (gap (w_entries w) es) as [e|] eqn:Hg.
    + destruct (Append_gap w st es e) as (w'&->&?&?&?); [done..|]. eexists _, _. split; [done|]. by split_and!.
    + destruct (Append_ok w st es) as (w'&->&?&?&?); [done..|by apply gap_none_connects|].
      eexists _, _. split; [done|]. by split_and!.
  - cbn [wal_op]. destruct (TruncatePrefix_ok w i Hinv) as (w'&->&?&?&?). eexists _, _. split; [done|]. split; [done|].
    split_and!; [done|cbn; congruence|cbn; congruence].
  - destruct (inv_ready _ Hinv) as [cs Hr]. destruct (persist_inv _ _ Hr) as (w'&Hp&?&?&?). cbn [wal_op]. unfold Sync.
    rewrite get_bind, (proj1 Hr). eexists _, _. split; [done|]. split; [done|].
    split_and!; [done|cbn; congruence|]. cbn. destruct Hr as (_&_&?&_). congruence.
  - destruct (reopen_ok _ Hinv) as (w'&->&?&?&?&_). eexists _, _. split; [done|]. split; [done|].
    split_and!; [done|cbn; congruence|cbn; congruence].
Qed.
Lemma wal_run_ok ops w l : represents w l → admissible_run l ops →
  ∃ w', wal_run w ops = (w', (spec_run l ops).2) ∧ represents w' (spec_run l ops).1.
Proof.
  revert w l; induction ops as [|op ops IH]; intros w l Hr Hadm; cbn; [by eexists|].
  destruct Hadm as [Hop Hadm]. destruct (wal_step_ok _ _ _ Hr Hop) as (w1&r&->&He&Hr1).
  destruct (IH _ _ Hr1 Hadm) as (w2&Hw2&Hr2). rewrite Hw2, He.
  destruct (spec_step l op) as [l1 e1]. cbn in *. destruct (spec_run l1 ops). by eexists.
Qed.
Definition empty_log : Log := MkLog zero_state [].
Lemma open_empty : ∃ w, Open (NewFileWAL ∅) = (w, Ok tt) ∧ represents w empty_log.
Proof.
  assert (Hf : files_ok ∅ []) by (split; [by intros c ?%elem_of_nil|by intros n d ?%lookup_empty_Some]).
  assert (Hs : state_stored ∅ zero_state) by (split; [done|by rewrite lookup_empty]).
  eexists. split; [apply (Open_ok _ _ [] (files_ok_loadable _ _ chunks_ok_nil Hf) Hs)|].
  split_and!; [|done|done]. exists []. split_and!; try done. apply chunks_ok_nil.
Qed.

(** C6: [FileWAL] keeps its promise to a raft client: a log opened on an empty directory and then driven by any
    [admissible] sequence of calls - truncations, syncs, restarts, and appends whose entries are contiguous, fit
    a record and do not start before the first stored entry, overlapping ones and ones with a gap
    included - answers every call, and finally [Load], exactly as the specification does: so nothing that was
    appended is lost or reordered by segment rolling, tail rewriting, prefix truncation or
    reopening.  An append that starts before the first stored entry is not covered ([stale_append_dropped]). *)
Theorem wal_refines_log ops : admissible_run empty_log ops →
  ∃ w0 w, Open (NewFileWAL ∅) = (w0, Ok tt) ∧ wal_run w0 ops = (w, (spec_run empty_log ops).2) ∧
    Load w = (w, Ok (l_state (spec_run empty_log ops).1, l_entries (spec_run empty_log ops).1)).
Proof.
  intros Hadm. destruct open_empty as (w0&Ho&Hr0). destruct (wal_run_ok _ _ _ Hr0 Hadm) as (w&Hw&(Hinv&Hst&Hen)).
  exists w0, w. split_and!; [done|done|]. unfold Load. rewrite get_bind.
  destruct Hinv as (cs&->&_). by rewrite Hst, Hen.
Qed.
End wal.
Abbreviation chunk := (Z * list Entry)%type.

(** ** A concrete codec *)
#[export] Instance HardState_countable : Countable HardState :=
  inj_countable' (λ s, (hs_Term s, hs_Vote s, hs_Commit s)) (λ '(a, b, c), MkHardState a b c) ltac:(by intros []).
#[export] Instance EntryType_countable : Countable EntryType :=
  inj_countable' (λ t, match t with EntryNormal => 0 | EntryConfChange => 1 | EntryConfChangeV2 => 2 end)
    (λ n, match n with 0 => EntryNormal | 1 => EntryConfChange | _ => EntryConfChangeV2 end) ltac:(by intros []).
#[export] Instance Entry_countable : Countable Entry :=
  inj_countable' (λ e, (e_Index e, e_Term e, e_Type e, e_Data e)) (λ '(a, b, c, d), MkEntry a b c d) ltac:(by intros []).
Definition bits_raftpb : Raftpb := {|
  marshal_state s := Some (bits_marshal (byte 1) s);
  unmarshal_state := bits_unmarshal (byte 1);
  marshal_entry e := Some (bits_marshal (byte 2) e);
  unmarshal_entry := bits_unmarshal (byte 2);
  marshal_state_ok s _ := ex_intro _ _ (conj eq_refl (bits_roundtrip (byte 1) s));
  marshal_entry_ok e _ := ex_intro _ _ (conj eq_refl (bits_roundtrip (byte 2) e))
|}.
Definition sample (i t : Z) : Entry := MkEntry i t EntryNormal (lit "x").
Definition sample_ops : list WalOp :=
  [SAppend (MkHardState 1 1 0) [sample 1 1; sample 2 1; sample 3 1]; SReopen;
   SAppend (MkHardState 2 2 1) [sample 2 2; sample 3 2]; STruncate 2; SReopen;
   SAppend (MkHardState 0 0 0) [sample 9 2]].
(** Behind a truncated prefix an append that starts before the first segment is answered with
    success, and its entries before that segment are dropped. *)
Definition stale_ops : list WalOp :=
  [SAppend (MkHardState 1 1 0) [sample 1 1; sample 2 1; sample 3 1; sample 4 1; sample 5 1]; STruncate 4;
   SAppend (MkHardState 2 1 0) [sample 3 2; sample 4 2]].
Theorem stale_append_dropped :
  let w0 := (@Open bits_raftpb (NewFileWAL ∅)).1 in
  let '(w, errs) := @wal_run bits_raftpb w0 stale_ops in
  errs = [None; None; None] ∧ (Load w).2 = Ok (MkHardState 2 1 0, [sample 4 2]) ∧
  l_entries (spec_run empty_log stale_ops).1 = [sample 3 2; sample 4 2].
Proof. vm_compute. by split_and!. Qed.
Lemma wal_refines_log_witness :
  @admissible_run bits_raftpb empty_log sample_ops ∧
  ∃ w0 w, @Open bits_raftpb (NewFileWAL ∅) = (w0, Ok tt) ∧
    @wal_run bits_raftpb w0 sample_ops = (w, [None; None; None; None; None; Some (ErrGap 9 3)]) ∧
    Load w = (w, Ok (MkHardState 2 2 1, [sample 2 2; sample 3 2])).
Proof.
  assert (Hadm : @admissible_run bits_raftpb empty_log sample_ops).
  { apply (bool_decide_eq_true_1 _). vm_compute. reflexivity. }
  split; [done|]. exact (@wal_refines_log bits_raftpb sample_ops Hadm).
Defined.
