(* ===== verification/WalCrash.v ===== *)
(** * What a crash leaves of the write-ahead log

    The process may die between two system calls or in the middle of a write.  [Open]
    then either recovers the old log with a prefix of what was being appended, or
    refuses the directory because of a record without its end. *)
From Stdlib Require Import Ascii ZArith Sorted.
From stdpp Require Import gmap strings list sorting.
From S2P Require Import Prelude GoStrings Codec Files Wal WalLog.

Section wal.
Context `{Raftpb}.
#[local] Arguments PutUint32 : simpl never.
#[local] Arguments record_of : simpl never.
#[local] Arguments file_of : simpl never.

(** A crash while a record is written leaves a prefix of the record. *)
Lemma crash_record f p e content g :
  f !! p = Some content → crash f (record_ops p e) g →
  ∃ t, t `prefix_of` record_of e ∧ ∀ n, g !! n = if decide (n = p) then Some (content ++ t) else f !! n.
Proof.
  intros Hp Hc. set (d := default [] (marshal_entry e)). set (h := PutUint32 (Z.of_nat (length d))).
  assert (Happ : ∀ t n, fs_exec f (FAppend p t) !! n = if decide (n = p) then Some (content ++ t) else f !! n).
  { intros t n. cbn. destruct (decide (n = p)) as [->|]; [by rewrite lookup_alter_eq, Hp|by rewrite lookup_alter_ne]. }
  assert (Happ2 : ∀ t n, fs_exec (fs_exec f (FAppend p h)) (FAppend p t) !! n =
     if decide (n = p) then Some (content ++ h ++ t) else f !! n).
  { intros t n. cbn [fs_exec]. destruct (decide (n = p)) as [->|].
    - rewrite !lookup_alter_eq, Hp. cbn. by rewrite <-app_assoc.
    - by rewrite !lookup_alter_ne. }
  assert (Hr : record_of e = h ++ d) by done. rewrite Hr.
  apply crash_cons in Hc as [->|[Hc|(n&d1&d'&[= <- <-]&Hd'&->)]].
  - exists []. split; [apply prefix_nil|]. intros n. rewrite app_nil_r. by destruct (decide (n = p)) as [->|].
  - apply crash_cons in Hc as [->|[->%crash_nil|(n&d1&d'&[= <- <-]&Hd'&->)]].
    + exists h. split; [by apply prefix_app_r|]. apply Happ.
    + exists (h ++ d). split; [done|]. apply Happ2.
    + exists (h ++ d'). split; [by apply prefix_app|]. apply Happ2.
  - exists d'. split; [by apply prefix_app_r|]. apply Happ.
Qed.
(** A record without its end. *)
Lemma readSegment_short es e t :
  Forall storable es → storable e → t `prefix_of` record_of e → 4 ≤ length t < length (record_of e) →
  readSegment (file_of es ++ t) = Err ErrShortRecord.
Proof.
  intros Hes [_ He] [u Hu] Ht. unfold readSegment. pose proof (length_file_of es).
  rewrite read_file_of by (done || (rewrite length_app; lia)).
  assert (E : read_records (S (length (file_of es ++ t)) - length es) t = Err ErrShortRecord); [|by rewrite E].
  destruct (_ - _) as [|fuel] eqn:Ef; [rewrite length_app in Ef; lia|]. cbn [read_records].
  rewrite (proj2 (Nat.ltb_ge _ _)) by lia.
  unfold record_of, frame in Hu. set (d := default [] (marshal_entry e)) in *. set (h := PutUint32 _) in *.
  assert (Hh : length h = 4) by apply length_be_bytes.
  assert (take 4 t = h) as ->.
  { apply (f_equal (take 4)) in Hu. rewrite take_app_le, take_app_le in Hu by lia. rewrite <-Hu. by apply take_ge; lia. }
  unfold h. rewrite PutUint32_value, Nat2Z.id by lia.
  assert (Hlen : length (record_of e) = 4 + length d) by (unfold record_of, frame; rewrite length_app; fold d h; lia).
  by rewrite (proj2 (Nat.ltb_lt _ _)) by (rewrite length_drop; lia).
Qed.
(** [Open] refuses a directory with such a segment. *)
Definition readable (content : str) : Prop := is_ok (readSegment content).
Definition refuses (f : files) : Prop :=
  (∀ n d, f !! n = Some d → HasSuffix n dot_wal = true → readable d ∨ readSegment d = Err ErrShortRecord) ∧
  ∃ n d, f !! n = Some d ∧ HasSuffix n dot_wal = true ∧ readSegment d = Err ErrShortRecord.
Lemma refuses_fold f names acc :
  (∀ n, n ∈ names → ∃ d, f !! n = Some d ∧ (readable d ∨ readSegment d = Err ErrShortRecord)) →
  (∃ n d, n ∈ names ∧ f !! n = Some d ∧ readSegment d = Err ErrShortRecord) →
  foldM (load_segment f) acc names = Err ErrShortRecord.
Proof.
  revert acc; induction names as [|n names IH]; intros acc Hall (m&d&Hm&Hd&Hs); [by apply elem_of_nil in Hm|].
  destruct (Hall n) as (dn&Hdn&Hrn); [by left|]. cbn [foldM].
  destruct Hrn as [[es Hes]|Hes].
  2: { assert (load_segment f acc n = Err ErrShortRecord) as -> by (unfold load_segment; by rewrite Hdn, Hes). done. }
  assert (load_segment f acc n = if bool_decide (es = []) then Ok acc else Ok (acc.1 ++ es, acc.2 ++ [segment_of n es])) as ->
    by (unfold load_segment; by rewrite Hdn, Hes).
  assert (Hgo : ∀ acc', foldM (load_segment f) acc' names = Err ErrShortRecord).
  { intros acc'. apply IH; [intros; apply Hall; by right|]. exists m, d. split; [|done].
    apply elem_of_cons in Hm as [->|Hm]; [congruence|done]. }
  case_bool_decide; apply Hgo.
Qed.
Lemma refuses_open f s : state_stored f s → refuses f → Open (NewFileWAL f) = (NewFileWAL f, Err ErrShortRecord).
Proof.
  intros Hs [Hall (m&d&Hm&Hw&Hd)]. unfold Open. rewrite get_bind. cbn [NewFileWAL w_opened].
  rewrite (do_bind _ _ _ _ _ (loadState_ok (NewFileWAL f) s Hs)).
  assert (loadEntries (NewFileWAL f) = (NewFileWAL f, Err ErrShortRecord)) as E.
  { unfold loadEntries. rewrite get_bind. unfold st_lift. cbn [w_files NewFileWAL]. f_equal. apply refuses_fold.
    - intros n Hn. apply sorted_names_elem in Hn as [dn Hn]. unfold glob_suffix in Hn.
      apply map_lookup_filter_Some in Hn as [Hn Hwn]. exists dn. split; [done|]. by eapply Hall.
    - exists m, d. split_and!; [|done|done]. apply sorted_names_elem. rewrite glob_lookup by done. by exists d. }
  apply (st_bind_err _ _ _ _ _ E).
Qed.

(** ** Crashes of an append *)
Definition recovers (f : files) (es : list Entry) : Prop := ∃ cs, loadable f cs ∧ entries_of cs = es.
Lemma loadable_agree f g cs : (∀ n, HasSuffix n dot_wal = true → g !! n = f !! n) → loadable f cs → loadable g cs.
Proof.
  intros Hfg (?&?&?&Hf&Hj). split_and!; try done.
  - intros c Hc. rewrite Hfg by apply segment_name_suffix. by apply Hf.
  - intros n d Hn Hw. rewrite Hfg in Hn by done. eauto.
Qed.
(** The segments [cs] are intact, the file of segment [id] has the given content, other
    segment files hold no record. *)
Definition tail_state (g : files) (cs : list chunk) (id : Z) (content : str) : Prop :=
  (∀ c, c ∈ cs → g !! segment_name c.1 = Some (file_of c.2)) ∧ g !! segment_name id = Some content ∧
  (∀ n d, g !! n = Some d → HasSuffix n dot_wal = true → n ∉ names_of cs → n ≠ segment_name id → length d < 4).
Lemma tail_refuses g cs id es e t :
  Forall storable (entries_of cs) → Forall storable es → storable e → t `prefix_of` record_of e →
  4 ≤ length t < length (record_of e) → tail_state g cs id (file_of es ++ t) → refuses g.
Proof.
  intros Hcs Hes He Ht Hl (Hin&Hid&Hj). split.
  - intros n d Hn Hw. destruct (decide (n = segment_name id)) as [->|Hne].
    { rewrite Hid in Hn. injection Hn as <-. right. by apply (readSegment_short _ e). }
    left. destruct (decide (n ∈ names_of cs)) as [Hi|Hni].
    + apply names_of_elem in Hi as (c&Hc&->). rewrite Hin in Hn by done. injection Hn as <-. exists c.2.
      rewrite <-(app_nil_r (file_of c.2)). apply readSegment_file; [by apply (chunk_storable cs)|cbn; lia].
    + exists []. unfold readSegment. by rewrite read_short by (by eapply Hj).
  - exists (segment_name id), (file_of es ++ t). split_and!; [done|apply segment_name_suffix|].
    by apply (readSegment_short _ e).
Qed.
Lemma tail_loadable g cs id es t :
  chunks_ok (cs ++ [(id, es)]) → length t < 4 → tail_state g cs id (file_of es ++ t) → loadable g (cs ++ [(id, es)]).
Proof.
  intros (?&?&_&?) Ht (Hin&Hid&Hj). split_and!; try done.
  - intros c [Hc| ->%list_elem_of_singleton]%elem_of_app; [|by exists t].
    exists []. rewrite app_nil_r. split; [cbn; lia|by apply Hin].
  - intros n d Hn Hw Hni. rewrite names_of_app in Hni. apply not_elem_of_app in Hni as [Hn1 Hn2].
    eapply Hj; [done|done|done|]. intros ->. apply Hn2. by left.
Qed.
Lemma tail_loadable_junk g cs id t : chunks_ok cs → length t < 4 → tail_state g cs id t → loadable g cs.
Proof.
  intros (?&?&_&?) Ht (Hin&Hid&Hj). split_and!; try done.
  - intros c Hc. exists []. rewrite app_nil_r. split; [cbn; lia|by apply Hin].
  - intros n d Hn Hw Hni. destruct (decide (n = segment_name id)) as [->|?]; [|by eapply Hj]. by simplify_eq.
Qed.
Lemma prefix_full (t r : str) : t `prefix_of` r → length r ≤ length t → t = r.
Proof.
  intros [u ->] Hl. rewrite length_app in Hl. destruct u; [by rewrite app_nil_r|cbn in Hl; lia].
Qed.
Lemma step_crash f cs e ops cs' g :
  append_step cs e ops cs' → chunks_ok cs → files_ok f cs → log_ok (entries_of cs ++ [e]) → storable e →
  crash f ops g → recovers g (entries_of cs) ∨ recovers g (entries_of cs ++ [e]) ∨ refuses g.
Proof.
  intros Hstep Hcs Hf Hlog He Hc. destruct (step_chunks _ _ _ _ Hstep Hcs Hlog He) as [Hcs' Hen'].
  assert (Hnd : NoDup (names_of cs')) by (by apply chunks_nodup).
  (* the content of the last file: the entries [es] and a prefix of the record *)
  assert (Htail : ∀ cs0 id es t, cs' = cs0 ++ [(id, es ++ [e])] → t `prefix_of` record_of e → Forall storable es →
    Forall storable (entries_of cs0) → tail_state g cs0 id (file_of es ++ t) → 4 ≤ length t →
    recovers g (entries_of cs ++ [e]) ∨ refuses g).
  { intros cs0 id es t E Ht Hes Hcs0 Hts Hl. destruct (decide (length t < length (record_of e))) as [Hm|Hfull].
    - right. by apply (tail_refuses g cs0 id es e t).
    - left. exists cs'. split; [|done]. rewrite E in Hcs' |- *. apply (tail_loadable _ _ _ _ []); [done|cbn; lia|].
      rewrite (prefix_full t (record_of e)) in Hts by (done || lia).
      by rewrite app_nil_r, file_of_app, file_of_one. }
  destruct Hstep as [cs0 id es ->|id Hids Hr].
  - assert (Hfile : f !! segment_name id = Some (file_of es)) by (apply (proj1 Hf (id, es)), elem_of_app; right; by left).
    destruct (crash_record _ _ _ _ _ Hfile Hc) as (t&Ht&Hg).
    rewrite names_of_app in Hnd. apply NoDup_app in Hnd as (_&Hnd&_).
    assert (Hts : tail_state g cs0 id (file_of es ++ t)).
    { split_and!.
      - intros c Hcc. rewrite Hg, decide_False; [apply (proj1 Hf), elem_of_app; by left|].
        intros E. apply (Hnd (segment_name c.1)); [apply names_of_elem; by exists c|]. rewrite E. by left.
      - by rewrite Hg, decide_True.
      - intros n d Hn Hw Hni Hne. rewrite Hg, decide_False in Hn by done. eapply (proj2 Hf); [done|done|].
        rewrite map_app. apply not_elem_of_app. split; [done|]. by intros ?%list_elem_of_singleton. }
    destruct (decide (length t < 4)) as [Hs|Hl].
    + left. exists (cs0 ++ [(id, es)]). split; [|done]. by apply (tail_loadable _ _ _ _ t).
    + right. destruct Hcs as (_&_&_&Hst). rewrite entries_of_app, entries_of_one in Hst.
      apply Forall_app in Hst as [Hst1 Hst2]. apply (Htail cs0 id es t); try done. lia.
  - apply crash_cons in Hc as [->|[Hc|(n&d&d'&?&_)]]; [|cbn [fs_exec] in Hc|done].
    { left. exists cs. split; [by apply files_ok_loadable|done]. }
    destruct (crash_record _ _ _ _ _ (lookup_insert_eq f (segment_name id) []) Hc) as (t&Ht&Hg).
    rewrite names_of_app in Hnd. apply NoDup_app in Hnd as (_&Hnd&_).
    assert (Hts : tail_state g cs id t).
    { split_and!.
      - intros c Hcc. assert (segment_name c.1 ≠ segment_name id).
        { intros E. apply (Hnd (segment_name c.1)); [apply names_of_elem; by exists c|]. rewrite E. by left. }
        rewrite Hg, decide_False, lookup_insert_ne by done. by apply (proj1 Hf).
      - by rewrite Hg, decide_True.
      - intros n d Hn Hw Hni Hne. rewrite Hg, decide_False, lookup_insert_ne in Hn by done. by eapply (proj2 Hf). }
    destruct (decide (length t < 4)) as [Hs|Hl].
    + left. exists cs. split; [|done]. by apply (tail_loadable_junk _ _ id t).
    + right. apply (Htail cs id [] t); try done; [apply Hcs|]. lia.
Qed.
Lemma steps_crash f cs es ops cs' g :
  append_steps cs es ops cs' → chunks_ok cs → files_ok f cs → log_ok (entries_of cs ++ es) → Forall storable es →
  crash f ops g → (∃ k, recovers g (entries_of cs ++ take k es)) ∨ refuses g.
Proof.
  intros Hsteps. revert f g. induction Hsteps as [cs|cs e es ops1 cs1 ops2 cs2 Hstep Hsteps IH]; intros f g Hcs Hf Hlog Hes Hc.
  - apply crash_nil in Hc as ->. left. exists 0. exists cs. rewrite app_nil_r. split; [by apply files_ok_loadable|done].
  - apply Forall_cons in Hes as [He Hes].
    assert (Hlog1 : log_ok (entries_of cs ++ [e])) by (apply (log_ok_app_l _ es); by rewrite <-app_assoc).
    destruct (step_chunks _ _ _ _ Hstep Hcs Hlog1 He) as [Hcs1 Hen1].
    apply crash_app in Hc as [Hc|Hc].
    + destruct (step_crash _ _ _ _ _ _ Hstep Hcs Hf Hlog1 He Hc) as [Hr|[Hr|Hr]]; [left; exists 0|left; exists 1|by right].
      * by rewrite app_nil_r.
      * done.
    + assert (Hlog2 : log_ok (entries_of cs1 ++ es)) by (by rewrite Hen1, <-app_assoc).
      destruct (IH _ _ Hcs1 (step_files _ _ _ _ _ Hstep Hcs1 Hf) Hlog2 Hes Hc) as [[k Hk]|Hr]; [left|by right].
      exists (S k). by rewrite Hen1, <-app_assoc in Hk.
Qed.
Lemma persist_crash f d g : crash f (persist_ops d) g →
  (∀ n, HasSuffix n dot_wal = true → g !! n = f !! n) ∧
  (g !! stateFileName = f !! stateFileName ∨ g !! stateFileName = Some d).
Proof.
  assert (Hst : ∀ n, HasSuffix n dot_wal = true → n ≠ state_tmp).
  { intros n Hn ->. unfold state_tmp in Hn. by rewrite tmp_not_segment in Hn. }
  assert (Hns : stateFileName ≠ state_tmp) by done.
  assert (Hag : ∀ h : files, (∀ n, n ≠ state_tmp → h !! n = f !! n) →
    (∀ n, HasSuffix n dot_wal = true → h !! n = f !! n) ∧ (h !! stateFileName = f !! stateFileName ∨ h !! stateFileName = Some d)).
  { intros h Hh. split; [intros n Hn; by apply Hh, Hst|left; by apply Hh]. }
  intros Hc. unfold persist_ops in Hc.
  apply crash_cons in Hc as [->|[Hc|(?&?&?&?&_)]]; [by apply Hag| |done].
  apply crash_cons in Hc as [->|[Hc|(n&d1&d'&[= <- <-]&_&->)]].
  - apply Hag. intros n Hn. cbn [fs_exec]. by rewrite lookup_insert_ne.
  - apply crash_cons in Hc as [->|[->%crash_nil|(?&?&?&?&_)]]; [| |done].
    + apply Hag. intros n Hn. cbn [fs_exec]. by rewrite lookup_alter_ne, lookup_insert_ne.
    + pose proof (persist_files f d) as Hp. unfold fs_run, persist_ops in Hp. cbn [fold_left] in Hp. split.
      * intros n Hn. rewrite Hp, decide_False, decide_False; [done|by apply Hst|].
        intros ->. by rewrite state_not_segment in Hn.
      * right. by rewrite Hp, decide_True.
  - apply Hag. intros n Hn. cbn [fs_exec]. by rewrite lookup_alter_ne, lookup_insert_ne.
Qed.
(** The calls that [m] makes on [w]. *)
Definition syscalls (m : W unit) (w : FileWAL) : list FsOp := drop (length (w_trace w)) (w_trace (m w).1).
Lemma recovers_open f s es : state_stored f s → recovers f es →
  ∃ w, Open (NewFileWAL f) = (w, Ok tt) ∧ w_entries w = es ∧ w_state w = s.
Proof. intros Hs (cs&Hl&<-). eexists. split; [by apply (Open_ok _ s cs)|done]. Qed.
Lemma crash_on_segment f ops g n :
  Forall on_segment ops → HasSuffix n dot_wal = false → crash f ops g → g !! n = f !! n.
Proof.
  intros Hops Hn Hc. inversion Hc as [k E|k m d d' Hk Hp E]; subst.
  - apply on_segment_lookup; [by apply Forall_take|done].
  - rewrite Forall_forall in Hops. assert (Hm := Hops (FAppend m d) (list_elem_of_lookup_2 _ _ _ Hk)). cbn [on_segment fs_exec] in *.
    rewrite lookup_alter_ne by congruence. apply on_segment_lookup; [|done].
    apply Forall_take, Forall_forall. auto.
Qed.
Lemma contiguous_calls w st es :
  wal_inv w → state_ok st → log_ok es → Forall storable es →
  w_entries w = [] ∨ es = [] ∨ first_index es = next_index (w_entries w) →
  ∃ cs d ops cs', syscalls (Append st es) w = persist_ops d ++ ops ∧ w_entries w = entries_of cs ∧
    chunks_ok cs ∧ files_ok (w_files w) cs ∧ append_steps cs es ops cs' ∧ log_ok (entries_of cs ++ es) ∧
    unmarshal_state d = Some (next_state (w_state w) st) ∧ state_ok (next_state (w_state w) st) ∧
    state_stored (w_files w) (w_state w).
Proof.
  intros (cs&Hop&Hseg&Hent&Hcs&Hf&Hss) Hst Hlog Hes Hn. rewrite Hent in Hn. unfold syscalls.
  destruct (Append_persist w st es Hop (proj1 Hss) Hst) as (d&Hd&->).
  assert (Hst' : state_ok (next_state (w_state w) st)) by (unfold next_state; destruct isEmptyHardState; [apply Hss|done]).
  set (w1 := do_ops (persist_ops d) (set_state (next_state (w_state w) st) w)).
  destruct (decide (es = [])) as [->|Hne].
  - exists cs, d, [], cs. cbn. rewrite app_nil_r, drop_app_length. split_and!; try done; [constructor|apply Hcs].
  - destruct (append_contiguous_ok w1 cs es) as (Hm&w'&cs'&ops&->&Hh&Hsteps&Htr); try done; [by apply persist_files_ok|by destruct Hn as [?|[?|?]]; [left| |right]|].
    exists cs, d, ops, cs'. cbn [fst]. rewrite Htr. cbn [w1 do_ops w_trace set_state].
    rewrite <-app_assoc, drop_app_length. split_and!; try done.
    by destruct Hh as (_&_&_&_&(_&_&?&_)&<-&_).
Qed.

(** C15: a crash during an append of new entries, at any system call and inside any
    write, leaves a directory that either opens to the old log followed by a prefix
    of the entries being appended, with the new hard state if the prefix is not empty, or that
    [Open] refuses because of an incomplete record. *)
Theorem Append_crash w st es f :
  wal_inv w → state_ok st → log_ok es → Forall storable es →
  w_entries w = [] ∨ es = [] ∨ first_index es = next_index (w_entries w) →
  crash (w_files w) (syscalls (Append st es) w) f →
  (∃ w1 k, Open (NewFileWAL f) = (w1, Ok tt) ∧ w_entries w1 = w_entries w ++ take k es ∧
     (w_state w1 = next_state (w_state w) st ∨ k = 0 ∧ w_state w1 = w_state w)) ∨
  Open (NewFileWAL f) = (NewFileWAL f, Err ErrShortRecord).
Proof.
  intros Hinv Hst Hlog Hes Hn Hc.
  destruct (contiguous_calls w st es) as (cs&d&ops&cs'&Heq&Hen&Hcs&Hf&Hsteps&Hl&Hd&Hst'&Hss); [done..|].
  rewrite Heq in Hc. apply crash_app in Hc as [Hc|Hc].
  - left. apply persist_crash in Hc as [Hag Hsf].
    assert (Hr : recovers f (w_entries w)).
    { exists cs. split; [|done]. eapply loadable_agree, files_ok_loadable; done. }
    destruct Hsf as [Hsf|Hsf].
    + destruct (recovers_open f (w_state w) _ (state_stored_agree _ _ _ Hsf Hss) Hr) as (w1&?&?&?).
      exists w1, 0. rewrite app_nil_r. auto.
    + destruct (recovers_open f (next_state (w_state w) st) (w_entries w)) as (w1&?&?&?); [|done|].
      { split; [done|by rewrite Hsf]. }
      exists w1, 0. rewrite app_nil_r. auto.
  - assert (Hss1 : state_stored f (next_state (w_state w) st)).
    { eapply state_stored_agree; [|by apply (persist_state (w_files w) d)].
      eapply crash_on_segment; [by eapply steps_on_segment|done|done]. }
    destruct (steps_crash _ _ _ _ _ _ Hsteps Hcs (persist_files_ok _ d _ Hf) Hl Hes Hc) as [[k Hr]|Hr].
    + left. destruct (recovers_open _ _ _ Hss1 Hr) as (w1&?&?&?). exists w1, k. rewrite Hen. auto.
    + right. by eapply refuses_open.
Qed.
Lemma append_steps_one cs e ops cs' : append_steps cs [e] ops cs' → append_step cs e ops cs'.
Proof. intros Hs. inversion Hs as [|? ? ? o1 c1 o2 c2 H1 H2]; subst. inversion H2; subst. by rewrite app_nil_r. Qed.
(** The header of the record is on disk, its payload is not. *)
Lemma step_header f cs e ops cs' :
  append_step cs e ops cs' → chunks_ok cs → files_ok f cs → log_ok (entries_of cs ++ [e]) → storable e →
  default [] (marshal_entry e) ≠ [] → ∃ g, crash f ops g ∧ refuses g.
Proof.
  intros Hstep Hcs Hf Hlog He Hd. set (d := default [] (marshal_entry e)) in *. set (h := PutUint32 (Z.of_nat (length d))).
  assert (Hh : length h = 4) by apply length_be_bytes.
  assert (Ht : h `prefix_of` record_of e) by (by exists d).
  assert (Hlen : 4 ≤ length h < length (record_of e)).
  { unfold record_of, frame. fold d h. rewrite length_app. destruct d; [done|]. cbn [length]. lia. }
  destruct (step_chunks _ _ _ _ Hstep Hcs Hlog He) as [Hcs' _].
  assert (Hnd : NoDup (names_of cs')) by (by apply chunks_nodup).
  destruct Hstep as [cs0 id es ->|id Hids Hr]; rewrite names_of_app in Hnd; apply NoDup_app in Hnd as (_&Hnd&_).
  - exists (fs_run f (take 1 (record_ops (segment_name id) e))). split; [constructor|].
    assert (Hfile : f !! segment_name id = Some (file_of es)) by (apply (proj1 Hf (id, es)), elem_of_app; right; by left).
    destruct Hcs as (_&_&_&Hst). rewrite entries_of_app, entries_of_one in Hst. apply Forall_app in Hst as [Hst1 Hst2].
    apply (tail_refuses _ cs0 id es e h); try done. unfold fs_run. cbn [record_ops take fold_left fs_exec]. fold d h. split_and!.
    + intros c Hcc. rewrite lookup_alter_ne; [apply (proj1 Hf), elem_of_app; by left|].
      intros E. apply (Hnd (segment_name c.1)); [apply names_of_elem; by exists c|]. rewrite <-E. by left.
    + by rewrite lookup_alter_eq, Hfile.
    + intros n dn Hn Hw Hni Hne. rewrite lookup_alter_ne in Hn by done. eapply (proj2 Hf); [done|done|].
      rewrite map_app. apply not_elem_of_app. split; [done|]. by intros ?%list_elem_of_singleton.
  - exists (fs_run f (take 2 (FCreate (segment_name id) :: record_ops (segment_name id) e))). split; [constructor|].
    apply (tail_refuses _ cs id [] e h); try done; [apply Hcs|].
    unfold fs_run. cbn [record_ops take fold_left fs_exec]. fold d h. split_and!.
    + intros c Hcc. assert (segment_name id ≠ segment_name c.1).
      { intros E. apply (Hnd (segment_name c.1)); [apply names_of_elem; by exists c|]. rewrite <-E. by left. }
      rewrite lookup_alter_ne, lookup_insert_ne by done. by apply (proj1 Hf).
    + by rewrite lookup_alter_eq, lookup_insert_eq.
    + intros n dn Hn Hw Hni Hne. rewrite lookup_alter_ne, lookup_insert_ne in Hn by done. by eapply (proj2 Hf).
Qed.

(** The refusal is real: for every entry whose encoding is not empty there is a crash
    during its append - after the length prefix, before the payload - after which
    [Open] returns an error, and keeps returning it, since it changes nothing on disk. *)
Theorem Append_crash_refused w st e :
  wal_inv w → state_ok st → log_ok [e] → storable e → default [] (marshal_entry e) ≠ [] →
  w_entries w = [] ∨ e_Index e = next_index (w_entries w) →
  ∃ f, crash (w_files w) (syscalls (Append st [e]) w) f ∧ Open (NewFileWAL f) = (NewFileWAL f, Err ErrShortRecord).
Proof.
  intros Hinv Hst Hlog He Hd Hn.
  destruct (contiguous_calls w st [e]) as (cs&d&ops&cs'&Heq&Hen&Hcs&Hf&Hsteps&Hl&Hds&Hst'&Hss); try done.
  { by constructor. }
  { destruct Hn; auto. }
  destruct (step_header _ _ _ _ _ (append_steps_one _ _ _ _ Hsteps) Hcs (persist_files_ok _ d _ Hf) Hl He Hd) as (g&Hc&Hr).
  exists g. split; [rewrite Heq; by apply crash_extend|].
  apply (refuses_open _ (next_state (w_state w) st)); [|done].
  eapply state_stored_agree; [|by apply (persist_state (w_files w) d)].
  eapply crash_on_segment; [by eapply steps_on_segment|done|done].
Qed.

(** An append that overwrites a part of the log deletes whole segments before it writes
    them again: if the overlap starts inside a segment, a crash right after the deletion
    loses entries in front of the overlap, which were not to be overwritten. *)
Theorem rewriteTail_crash_loses w st es :
  wal_inv w → state_ok st → log_ok es → Forall storable es → es ≠ [] →
  (first_index (w_entries w) ≤ first_index es < next_index (w_entries w))%Z →
  Forall (λ s, sg_FirstIndex s ≠ first_index es) (w_segments w) →
  ∃ f w1 n, crash (w_files w) (syscalls (Append st es) w) f ∧ Open (NewFileWAL f) = (w1, Ok tt) ∧
    w_entries w1 = take n (w_entries w) ∧ (Z.of_nat n < first_index es - first_index (w_entries w))%Z.
Proof.
  intros (cs&Hop&Hseg&Hent&Hcs&Hf&Hss) Hst Hlog Hes Hne Ho Hins. rewrite Hent, Hseg in *.
  destruct (Append_persist w st es Hop (proj1 Hss) Hst) as (d&Hd&Happ).
  assert (Hst' : state_ok (next_state (w_state w) st)) by (unfold next_state; destruct isEmptyHardState; [apply Hss|done]).
  set (w1 := do_ops (persist_ops d) (set_state (next_state (w_state w) st) w)) in *.
  destruct (append_overlap_ok w1 cs es) as (w'&cs'&a&c&b&ops&Hap&Hh&->&Hfirst&Htr); try done; [by apply persist_files_ok|].
  set (f1 := fs_run (w_files w) (persist_ops d)).
  pose proof (remove_files_ok f1 _ _ (chunks_nodup _ Hcs) (persist_files_ok _ d _ Hf)) as Hfa.
  destruct (recovers_open (fs_run f1 (remove_ops (c :: b))) (next_state (w_state w) st) (entries_of a)) as (w2&Hopen&Hen2&_).
  { eapply state_stored_agree; [|by apply (persist_state (w_files w) d)].
    by apply on_segment_lookup; [apply remove_on_segment|]. }
  { exists a. split; [|done]. apply files_ok_loadable; [by apply (chunks_ok_app a (c :: b))|done]. }
  exists (fs_run f1 (remove_ops (c :: b))), w2, (length (entries_of a)). split_and!; [|done| |].
  - unfold syscalls. rewrite Happ, Hap. cbn [fst]. rewrite Htr. cbn [w1 do_ops w_trace set_state].
    rewrite <-app_assoc, drop_app_length. apply crash_extend. fold f1.
    rewrite <-(take_app_length (remove_ops (c :: b)) ops) at 2. constructor.
  - rewrite Hen2, entries_of_app. by rewrite take_app_length.
  - rewrite map_app in Hins. apply Forall_app in Hins as [_ Hins]. cbn [map] in Hins. apply Forall_cons in Hins as [Hc _].
    pose proof Hcs as (Hok&_). apply Forall_app in Hok as [_ Hok]. apply Forall_cons in Hok as [Hcok _].
    destruct c as [id l]. pose proof (entries_first a id l b (proj1 Hcok) (proj1 (proj2 (proj2 Hcs)))) as Hfi.
    cbn [seg_of sg_FirstIndex fst snd] in *. lia.
Qed.
End wal.

(** A log of three entries in one segment. *)
Definition sample_entries : list Entry := [sample 1 1; sample 2 1; sample 3 1].
Definition sample_wal : FileWAL :=
  (@Append bits_raftpb (MkHardState 1 1 0) sample_entries (@Open bits_raftpb (NewFileWAL ∅)).1).1.
Lemma sample_wal_ok : @wal_inv bits_raftpb sample_wal ∧ w_entries sample_wal = sample_entries ∧
  map sg_FirstIndex (w_segments sample_wal) = [1%Z].
Proof.
  destruct (@open_empty bits_raftpb) as (w0&Ho&(Hinv&_&Hen)). cbn in Hen.
  destruct (@Append_ok bits_raftpb w0 (MkHardState 1 1 0) sample_entries) as (w&Ha&Hi&_&_); [done| | | |by rewrite Hen|].
  - apply (bool_decide_eq_true_1 _). vm_compute. reflexivity.
  - apply (bool_decide_eq_true_1 _). vm_compute. reflexivity.
  - apply (bool_decide_eq_true_1 _). vm_compute. reflexivity.
  - split; [|split; vm_compute; reflexivity].
    unfold sample_wal. rewrite Ho. cbn [fst]. by rewrite Ha.
Qed.
Lemma sample_log_ok e : e ∈ [sample 4 1; sample 3 2] → log_ok [e].
Proof.
  intros [->|[->|[]%elem_of_nil]%elem_of_cons]%elem_of_cons; apply (bool_decide_eq_true_1 _); vm_compute; reflexivity.
Qed.
Lemma zero_state_ok : state_ok zero_state.
Proof. unfold state_ok, is_u64; cbn; lia. Qed.
#[local] Opaque sample_wal.
Lemma sample_storable e : e ∈ [sample 4 1; sample 2 2; sample 3 2] → @storable bits_raftpb e.
Proof.
  intros He. assert (Forall (@storable bits_raftpb) [sample 4 1; sample 2 2; sample 3 2]) as Hs.
  { apply (bool_decide_eq_true_1 _). vm_compute. reflexivity. }
  rewrite Forall_forall in Hs. by apply Hs.
Qed.
Lemma Append_crash_witness : let w := sample_wal in let st := zero_state in
  @wal_inv bits_raftpb w ∧ ∃ f, crash (w_files w) (@syscalls (@Append bits_raftpb st [sample 4 1]) w) f ∧
  ((∃ w1 k, @Open bits_raftpb (NewFileWAL f) = (w1, Ok tt) ∧ w_entries w1 = w_entries w ++ take k [sample 4 1] ∧
     (w_state w1 = next_state (w_state w) st ∨ k = 0 ∧ w_state w1 = w_state w)) ∨
   @Open bits_raftpb (NewFileWAL f) = (NewFileWAL f, Err ErrShortRecord)).
Proof.
  intros w st. destruct sample_wal_ok as (Hinv&Hen&_). split; [done|]. exists (w_files w). split; [apply crash_start|].
  apply (@Append_crash bits_raftpb w st [sample 4 1]); [exact Hinv|apply zero_state_ok|apply sample_log_ok; by left| | |apply crash_start].
  - constructor; [apply sample_storable; by left|constructor].
  - right; right. unfold w. by rewrite Hen.
Defined.
Lemma Append_crash_refused_witness : let w := sample_wal in
  @wal_inv bits_raftpb w ∧
  ∃ f, crash (w_files w) (@syscalls (@Append bits_raftpb zero_state [sample 4 1]) w) f ∧
    @Open bits_raftpb (NewFileWAL f) = (NewFileWAL f, Err ErrShortRecord).
Proof.
  intros w. destruct sample_wal_ok as (Hinv&Hen&_). split; [done|].
  apply (@Append_crash_refused bits_raftpb w zero_state (sample 4 1)); [exact Hinv|apply zero_state_ok|apply sample_log_ok; by left| | |].
  - apply sample_storable; by left.
  - by vm_compute.
  - right. unfold w. by rewrite Hen.
Defined.
Lemma rewriteTail_crash_loses_witness : let w := sample_wal in
  @wal_inv bits_raftpb w ∧ Forall (λ s, sg_FirstIndex s ≠ 3%Z) (w_segments w) ∧
  ∃ f w1 n, crash (w_files w) (@syscalls (@Append bits_raftpb zero_state [sample 3 2]) w) f ∧
    @Open bits_raftpb (NewFileWAL f) = (w1, Ok tt) ∧
    w_entries w1 = take n (w_entries w) ∧ (Z.of_nat n < 3 - first_index (w_entries w))%Z.
Proof.
  intros w. destruct sample_wal_ok as (Hinv&Hen&Hseg).
  assert (Hf : Forall (λ s, sg_FirstIndex s ≠ 3%Z) (w_segments w)).
  { apply Forall_forall. intros s Hs%(list_elem_of_fmap_2 sg_FirstIndex). unfold w in Hs.
    change (sg_FirstIndex <$> w_segments sample_wal) with (map sg_FirstIndex (w_segments sample_wal)) in Hs.
    rewrite Hseg in Hs. apply list_elem_of_singleton in Hs. rewrite Hs. done. }
  split; [done|]. split; [done|].
  apply (@rewriteTail_crash_loses bits_raftpb w zero_state [sample 3 2]); [exact Hinv|apply zero_state_ok|apply sample_log_ok; right; by left| |done| |exact Hf].
  - constructor; [apply sample_storable; by right; right; left|constructor].
  - unfold w. rewrite Hen. unfold next_index; cbn; lia.
Defined.
