(* ===== verification/Engine.v ===== *)
(** * The key-value engine interface

    Pebble is third-party code.  The class states the part of its documented
    behaviour the store relies on: a database denotes a finite map from byte strings to
    byte strings, a committed batch applies all its operations in order or none, and
    an iterator visits the bindings of its bounds in byte order.  Every call may
    fail.  [memory_engine] is an instance. *)
From Stdlib Require Import Ascii ZArith Sorted.
From stdpp Require Import gmap strings list sorting.
From S2P Require Import Prelude GoStrings.

(** ** Ordered listings of a map *)
Definition key_le (a b : str * str) : Prop := str_le a.1 b.1.
Definition key_lt (a b : str * str) : Prop := str_lt a.1 b.1.
#[export] Instance key_le_dec : RelDecision key_le := λ a b, decide (str_le a.1 b.1).
#[export] Instance key_le_total : Total key_le.
Proof. intros a b. unfold key_le. apply (total str_le). Qed.
#[export] Instance key_le_trans : Transitive key_le.
Proof. intros a b c. unfold key_le. apply (transitivity (R := str_le)). Qed.
#[export] Instance key_lt_trans : Transitive key_lt.
Proof. intros a b c. unfold key_lt. apply (transitivity (R := str_lt)). Qed.

Definition sorted_items (m : gmap str str) : list (str * str) := merge_sort key_le (map_to_list m).
(** Iterator bounds; an empty bound is no bound. *)
Definition in_range (lower upper k : str) : Prop :=
  (lower = [] ∨ str_le lower k) ∧ (upper = [] ∨ str_lt k upper).
#[export] Instance in_range_dec lower upper k : Decision (in_range lower upper k) := _.
Definition range_items (m : gmap str str) (lower upper : str) : list (str * str) :=
  filter (λ kv : str * str, in_range lower upper kv.1) (sorted_items m).

Lemma sorted_items_perm m : sorted_items m ≡ₚ map_to_list m.
Proof. apply merge_sort_Permutation. Qed.
Lemma sorted_items_elem m k v : (k, v) ∈ sorted_items m ↔ m !! k = Some v.
Proof. by rewrite sorted_items_perm, elem_of_map_to_list. Qed.
Lemma strict_sorted (l : list (str * str)) :
  NoDup l.*1 → StronglySorted key_le l → StronglySorted key_lt l.
Proof.
  intros Hnd Hs. induction Hs as [|a l Hs IH Hall]; [constructor|].
  cbn in Hnd. apply NoDup_cons in Hnd as [Hna Hnd]. constructor; [by apply IH|].
  rewrite Forall_forall in *. intros b Hb. specialize (Hall b Hb).
  apply str_le_lteq in Hall as [?|He]; [done|]. destruct Hna. rewrite He. by apply list_elem_of_fmap_2.
Qed.
Lemma sorted_items_sorted m : StronglySorted key_lt (sorted_items m).
Proof.
  apply strict_sorted.
  - rewrite sorted_items_perm. apply NoDup_fst_map_to_list.
  - apply (StronglySorted_merge_sort key_le).
Qed.
Lemma range_items_elem m lower upper k v :
  (k, v) ∈ range_items m lower upper ↔ m !! k = Some v ∧ in_range lower upper k.
Proof. unfold range_items. rewrite list_elem_of_filter, sorted_items_elem. cbn. naive_solver. Qed.
Lemma range_items_sorted m lower upper : StronglySorted key_lt (range_items m lower upper).
Proof. apply StronglySorted_filter, sorted_items_sorted. Qed.
(** A strictly sorted list is determined by its elements. *)
Lemma sorted_unique (l1 l2 : list (str * str)) :
  StronglySorted key_lt l1 → StronglySorted key_lt l2 → (∀ x, x ∈ l1 ↔ x ∈ l2) → l1 = l2.
Proof.
  intros Hs1. revert l2. induction Hs1 as [|a l1 Hs1 IH Ha]; intros l2 Hs2 Heq.
  - destruct l2 as [|b l2]; [done|]. specialize (Heq b). set_solver.
  - destruct Hs2 as [|b l2 Hs2 Hb]; [specialize (Heq a); set_solver|].
    rewrite Forall_forall in Ha, Hb.
    assert (a = b) as ->.
    { assert (a ∈ b :: l2) as H1 by (apply Heq; left). assert (b ∈ a :: l1) as H2 by (apply Heq; left).
      apply elem_of_cons in H1 as [?|H1]; [done|]. apply elem_of_cons in H2 as [?|H2]; [done|].
      destruct (str_lt_asym a.1 b.1); [by apply Ha|by apply Hb]. }
    f_equal. apply IH; [done|]. intros x. specialize (Heq x). rewrite !elem_of_cons in Heq.
    split; intros Hx.
    + destruct (proj1 Heq (or_intror Hx)) as [->|?]; [|done]. by destruct (str_lt_irrefl b.1); apply Ha.
    + destruct (proj2 Heq (or_intror Hx)) as [->|?]; [|done]. by destruct (str_lt_irrefl b.1); apply Hb.
Qed.
Lemma sorted_keys_nodup (l : list (str * str)) : StronglySorted key_lt l → NoDup l.*1.
Proof.
  induction 1 as [|a l Hs IH Ha]; [constructor|]. cbn. apply NoDup_cons. split; [|done].
  intros ([k v]&Hk&Hin)%list_elem_of_fmap. rewrite Forall_forall in Ha. specialize (Ha _ Hin).
  unfold key_lt in Ha. cbn in *. subst. by apply str_lt_irrefl in Ha.
Qed.

(** ** Prefixes as ranges

    [[p, p ++ "\xff")] holds the extensions of [p] whose next byte is not 0xFF. *)
Definition byte_ff : ascii := byte 255.
Lemma bval_le_ff c : (bval c ≤ 255)%N.
Proof. unfold bval. pose proof (N_ascii_bounded c). lia. Qed.
Lemma prefix_range p k :
  str_le p k ∧ str_lt k (p ++ [byte_ff]) ↔
  HasPrefix k p = true ∧ match drop (length p) k with c :: _ => c ≠ byte_ff | [] => True end.
Proof.
  rewrite HasPrefix_spec. split.
  - intros [Hle Hlt]. assert (∃ t, k = p ++ t) as [t ->].
    { revert k Hle Hlt. induction p as [|c p IH]; intros k Hle Hlt; [by exists k|].
      destruct k as [|d k]; [done|].
      cbn in Hlt. apply str_lt_cons in Hlt. apply str_le_lteq in Hle as [Hle|[= <- <-]]; [|by exists []; rewrite app_nil_r].
      apply str_lt_cons in Hle. destruct Hle as [?|[-> Hle]].
      - destruct Hlt as [?|[-> ?]]; lia.
      - destruct Hlt as [?|[_ Hlt]]; [lia|].
        destruct (IH k) as [t ->]; [by apply str_lt_le|done|]. by exists t. }
    split; [by exists t|]. rewrite drop_app_length. apply str_lt_app_l in Hlt.
    destruct t as [|c t]; [done|]. apply str_lt_cons in Hlt as [?|[_ ?%str_lt_nil_r]]; [|done].
    intros ->. lia.
  - intros [[t ->] Ht]. rewrite drop_app_length in Ht. rewrite <-(app_nil_r p) at 1.
    rewrite str_le_app_l, str_lt_app_l. split; [apply str_le_nil|].
    destruct t as [|c t]; [done|]. apply str_lt_cons. left.
    pose proof (bval_le_ff c). assert (bval c ≠ bval byte_ff) by (by intros ?%bval_inj).
    change (bval byte_ff) with 255%N in *. lia.
Qed.

(** ** Batches *)
Inductive BatchOp := BSet (key value : str) | BDelete (key : str) | BDeleteRange (start end_ : str).
Definition apply_op (m : gmap str str) (op : BatchOp) : gmap str str :=
  match op with
  | BSet k v => <[k := v]> m
  | BDelete k => delete k m
  | BDeleteRange s e => filter (λ kv, ¬ (str_le s kv.1 ∧ str_lt kv.1 e)) m
  end.
Definition apply_batch (m : gmap str str) (ops : list BatchOp) : gmap str str := fold_left apply_op ops m.

Class PebbleEngine := {
  DB : Type;
  PebbleErr : Type;
  contents : DB → gmap str str;
  pebble_open : DB → result PebbleErr DB;
  (** [None] is [pebble.ErrNotFound]. *)
  pebble_get : DB → str → result PebbleErr (option str);
  batch_add : list BatchOp → BatchOp → result PebbleErr (list BatchOp);
  pebble_commit : DB → list BatchOp → DB * option PebbleErr;
  (** What [NewIter], [First], [Next]... visit, and the error of the iterator. *)
  pebble_iter : DB → str → str → result PebbleErr (list (str * str) * option PebbleErr);
  pebble_open_ok db db' : pebble_open db = Ok db' → contents db' = contents db;
  pebble_get_ok db k v : pebble_get db k = Ok v → v = contents db !! k;
  batch_add_ok ops op ops' : batch_add ops op = Ok ops' → ops' = ops ++ [op];
  pebble_commit_ok db ops db' : pebble_commit db ops = (db', None) → contents db' = apply_batch (contents db) ops;
  pebble_commit_atomic db ops db' e : pebble_commit db ops = (db', Some e) →
    contents db' = contents db ∨ contents db' = apply_batch (contents db) ops;
  pebble_iter_prefix db l u items e :
    pebble_iter db l u = Ok (items, e) → items `prefix_of` range_items (contents db) l u;
  pebble_iter_ok db l u items : pebble_iter db l u = Ok (items, None) → items = range_items (contents db) l u
}.

(** An engine in memory that never fails. *)
#[refine] Definition memory_engine : PebbleEngine := {|
  DB := gmap str str; PebbleErr := Empty_set; contents m := m;
  pebble_open m := Ok m; pebble_get m k := Ok (m !! k);
  batch_add ops op := Ok (ops ++ [op]); pebble_commit m ops := (apply_batch m ops, None);
  pebble_iter m l u := Ok (range_items m l u, None)
|}.
Proof. all: by intros; simplify_eq. Defined.

Lemma apply_batch_app m ops1 ops2 : apply_batch m (ops1 ++ ops2) = apply_batch (apply_batch m ops1) ops2.
Proof. apply fold_left_app. Qed.
Lemma apply_deletes m ks k :
  apply_batch m (BDelete <$> ks) !! k = if decide (k ∈ ks) then None else m !! k.
Proof.
  revert m. induction ks as [|k' ks IH]; intros m; cbn [fmap list_fmap apply_batch fold_left].
  - by rewrite decide_False by set_solver.
  - fold (apply_batch (apply_op m (BDelete k')) (BDelete <$> ks)). rewrite IH. cbn [apply_op].
    destruct (decide (k ∈ ks)); [by rewrite decide_True by set_solver|].
    destruct (decide (k = k')) as [->|]; [by rewrite decide_True, lookup_delete_eq by set_solver|].
    by rewrite lookup_delete_ne, decide_False by set_solver.
Qed.
Lemma apply_sets m (items : list (str * str)) k :
  NoDup items.*1 →
  apply_batch m ((λ kv, BSet kv.1 kv.2) <$> items) !! k =
  match (list_to_map items : gmap str str) !! k with Some v => Some v | None => m !! k end.
Proof.
  revert m. induction items as [|[k' v'] items IH]; intros m Hnd; [done|].
  cbn in Hnd. apply NoDup_cons in Hnd as [Hk' Hnd].
  cbn [fmap list_fmap apply_batch fold_left list_to_map foldr fst snd].
  fold (apply_batch (apply_op m (BSet k' v')) ((λ kv, BSet kv.1 kv.2) <$> items)). rewrite IH by done.
  cbn [apply_op]. destruct (decide (k = k')) as [->|].
  - rewrite (not_elem_of_list_to_map_1 items k') by done. cbn. by rewrite !lookup_insert_eq.
  - cbn. by rewrite !lookup_insert_ne by done.
Qed.
