(* ===== verification/StateMachine.v ===== *)
(** * The replicated state machine ([internal/storage/state_machine.go])

    Commands, the specification of what a command does to the key space, the
    interface a state machine offers to the raft node, and the in-memory machine. *)
From Stdlib Require Import Ascii ZArith Sorted.
From stdpp Require Import gmap strings list sorting countable.
From S2P Require Import Prelude GoStrings Codec Engine.

(** [Operation] is a string; an unknown one is kept. *)
Inductive Operation := OperationPut | OperationDelete | OperationDeletePrefix | OperationOther (raw : str).
Record Command := MkCommand {
  cmd_Operation : Operation; cmd_Key : str; cmd_Value : str; cmd_Prefix : str
}.
Record KV := MkKV { kv_Key : str; kv_Value : str }.
Record MemberAddress := MkMember {
  ma_NodeID : Z; ma_HTTPAddr : str; ma_GRPCAddr : str; ma_AdminAddr : str
}.
#[export] Instance Operation_eq_dec : EqDecision Operation.
Proof. solve_decision. Defined.
#[export] Instance Command_eq_dec : EqDecision Command.
Proof. solve_decision. Defined.
#[export] Instance KV_eq_dec : EqDecision KV.
Proof. solve_decision. Defined.
#[export] Instance MemberAddress_eq_dec : EqDecision MemberAddress.
Proof. solve_decision. Defined.
#[export] Instance KV_countable : Countable KV.
Proof.
  refine (inj_countable' (λ x, (kv_Key x, kv_Value x)) (λ p, MkKV p.1 p.2) _). by intros [].
Defined.
#[export] Instance MemberAddress_countable : Countable MemberAddress.
Proof.
  refine (inj_countable' (λ x, (ma_NodeID x, ma_HTTPAddr x, ma_GRPCAddr x, ma_AdminAddr x))
            (λ p, MkMember p.1.1.1 p.1.1.2 p.1.2 p.2) _). by intros [].
Defined.
Definition to_kv (p : str * str) : KV := MkKV p.1 p.2.

(** ** Specification: the effect of a command on the key space *)
Definition spec_apply (m : gmap str str) (cmd : Command) : gmap str str :=
  match cmd_Operation cmd with
  | OperationPut => <[cmd_Key cmd := cmd_Value cmd]> m
  | OperationDelete => delete (cmd_Key cmd) m
  | OperationDeletePrefix => filter (λ kv, HasPrefix kv.1 (cmd_Prefix cmd) = false) m
  | OperationOther _ => m
  end.
(** The first [limit] items of a listing ([limit ≤ 0]: all). *)
Definition limited {A} (limit : Z) (l : list A) : list A :=
  if (0 <? limit)%Z then take (Z.to_nat limit) l else l.
Definition spec_scan (m : gmap str str) (start end_ : str) (limit : Z) : list KV :=
  limited limit (to_kv <$> range_items m start end_).

(** ** The interface the raft node uses *)
Class StateMachine (S E : Type) := {
  sm_view : S → gmap str str;
  sm_admissible : S → Command → Prop;
  sm_Apply : S → Command → S * result E Z;
  sm_Get : S → str → result E str;
  sm_Scan : S → str → str → Z → result E (list KV);
  sm_Apply_ok s cmd s' n : sm_Apply s cmd = (s', Ok n) → sm_admissible s cmd →
    sm_view s' = spec_apply (sm_view s) cmd;
  sm_Apply_err s cmd s' e : sm_Apply s cmd = (s', Err e) → sm_admissible s cmd →
    sm_view s' = sm_view s ∨ sm_view s' = spec_apply (sm_view s) cmd;
  sm_Scan_ok s start end_ limit items : sm_Scan s start end_ limit = Ok items →
    items = spec_scan (sm_view s) start end_ limit
}.

(** ** The in-memory machine *)
Record MemoryStateMachine := MkMemory { mem_data : gmap str str; mem_appliedIndex : Z }.
Definition NewMemoryStateMachine : MemoryStateMachine := MkMemory ∅ 0.

(** [for i := range prefix { if key[i] != prefix[i] { return false } }] *)
Fixpoint agree (key prefix : str) : bool :=
  match prefix, key with
  | [], _ => true
  | p :: prefix, k :: key => if bool_decide (k = p) then agree key prefix else false
  | _ :: _, [] => false
  end.
Definition hasPrefix (key prefix : str) : bool :=
  if length key <? length prefix then false else agree key prefix.

Definition mem_Apply (m : MemoryStateMachine) (cmd : Command) : MemoryStateMachine * Z :=
  let '(data, modified) :=
    match cmd_Operation cmd with
    | OperationPut => (<[cmd_Key cmd := cmd_Value cmd]> (mem_data m), 1%Z)
    | OperationDelete =>
        if decide (is_Some (mem_data m !! cmd_Key cmd))
        then (delete (cmd_Key cmd) (mem_data m), 1%Z) else (mem_data m, 0%Z)
    | OperationDeletePrefix =>
        let hit kv := bool_decide (cmd_Prefix cmd = []) || hasPrefix (kv : str * str).1 (cmd_Prefix cmd) in
        (filter (λ kv, hit kv = false) (mem_data m),
         Z.of_nat (size (filter (λ kv, hit kv = true) (mem_data m))))
    | OperationOther _ => (mem_data m, 0%Z)
    end in
  (MkMemory data (u64 (mem_appliedIndex m + 1)), modified).
Definition mem_Get (m : MemoryStateMachine) (key : str) : str := default [] (mem_data m !! key).

(** The loop over the sorted keys. *)
Fixpoint scan_loop (start end_ : str) (limit : Z) (items : list (str * str)) (acc : list KV) : list KV :=
  match items with
  | [] => acc
  | (k, v) :: items =>
      if negb (bool_decide (start = [])) && str_ltb k start then scan_loop start end_ limit items acc
      else if negb (bool_decide (end_ = [])) && negb (str_ltb k end_) then scan_loop start end_ limit items acc
      else
        let acc := acc ++ [MkKV k v] in
        if (0 <? limit)%Z && (limit <=? Z.of_nat (length acc))%Z then acc
        else scan_loop start end_ limit items acc
  end.
Definition mem_Scan (m : MemoryStateMachine) (start end_ : str) (limit : Z) : list KV :=
  scan_loop start end_ limit (sorted_items (mem_data m)) [].
Definition mem_AppliedIndex (m : MemoryStateMachine) : Z := mem_appliedIndex m.

(** [Decode(&m.data)] adds the decoded bindings to the map that is already there. *)
Definition mem_Snapshot `{Json (gmap str str)} (m : MemoryStateMachine) : option str := json_encode (mem_data m).
Definition mem_Restore `{Json (gmap str str)} (m : MemoryStateMachine) (r : str) : option MemoryStateMachine :=
  decoded ← json_decode r;
  Some (MkMemory (decoded ∪ mem_data m) (mem_appliedIndex m)).

(** ** Lemmas *)
Lemma agree_HasPrefix key prefix : agree key prefix = HasPrefix key prefix.
Proof.
  revert key. induction prefix as [|p prefix IH]; intros [|k key]; try done. cbn. rewrite IH.
  destruct (decide (k = p)) as [->|]; [by rewrite !bool_decide_true|by rewrite !bool_decide_false by congruence].
Qed.
Lemma hasPrefix_HasPrefix key prefix : hasPrefix key prefix = HasPrefix key prefix.
Proof.
  unfold hasPrefix. destruct (Nat.ltb_spec (length key) (length prefix)) as [Hl|]; [|apply agree_HasPrefix].
  symmetry. apply not_true_iff_false. intros ?%HasPrefix_length. lia.
Qed.
Lemma take_snoc_middle {A} n (l1 l2 : list A) x : n = S (length l1) → take n (l1 ++ x :: l2) = l1 ++ [x].
Proof. intros ->. rewrite cons_middle, app_assoc. apply take_app_length'. rewrite length_app. cbn. lia. Qed.
Lemma scan_loop_spec start end_ limit items acc :
  (0 < limit → Z.of_nat (length acc) < limit)%Z →
  scan_loop start end_ limit items acc =
  limited limit (acc ++ (to_kv <$> filter (λ kv : str * str, in_range start end_ kv.1) items)).
Proof.
  revert acc. induction items as [|[k v] items IH]; intros acc Hacc; cbn [scan_loop].
  - cbn. rewrite app_nil_r. unfold limited. destruct (Z.ltb_spec 0 limit); [|done]. rewrite take_ge by lia. done.
  - rewrite filter_cons. cbn [fst].
    destruct (bool_decide_reflect (start = [])) as [Hs|Hs], (str_ltb k start) eqn:E1; cbn [negb andb];
      destruct (bool_decide_reflect (end_ = [])) as [He|He], (str_ltb k end_) eqn:E2; cbn [negb andb];
      try (rewrite decide_False by (unfold in_range, str_le, str_lt; naive_solver congruence); by apply IH).
    all: rewrite decide_True by (unfold in_range, str_le, str_lt; naive_solver).
    all: cbn [fmap list_fmap]; change (to_kv (k, v)) with (MkKV k v).
    all: destruct (Z.ltb_spec 0 limit) as [Hl|Hl]; cbn [andb]; [|rewrite IH by lia; by rewrite <-app_assoc].
    all: rewrite length_app; cbn [length];
      destruct (Z.leb_spec limit (Z.of_nat (length acc + 1))) as [Hge|Hlt];
      [|rewrite IH by (rewrite length_app; cbn [length]; lia); by rewrite <-app_assoc].
    all: unfold limited; replace (0 <? limit)%Z with true by lia.
    all: symmetry; apply take_snoc_middle; specialize (Hacc Hl); lia.
Qed.
Lemma mem_Scan_spec m start end_ limit : mem_Scan m start end_ limit = spec_scan (mem_data m) start end_ limit.
Proof. unfold mem_Scan. rewrite scan_loop_spec by (cbn; lia). done. Qed.
Lemma mem_Apply_spec m cmd : mem_data (mem_Apply m cmd).1 = spec_apply (mem_data m) cmd.
Proof.
  unfold mem_Apply, spec_apply. destruct (cmd_Operation cmd); try done.
  - destruct (decide _) as [|Hn]; [done|]. cbn. rewrite delete_id; [done|]. by apply eq_None_not_Some.
  - cbn. apply map_filter_ext. intros k v _. cbn. rewrite hasPrefix_HasPrefix.
    destruct (bool_decide_reflect (cmd_Prefix cmd = [])) as [->|]; [|done]. by rewrite HasPrefix_nil.
Qed.

#[export] Instance memory_machine : StateMachine MemoryStateMachine Empty_set.
Proof.
  refine {|
    sm_view := mem_data;
    sm_admissible _ _ := True;
    sm_Apply m cmd := let '(m', n) := mem_Apply m cmd in (m', Ok n);
    sm_Get m k := Ok (mem_Get m k);
    sm_Scan m start end_ limit := Ok (mem_Scan m start end_ limit)
  |}.
  - intros m cmd m' n E _. pose proof (mem_Apply_spec m cmd) as Hs. destruct (mem_Apply m cmd). by simplify_eq.
  - intros m cmd m' [].
  - intros m start end_ limit items [= <-]. apply mem_Scan_spec.
Defined.

(** The effect of a command sequence on any state machine: errors leave the loop, as
    the raft node stops there. *)
Fixpoint sm_run {S E} `{StateMachine S E} (s : S) (cmds : list Command) : S * result E unit :=
  match cmds with
  | [] => (s, Ok tt)
  | cmd :: cmds => match sm_Apply s cmd with
                   | (s', Ok _) => sm_run s' cmds
                   | (s', Err e) => (s', Err e)
                   end
  end.
Definition spec_run (m : gmap str str) (cmds : list Command) : gmap str str := fold_left spec_apply cmds m.
Definition always_admissible {S E} `{StateMachine S E} (cmd : Command) : Prop := ∀ s, sm_admissible s cmd.

Section client.
Context {S E : Type} `{StateMachine S E}.
Lemma sm_run_spec s cmds s' :
  Forall always_admissible cmds → sm_run s cmds = (s', Ok tt) → sm_view s' = spec_run (sm_view s) cmds.
Proof.
  intros Hall. revert s. induction Hall as [|cmd cmds Hc Hall IH]; intros s; cbn [sm_run].
  - by intros [= <-].
  - destruct (sm_Apply s cmd) as [s1 [n|e]] eqn:E1; [|done]. intros Hr. rewrite (IH _ Hr).
    by rewrite (sm_Apply_ok _ _ _ _ E1 (Hc s)).
Qed.
End client.

(** Two implementations of the interface that start from the same key space and
    apply the same commands without an error answer every scan alike. *)
Theorem machines_agree {S1 E1 S2 E2} `{StateMachine S1 E1, StateMachine S2 E2}
    (s1 s1' : S1) (s2 s2' : S2) cmds start end_ limit items1 items2 :
  sm_view s1 = sm_view s2 →
  Forall (always_admissible (S := S1)) cmds → Forall (always_admissible (S := S2)) cmds →
  sm_run s1 cmds = (s1', Ok tt) → sm_run s2 cmds = (s2', Ok tt) →
  sm_Scan s1' start end_ limit = Ok items1 → sm_Scan s2' start end_ limit = Ok items2 →
  items1 = items2.
Proof.
  intros Hv Ha1 Ha2 Hr1 Hr2 Hs1 Hs2.
  apply sm_run_spec in Hr1, Hr2; [|done..]. apply sm_Scan_ok in Hs1 as ->, Hs2 as ->. by rewrite Hr1, Hr2, Hv.
Qed.

(** Restoring a snapshot into the in-memory machine merges it into the data that
    is there: a key deleted before the snapshot survives the restore. *)
Theorem mem_Restore_stale `{Json (gmap str str)} m m' w k v :
  json_faithful (mem_data m') → mem_Snapshot m' = Some w →
  mem_data m' !! k = None → mem_data m !! k = Some v →
  ∃ r, mem_Restore m w = Some r ∧ mem_data r !! k = Some v.
Proof.
  intros Hf Hw Hn Hm. unfold mem_Snapshot, json_encode in Hw.
  destruct (json_marshal (mem_data m')) as [s|] eqn:E; [|done]. cbn in Hw. injection Hw as <-.
  unfold mem_Restore. rewrite (json_decode_line _ _ Hf E). cbn. eexists. split; [done|].
  cbn. rewrite lookup_union_r by done. done.
Qed.

(** ** Instances of the properties *)
Definition map_json : Json (gmap str str) := bits_json (byte 123) brace_tag.
Definition put (k v : string) : Command := MkCommand OperationPut (lit k) (lit v) [].
Definition sample_machine : MemoryStateMachine := (mem_Apply NewMemoryStateMachine (put "k" "v")).1.
Lemma machines_agree_witness : mem_Scan sample_machine [] [] 0 = [MkKV (lit "k") (lit "v")].
Proof.
  symmetry.
  apply (machines_agree (S1 := MemoryStateMachine) (S2 := MemoryStateMachine) NewMemoryStateMachine sample_machine
           NewMemoryStateMachine sample_machine [put "k" "v"] [] [] 0); try done;
    by repeat constructor.
Defined.
Lemma mem_Restore_stale_witness :
  ∃ r, @mem_Restore map_json sample_machine (default [] (@mem_Snapshot map_json NewMemoryStateMachine)) = Some r ∧
       mem_data r !! lit "k" = Some (lit "v").
Proof.
  apply (@mem_Restore_stale map_json sample_machine NewMemoryStateMachine).
  - exact I.
  - vm_compute. reflexivity.
  - vm_compute. reflexivity.
  - vm_compute. reflexivity.
Defined.
