(* ===== verification/Pebble.v ===== *)
(** * The Pebble store ([internal/storage/pebble.go])

    The state machine of a running node: business keys, the applied index and term
    and the member addresses share one key space; keys under [__meta__/] are
    internal.  The database is a parameter ([PebbleEngine]), and so is JSON. *)
From Stdlib Require Import Ascii ZArith Sorted.
From stdpp Require Import gmap strings list sorting.
From S2P Require Import Prelude GoStrings Codec Engine StateMachine.

Definition metaPrefix : str := lit "__meta__/".
Definition metaAppliedIndexKey : str := lit "__meta__/applied_index".
Definition metaAppliedTermKey : str := lit "__meta__/applied_term".
Definition metaMembersPrefix : str := lit "__meta__/members/".
Definition isMetaKey (key : str) : bool :=
  (length metaPrefix <=? length key) && bool_decide (take (length metaPrefix) key = metaPrefix).
Definition memberAddressKey (nodeID : Z) : str := metaMembersPrefix ++ FormatUint nodeID.
#[global] Arguments memberAddressKey : simpl never.
#[global] Arguments isMetaKey : simpl never.
Definition memberPrefixEnd : str := metaMembersPrefix ++ [byte_ff].
Definition encodeUint64 (value : Z) : str := PutUint64 value.
Definition decodeUint64 (data : str) : Z :=
  if length data <? 8 then 0%Z else be_value (take 8 data).

Record snapshotPayload := MkPayload { sp_Data : list KV; sp_Members : list MemberAddress }.
#[export] Instance snapshotPayload_eq_dec : EqDecision snapshotPayload.
Proof. solve_decision. Defined.
#[export] Instance snapshotPayload_countable : Countable snapshotPayload.
Proof.
  refine (inj_countable' (λ x, (sp_Data x, sp_Members x)) (λ p, MkPayload p.1 p.2) _). by intros [].
Defined.

Definition node_le (a b : MemberAddress) : Prop := (ma_NodeID a ≤ ma_NodeID b)%Z.
#[export] Instance node_le_dec : RelDecision node_le := λ a b, decide (ma_NodeID a ≤ ma_NodeID b)%Z.
#[export] Instance node_le_trans : Transitive node_le.
Proof. intros a b c. unfold node_le. lia. Qed.
#[export] Instance node_le_total : Total node_le.
Proof. intros a b. unfold node_le. lia. Qed.
Definition kv_le (a b : KV) : Prop := str_le (kv_Key a) (kv_Key b).
#[export] Instance kv_le_dec : RelDecision kv_le := λ a b, decide (str_le (kv_Key a) (kv_Key b)).
#[export] Instance kv_le_trans : Transitive kv_le.
Proof. intros a b c. unfold kv_le. apply (transitivity (R := str_le)). Qed.
#[export] Instance kv_le_total : Total kv_le.
Proof. intros a b. unfold kv_le. apply (total str_le). Qed.

Section pebble.
Context `{PebbleEngine} `{Json MemberAddress, Json snapshotPayload, Json (list KV)}.

Inductive StoreErr :=
  | errStoreNotOpen | ErrMemberNodeID | ErrMarshal | ErrUnmarshal | ErrPebble (e : PebbleErr).
(** [ps_db] is the database directory; [ps_open] tells whether it is open. *)
Record PebbleStore := MkStore { ps_db : DB; ps_open : bool }.

Definition lift {A} (r : result PebbleErr A) : result StoreErr A := map_err ErrPebble r.
Definition getDB (s : PebbleStore) : result StoreErr DB :=
  if ps_open s then Ok (ps_db s) else Err errStoreNotOpen.
Definition Open (s : PebbleStore) : PebbleStore * result StoreErr unit :=
  if ps_open s then (s, Ok tt)
  else match pebble_open (ps_db s) with
       | Ok db => (MkStore db true, Ok tt)
       | Err e => (s, Err (ErrPebble e))
       end.
Definition Close (s : PebbleStore) : PebbleStore := MkStore (ps_db s) false.

(** Run an operation on the open database; [k] returns its new content. *)
Definition with_db {A} (s : PebbleStore) (k : DB → DB * result StoreErr A) : PebbleStore * result StoreErr A :=
  match getDB s with
  | Err e => (s, Err e)
  | Ok db => let '(db', r) := k db in (MkStore db' true, r)
  end.
Definition commit {A} (db : DB) (ops : list BatchOp) (a : A) : DB * result StoreErr A :=
  match pebble_commit db ops with
  | (db', None) => (db', Ok a)
  | (db', Some e) => (db', Err (ErrPebble e))
  end.
(** [db.Set] and [db.Delete]: a batch of one operation. *)
Definition db_write (s : PebbleStore) (op : BatchOp) : PebbleStore * result StoreErr unit :=
  with_db s (λ db, commit db [op] tt).

(** Add the operation to a fresh batch and commit it. *)
Definition apply_one (db : DB) (op : BatchOp) : DB * result StoreErr Z :=
  match batch_add [] op with
  | Err e => (db, Err (ErrPebble e))
  | Ok batch => commit db batch 1%Z
  end.
Definition Apply (s : PebbleStore) (cmd : Command) : PebbleStore * result StoreErr Z :=
  with_db s (λ db,
    match cmd_Operation cmd with
    | OperationPut => apply_one db (BSet (cmd_Key cmd) (cmd_Value cmd))
    | OperationDelete => apply_one db (BDelete (cmd_Key cmd))
    | OperationDeletePrefix => apply_one db (BDeleteRange (cmd_Prefix cmd) (cmd_Prefix cmd ++ [byte_ff]))
    | OperationOther _ => (db, Ok 0%Z)
    end).

Definition Get (s : PebbleStore) (key : str) : result StoreErr str :=
  db ← getDB s; v ← lift (pebble_get db key); Ok (default [] v).

(** The iterator loop: the items and whether it left before the end. *)
Fixpoint scan_items (limit : Z) (items : list (str * str)) (acc : list KV) : list KV * bool :=
  match items with
  | [] => (acc, false)
  | (k, v) :: items =>
      if isMetaKey k then scan_items limit items acc
      else
        let acc := acc ++ [MkKV k v] in
        if (0 <? limit)%Z && (limit <=? Z.of_nat (length acc))%Z then (acc, true)
        else scan_items limit items acc
  end.
Definition Scan (s : PebbleStore) (start end_ : str) (limit : Z) : result StoreErr (list KV) :=
  db ← getDB s;
  it ← lift (pebble_iter db start end_);
  let '(items, broke) := scan_items limit it.1 [] in
  match it.2 with
  | Some e => if (broke : bool) then Ok items else Err (ErrPebble e)
  | None => Ok items
  end.

Definition sort_members (ms : list MemberAddress) : list MemberAddress := merge_sort node_le ms.
Definition decode_member (ms : list MemberAddress) (kv : str * str) : result StoreErr (list MemberAddress) :=
  match json_unmarshal kv.2 with
  | None => Err ErrUnmarshal
  | Some member => Ok (ms ++ [member])
  end.
Definition ListMemberAddresses (s : PebbleStore) : result StoreErr (list MemberAddress) :=
  db ← getDB s;
  it ← lift (pebble_iter db metaMembersPrefix memberPrefixEnd);
  members ← foldM decode_member [] it.1;
  match it.2 with Some e => Err (ErrPebble e) | None => Ok (sort_members members) end.

(** [mustJSON] maps an encoding error to nil. *)
Definition mustJSON (m : MemberAddress) : str := default [] (json_marshal m).
Definition SetMemberAddress (s : PebbleStore) (nodeID : Z) (httpAddr grpcAddr adminAddr : str)
    : PebbleStore * result StoreErr unit :=
  match getDB s with
  | Err e => (s, Err e)
  | Ok _ =>
      if (nodeID =? 0)%Z then (s, Err ErrMemberNodeID)
      else db_write s (BSet (memberAddressKey nodeID) (mustJSON (MkMember nodeID httpAddr grpcAddr adminAddr)))
  end.
Definition DeleteMemberAddress (s : PebbleStore) (nodeID : Z) : PebbleStore * result StoreErr unit :=
  match getDB s with
  | Err e => (s, Err e)
  | Ok _ => if (nodeID =? 0)%Z then (s, Err ErrMemberNodeID) else db_write s (BDelete (memberAddressKey nodeID))
  end.

Definition read_uint64 (s : PebbleStore) (key : str) : result StoreErr Z :=
  db ← getDB s; v ← lift (pebble_get db key);
  Ok (match v with None => 0%Z | Some data => decodeUint64 data end).
Definition AppliedIndex (s : PebbleStore) : result StoreErr Z := read_uint64 s metaAppliedIndexKey.
Definition AppliedTerm (s : PebbleStore) : result StoreErr Z := read_uint64 s metaAppliedTermKey.
Definition SetAppliedIndex (s : PebbleStore) (index : Z) : PebbleStore * result StoreErr unit :=
  db_write s (BSet metaAppliedIndexKey (encodeUint64 index)).
Definition SetAppliedTerm (s : PebbleStore) (term : Z) : PebbleStore * result StoreErr unit :=
  db_write s (BSet metaAppliedTermKey (encodeUint64 term)).

(** The items of a scan are in key order already: [sort.Slice] leaves them. *)
Definition Snapshot (s : PebbleStore) : result StoreErr str :=
  items ← Scan s [] [] 0;
  members ← ListMemberAddresses s;
  match json_encode (MkPayload (merge_sort kv_le items) (sort_members members)) with
  | Some w => Ok w
  | None => Err ErrMarshal
  end.

Definition decodeSnapshotPayload (data : str) : result StoreErr snapshotPayload :=
  match json_unmarshal data with
  | Some payload => Ok payload
  | None => match json_unmarshal data with
            | Some items => Ok (MkPayload items [])
            | None => Err ErrUnmarshal
            end
  end.

Definition add_delete (batch : list BatchOp) (kv : str * str) : result StoreErr (list BatchOp) :=
  lift (batch_add batch (BDelete kv.1)).
Definition add_business_delete (batch : list BatchOp) (kv : str * str) : result StoreErr (list BatchOp) :=
  if isMetaKey kv.1 then Ok batch else add_delete batch kv.
Definition iter_batch (f : list BatchOp → str * str → result StoreErr (list BatchOp))
    (batch : list BatchOp) (it : list (str * str) * option PebbleErr) : result StoreErr (list BatchOp) :=
  batch ← foldM f batch it.1;
  match it.2 with Some e => Err (ErrPebble e) | None => Ok batch end.
Definition restore_batch (db : DB) (payload : snapshotPayload) : result StoreErr (list BatchOp) :=
  it ← lift (pebble_iter db [] []);
  batch ← iter_batch add_business_delete [] it;
  mit ← lift (pebble_iter db metaMembersPrefix memberPrefixEnd);
  batch ← iter_batch add_delete batch mit;
  batch ← foldM (λ b item, lift (batch_add b (BSet (kv_Key item) (kv_Value item)))) batch (sp_Data payload);
  foldM (λ b m, lift (batch_add b (BSet (memberAddressKey (ma_NodeID m)) (mustJSON m)))) batch (sp_Members payload).
Definition Restore (s : PebbleStore) (raw : str) : PebbleStore * result StoreErr unit :=
  with_db s (λ db,
    match decodeSnapshotPayload raw with
    | Err e => (db, Err e)
    | Ok payload => match restore_batch db payload with
                    | Err e => (db, Err e)
                    | Ok batch => commit db batch tt
                    end
    end).
End pebble.

(** ** Keys *)
Definition business (m : gmap str str) : gmap str str := filter (λ kv, isMetaKey kv.1 = false) m.

Lemma isMetaKey_HasPrefix k : isMetaKey k = HasPrefix k metaPrefix.
Proof.
  apply eq_true_iff_eq. unfold isMetaKey. rewrite andb_true_iff, bool_decide_eq_true, HasPrefix_spec. split.
  - intros [_ Ht]. exists (drop (length metaPrefix) k). rewrite <-Ht at 1. symmetry. apply take_drop.
  - intros [t ->]. rewrite take_app_length. split; [|done]. apply Nat.leb_le. rewrite length_app. lia.
Qed.
Lemma metaMembersPrefix_meta t : isMetaKey (metaMembersPrefix ++ t) = true.
Proof. by rewrite isMetaKey_HasPrefix. Qed.
Lemma memberAddressKey_meta id : isMetaKey (memberAddressKey id) = true.
Proof. apply metaMembersPrefix_meta. Qed.
Lemma memberAddressKey_inj a b : is_u64 a → is_u64 b → memberAddressKey a = memberAddressKey b → a = b.
Proof. unfold memberAddressKey. intros Ha Hb E%app_inv_head. by apply FormatUint_inj. Qed.
Lemma members_range k :
  in_range metaMembersPrefix memberPrefixEnd k ↔
  HasPrefix k metaMembersPrefix = true ∧
  match drop (length metaMembersPrefix) k with c :: _ => c ≠ byte_ff | [] => True end.
Proof.
  rewrite <-prefix_range. unfold in_range, memberPrefixEnd.
  split; [intros [[?|?] [?|?]]; done|intros [??]; auto].
Qed.
Lemma FormatUint_head z : match FormatUint z with c :: _ => c ≠ byte_ff | [] => True end.
Proof.
  pose proof (FormatUint_no byte_ff z eq_refl) as H. destruct (FormatUint z) as [|c s]; [done|].
  intros ->. apply H. left.
Qed.
Lemma memberAddressKey_range id : in_range metaMembersPrefix memberPrefixEnd (memberAddressKey id).
Proof.
  apply members_range. unfold memberAddressKey. rewrite HasPrefix_app, drop_app_length.
  split; [done|apply FormatUint_head].
Qed.
Lemma members_range_meta k : in_range metaMembersPrefix memberPrefixEnd k → isMetaKey k = true.
Proof. intros [[t ->]%HasPrefix_spec _]%members_range. apply metaMembersPrefix_meta. Qed.

(** ** Applied index and term *)
Lemma decodeUint64_encode z : is_u64 z → decodeUint64 (encodeUint64 z) = z.
Proof.
  intros Hz. unfold decodeUint64, encodeUint64.
  assert (length (PutUint64 z) = 8) as Hl by apply length_be_bytes. rewrite Hl. cbn [Nat.ltb Nat.leb].
  rewrite take_ge by lia. by apply PutUint64_value.
Qed.

Section pebble_facts.
Context `{PebbleEngine} `{Json MemberAddress, Json snapshotPayload, Json (list KV)}.
Implicit Types s t : PebbleStore.
Definition store_map (s : PebbleStore) : gmap str str := contents (ps_db s).

Lemma commit_ok {A} db ops (a : A) db' a' :
  commit db ops a = (db', Ok a') → contents db' = apply_batch (contents db) ops ∧ a' = a.
Proof.
  unfold commit. destruct (pebble_commit db ops) as [d [e|]] eqn:E; [done|]. intros [= <- <-].
  split; [by apply pebble_commit_ok|done].
Qed.
Lemma commit_err {A} db ops (a : A) db' e :
  commit db ops a = (db', Err e) →
  contents db' = contents db ∨ contents db' = apply_batch (contents db) ops.
Proof.
  unfold commit. destruct (pebble_commit db ops) as [d [e'|]] eqn:E; [|done]. intros [= <- <-].
  by eapply pebble_commit_atomic.
Qed.
Lemma db_write_ok s op s' :
  db_write s op = (s', Ok tt) → store_map s' = apply_op (store_map s) op ∧ ps_open s' = true.
Proof.
  unfold db_write, with_db, getDB. destruct (ps_open s); [|done].
  destruct (commit (ps_db s) [op] tt) as [d r] eqn:E. intros [= <- ->].
  by apply commit_ok in E as [? _].
Qed.

Lemma apply_one_effect db op d r :
  apply_one db op = (d, r) →
  match r with
  | Ok _ => contents d = apply_op (contents db) op
  | Err _ => contents d = contents db ∨ contents d = apply_op (contents db) op
  end.
Proof.
  unfold apply_one. destruct (batch_add [] op) as [b|e] eqn:E; [|intros [= <- <-]; by left].
  apply batch_add_ok in E as ->. destruct r as [n|e'].
  - by intros [? _]%commit_ok.
  - by intros ?%commit_err.
Qed.
Definition cmd_op (cmd : Command) : option BatchOp :=
  match cmd_Operation cmd with
  | OperationPut => Some (BSet (cmd_Key cmd) (cmd_Value cmd))
  | OperationDelete => Some (BDelete (cmd_Key cmd))
  | OperationDeletePrefix => Some (BDeleteRange (cmd_Prefix cmd) (cmd_Prefix cmd ++ [byte_ff]))
  | OperationOther _ => None
  end.
Definition cmd_effect (m : gmap str str) (cmd : Command) : gmap str str :=
  match cmd_op cmd with Some op => apply_op m op | None => m end.
(** A command takes full effect or, when it fails, possibly none: never a part. *)
Lemma Apply_effect s cmd s' r :
  Apply s cmd = (s', r) →
  match r with
  | Ok _ => ps_open s = true ∧ store_map s' = cmd_effect (store_map s) cmd
  | Err _ => store_map s' = store_map s ∨ store_map s' = cmd_effect (store_map s) cmd
  end.
Proof.
  unfold Apply, with_db, getDB, cmd_effect, cmd_op. destruct (ps_open s); [|intros [= <- <-]; by left].
  destruct (cmd_Operation cmd); unfold store_map.
  - destruct (apply_one _ (BSet _ _)) as [d r'] eqn:E. apply apply_one_effect in E. intros [= <- ->]. destruct r; eauto.
  - destruct (apply_one _ (BDelete _)) as [d r'] eqn:E. apply apply_one_effect in E. intros [= <- ->]. destruct r; eauto.
  - destruct (apply_one _ (BDeleteRange _ _)) as [d r'] eqn:E. apply apply_one_effect in E. intros [= <- ->]. destruct r; eauto.
  - intros [= <- <-]. done.
Qed.

(** Keys a prefix deletion misses: those with byte 0xFF right after the prefix. *)
Definition past_ff (k p : str) : Prop :=
  match drop (length p) k with c :: _ => c = byte_ff | [] => False end.
Definition admissible (s : PebbleStore) (cmd : Command) : Prop :=
  match cmd_Operation cmd with
  | OperationPut | OperationDelete => isMetaKey (cmd_Key cmd) = false
  | OperationDeletePrefix =>
      ∀ k, is_Some (business (store_map s) !! k) → HasPrefix k (cmd_Prefix cmd) = true → ¬ past_ff k (cmd_Prefix cmd)
  | OperationOther _ => True
  end.
Lemma range_past p k : str_le p k ∧ str_lt k (p ++ [byte_ff]) ↔ HasPrefix k p = true ∧ ¬ past_ff k p.
Proof. rewrite prefix_range. unfold past_ff. destruct (drop (length p) k); naive_solver. Qed.
Lemma business_lookup m k : business m !! k = if isMetaKey k then None else m !! k.
Proof.
  unfold business. rewrite map_lookup_filter. destruct (m !! k); cbn; [|by destruct (isMetaKey k)].
  destruct (isMetaKey k); cbn; [by rewrite option_guard_False|by rewrite option_guard_True].
Qed.
Lemma cmd_effect_business s cmd :
  admissible s cmd → business (cmd_effect (store_map s) cmd) = spec_apply (business (store_map s)) cmd.
Proof.
  unfold admissible, cmd_effect, cmd_op, spec_apply. intros Ha. apply map_eq. intros k.
  destruct (cmd_Operation cmd); cbn [apply_op]; rewrite ?business_lookup.
  - destruct (decide (k = cmd_Key cmd)) as [->|].
    + by rewrite Ha, !lookup_insert_eq.
    + rewrite !lookup_insert_ne by done. by rewrite business_lookup.
  - destruct (decide (k = cmd_Key cmd)) as [->|].
    + by rewrite Ha, !lookup_delete_eq.
    + rewrite !lookup_delete_ne by done. by rewrite business_lookup.
  - rewrite !map_lookup_filter, business_lookup. destruct (isMetaKey k) eqn:Hm; [done|].
    specialize (Ha k). rewrite business_lookup, Hm in Ha.
    destruct (store_map s !! k) as [v|] eqn:E; cbn; [|done]. specialize (Ha ltac:(done)).
    destruct (HasPrefix k (cmd_Prefix cmd)) eqn:Hp.
    + rewrite !option_guard_False; [done|done|]. intros Hn. apply Hn, range_past. auto.
    + rewrite !option_guard_True; [done|done|]. intros [Hc _]%range_past. congruence.
  - done.
Qed.

(** ** Scans *)
Lemma scan_items_spec limit items acc :
  (0 < limit → Z.of_nat (length acc) < limit)%Z →
  (scan_items limit items acc).1 =
  limited limit (acc ++ (to_kv <$> filter (λ kv : str * str, isMetaKey kv.1 = false) items)).
Proof.
  revert acc. induction items as [|[k v] items IH]; intros acc Hacc; cbn [scan_items].
  - cbn. rewrite app_nil_r. unfold limited. destruct (Z.ltb_spec 0 limit); [|done]. rewrite take_ge by lia. done.
  - rewrite filter_cons. cbn [fst]. destruct (isMetaKey k); [by rewrite decide_False, IH|].
    rewrite decide_True by done. cbn [fmap list_fmap]. change (to_kv (k, v)) with (MkKV k v).
    destruct (Z.ltb_spec 0 limit) as [Hl|Hl]; cbn [andb]; [|rewrite IH by lia; by rewrite <-app_assoc].
    rewrite length_app. cbn [length].
    destruct (Z.leb_spec limit (Z.of_nat (length acc + 1))) as [Hge|Hlt];
      [|rewrite IH by (rewrite length_app; cbn [length]; lia); by rewrite <-app_assoc].
    unfold limited. replace (0 <? limit)%Z with true by lia. symmetry.
    apply take_snoc_middle. specialize (Hacc Hl). lia.
Qed.
(** A scan that stopped at its limit has seen enough of the listing. *)
Lemma scan_items_broke limit items rest acc :
  (scan_items limit items acc).2 = true → (scan_items limit (items ++ rest) acc).1 = (scan_items limit items acc).1.
Proof.
  revert acc. induction items as [|[k v] items IH]; intros acc; cbn [scan_items app]; [done|].
  destruct (isMetaKey k); [by apply IH|]. destruct (_ && _); [done|by apply IH].
Qed.
Lemma range_business m l u :
  range_items (business m) l u = filter (λ kv : str * str, isMetaKey kv.1 = false) (range_items m l u).
Proof.
  apply sorted_unique; [apply range_items_sorted|apply StronglySorted_filter, range_items_sorted|].
  intros [k v]. rewrite list_elem_of_filter, !range_items_elem, business_lookup. cbn.
  destruct (isMetaKey k); naive_solver.
Qed.
Lemma Scan_spec s start end_ limit items :
  Scan s start end_ limit = Ok items → items = spec_scan (business (store_map s)) start end_ limit.
Proof.
  unfold Scan, getDB, lift. destruct (ps_open s); [|done]. cbn [mbind result_bind].
  destruct (pebble_iter (ps_db s) start end_) as [[l e]|] eqn:E; [|done]. cbn [map_err mbind result_bind fst snd].
  destruct (scan_items limit l []) as [items' broke] eqn:Es. intros Hr.
  assert (items' = items ∧ (e = None ∨ broke = true)) as [<- Hor].
  { destruct e; [destruct broke; [|done]|]; injection Hr as <-; auto. }
  unfold spec_scan. rewrite range_business. unfold store_map.
  rewrite <-(app_nil_l (to_kv <$> _)). rewrite <-(scan_items_spec limit _ []) by (cbn; lia).
  destruct Hor as [->| ->].
  - apply pebble_iter_ok in E as <-. by rewrite Es.
  - apply pebble_iter_prefix in E as [rest ->]. rewrite scan_items_broke by (by rewrite Es). by rewrite Es.
Qed.

#[export] Instance pebble_machine : StateMachine PebbleStore StoreErr.
Proof.
  refine {|
    sm_view s := business (store_map s);
    sm_admissible := admissible;
    sm_Apply := Apply;
    sm_Get := Get;
    sm_Scan := Scan
  |}.
  - intros s cmd s' n E Ha. apply Apply_effect in E as [_ ->]. by apply cmd_effect_business.
  - intros s cmd s' e E Ha. apply Apply_effect in E as [->| ->]; [by left|right]. by apply cmd_effect_business.
  - apply Scan_spec.
Defined.
End pebble_facts.

Section restore.
Context `{PebbleEngine} `{Json MemberAddress, Json snapshotPayload, Json (list KV)}.
Implicit Types s t : PebbleStore.

(** ** Member addresses *)
Definition member_binding (m : MemberAddress) (k v : str) : Prop :=
  k = memberAddressKey (ma_NodeID m) ∧ v = mustJSON m ∧ is_u64 (ma_NodeID m) ∧ json_faithful m.
(** Every binding of the member range is one the store wrote. *)
Definition members_wf (m : gmap str str) : Prop :=
  ∀ k v, m !! k = Some v → in_range metaMembersPrefix memberPrefixEnd k → ∃ a, member_binding a k v.

Lemma mustJSON_decode m : json_faithful m → json_unmarshal (mustJSON m) = Some m.
Proof. intros (w&Hw&Hu)%json_roundtrip. unfold mustJSON. by rewrite Hw. Qed.
Lemma decode_members_ok items ms0 ms :
  Forall (λ kv : str * str, ∃ a, member_binding a kv.1 kv.2) items →
  foldM decode_member ms0 items = Ok ms →
  ∃ ms1, ms = ms0 ++ ms1 ∧ Forall2 (λ (kv : str * str) a, member_binding a kv.1 kv.2) items ms1.
Proof.
  intros Hall. revert ms0. induction Hall as [|kv items (a&Ha) Hall IH]; intros ms0; cbn [foldM].
  - intros [= <-]. exists []. by rewrite app_nil_r.
  - destruct Ha as (Hk&Hv&Hu&Hf).
    assert (decode_member ms0 kv = Ok (ms0 ++ [a])) as ->.
    { unfold decode_member. by rewrite Hv, mustJSON_decode. }
    cbn [mbind result_bind]. intros (ms1&->&Hms)%IH.
    exists (a :: ms1). rewrite <-app_assoc. split; [done|]. constructor; [|done]. done.
Qed.
(** Listing a well-formed store: sorted by id, exactly the stored addresses. *)
Lemma ListMemberAddresses_spec s ms :
  members_wf (store_map s) → ListMemberAddresses s = Ok ms →
  StronglySorted node_le ms ∧ NoDup (memberAddressKey ∘ ma_NodeID <$> ms) ∧
  ∀ a, a ∈ ms ↔ ∃ k, store_map s !! k = Some (mustJSON a) ∧ member_binding a k (mustJSON a).
Proof.
  intros Hwf. unfold ListMemberAddresses, getDB. destruct (ps_open s); [|done]. cbn [mbind result_bind].
  unfold lift. destruct (pebble_iter _ _ _) as [[items e]|] eqn:E; [|done]. cbn [map_err mbind result_bind fst snd].
  destruct (foldM decode_member [] items) as [ms0|] eqn:Ed; [|done]. cbn [mbind result_bind].
  destruct e; [done|]. intros [= <-]. apply pebble_iter_ok in E as ->. fold (store_map s) in *.
  apply decode_members_ok in Ed as (ms1&->&Hall2); [|apply Forall_forall; intros [k v] [Hl Hr]%range_items_elem; by apply Hwf].
  cbn [app] in *.
  assert (memberAddressKey ∘ ma_NodeID <$> ms1 = (range_items (store_map s) metaMembersPrefix memberPrefixEnd).*1) as Hkeys.
  { clear -Hall2. induction Hall2 as [|kv a items ms (Hk&_) Hall2 IH]; [done|]. cbn. rewrite IH. by rewrite Hk. }
  assert (sort_members ms1 ≡ₚ ms1) as Hperm by apply merge_sort_Permutation.
  split; [|split].
  - apply (StronglySorted_merge_sort node_le).
  - rewrite Hperm, Hkeys. apply sorted_keys_nodup, range_items_sorted.
  - intros a. rewrite Hperm. split.
    + intros Ha. apply list_elem_of_lookup in Ha as [i Hi].
      apply (Forall2_lookup_r _ _ _ _ _ Hall2) in Hi as ([k v]&Hkv&Hb).
      apply list_elem_of_lookup_2, range_items_elem in Hkv as [Hl _]. cbn in Hb. destruct Hb as (?&->&?&?).
      exists k. done.
    + intros (k&Hl&Hb). assert ((k, mustJSON a) ∈ range_items (store_map s) metaMembersPrefix memberPrefixEnd) as Hin.
      { apply range_items_elem. split; [done|]. destruct Hb as (->&_). apply memberAddressKey_range. }
      apply list_elem_of_lookup in Hin as [i Hi]. apply (Forall2_lookup_l _ _ _ _ _ Hall2) in Hi as (a'&Hi&Hb').
      apply list_elem_of_lookup_2 in Hi. cbn in Hb'. destruct Hb as (?&_&_&Hf), Hb' as (?&Hj&_&Hf').
      apply mustJSON_decode in Hf, Hf'. rewrite <-Hj in Hf'. congruence.
Qed.

(** ** The batch of a restore *)
Lemma batch_foldM {A} (op : A → BatchOp) (l : list A) b b' :
  foldM (λ b x, lift (batch_add b (op x))) b l = Ok b' → b' = b ++ (op <$> l).
Proof.
  revert b. induction l as [|x l IH]; intros b; cbn [foldM]; [intros [= <-]; by rewrite app_nil_r|].
  destruct (batch_add b (op x)) as [b1|] eqn:E; [|done]. cbn [lift map_err mbind result_bind].
  apply batch_add_ok in E as ->. intros ->%IH. by rewrite <-app_assoc.
Qed.
Lemma business_deletes l b b' :
  foldM add_business_delete b l = Ok b' →
  b' = b ++ (BDelete <$> (filter (λ kv : str * str, isMetaKey kv.1 = false) l).*1).
Proof.
  revert b. induction l as [|[k v] l IH]; intros b; cbn [foldM]; [intros [= <-]; by rewrite app_nil_r|].
  rewrite filter_cons. cbn [fst].
  change (add_business_delete b (k, v)) with (if isMetaKey k then Ok b else lift (batch_add b (BDelete k))).
  destruct (isMetaKey k); [rewrite decide_False by done; cbn [mbind result_bind]; apply IH|].
  rewrite decide_True by done. destruct (batch_add b (BDelete k)) as [b1|] eqn:E; [|done].
  cbn [lift map_err mbind result_bind]. apply batch_add_ok in E as ->. intros ->%IH. by rewrite <-app_assoc.
Qed.
Definition payload_sets (p : snapshotPayload) : list (str * str) :=
  ((λ i, (kv_Key i, kv_Value i)) <$> sp_Data p) ++
  ((λ m, (memberAddressKey (ma_NodeID m), mustJSON m)) <$> sp_Members p).
Definition old_keys (m : gmap str str) : list str :=
  (filter (λ kv : str * str, isMetaKey kv.1 = false) (range_items m [] [])).*1 ++
  (range_items m metaMembersPrefix memberPrefixEnd).*1.
Lemma restore_batch_ok db p b :
  restore_batch db p = Ok b →
  b = (BDelete <$> old_keys (contents db)) ++ ((λ kv, BSet kv.1 kv.2) <$> payload_sets p).
Proof.
  unfold restore_batch, iter_batch, lift. intros Hb.
  destruct (pebble_iter db [] []) as [[l1 e1]|] eqn:E1; [|done]. cbn [map_err mbind result_bind fst snd] in Hb.
  destruct (foldM add_business_delete [] l1) as [b1|] eqn:F1; [|done]. cbn [mbind result_bind] in Hb.
  destruct e1; [done|]. cbn [mbind result_bind] in Hb.
  destruct (pebble_iter db metaMembersPrefix memberPrefixEnd) as [[l2 e2]|] eqn:E2; [|done].
  cbn [map_err mbind result_bind fst snd] in Hb.
  destruct (foldM add_delete b1 l2) as [b2|] eqn:F2; [|done]. cbn [mbind result_bind] in Hb.
  destruct e2; [done|]. cbn [mbind result_bind] in Hb.
  destruct (foldM _ b2 (sp_Data p)) as [b3|] eqn:F3; [|done]. cbn [mbind result_bind] in Hb.
  apply pebble_iter_ok in E1 as ->, E2 as ->. apply business_deletes in F1 as ->.
  apply (batch_foldM (λ kv : str * str, BDelete kv.1)) in F2 as ->.
  apply (batch_foldM (λ i, BSet (kv_Key i) (kv_Value i))) in F3 as ->.
  apply (batch_foldM (λ m, BSet (memberAddressKey (ma_NodeID m)) (mustJSON m))) in Hb as ->.
  unfold old_keys, payload_sets. rewrite !fmap_app, <-!list_fmap_compose, <-!app_assoc. done.
Qed.
Lemma old_keys_elem m k :
  k ∈ old_keys m ↔ is_Some (m !! k) ∧ (isMetaKey k = false ∨ in_range metaMembersPrefix memberPrefixEnd k).
Proof.
  unfold old_keys. rewrite elem_of_app, !list_elem_of_fmap. split.
  - intros [([k' v]&->&Hin)|([k' v]&->&Hin)].
    + apply list_elem_of_filter in Hin as [? [? _]%range_items_elem]. cbn. eauto.
    + apply range_items_elem in Hin as [??]. cbn. eauto.
  - intros [[v Hv] [Hm|Hr]]; [left|right]; exists (k, v); (split; [done|]).
    + apply list_elem_of_filter. split; [done|]. apply range_items_elem. split; [done|]. split; by left.
    + by apply range_items_elem.
Qed.
(** What a completed restore leaves under each key. *)
Lemma Restore_lookup s raw s' :
  Restore s raw = (s', Ok tt) →
  ∃ p, decodeSnapshotPayload raw = Ok p ∧ ps_open s' = true ∧
    (NoDup (payload_sets p).*1 → ∀ k,
      store_map s' !! k =
      match (list_to_map (payload_sets p) : gmap str str) !! k with
      | Some v => Some v
      | None => if decide (isMetaKey k = false ∨ in_range metaMembersPrefix memberPrefixEnd k) then None
                else store_map s !! k
      end).
Proof.
  unfold Restore, with_db, getDB. destruct (ps_open s); [|done].
  destruct (decodeSnapshotPayload raw) as [p|]; [|done].
  destruct (restore_batch (ps_db s) p) as [b|] eqn:Eb; [|done].
  destruct (commit (ps_db s) b tt) as [d r] eqn:Ec. intros [= <- ->]. apply commit_ok in Ec as [Hc _].
  apply restore_batch_ok in Eb as ->. exists p. split; [done|]. split; [done|]. intros Hnd k.
  unfold store_map; cbn [ps_db]. rewrite Hc, apply_batch_app, apply_sets by done.
  destruct (list_to_map (payload_sets p) !! k); [done|]. rewrite apply_deletes.
  destruct (decide (k ∈ old_keys (contents (ps_db s)))) as [Hin|Hin]; rewrite old_keys_elem in Hin.
  - by rewrite decide_True by apply Hin.
  - destruct (decide _) as [Hd|Hd]; [|done]. destruct (contents (ps_db s) !! k); [|done].
    destruct Hin. by split.
Qed.

Lemma list_to_map_elem (l : list (str * str)) k v :
  NoDup l.*1 → (list_to_map l : gmap str str) !! k = Some v ↔ (k, v) ∈ l.
Proof. intros. symmetry. by apply elem_of_list_to_map. Qed.

Lemma payload_sets_elem p k v :
  (k, v) ∈ payload_sets p ↔
  MkKV k v ∈ sp_Data p ∨ ∃ a, a ∈ sp_Members p ∧ k = memberAddressKey (ma_NodeID a) ∧ v = mustJSON a.
Proof.
  unfold payload_sets. rewrite elem_of_app, !list_elem_of_fmap. split.
  - intros [([k' v']&[= -> ->]&?)|(a&[= -> ->]&?)]; [by left|right; eauto].
  - intros [?|(a&?&->&->)]; [left|right; eauto]. by exists (MkKV k v).
Qed.
Lemma Snapshot_payload s w :
  members_wf (store_map s) → Snapshot s = Ok w →
  ∃ p, json_encode p = Some w ∧ NoDup (payload_sets p).*1 ∧ Forall json_faithful (sp_Members p) ∧
    ∀ k v, (k, v) ∈ payload_sets p ↔
      business (store_map s) !! k = Some v ∨
      in_range metaMembersPrefix memberPrefixEnd k ∧ store_map s !! k = Some v.
Proof.
  intros Hwf. unfold Snapshot. destruct (Scan s [] [] 0) as [items|] eqn:Es; [|done].
  destruct (ListMemberAddresses s) as [ms|] eqn:El; [|done]. cbn [mbind result_bind].
  apply Scan_spec in Es. unfold spec_scan, limited in Es. cbn [Z.ltb Z.compare] in Es.
  destruct (ListMemberAddresses_spec _ _ Hwf El) as (_&Hnd&Hms).
  set (p := MkPayload (merge_sort kv_le items) (sort_members ms)).
  destruct (json_encode p) as [w'|] eqn:Ew; [|done]. intros [= <-]. exists p. split; [done|].
  assert (∀ k v, MkKV k v ∈ sp_Data p ↔ business (store_map s) !! k = Some v) as Hdata.
  { intros k v. cbn. rewrite merge_sort_Permutation, Es, list_elem_of_fmap. split.
    - intros ([k' v']&[= -> ->]&[? _]%range_items_elem). done.
    - intros Hb. exists (k, v). split; [done|]. apply range_items_elem. split; [done|]. split; by left. }
  assert (∀ a, a ∈ sp_Members p ↔ ∃ k, store_map s !! k = Some (mustJSON a) ∧ member_binding a k (mustJSON a)) as Hmem.
  { intros a. cbn. unfold sort_members. rewrite merge_sort_Permutation. apply Hms. }
  split; [|split].
  - unfold payload_sets. rewrite fmap_app, <-!list_fmap_compose. apply NoDup_app. split_and!.
    + cbn. rewrite merge_sort_Permutation, Es, <-list_fmap_compose.
      change (NoDup (fst <$> range_items (business (store_map s)) [] [])). apply sorted_keys_nodup, range_items_sorted.
    + intros k (i&->&Hi)%list_elem_of_fmap (a&Hk&Ha)%list_elem_of_fmap. cbn in Hk.
      destruct i as [k v]. apply Hdata in Hi. cbn in Hk. subst k.
      rewrite business_lookup, memberAddressKey_meta in Hi. done.
    + cbn. unfold sort_members. rewrite merge_sort_Permutation. exact Hnd.
  - apply Forall_forall. intros a (k&_&_&_&_&?)%Hmem. done.
  - intros k v. rewrite payload_sets_elem, Hdata. split.
    + intros [?|(a&(k'&Hl&Hb)%Hmem&->&->)]; [by left|right]. destruct Hb as (->&_).
      split; [apply memberAddressKey_range|done].
    + intros [?|[Hr Hl]]; [by left|right]. destruct (Hwf _ _ Hl Hr) as (a&Hb). exists a.
      destruct Hb as (->&->&Hb). split; [|done]. apply Hmem. eexists. split; [done|]. done.
Qed.

Context (payload_faithful : ∀ p : snapshotPayload, Forall json_faithful (sp_Members p) → json_faithful p).
Lemma payload_decodes p w : Forall json_faithful (sp_Members p) → json_encode p = Some w → decodeSnapshotPayload w = Ok p.
Proof.
  intros Hf Hw. unfold json_encode in Hw. destruct (json_roundtrip p (payload_faithful _ Hf)) as (raw&Hm&Hu).
  rewrite Hm in Hw. cbn in Hw. injection Hw as <-. unfold decodeSnapshotPayload.
  by rewrite json_unmarshal_newline, Hu.
Qed.
Lemma snapshot_decodes s w : members_wf (store_map s) → Snapshot s = Ok w → ∃ p, decodeSnapshotPayload w = Ok p.
Proof. intros Hwf (p&Hw&_&Hf&_)%Snapshot_payload; [|done]. exists p. by apply payload_decodes. Qed.
Lemma snapshot_restored s w t t' :
  members_wf (store_map s) → Snapshot s = Ok w → Restore t w = (t', Ok tt) →
  business (store_map t') = business (store_map s) ∧
  (∀ k, in_range metaMembersPrefix memberPrefixEnd k → store_map t' !! k = store_map s !! k) ∧
  (∀ k, isMetaKey k = true → ¬ in_range metaMembersPrefix memberPrefixEnd k → store_map t' !! k = store_map t !! k).
Proof.
  intros Hwf Hs Hr. destruct (Snapshot_payload _ _ Hwf Hs) as (p&Hw&Hnd&Hf&Hp).
  destruct (Restore_lookup _ _ _ Hr) as (p'&Hdec&_&Hl).
  assert (p' = p) as -> by (rewrite (payload_decodes p w Hf Hw) in Hdec; by injection Hdec).
  specialize (Hl Hnd).
  assert (∀ k, isMetaKey k = false ∨ in_range metaMembersPrefix memberPrefixEnd k → store_map t' !! k = store_map s !! k) as Hkey.
  { intros k Hk. rewrite Hl. destruct (list_to_map (payload_sets p) !! k) as [v|] eqn:E.
    - apply list_to_map_elem, Hp in E as [Hb|[_ ->]]; [|done..].
      rewrite business_lookup in Hb. by destruct (isMetaKey k).
    - rewrite decide_True by done. destruct (store_map s !! k) as [v|] eqn:Ev; [|done].
      assert ((k, v) ∈ payload_sets p) as Hin.
      { apply Hp. destruct Hk as [Hm|?]; [left|by right]. by rewrite business_lookup, Hm. }
      apply list_to_map_elem in Hin; [congruence|done]. }
  split; [|split].
  - apply map_eq. intros k. rewrite !business_lookup. destruct (isMetaKey k) eqn:Hm; [done|]. apply Hkey. by left.
  - intros k Hk. apply Hkey. by right.
  - intros k Hm Hk. rewrite Hl. destruct (list_to_map (payload_sets p) !! k) as [v|] eqn:E.
    + apply list_to_map_elem, Hp in E as [Hb|[? _]]; [|done..]. by rewrite business_lookup, Hm in Hb.
    + rewrite decide_False; [done|]. intros [?|?]; [congruence|done].
Qed.
(** C11: a snapshot restored into any store carries over exactly the business keys and
    the member addresses of the source; what else the target holds under
    [__meta__/] (its applied index and term) is kept. *)
Theorem Snapshot_Restore s w t t' :
  members_wf (store_map s) → Snapshot s = Ok w → Restore t w = (t', Ok tt) →
  business (store_map t') = business (store_map s) ∧
  (∀ k, in_range metaMembersPrefix memberPrefixEnd k → store_map t' !! k = store_map s !! k) ∧
  (∀ k, isMetaKey k = true → ¬ in_range metaMembersPrefix memberPrefixEnd k → store_map t' !! k = store_map t !! k).
Proof. apply snapshot_restored. Qed.
End restore.

Section meta.
Context `{PebbleEngine} `{Json MemberAddress, Json snapshotPayload, Json (list KV)}.
Implicit Types s t : PebbleStore.

Lemma read_uint64_ok s key z :
  read_uint64 s key = Ok z → z = match store_map s !! key with None => 0%Z | Some data => decodeUint64 data end.
Proof.
  unfold read_uint64, getDB, lift. destruct (ps_open s); [|done]. cbn [mbind result_bind].
  destruct (pebble_get (ps_db s) key) as [v|] eqn:E; [|done]. cbn. intros [= <-].
  by apply pebble_get_ok in E as ->.
Qed.
(** What [SetAppliedIndex] stores is what [AppliedIndex] reads back, over the
    full uint64 range, and no business key, member or term is touched. *)
Theorem SetAppliedIndex_spec s s' index :
  is_u64 index → SetAppliedIndex s index = (s', Ok tt) →
  (∀ z, AppliedIndex s' = Ok z → z = index) ∧
  business (store_map s') = business (store_map s) ∧
  (∀ k, k ≠ metaAppliedIndexKey → store_map s' !! k = store_map s !! k).
Proof.
  intros Hi Hs. apply db_write_ok in Hs as [Hs _]. cbn [apply_op] in Hs. split; [|split].
  - intros z Hz%read_uint64_ok. rewrite Hs, lookup_insert_eq in Hz. by rewrite Hz, decodeUint64_encode.
  - apply map_eq. intros k. rewrite !business_lookup, Hs. destruct (isMetaKey k) eqn:Hm; [done|].
    rewrite lookup_insert_ne; [done|]. by intros <-.
  - intros k Hk. by rewrite Hs, lookup_insert_ne.
Qed.

Lemma SetMemberAddress_ok s s' id http grpc admin :
  SetMemberAddress s id http grpc admin = (s', Ok tt) →
  id ≠ 0%Z ∧ store_map s' = <[memberAddressKey id := mustJSON (MkMember id http grpc admin)]> (store_map s).
Proof.
  unfold SetMemberAddress. destruct (getDB s); [|done]. destruct (Z.eqb_spec id 0); [done|].
  by intros [? _]%db_write_ok.
Qed.
(** After [SetMemberAddress] the listing, sorted by node id, is the old set with
    this node's address replaced. *)
Theorem SetMemberAddress_spec s s' id http grpc admin ms :
  members_wf (store_map s) → is_u64 id → json_faithful (MkMember id http grpc admin) →
  SetMemberAddress s id http grpc admin = (s', Ok tt) → ListMemberAddresses s' = Ok ms →
  members_wf (store_map s') ∧ StronglySorted node_le ms ∧
  ∀ a, a ∈ ms ↔ a = MkMember id http grpc admin ∨
    ma_NodeID a ≠ id ∧ ∃ k, store_map s !! k = Some (mustJSON a) ∧ member_binding a k (mustJSON a).
Proof.
  intros Hwf Hid Hf [_ Hs]%SetMemberAddress_ok Hl.
  assert (members_wf (store_map s')) as Hwf'.
  { rewrite Hs. intros k v. rewrite lookup_insert_Some. intros [[<- <-]|[_ Hk]] Hr; [|by eapply Hwf].
    exists (MkMember id http grpc admin). done. }
  destruct (ListMemberAddresses_spec _ _ Hwf' Hl) as (Hsort&_&Hms). split; [done|]. split; [done|].
  intros a. rewrite Hms, Hs. split.
  - intros (k&Hk&Hb). destruct Hb as (->&_&Hu&Hfa). rewrite lookup_insert_Some in Hk.
    destruct Hk as [[E Hj]|[Hne Hk]].
    + left. apply (f_equal (json_unmarshal (A := MemberAddress))) in Hj. rewrite !mustJSON_decode in Hj by done. by injection Hj.
    + right. split; [by intros <-|]. eexists. split; [done|]. done.
  - intros [->|(Hne&k&Hk&Hb)].
    + exists (memberAddressKey id). rewrite lookup_insert_eq. done.
    + exists k. rewrite lookup_insert_ne; [done|]. destruct Hb as (->&_&Hu&_).
      intros E. apply Hne. by apply memberAddressKey_inj in E.
Qed.

(** A prefix deletion is the range [[p, p ++ 0xFF)]: it spares keys that have
    0xFF behind the prefix, and with an empty prefix it also deletes the applied
    index and every member address. *)
Theorem DeletePrefix_range s s' n p :
  Apply s (MkCommand OperationDeletePrefix [] [] p) = (s', Ok n) →
  (∀ k, past_ff k p → store_map s' !! k = store_map s !! k) ∧
  (p = [] → (∀ z, AppliedIndex s' = Ok z → z = 0%Z) ∧ ∀ id, store_map s' !! memberAddressKey id = None).
Proof.
  intros [_ Hs]%Apply_effect. unfold cmd_effect in Hs. cbn in Hs. split.
  - intros k Hk. rewrite Hs, map_lookup_filter. destruct (store_map s !! k); cbn; [|done].
    rewrite option_guard_True; [done|]. intros [_ Hn]%range_past. done.
  - intros ->. assert (∀ k, match k with c :: _ => c ≠ byte_ff | [] => True end → store_map s' !! k = None) as Hgone.
    { intros k Hk. rewrite Hs, map_lookup_filter. destruct (store_map s !! k); cbn; [|done].
      rewrite option_guard_False; [done|]. intros Hn. apply Hn. apply (prefix_range []). by destruct k. }
    split.
    + intros z Hz%read_uint64_ok. by rewrite Hgone in Hz.
    + intros id. by apply Hgone.
Qed.
End meta.

(** ** Instances of the properties *)
Definition member_json : Json MemberAddress := bits_json (byte 123) brace_tag.
Definition payload_json : Json snapshotPayload := bits_json (byte 123) brace_tag.
Definition items_json : Json (list KV) := bits_json (byte 91) bracket_tag.
Definition mem_store (m : gmap str str) : @PebbleStore memory_engine := @MkStore memory_engine m true.
Definition source_store : @PebbleStore memory_engine := mem_store {[ lit "k" := lit "v" ]}.
Definition target_store : @PebbleStore memory_engine :=
  mem_store (<[lit "old" := lit "x"]> {[ metaAppliedIndexKey := encodeUint64 7 ]}).
Definition sample_snapshot : str :=
  match @Snapshot memory_engine member_json payload_json source_store with Ok w => w | Err _ => [] end.
Definition restored_store : @PebbleStore memory_engine :=
  (@Restore memory_engine member_json payload_json items_json target_store sample_snapshot).1.
Lemma no_members_wf (m : gmap str str) :
  (∀ k, in_range metaMembersPrefix memberPrefixEnd k → m !! k = None) → @members_wf member_json m.
Proof. intros Hm k v Hk Hr. by rewrite Hm in Hk. Qed.
Lemma Snapshot_Restore_witness :
  business (@store_map memory_engine restored_store) = business (@store_map memory_engine source_store) ∧
  (∀ k, in_range metaMembersPrefix memberPrefixEnd k →
     @store_map memory_engine restored_store !! k = @store_map memory_engine source_store !! k) ∧
  (∀ k, isMetaKey k = true → ¬ in_range metaMembersPrefix memberPrefixEnd k →
     @store_map memory_engine restored_store !! k = @store_map memory_engine target_store !! k).
Proof.
  apply (@Snapshot_Restore memory_engine member_json payload_json items_json ltac:(done) source_store sample_snapshot).
  - apply no_members_wf. intros k Hr. apply lookup_singleton_ne. intros <-. by apply members_range_meta in Hr.
  - apply ok_unpack. vm_compute. reflexivity.
  - apply run_unpack. vm_compute. reflexivity.
Defined.
Definition indexed_store : @PebbleStore memory_engine := (@SetAppliedIndex memory_engine source_store 42).1.
Lemma SetAppliedIndex_spec_witness :
  (∀ z, @AppliedIndex memory_engine indexed_store = Ok z → z = 42%Z) ∧
  business (@store_map memory_engine indexed_store) = business (@store_map memory_engine source_store) ∧
  (∀ k, k ≠ metaAppliedIndexKey → @store_map memory_engine indexed_store !! k = @store_map memory_engine source_store !! k).
Proof. apply (@SetAppliedIndex_spec memory_engine source_store); [by vm_compute|apply run_unpack; by vm_compute]. Defined.
Definition member_store : @PebbleStore memory_engine :=
  (@SetMemberAddress memory_engine member_json source_store 3 (lit "h:1") (lit "g:1") []).1.
Lemma SetMemberAddress_spec_witness :
  @members_wf member_json (@store_map memory_engine member_store) ∧
  StronglySorted node_le [MkMember 3 (lit "h:1") (lit "g:1") []] ∧
  ∀ a, a ∈ [MkMember 3 (lit "h:1") (lit "g:1") []] ↔ a = MkMember 3 (lit "h:1") (lit "g:1") [] ∨
    ma_NodeID a ≠ 3%Z ∧
    ∃ k, @store_map memory_engine source_store !! k = Some (@mustJSON member_json a) ∧
         @member_binding member_json a k (@mustJSON member_json a).
Proof.
  apply (@SetMemberAddress_spec memory_engine member_json source_store member_store).
  - apply no_members_wf. intros k Hr. apply lookup_singleton_ne. intros <-. by apply members_range_meta in Hr.
  - by vm_compute.
  - exact I.
  - apply run_unpack. by vm_compute.
  - apply ok_unpack. by vm_compute.
Defined.
Definition wiped_store : @PebbleStore memory_engine :=
  (@Apply memory_engine target_store (MkCommand OperationDeletePrefix [] [] [])).1.
Lemma DeletePrefix_range_witness :
  (∀ k, past_ff k [] → @store_map memory_engine wiped_store !! k = @store_map memory_engine target_store !! k) ∧
  ([] = @nil ascii → (∀ z, @AppliedIndex memory_engine wiped_store = Ok z → z = 0%Z) ∧
     ∀ id, @store_map memory_engine wiped_store !! memberAddressKey id = None).
Proof. apply (@DeletePrefix_range memory_engine target_store wiped_store 1). apply run_unpack. by vm_compute. Defined.
