(* ===== verification/Snapshot.v ===== *)
(** * Snapshot files ([internal/snapshot/*.go])

    [FileStore] keeps a snapshot as a data file and a metadata file, both written to a
    temporary name and renamed, and prunes old ones.  SHA-256 and JSON are parameters. *)
From Stdlib Require Import Ascii ZArith Sorted.
From stdpp Require Import gmap strings countable list sorting.
From S2P Require Import Prelude GoStrings Codec Files.

Record Metadata := MkMetadata {
  md_Term : Z; md_Index : Z; md_ConfState : str; md_Checksum : str; md_FileSize : Z
}.
#[export] Instance Metadata_eq_dec : EqDecision Metadata.
Proof. solve_decision. Defined.
#[export] Instance Metadata_countable : Countable Metadata.
Proof.
  refine (inj_countable' (λ m, (md_Term m, md_Index m, md_ConfState m, md_Checksum m, md_FileSize m))
    (λ '(a, b, c, d, e), MkMetadata a b c d e) _). by intros [].
Defined.
Inductive SnapErr := errSnapshotNotFound | ErrExport | ErrMetaMarshal | ErrMetaUnmarshal | ErrNoFile (name : str).
#[export] Instance SnapErr_eq_dec : EqDecision SnapErr.
Proof. solve_decision. Defined.
(** What an exporter writes, and whether it fails afterwards. *)
Record Exporter := MkExporter { ex_data : str; ex_fails : bool }.

Definition defaultKeepSnapshots : Z := 2.
Record FileStore := MkFileStore { sn_keep : Z; sn_files : files; sn_trace : list FsOp }.
Definition NewFileStore (f : files) : FileStore := MkFileStore defaultKeepSnapshots f [].
Definition S' (A : Type) : Type := ST FileStore SnapErr A.
Definition do_calls (ops : list FsOp) (s : FileStore) : FileStore :=
  MkFileStore (sn_keep s) (fs_run (sn_files s) ops) (sn_trace s ++ ops).
Definition call (op : FsOp) : S' unit := st_modify (do_calls [op]).

Definition dot_snap : str := lit ".snap".
Definition dot_meta : str := lit ".meta".
Definition snap_tmp_suffix : str := lit ".tmp".
Definition base_name (m : Metadata) : str :=
  lit "snapshot-" ++ Format020 (md_Term m) ++ lit "-" ++ Format020 (md_Index m).
Definition snapshotPath (m : Metadata) : str := base_name m ++ dot_snap.
Definition metadataPath (m : Metadata) : str := base_name m ++ dot_meta.

(** [sort.Slice] by index and term, newest first. *)
Definition newest_le (a b : Metadata) : Prop :=
  (md_Index b < md_Index a)%Z ∨ (md_Index a = md_Index b ∧ (md_Term b ≤ md_Term a)%Z).
#[export] Instance newest_le_dec : RelDecision newest_le.
Proof. intros a b. unfold newest_le. apply _. Defined.
Definition sort_metas (ms : list Metadata) : list Metadata := merge_sort newest_le ms.

Section snapshot.
Context `{Json Metadata} (sha256_hex : str → str).

Definition load_meta (f : files) (metas : list Metadata) (path : str) : result SnapErr (list Metadata) :=
  match f !! path with
  | None => Err (ErrNoFile path)
  | Some data =>
      match json_unmarshal data with
      | None => Err ErrMetaUnmarshal
      | Some meta => Ok (metas ++ [meta])
      end
  end.
Definition listMetadata : S' (list Metadata) :=
  s ← st_get;
  metas ← st_lift (foldM (load_meta (sn_files s)) [] (sorted_names (glob_suffix dot_meta (sn_files s))));
  mret (sort_metas metas).
Definition latestMetadata : S' Metadata :=
  metas ← listMetadata;
  match metas with [] => st_fail errSnapshotNotFound | m :: _ => mret m end.
Definition OpenLatest : S' (Metadata * str) :=
  meta ← latestMetadata;
  s ← st_get;
  match sn_files s !! snapshotPath meta with
  | None => st_fail (ErrNoFile (snapshotPath meta))
  | Some data => mret (meta, data)
  end.
Definition persistMetadata (meta : Metadata) : S' unit :=
  match json_marshal meta with
  | None => st_fail ErrMetaMarshal
  | Some data =>
      call (FCreate (metadataPath meta ++ snap_tmp_suffix));;
      call (FAppend (metadataPath meta ++ snap_tmp_suffix) data);;
      call (FRename (metadataPath meta ++ snap_tmp_suffix) (metadataPath meta))
  end.
Definition remove_pair (m : Metadata) : S' unit :=
  call (FRemove (snapshotPath m));; call (FRemove (metadataPath m)).
Definition Cleanup (keep : Z) : S' unit :=
  s ← st_get;
  let keep := if (keep <=? 0)%Z then sn_keep s else keep in
  metas ← listMetadata;
  if (Z.of_nat (length metas) <=? keep)%Z then mret tt
  else st_iter remove_pair (drop (Z.to_nat keep) metas).
(** [_ = s.Cleanup(...)]: the error is dropped. *)
Definition ignore_err {A} (m : S' A) : S' unit := λ s, ((m s).1, Ok tt).
Definition complete (meta : Metadata) (data : str) : Metadata :=
  MkMetadata (md_Term meta) (md_Index meta) (md_ConfState meta) (sha256_hex data) (Z.of_nat (length data)).
Definition Create (meta : Metadata) (exporter : option Exporter) : S' Metadata :=
  let tmpPath := snapshotPath meta ++ snap_tmp_suffix in
  let data := match exporter with Some e => ex_data e | None => [] end in
  call (FCreate tmpPath);;
  call (FAppend tmpPath data);;
  if match exporter with Some e => ex_fails e | None => false end then st_fail ErrExport
  else
    let meta := complete meta data in
    call (FRename tmpPath (snapshotPath meta));;
    persistMetadata meta;;
    s ← st_get;
    ignore_err (Cleanup (sn_keep s));;
    mret meta.
(** The reader's content; [None] when reading fails. *)
Definition Install (meta : Metadata) (r : Exporter) : S' unit :=
  Create meta (Some r);; mret tt.
End snapshot.

(** ** [memory.go] *)
Record MemoryStore := MkMemoryStore { mst_latest : Metadata; mst_data : str }.
Definition zero_meta : Metadata := MkMetadata 0 0 [] [] 0.
Definition NewMemoryStore : MemoryStore := MkMemoryStore zero_meta [].
Definition sized (meta : Metadata) (n : nat) : Metadata :=
  MkMetadata (md_Term meta) (md_Index meta) (md_ConfState meta) (md_Checksum meta) (Z.of_nat n).
Definition mst_Create (s : MemoryStore) (meta : Metadata) (exporter : option Exporter) : MemoryStore * result SnapErr Metadata :=
  match exporter with
  | Some e =>
      if ex_fails e then (s, Err ErrExport)
      else let meta := sized meta (length (ex_data e)) in (MkMemoryStore meta (ex_data e), Ok meta)
  | None => let meta := sized meta 0 in (MkMemoryStore meta [], Ok meta)
  end.
Definition mst_OpenLatest (s : MemoryStore) : Metadata * str := (mst_latest s, mst_data s).
Definition mst_Install (s : MemoryStore) (meta : Metadata) (r : Exporter) : MemoryStore * result SnapErr unit :=
  if ex_fails r then (s, Err ErrExport)
  else (MkMemoryStore (sized meta (length (ex_data r))) (ex_data r), Ok tt).
Definition mst_Cleanup (s : MemoryStore) (keep : Z) : MemoryStore := s.

(** ** Names *)
Definition meta_u64 (m : Metadata) : Prop := is_u64 (md_Term m) ∧ is_u64 (md_Index m).
Definition same_name (a b : Metadata) : Prop := md_Term a = md_Term b ∧ md_Index a = md_Index b.
Lemma base_name_inj a b : meta_u64 a → meta_u64 b → base_name a = base_name b → same_name a b.
Proof.
  intros [] [] E. unfold base_name in E. apply app_inv_head in E.
  assert (Hl : ∀ z, length (Format020 z) = 20) by (intros; apply length_dec_fixed).
  assert (E1 := f_equal (take 20) E). assert (E2 := f_equal (drop 20) E).
  rewrite !take_app_length' in E1 by done. rewrite !drop_app_length' in E2 by done.
  apply app_inv_head in E2. split; by apply Format020_inj.
Qed.
Lemma HasSuffix_app s t : HasSuffix (s ++ t) t = true.
Proof. unfold HasSuffix. rewrite rev_app_distr. apply HasPrefix_app. Qed.
Lemma snapshotPath_suffix m : HasSuffix (snapshotPath m) dot_meta = false ∧ HasSuffix (snapshotPath m) dot_snap = true.
Proof. split; [unfold HasSuffix, snapshotPath; by rewrite rev_app_distr|apply HasSuffix_app]. Qed.
Lemma metadataPath_suffix m : HasSuffix (metadataPath m) dot_snap = false ∧ HasSuffix (metadataPath m) dot_meta = true.
Proof. split; [unfold HasSuffix, metadataPath; by rewrite rev_app_distr|apply HasSuffix_app]. Qed.
Lemma tmp_suffix p : HasSuffix (p ++ snap_tmp_suffix) dot_snap = false ∧ HasSuffix (p ++ snap_tmp_suffix) dot_meta = false.
Proof. split; unfold HasSuffix; by rewrite rev_app_distr. Qed.
Lemma snapshotPath_inj a b : meta_u64 a → meta_u64 b → snapshotPath a = snapshotPath b → same_name a b.
Proof. intros ?? E. apply base_name_inj; [done..|]. by apply app_inv_tail in E. Qed.
Lemma metadataPath_inj a b : meta_u64 a → meta_u64 b → metadataPath a = metadataPath b → same_name a b.
Proof. intros ?? E. apply base_name_inj; [done..|]. by apply app_inv_tail in E. Qed.

(** ** The order of snapshots *)
#[export] Instance newest_le_trans : Transitive newest_le.
Proof. intros a b c. unfold newest_le. lia. Qed.
#[export] Instance newest_le_total : Total newest_le.
Proof. intros a b. unfold newest_le. lia. Qed.
Definition newest_lt (a b : Metadata) : Prop := newest_le a b ∧ ¬ same_name a b.
#[export] Instance newest_lt_trans : Transitive newest_lt.
Proof. intros a b c. unfold newest_lt, newest_le, same_name. lia. Qed.

Section facts.
Context `{Json Metadata} (sha256_hex : str → str).
Definition meta_ok (m : Metadata) : Prop := meta_u64 m ∧ json_faithful m.
(** The data file belongs to the metadata. *)
Definition data_ok (f : files) (m : Metadata) : Prop := ∃ data,
  f !! snapshotPath m = Some data ∧ md_Checksum m = sha256_hex data ∧ md_FileSize m = Z.of_nat (length data).
(** The directory lists the snapshots [ms], newest first; the [n] newest are complete. *)
Definition store_inv (n : nat) (f : files) (ms : list Metadata) : Prop :=
  StronglySorted newest_lt ms ∧ Forall meta_ok ms ∧
  (∀ m, m ∈ ms → ∃ d, json_marshal m = Some d ∧ f !! metadataPath m = Some d) ∧
  (∀ p, is_Some (f !! p) → HasSuffix p dot_meta = true → ∃ m, m ∈ ms ∧ p = metadataPath m) ∧
  Forall (data_ok f) (take n ms).

Lemma sorted_same ms a b : StronglySorted newest_lt ms → a ∈ ms → b ∈ ms → same_name a b → a = b.
Proof.
  induction 1 as [|x ms Hs IH Hx]; [by intros ?%elem_of_nil|]. rewrite Forall_forall in Hx.
  intros [->|Ha]%elem_of_cons [->|Hb]%elem_of_cons Hab; [done| | |by apply IH].
  - by destruct (proj2 (Hx _ Hb)).
  - destruct (proj2 (Hx _ Ha)). unfold same_name in *. lia.
Qed.
Lemma paths_nodup ms : StronglySorted newest_lt ms → Forall meta_ok ms → NoDup (map metadataPath ms).
Proof.
  induction 1 as [|x ms Hs IH Hx]; intros Hok; cbn; [constructor|]. apply Forall_cons in Hok as [Hxo Hok].
  constructor; [|by apply IH]. intros (y&E&Hy)%list_elem_of_fmap. rewrite Forall_forall in Hx, Hok.
  apply (proj2 (Hx _ Hy)). apply metadataPath_inj; [apply Hxo|apply (Hok _ Hy)|done].
Qed.
(** Reading the metadata files in name order and sorting them gives back the list. *)
Lemma load_metas f ms ps acc :
  (∀ m, m ∈ ms → ∃ d, json_marshal m = Some d ∧ f !! metadataPath m = Some d) → Forall json_faithful ms →
  ps = map metadataPath ms → foldM (load_meta f) acc ps = Ok (acc ++ ms).
Proof.
  intros Hf Hok ->. revert acc; induction ms as [|m ms IH]; intros acc; cbn [map foldM]; [by rewrite app_nil_r|].
  apply Forall_cons in Hok as [Hm Hok]. destruct (Hf m) as (d&Hd&Hfd); [by left|].
  assert (load_meta f acc (metadataPath m) = Ok (acc ++ [m])) as ->.
  { unfold load_meta. rewrite Hfd. destruct (json_roundtrip m Hm) as (d'&Hd'&Hu). rewrite Hd in Hd'. injection Hd' as <-. by rewrite Hu. }
  cbn. rewrite IH; [by rewrite <-app_assoc| |done]. intros; apply Hf; by right.
Qed.
Lemma sorted_newest ms ms' : StronglySorted newest_lt ms → ms' ≡ₚ ms → sort_metas ms' = ms.
Proof.
  intros Hs Hp. unfold sort_metas.
  assert (Hanti : ∀ a b, a ∈ ms → b ∈ ms → newest_le a b → newest_le b a → a = b).
  { intros a b Ha Hb H1 H2. apply (sorted_same ms); try done. unfold same_name, newest_le in *. lia. }
  assert (Hs1 : StronglySorted newest_le (merge_sort newest_le ms')) by (apply StronglySorted_merge_sort; apply _).
  assert (Hs2 : StronglySorted newest_le ms).
  { clear -Hs. induction Hs as [|x l Hs IH Hx]; constructor; [done|]. eapply Forall_impl; [done|]. by intros y []. }
  assert (Hperm : merge_sort newest_le ms' ≡ₚ ms) by (by rewrite merge_sort_Permutation).
  revert Hs1 Hs2 Hperm Hanti. generalize (merge_sort newest_le ms') as l. clear.
  intros l Hl Hms. revert l Hl. induction Hms as [|b ms Hms IH Hb]; intros l Hl Hp Hanti.
  - by apply Permutation_nil_r in Hp.
  - destruct l as [|a l]; [by apply Permutation_nil_l in Hp|]. apply StronglySorted_inv in Hl as [Hl Ha].
    rewrite Forall_forall in Ha, Hb.
    assert (a = b) as ->.
    { assert (Hain : a ∈ b :: ms) by (rewrite <-Hp; by left). assert (Hbin : b ∈ a :: l) by (rewrite Hp; by left).
      apply Hanti; [done|by left| |].
      - apply elem_of_cons in Hbin as [->|Hbin]; [|by apply Ha]. unfold newest_le; lia.
      - apply elem_of_cons in Hain as [->|Hain]; [|by apply Hb]. unfold newest_le; lia. }
    apply Permutation_cons_inv in Hp. f_equal. apply IH; [done|done|].
    intros; apply Hanti; try done; by right.
Qed.
Lemma listMetadata_ok n s ms : store_inv n (sn_files s) ms → listMetadata s = (s, Ok ms).
Proof.
  intros (Hs&Hok&Hf&Hn&_). unfold listMetadata, mbind, ST_bind, st_get, st_lift.
  assert (Hp : sorted_names (glob_suffix dot_meta (sn_files s)) ≡ₚ map metadataPath ms).
  { apply NoDup_Permutation; [apply sorted_names_nodup|by apply paths_nodup|].
    intros p. rewrite sorted_names_elem, list_elem_of_fmap. split.
    - intros [d Hd]. unfold glob_suffix in Hd. apply map_lookup_filter_Some in Hd as [Hd Hsuf].
      destruct (Hn p) as (m&?&->); [by exists d|done|]. by exists m.
    - intros (m&->&Hm). rewrite glob_lookup by apply metadataPath_suffix. destruct (Hf _ Hm) as (d&_&->). done. }
  apply Permutation_map_inv in Hp as (ms'&E&Hp).
  rewrite (load_metas _ ms' _ []).
  - cbn [app]. by rewrite (sorted_newest ms ms').
  - intros m Hm. apply Hf. by rewrite Hp.
  - rewrite <-Hp. eapply Forall_impl; [done|]. by intros m [].
  - done.
Qed.
Lemma OpenLatest_ok n s m ms : store_inv (S n) (sn_files s) (m :: ms) → ∃ data,
  OpenLatest s = (s, Ok (m, data)) ∧ md_Checksum m = sha256_hex data ∧ md_FileSize m = Z.of_nat (length data) ∧
  sn_files s !! snapshotPath m = Some data.
Proof.
  intros Hi. pose proof Hi as (_&_&_&_&[(data&Hd&?&?) _]%Forall_cons). exists data.
  split; [|done]. unfold OpenLatest, latestMetadata, mbind, ST_bind. rewrite (listMetadata_ok _ _ _ Hi).
  unfold mret, ST_ret, st_get. by rewrite Hd.
Qed.
Lemma OpenLatest_none n s : store_inv n (sn_files s) [] → OpenLatest s = (s, Err errSnapshotNotFound).
Proof. intros Hi. unfold OpenLatest, latestMetadata, mbind, ST_bind. by rewrite (listMetadata_ok _ _ _ Hi). Qed.

(** Files that are neither metadata nor one of the [n] newest data files do not matter. *)
Lemma inv_agree n f g ms :
  (∀ p, HasSuffix p dot_meta = true → g !! p = f !! p) →
  (∀ m, m ∈ take n ms → g !! snapshotPath m = f !! snapshotPath m) →
  store_inv n f ms → store_inv n g ms.
Proof.
  intros Hm Hsn (Hs&Hok&Hf&Hn&Hd). split_and!; try done.
  - intros m Hin. destruct (Hf _ Hin) as (d&?&?). exists d. split; [done|]. by rewrite Hm by apply metadataPath_suffix.
  - intros p [d Hp] Hsuf. apply Hn; [|done]. rewrite Hm in Hp by done. by exists d.
  - rewrite Forall_forall in *. intros m Hin. destruct (Hd _ Hin) as (d&?&?). exists d. by rewrite Hsn.
Qed.
Lemma inv_agree_tmp n f g ms p :
  (∀ q, q ≠ p ++ snap_tmp_suffix → g !! q = f !! q) → store_inv n f ms → store_inv n g ms.
Proof.
  intros Hg. destruct (tmp_suffix p) as [H1 H2]. apply inv_agree; intros x Hx; apply Hg; intros E.
  - congruence.
  - pose proof (proj2 (snapshotPath_suffix x)). congruence.
Qed.
(** ** One more snapshot *)
Lemma insert_newest ms x :
  StronglySorted newest_lt ms → (∀ m, m ∈ ms → ¬ same_name m x) →
  ∃ l1 l2, ms = l1 ++ l2 ∧ StronglySorted newest_lt (l1 ++ x :: l2).
Proof.
  induction 1 as [|y ms Hs IH Hy]; intros Hx; [exists [], []; by repeat constructor|].
  assert (Hxy : ¬ same_name y x) by (apply Hx; by left).
  destruct (decide (newest_le x y)) as [Hle|Hle].
  - assert (newest_lt x y) by (split; [done|unfold same_name in *; lia]).
    exists [], (y :: ms). split; [done|]. constructor; [by constructor|]. constructor; [done|].
    eapply Forall_impl; [done|]. intros z Hz. by etrans.
  - destruct IH as (l1&l2&->&Hs'); [intros; apply Hx; by right|].
    exists (y :: l1), l2. split; [done|]. cbn. constructor; [done|].
    apply Forall_app in Hy as [Hy1 Hy2]. apply Forall_app. split; [done|]. constructor; [|done].
    split; [|done]. destruct (total newest_le x y); done.
Qed.
Lemma sort_insert ms x :
  StronglySorted newest_lt ms → (∀ m, m ∈ ms → ¬ same_name m x) →
  ∃ l1 l2, ms = l1 ++ l2 ∧ sort_metas (x :: ms) = l1 ++ x :: l2 ∧ StronglySorted newest_lt (sort_metas (x :: ms)).
Proof.
  intros Hs Hx. destruct (insert_newest ms x Hs Hx) as (l1&l2&->&Hs').
  assert (E : sort_metas (x :: l1 ++ l2) = l1 ++ x :: l2).
  { apply sorted_newest; [done|]. by rewrite <-Permutation_middle. }
  exists l1, l2. by rewrite E.
Qed.
Lemma take_insert {A} n (l1 l2 : list A) x y : y ∈ take n (l1 ++ x :: l2) → y = x ∨ y ∈ take n (l1 ++ l2).
Proof.
  rewrite !elem_of_take. intros (i&Hi&Hn). destruct (decide (i = length l1)) as [->|Hne].
  - rewrite list_lookup_middle in Hi by done. left. congruence.
  - right. destruct (decide (i < length l1)) as [Hlt|Hge].
    + exists i. rewrite lookup_app_l in * by done. done.
    + exists (i - 1). rewrite lookup_app_r in Hi |- * by lia. split; [|lia].
      rewrite <-Hi. by replace (i - length l1) with (S (i - 1 - length l1)) by lia.
Qed.
(** The calls of [Create]: the data file, the metadata file, the removals. *)
Definition write_ops (p data : str) : list FsOp :=
  [FCreate (p ++ snap_tmp_suffix); FAppend (p ++ snap_tmp_suffix) data; FRename (p ++ snap_tmp_suffix) p].
Definition pair_ops (ms : list Metadata) : list FsOp :=
  concat (map (λ m, [FRemove (snapshotPath m); FRemove (metadataPath m)]) ms).
(** A crash of write-and-rename leaves the old file or the new one, besides the temporary. *)
Lemma write_crash f p data g : p ≠ p ++ snap_tmp_suffix → crash f (write_ops p data) g →
  (∀ q, q ≠ p ++ snap_tmp_suffix → g !! q = f !! q) ∨
  g !! p = Some data ∧ (∀ q, q ≠ p → q ≠ p ++ snap_tmp_suffix → g !! q = f !! q).
Proof.
  intros Hp Hc. unfold write_ops in Hc.
  apply crash_cons in Hc as [->|[Hc|(?&?&?&?&_)]]; [by left| |done].
  apply crash_cons in Hc as [->|[Hc|(n&d1&d'&[= <- <-]&_&->)]].
  - left. intros q Hq. cbn [fs_exec]. by rewrite lookup_insert_ne.
  - apply crash_cons in Hc as [->|[->%crash_nil|(?&?&?&?&_)]]; [left| |done].
    + intros q Hq. cbn [fs_exec]. by rewrite lookup_alter_ne, lookup_insert_ne.
    + right. cbn [fs_exec]. rewrite lookup_alter_eq, lookup_insert_eq. cbn [fmap option_fmap option_map app].
      split; [by rewrite lookup_insert_eq|]. intros q Hq Ht.
      by rewrite lookup_insert_ne, lookup_delete_ne, lookup_alter_ne, lookup_insert_ne.
  - left. intros q Hq. cbn [fs_exec]. by rewrite lookup_alter_ne, lookup_insert_ne.
Qed.
Lemma write_run f p data : p ≠ p ++ snap_tmp_suffix →
  fs_run f (write_ops p data) !! p = Some data ∧
  (∀ q, q ≠ p → q ≠ p ++ snap_tmp_suffix → fs_run f (write_ops p data) !! q = f !! q).
Proof.
  intros Hp. unfold fs_run, write_ops. cbn [fold_left fs_exec]. rewrite lookup_alter_eq, lookup_insert_eq.
  cbn [fmap option_fmap option_map app]. split; [by rewrite lookup_insert_eq|]. intros q Hq Ht.
  by rewrite lookup_insert_ne, lookup_delete_ne, lookup_alter_ne, lookup_insert_ne.
Qed.
Lemma path_not_tmp m : snapshotPath m ≠ snapshotPath m ++ snap_tmp_suffix ∧ metadataPath m ≠ metadataPath m ++ snap_tmp_suffix.
Proof.
  split; intros E.
  - pose proof (proj2 (snapshotPath_suffix m)) as Hs. pose proof (proj1 (tmp_suffix (snapshotPath m))). congruence.
  - pose proof (proj2 (metadataPath_suffix m)) as Hs. pose proof (proj2 (tmp_suffix (metadataPath m))). congruence.
Qed.
(** The data file is new. *)
Lemma data_step n f g ms x data :
  store_inv n f ms → meta_u64 x → (∀ m, m ∈ ms → ¬ same_name m x) →
  g !! snapshotPath x = Some data →
  (∀ q, q ≠ snapshotPath x → q ≠ snapshotPath x ++ snap_tmp_suffix → g !! q = f !! q) →
  store_inv n g ms ∧ data_ok g (complete sha256_hex x data).
Proof.
  intros Hi Hx Hfresh Hg Ho. split; [|by exists data]. pose proof Hi as (_&Hok&_).
  revert Hi. apply inv_agree.
  - intros p Hp. apply Ho; intros ->.
    + pose proof (proj1 (snapshotPath_suffix x)). congruence.
    + pose proof (proj2 (tmp_suffix (snapshotPath x))). congruence.
  - intros m Hm. assert (Hin : m ∈ ms) by (by apply elem_of_take in Hm as (?&?%list_elem_of_lookup_2&_)).
    rewrite Forall_forall in Hok. apply Ho.
    + intros E. apply (Hfresh m Hin). apply snapshotPath_inj; [apply Hok|..]; done.
    + intros E. pose proof (proj2 (snapshotPath_suffix m)). pose proof (proj1 (tmp_suffix (snapshotPath x))). congruence.
Qed.
(** The metadata file makes the snapshot visible. *)
Lemma meta_step n f g ms x d :
  store_inv n f ms → data_ok f x → meta_ok x → (∀ m, m ∈ ms → ¬ same_name m x) →
  json_marshal x = Some d → g !! metadataPath x = Some d →
  (∀ q, q ≠ metadataPath x → q ≠ metadataPath x ++ snap_tmp_suffix → g !! q = f !! q) →
  store_inv n g (sort_metas (x :: ms)).
Proof.
  intros (Hs&Hok&Hf&Hn&Hd) Hdx Hx Hfresh Hj Hg Ho.
  destruct (sort_insert ms x Hs Hfresh) as (l1&l2&Hms&Hsort&Hs').
  assert (Hperm : sort_metas (x :: ms) ≡ₚ x :: ms) by apply merge_sort_Permutation.
  assert (Hdata : ∀ m, data_ok f m → data_ok g m).
  { intros m (dd&Hdd&?). exists dd. rewrite Ho; [done|..]; intros E.
    - pose proof (proj2 (snapshotPath_suffix m)). pose proof (proj1 (metadataPath_suffix x)). congruence.
    - pose proof (proj2 (snapshotPath_suffix m)). pose proof (proj1 (tmp_suffix (metadataPath x))). congruence. }
  assert (Htmp : ∀ p, HasSuffix p dot_meta = true → p ≠ metadataPath x ++ snap_tmp_suffix).
  { intros p Hp ->. pose proof (proj2 (tmp_suffix (metadataPath x))). congruence. }
  split_and!; [done| | | |].
  - rewrite Hperm. by constructor.
  - intros m Hm. rewrite Hperm in Hm. apply elem_of_cons in Hm as [->|Hm]; [by exists d|].
    destruct (Hf _ Hm) as (dm&?&?). exists dm. split; [done|]. rewrite Forall_forall in Hok.
    rewrite Ho; [done| |apply Htmp, metadataPath_suffix].
    intros E. apply (Hfresh m Hm). apply metadataPath_inj; [apply Hok|apply Hx|]; done.
  - intros p Hp Hsuf. destruct (decide (p = metadataPath x)) as [->|Hne].
    + exists x. split; [|done]. rewrite Hperm. by left.
    + rewrite Ho in Hp by (done || by apply Htmp). destruct (Hn p Hp Hsuf) as (m&Hm&->).
      exists m. split; [|done]. rewrite Hperm. by right.
  - rewrite Forall_forall in *. intros m Hm. apply Hdata. rewrite Hsort in Hm.
    apply take_insert in Hm as [->|Hm]; [done|]. apply Hd. by rewrite Hms.
Qed.
(** Removing an old snapshot: first its data, then its metadata. *)
Lemma remove_step n f A m B :
  store_inv n f (A ++ m :: B) → n ≤ length A →
  store_inv n (delete (snapshotPath m) f) (A ++ m :: B) ∧
  store_inv n (delete (metadataPath m) (delete (snapshotPath m) f)) (A ++ B).
Proof.
  intros Hi Hn. pose proof Hi as (Hs&Hok&Hf&Hl&Hd).
  assert (Hmid : ∀ x, x ∈ A ∨ x ∈ B → ¬ same_name x m).
  { intros x Hx. apply StronglySorted_app in Hs as (H1&H2&H3). apply StronglySorted_inv in H3 as [_ H3].
    destruct Hx as [Hx|Hx]; [apply (H1 x m Hx); by left|]. rewrite Forall_forall in H3.
    pose proof (proj2 (H3 _ Hx)). unfold same_name in *. lia. }
  assert (Hok' : ∀ x, x ∈ A ++ m :: B → meta_u64 x) by (rewrite Forall_forall in Hok; intros x Hx; by apply Hok).
  assert (Hmin : m ∈ A ++ m :: B) by (apply elem_of_app; right; by left).
  assert (H1 : store_inv n (delete (snapshotPath m) f) (A ++ m :: B)).
  { revert Hi. apply inv_agree.
    - intros p Hp. rewrite lookup_delete_ne; [done|]. intros <-. pose proof (proj1 (snapshotPath_suffix m)). congruence.
    - intros x Hx. rewrite take_app_le in Hx by done. apply elem_of_take in Hx as (k&Hk&_). apply list_elem_of_lookup_2 in Hk.
      rewrite lookup_delete_ne; [done|]. intros E. apply (Hmid x); [by left|].
      apply snapshotPath_inj; [apply Hok', elem_of_app; by left|by apply Hok'|done]. }
  split; [done|]. destruct H1 as (_&_&Hf1&Hl1&Hd1). set (g := delete (snapshotPath m) f) in *.
  split_and!.
  - apply StronglySorted_app in Hs as (HA&HB&HC). apply StronglySorted_app. split_and!; [|done|by apply StronglySorted_inv in HC as []].
    intros x y Hx Hy. apply HA; [done|by right].
  - apply Forall_app in Hok as [? [_ ?]%Forall_cons]. by apply Forall_app.
  - intros x Hx. assert (Hx' : x ∈ A ++ m :: B) by (rewrite elem_of_app in *; rewrite elem_of_cons; tauto).
    destruct (Hf1 x Hx') as (d&?&?). exists d. split; [done|]. rewrite lookup_delete_ne; [done|].
    intros E. apply (Hmid x); [by apply elem_of_app|]. apply metadataPath_inj; [by apply Hok'|by apply Hok'|done].
  - intros p [d Hp] Hsuf. destruct (decide (p = metadataPath m)) as [->|Hne]; [by rewrite lookup_delete_eq in Hp|].
    rewrite lookup_delete_ne in Hp by done. destruct (Hl1 p) as (x&Hx&->); [by exists d|done|].
    exists x. split; [|done]. rewrite elem_of_app, elem_of_cons in Hx. apply elem_of_app.
    destruct Hx as [?|[->|?]]; [by left|done|by right].
  - rewrite take_app_le in Hd1 |- * by done. rewrite Forall_forall in *. intros x Hx. destruct (Hd1 _ Hx) as (d&?&?).
    exists d. rewrite lookup_delete_ne; [done|]. intros E.
    pose proof (proj2 (snapshotPath_suffix x)). pose proof (proj1 (metadataPath_suffix m)). congruence.
Qed.
Lemma pair_crash n f A B g :
  store_inv n f (A ++ B) → n ≤ length A → crash f (pair_ops B) g → ∃ B', store_inv n g (A ++ B').
Proof.
  intros Hi Hn. revert f Hi. induction B as [|m B IH]; intros f Hi Hc.
  - apply crash_nil in Hc as ->. by exists [].
  - destruct (remove_step _ _ _ _ _ Hi Hn) as [H1 H2]. cbn in Hc.
    apply crash_cons in Hc as [->|[Hc|(?&?&?&?&_)]]; [by exists (m :: B)| |done].
    apply crash_cons in Hc as [->|[Hc|(?&?&?&?&_)]]; [by exists (m :: B)| |done].
    by apply (IH _ H2).
Qed.
Lemma pair_run n f A B : store_inv n f (A ++ B) → n ≤ length A → store_inv n (fs_run f (pair_ops B)) A.
Proof.
  intros Hi Hn. revert f Hi. induction B as [|m B IH]; intros f Hi; [by rewrite app_nil_r in Hi|].
  apply (IH (delete (metadataPath m) (delete (snapshotPath m) f))). by apply remove_step.
Qed.
(** *** The calls of [Create] *)
Lemma do_calls_app a b s : do_calls b (do_calls a s) = do_calls (a ++ b) s.
Proof. unfold do_calls; cbn. by rewrite fs_run_app, app_assoc. Qed.
Lemma call_bind {A} op (k : unit → S' A) s : (call op ≫= k) s = k tt (do_calls [op] s).
Proof. done. Qed.
Lemma remove_pairs_ok ms s : st_iter remove_pair ms s = (do_calls (pair_ops ms) s, Ok tt).
Proof.
  revert s; induction ms as [|m ms IH]; intros s; cbn [st_iter].
  - unfold do_calls. cbn. rewrite app_nil_r. by destruct s.
  - rewrite (st_bind_ok (remove_pair m) _ s (do_calls [FRemove (snapshotPath m); FRemove (metadataPath m)] s) tt).
    + rewrite IH, do_calls_app. done.
    + unfold remove_pair. rewrite call_bind. unfold call, st_modify. by rewrite do_calls_app.
Qed.
Lemma Cleanup_ok n s ms keep :
  store_inv n (sn_files s) ms → (0 < keep)%Z →
  Cleanup keep s = (do_calls (pair_ops (drop (Z.to_nat keep) ms)) s, Ok tt).
Proof.
  intros Hi Hk. unfold Cleanup, mbind, ST_bind, st_get. rewrite (proj2 (Z.leb_gt _ _)) by done.
  cbv zeta. rewrite (listMetadata_ok _ _ _ Hi). destruct (Z.leb_spec (Z.of_nat (length ms)) keep).
  - rewrite drop_ge by lia. cbn. unfold do_calls. cbn. rewrite app_nil_r. by destruct s.
  - apply remove_pairs_ok.
Qed.
(** The completed metadata is fit for the store. *)
Definition fresh (ms : list Metadata) (x : Metadata) : Prop := ∀ m, m ∈ ms → ¬ same_name m x.
Definition syscalls {A} (m : S' A) (s : FileStore) : list FsOp := drop (length (sn_trace s)) (sn_trace (m s).1).
Definition create_ops (x : Metadata) (data d : str) (ms : list Metadata) : list FsOp :=
  write_ops (snapshotPath x) data ++ write_ops (metadataPath x) d ++
  pair_ops (drop 2 (sort_metas (complete sha256_hex x data :: ms))).
Lemma create_steps f ms x data d :
  store_inv 2 f ms → fresh ms x → meta_ok (complete sha256_hex x data) → json_marshal (complete sha256_hex x data) = Some d →
  let f1 := fs_run f (write_ops (snapshotPath x) data) in
  let f2 := fs_run f1 (write_ops (metadataPath x) d) in
  store_inv 2 f1 ms ∧ data_ok f1 (complete sha256_hex x data) ∧
  store_inv 2 f2 (sort_metas (complete sha256_hex x data :: ms)).
Proof.
  intros Hi Hfr Hx Hj f1 f2. set (x' := complete sha256_hex x data) in *.
  destruct (write_run f (snapshotPath x) data (proj1 (path_not_tmp x))) as [Hw1 Hw2].
  destruct (data_step 2 f f1 ms x data Hi (proj1 Hx) Hfr Hw1 Hw2) as [Hi1 Hd1].
  destruct (write_run f1 (metadataPath x') d (proj2 (path_not_tmp x'))) as [Hw3 Hw4].
  split; [done|]. split; [done|]. by apply (meta_step 2 f1 f2 ms x' d).
Qed.
Lemma Create_run s ms x data :
  sn_keep s = 2%Z → store_inv 2 (sn_files s) ms → fresh ms x → meta_ok (complete sha256_hex x data) →
  ∃ d, json_marshal (complete sha256_hex x data) = Some d ∧
  Create sha256_hex x (Some (MkExporter data false)) s =
    (do_calls (create_ops x data d ms) s, Ok (complete sha256_hex x data)).
Proof.
  intros Hk Hi Hfr Hx. destruct (json_roundtrip _ (proj2 Hx)) as (d&Hd&_). exists d. split; [done|].
  destruct (create_steps _ _ _ _ _ Hi Hfr Hx Hd) as (_&_&Hi2). unfold Create. cbv zeta. cbn [ex_data ex_fails].
  rewrite !call_bind. unfold persistMetadata. rewrite Hd.
  set (s1 := do_calls [_] (do_calls [_] (do_calls [_] s))).
  assert (Hs1 : s1 = do_calls (write_ops (snapshotPath x) data) s) by (unfold s1; by rewrite !do_calls_app).
  unfold mbind at 1, ST_bind at 1. rewrite !call_bind. unfold call at 1, st_modify at 1.
  set (s2 := do_calls [_] (do_calls [_] (do_calls [_] s1))).
  assert (Hs2 : s2 = do_calls (write_ops (snapshotPath x) data ++ write_ops (metadataPath x) d) s).
  { unfold s2. rewrite !do_calls_app, Hs1, do_calls_app. done. }
  assert (Hi2' : store_inv 2 (sn_files s2) (sort_metas (complete sha256_hex x data :: ms))).
  { rewrite Hs2. cbn [do_calls sn_files]. by rewrite fs_run_app. }
  unfold mbind, ST_bind, st_get, ignore_err.
  rewrite (Cleanup_ok 2 s2 _ (sn_keep s2) Hi2') by (rewrite Hs2; cbn; lia). cbn [fst].
  assert (sn_keep s2 = 2%Z) as -> by (rewrite Hs2; exact Hk). rewrite Hs2, do_calls_app.
  unfold create_ops. by rewrite <-app_assoc.
Qed.
Lemma pair_lookup f B p :
  (∀ m, m ∈ B → p ≠ snapshotPath m ∧ p ≠ metadataPath m) → fs_run f (pair_ops B) !! p = f !! p.
Proof.
  revert f; induction B as [|m B IH]; intros f Hp; [done|].
  assert (fs_run f (pair_ops (m :: B)) = fs_run (delete (metadataPath m) (delete (snapshotPath m) f)) (pair_ops B)) as -> by done.
  rewrite IH by (intros; apply Hp; by right). destruct (Hp m) as [? ?]; [by left|]. by rewrite !lookup_delete_ne.
Qed.
(** What [OpenLatest] finds: the newest of a listing, complete, or nothing. *)
Definition latest_is (f : files) (o : option Metadata) : Prop :=
  match o with
  | None => (OpenLatest (NewFileStore f)).2 = Err errSnapshotNotFound
  | Some m => ∃ data, (OpenLatest (NewFileStore f)).2 = Ok (m, data) ∧
      md_Checksum m = sha256_hex data ∧ md_FileSize m = Z.of_nat (length data)
  end.
Lemma inv_latest n f ms : store_inv (S n) f ms → latest_is f (head ms).
Proof.
  intros Hi. destruct ms as [|m ms]; cbn.
  - by rewrite (OpenLatest_none (S n)).
  - destruct (OpenLatest_ok n (NewFileStore f) m ms Hi) as (data&->&?&?&_). by exists data.
Qed.
Lemma head_take {A} n (l : list A) B : head (take (S n) l ++ B) = head l ∨ l = [].
Proof. destruct l; [by right|by left]. Qed.

Lemma create_newest s ms x data :
  sn_keep s = 2%Z → store_inv 2 (sn_files s) ms → meta_ok (complete sha256_hex x data) →
  (∀ m, m ∈ ms → newest_lt x m) →
  ∃ s', Create sha256_hex x (Some (MkExporter data false)) s = (s', Ok (complete sha256_hex x data)) ∧
    OpenLatest s' = (s', Ok (complete sha256_hex x data, data)) ∧
    sn_keep s' = 2%Z ∧ store_inv 2 (sn_files s') (complete sha256_hex x data :: take 1 ms).
Proof.
  intros Hk Hi Hx Hnew. set (x' := complete sha256_hex x data) in *.
  assert (Hfr : fresh ms x) by (intros m Hm Hs; apply (proj2 (Hnew m Hm)); unfold same_name in *; lia).
  destruct (Create_run s ms x data Hk Hi Hfr Hx) as (d&Hd&Hrun). eexists. split; [exact Hrun|].
  destruct (create_steps _ _ _ _ _ Hi Hfr Hx Hd) as (_&Hdata&Hi2). fold x' in Hi2, Hdata.
  assert (Hsort : sort_metas (x' :: ms) = x' :: ms).
  { apply sorted_newest; [|done]. constructor; [apply Hi|]. apply Forall_forall. intros m Hm.
    destruct (Hnew m Hm) as [H1 H2]. split; [|unfold same_name in *; cbn; lia]. unfold newest_le in *. cbn. lia. }
  set (s' := do_calls _ s).
  assert (Hi' : store_inv 2 (sn_files s') (x' :: take 1 ms)).
  { unfold s', create_ops. cbn [do_calls sn_files]. rewrite !fs_run_app. fold x'. rewrite Hsort.
    rewrite Hsort in Hi2. change (x' :: ms) with ([x'] ++ ms) in Hi2.
    rewrite <-(take_drop 1 ms) in Hi2. change ([x'] ++ take 1 ms ++ drop 1 ms) with ((x' :: take 1 ms) ++ drop 1 ms) in Hi2.
    destruct ms as [|m ms]; [exact Hi2|]. apply (pair_run 2 _ (x' :: take 1 (m :: ms))); [done|cbn; lia]. }
  split; [|split; [exact Hk|exact Hi']]. destruct (OpenLatest_ok 1 s' x' (take 1 ms) Hi') as (data'&->&_&_&Hf).
  do 2 f_equal. f_equal.
  (* the data file is not touched after it was written *)
  enough (sn_files s' !! snapshotPath x' = Some data) by congruence.
  unfold s', create_ops. cbn [do_calls sn_files]. fold x'. rewrite !fs_run_app, Hsort, pair_lookup.
  - destruct (write_run (sn_files s) (snapshotPath x) data (proj1 (path_not_tmp x))) as [Hw1 _].
    destruct (write_run (fs_run (sn_files s) (write_ops (snapshotPath x) data)) (metadataPath x) d (proj2 (path_not_tmp x))) as [_ Hw2].
    rewrite Hw2; [exact Hw1|..]; intros E; pose proof (proj2 (snapshotPath_suffix x')) as Hsx; rewrite E in Hsx.
    + pose proof (proj1 (metadataPath_suffix x)). congruence.
    + pose proof (proj1 (tmp_suffix (metadataPath x))). congruence.
  - intros m Hm. assert (Hin : m ∈ ms).
    { cbn in Hm. apply list_elem_of_lookup in Hm as [k Hk']. rewrite lookup_drop in Hk'. by eapply list_elem_of_lookup_2. }
    destruct Hi as (_&Hok&_). rewrite Forall_forall in Hok. split; intros E.
    + apply (Hfr m Hin). destruct (snapshotPath_inj x' m) as [? ?]; [apply Hx|by apply Hok|done|]. split; [by symmetry|by symmetry].
    + pose proof (proj2 (snapshotPath_suffix x')). pose proof (proj1 (metadataPath_suffix m)). congruence.
Qed.

(** Pruning never touches the newest snapshot. *)
Lemma store_inv_short f ms n k : length ms ≤ n → store_inv n f ms → store_inv k f ms.
Proof.
  intros Hl (H1'&H2'&H3'&H4'&H5'). split_and!; try done. rewrite take_ge in H5' by done.
  rewrite <-(take_drop k ms) in H5'. by apply Forall_app in H5' as [? _].
Qed.
Lemma store_inv_less f ms n k : k ≤ n → store_inv n f ms → store_inv k f ms.
Proof.
  intros Hl (H1'&H2'&H3'&H4'&H5'). split_and!; try done.
  replace (take k ms) with (take k (take n ms)) by (rewrite take_take; f_equal; lia). by apply Forall_take.
Qed.
Lemma Cleanup_newest s m ms keep : store_inv 2 (sn_files s) (m :: ms) → (0 < keep)%Z →
  ∃ s' ms', Cleanup keep s = (s', Ok tt) ∧ sn_keep s' = sn_keep s ∧ store_inv 2 (sn_files s') (m :: ms') ∧
    sn_files s' !! snapshotPath m = sn_files s !! snapshotPath m.
Proof.
  intros Hi Hk. destruct (Z.to_nat keep) as [|k] eqn:Ek; [lia|].
  pose proof Hi as (Hs&Hok&_). rewrite (Cleanup_ok 2 _ _ _ Hi Hk), Ek. cbn [drop].
  eexists _, (take k ms). split; [done|]. split; [done|]. cbn [do_calls sn_files]. split.
  - assert (m :: ms = (m :: take k ms) ++ drop k ms) as E by (cbn; by rewrite take_drop).
    destruct (decide (length ms ≤ k)) as [Hl|Hl].
    { rewrite drop_ge, take_ge by done. exact Hi. }
    destruct k as [|k].
    + apply (store_inv_short _ _ 1); [done|]. apply (pair_run 1); [|cbn; lia]. apply (store_inv_less _ _ 2); [lia|exact Hi].
    + rewrite E in Hi. apply (pair_run 2); [exact Hi|cbn; rewrite length_take; lia].
  - apply pair_lookup. intros m' Hm'.
    assert (Hin : m' ∈ ms) by (rewrite <-(take_drop k ms); apply elem_of_app; by right).
    apply StronglySorted_inv in Hs as [_ Hall]. rewrite Forall_forall in Hall, Hok. split; intros E.
    + apply (proj2 (Hall _ Hin)). apply (snapshotPath_inj m m'); [apply Hok; left|apply Hok; by right|done].
    + pose proof (proj2 (snapshotPath_suffix m)). pose proof (proj1 (metadataPath_suffix m')). congruence.
Qed.

(** The directory after a write-and-rename, and after the removal of snapshots. *)
Lemma write_files f p data q : p ≠ p ++ snap_tmp_suffix → fs_run f (write_ops p data) !! q =
  if decide (q = p) then Some data else if decide (q = p ++ snap_tmp_suffix) then None else f !! q.
Proof.
  intros Hp. destruct (write_run f p data Hp) as [Hw Ho]. destruct (decide (q = p)) as [->|Hqp]; [done|].
  destruct (decide (q = p ++ snap_tmp_suffix)) as [->|Hqt]; [|by apply Ho].
  unfold fs_run, write_ops. cbn [fold_left fs_exec]. rewrite lookup_alter_eq, lookup_insert_eq.
  cbn [fmap option_fmap option_map]. by rewrite lookup_insert_ne, lookup_delete_eq.
Qed.
Definition pair_paths (ms : list Metadata) : list str := concat (map (λ m, [snapshotPath m; metadataPath m]) ms).
Lemma pair_paths_elem ms p : p ∈ pair_paths ms ↔ ∃ m, m ∈ ms ∧ (p = snapshotPath m ∨ p = metadataPath m).
Proof.
  induction ms as [|m ms IH].
  - split; [by intros ?%elem_of_nil|by intros (m&?%elem_of_nil&_)].
  - change (pair_paths (m :: ms)) with (snapshotPath m :: metadataPath m :: pair_paths ms). rewrite !elem_of_cons, IH. set_solver.
Qed.
Lemma pair_files f ms p : fs_run f (pair_ops ms) !! p = if decide (p ∈ pair_paths ms) then None else f !! p.
Proof.
  revert f; induction ms as [|m ms IH]; intros f; [done|].
  change (fs_run f (pair_ops (m :: ms))) with (fs_run (delete (metadataPath m) (delete (snapshotPath m) f)) (pair_ops ms)).
  change (pair_paths (m :: ms)) with (snapshotPath m :: metadataPath m :: pair_paths ms). rewrite IH.
  destruct (decide (p ∈ pair_paths ms)) as [Hin|Hout]; [by rewrite decide_True by (by do 2 right)|].
  destruct (decide (p = metadataPath m)) as [->|Hm]; [rewrite lookup_delete_eq, decide_True by (right; by left); done|].
  destruct (decide (p = snapshotPath m)) as [->|Hs]; [rewrite lookup_delete_ne, lookup_delete_eq, decide_True by (done || by left); done|].
  rewrite !lookup_delete_ne, decide_False by (done || by rewrite !elem_of_cons; intros [|[|]]). done.
Qed.
(** What [Create] removes: its temporary files, and all but the newest of the stored snapshots. *)
Definition removed_by (x : Metadata) (ms : list Metadata) : list str :=
  (snapshotPath x ++ snap_tmp_suffix) :: (metadataPath x ++ snap_tmp_suffix) :: pair_paths (drop 1 ms).
Definition files_after (f : files) (x : Metadata) (data d : str) (ms : list Metadata) (p : str) : option str :=
  if decide (p = snapshotPath x) then Some data else if decide (p = metadataPath x) then Some d
  else if decide (p ∈ removed_by x ms) then None else f !! p.
Lemma create_files f x data d ms : meta_u64 x → Forall meta_ok ms → fresh ms x → sort_metas (complete sha256_hex x data :: ms) = complete sha256_hex x data :: ms →
  ∀ p, fs_run f (create_ops x data d ms) !! p = files_after f x data d ms p.
Proof.
  intros Hx Hok Hfr Hsort p. unfold create_ops. rewrite !fs_run_app, Hsort, pair_files. cbn [drop].
  rewrite !write_files by apply path_not_tmp. unfold files_after, removed_by.
  assert (Hold : ∀ q, q ∈ pair_paths (drop 1 ms) → q ≠ snapshotPath x ∧ q ≠ metadataPath x).
  { intros q (m&Hm&Hq)%pair_paths_elem. assert (Hin : m ∈ ms) by (rewrite <-(take_drop 1 ms); apply elem_of_app; by right).
    rewrite Forall_forall in Hok. destruct (Hok m Hin) as [Hu _]. pose proof (snapshotPath_suffix m). pose proof (metadataPath_suffix m).
    pose proof (snapshotPath_suffix x). pose proof (metadataPath_suffix x).
    destruct Hq as [->| ->]; (split; intros E; [try (apply (Hfr m Hin), snapshotPath_inj; done)|try (apply (Hfr m Hin), metadataPath_inj; done)]);
      rewrite E in *; naive_solver congruence. }
  pose proof (snapshotPath_suffix x) as [Hs1 Hs2]. pose proof (tmp_suffix (metadataPath x)) as [Ht1 _].
  destruct (decide (p = snapshotPath x)) as [->|Hps].
  - rewrite decide_False by (intros Hin; by destruct (Hold _ Hin)).
    rewrite !decide_False; [done|intros E; rewrite E in Hs2; congruence|intros E; rewrite E in Hs1; by destruct (metadataPath_suffix x); congruence].
  - destruct (decide (p = metadataPath x)) as [->|Hpm]; [by rewrite decide_False by (intros Hin; by destruct (Hold _ Hin))|].
    destruct (decide (p ∈ pair_paths (drop 1 ms))) as [Hin|Hout]; [by rewrite decide_True by (by do 2 right)|].
    destruct (decide (p = metadataPath x ++ snap_tmp_suffix)) as [->|Hpt]; [by rewrite decide_True by (right; by left)|].
    destruct (decide (p = snapshotPath x ++ snap_tmp_suffix)) as [->|Hpt']; [by rewrite decide_True by (by left)|].
    rewrite decide_False; [done|]. rewrite !elem_of_cons. naive_solver.
Qed.

(** C29: a snapshot that [Create] (or [Install]) stored is found again: if it is newer than the
    stored ones, [OpenLatest] returns its metadata and exactly the exported bytes.  The directory then
    holds the two newest snapshots and no others: the new data and metadata file, no temporary file of
    them, neither file of any stored snapshot but the newest, and every other file as it was. *)
Theorem Create_OpenLatest s ms x data :
  sn_keep s = 2%Z → store_inv 2 (sn_files s) ms → meta_ok (complete sha256_hex x data) →
  (∀ m, m ∈ ms → newest_lt x m) →
  ∃ s' d, Create sha256_hex x (Some (MkExporter data false)) s = (s', Ok (complete sha256_hex x data)) ∧
    OpenLatest s' = (s', Ok (complete sha256_hex x data, data)) ∧
    sn_keep s' = 2%Z ∧ store_inv 2 (sn_files s') (complete sha256_hex x data :: take 1 ms) ∧
    json_marshal (complete sha256_hex x data) = Some d ∧ ∀ p, sn_files s' !! p = files_after (sn_files s) x data d ms p.
Proof.
  intros Hk Hi Hx Hnew. destruct (create_newest s ms x data Hk Hi Hx Hnew) as (s'&Hrun&Hopen&Hk'&Hi').
  assert (Hfr : fresh ms x) by (intros m Hm Hs; apply (proj2 (Hnew m Hm)); unfold same_name in *; lia).
  destruct (Create_run s ms x data Hk Hi Hfr Hx) as (d&Hd&Hrun'). rewrite Hrun in Hrun'. injection Hrun' as Hs'. exists s', d.
  split_and!; [done..|]. subst s'. apply create_files; [apply Hx|apply Hi|done|].
  apply sorted_newest; [|done]. constructor; [apply Hi|]. apply Forall_forall. intros m Hm.
  destruct (Hnew m Hm) as [H1 H2]. split; [|unfold same_name in *; cbn; lia]. unfold newest_le in *. cbn. lia.
Qed.

(** C16: [Create] is atomic under a crash at any system call or inside any write: afterwards
    [OpenLatest] finds the snapshot it found before, or the newest with the new
    one, in each case with data that match the checksum and the size of the metadata. *)
Theorem Create_crash s ms x data f :
  sn_keep s = 2%Z → store_inv 2 (sn_files s) ms → fresh ms x → meta_ok (complete sha256_hex x data) →
  crash (sn_files s) (syscalls (Create sha256_hex x (Some (MkExporter data false))) s) f →
  latest_is f (head ms) ∨ latest_is f (head (sort_metas (complete sha256_hex x data :: ms))).
Proof.
  intros Hk Hi Hfr Hx Hc. destruct (Create_run s ms x data Hk Hi Hfr Hx) as (d&Hd&Hrun).
  destruct (create_steps _ _ _ _ _ Hi Hfr Hx Hd) as (Hi1&Hd1&Hi2).
  unfold syscalls in Hc. rewrite Hrun in Hc. cbn [fst do_calls sn_trace] in Hc. rewrite drop_app_length in Hc.
  set (x' := complete sha256_hex x data) in *. unfold create_ops in Hc. fold x' in Hc.
  apply crash_app in Hc as [Hc|Hc].
  - left. apply (inv_latest 1). apply write_crash in Hc as [Ho|[Hw Ho]]; [| |by apply path_not_tmp].
    + by apply (inv_agree_tmp _ (sn_files s) f ms (snapshotPath x)).
    + by apply (data_step 2 (sn_files s) f ms x data Hi (proj1 Hx) Hfr).
  - apply crash_app in Hc as [Hc|Hc].
    + apply write_crash in Hc as [Ho|[Hw Ho]]; [left|right|by apply path_not_tmp]; apply (inv_latest 1).
      * by eapply inv_agree_tmp.
      * by eapply meta_step.
    + right. destruct (decide (length (sort_metas (x' :: ms)) ≤ 1)) as [Hs|Hl].
      * rewrite drop_ge in Hc by lia. apply crash_nil in Hc as ->. by apply (inv_latest 1).
      * rewrite <-(take_drop 2 (sort_metas (x' :: ms))) in Hi2.
        assert (H2 : 2 ≤ length (take 2 (sort_metas (x' :: ms)))) by (rewrite length_take; lia).
        destruct (pair_crash 2 _ _ _ _ Hi2 H2 Hc) as [B' HB].
        apply inv_latest in HB. destruct (sort_metas (x' :: ms)) as [|m l]; [cbn in Hl; lia|exact HB].
Qed.
End facts.

(** A store with one snapshot receives a second one. *)
Definition sample_json : Json Metadata := bits_json (byte 123) brace_tag.
Definition sample_hash (s : str) : str := FormatUint (Z.of_nat (length s)).
Definition sample_meta (i : Z) : Metadata := MkMetadata 1 i [] [] 0.
Definition sample_store : FileStore :=
  (@Create sample_json sample_hash (sample_meta 5) (Some (MkExporter (lit "old") false)) (NewFileStore ∅)).1.
Lemma empty_store : @store_inv sample_json sample_hash 2 ∅ [].
Proof. split_and!; try constructor; [by intros m ?%elem_of_nil|by intros p [d ?%lookup_empty_Some]]. Qed.
Lemma sample_meta_ok i data : is_u64 i → @meta_ok sample_json (complete sample_hash (sample_meta i) data).
Proof. intros Hi. split; [split; [apply (u64_small 1); lia|exact Hi]|exact I]. Qed.
Lemma sample_store_ok : sn_keep sample_store = 2%Z ∧
  @store_inv sample_json sample_hash 2 (sn_files sample_store) [complete sample_hash (sample_meta 5) (lit "old")].
Proof.
  destruct (@create_newest sample_json sample_hash (NewFileStore ∅) [] (sample_meta 5) (lit "old"))
    as (s'&Hs&_&Hk&Hi); [reflexivity|exact empty_store|apply sample_meta_ok, u64_small; lia|by intros m ?%elem_of_nil|].
  unfold sample_store. rewrite Hs. split; [exact Hk|exact Hi].
Qed.
#[local] Opaque sample_store.
Lemma Create_OpenLatest_witness :
  sn_keep sample_store = 2%Z ∧
  ∃ s' d, @Create sample_json sample_hash (sample_meta 9) (Some (MkExporter (lit "new") false)) sample_store =
      (s', Ok (complete sample_hash (sample_meta 9) (lit "new"))) ∧
    @OpenLatest sample_json s' = (s', Ok (complete sample_hash (sample_meta 9) (lit "new"), lit "new")) ∧
    sn_keep s' = 2%Z ∧ @store_inv sample_json sample_hash 2 (sn_files s')
      [complete sample_hash (sample_meta 9) (lit "new"); complete sample_hash (sample_meta 5) (lit "old")] ∧
    @json_marshal _ sample_json (complete sample_hash (sample_meta 9) (lit "new")) = Some d ∧
    ∀ p, sn_files s' !! p = files_after (sn_files sample_store) (sample_meta 9) (lit "new") d
      [complete sample_hash (sample_meta 5) (lit "old")] p.
Proof.
  destruct sample_store_ok as [Hk Hi]. split; [exact Hk|].
  apply (@Create_OpenLatest sample_json sample_hash _ _ (sample_meta 9) (lit "new") Hk Hi).
  - apply sample_meta_ok, u64_small. lia.
  - intros m ->%list_elem_of_singleton. split; [left; cbn; lia|]. intros [_ Heq]. by cbn in Heq.
Defined.
Lemma Create_crash_witness :
  ∃ f, crash (sn_files sample_store) (syscalls (@Create sample_json sample_hash (sample_meta 9) (Some (MkExporter (lit "new") false))) sample_store) f ∧
    (@latest_is sample_json sample_hash f (Some (complete sample_hash (sample_meta 5) (lit "old"))) ∨
     @latest_is sample_json sample_hash f (head (sort_metas [complete sample_hash (sample_meta 9) (lit "new"); complete sample_hash (sample_meta 5) (lit "old")]))).
Proof.
  destruct sample_store_ok as [Hk Hi]. exists (sn_files sample_store). split; [apply crash_start|].
  apply (@Create_crash sample_json sample_hash _ _ (sample_meta 9) (lit "new") _ Hk Hi).
  - intros m ->%list_elem_of_singleton. intros [_ Heq]. by cbn in Heq.
  - apply sample_meta_ok, u64_small. lia.
  - apply crash_start.
Defined.
