(* ===== verification/Cleanup.v ===== *)
(** * The sweep of expired instances ([internal/registry/cleanup.go], [app.go])

    The leader scans a bounded batch per round, remembers where to go on
    ([CleanupCursor]) and proposes a deletion for every expired instance of the batch. *)
From Stdlib Require Import Ascii ZArith Sorted.
From stdpp Require Import gmap strings list sorting.
From S2P Require Import Prelude GoStrings Codec Engine StateMachine RegistryModel.

Record CleanupCursor := MkCursor { ScanStart : str }.
Definition cursor_next (c : CleanupCursor) (defaultStart : str) : str :=
  if length (ScanStart c) =? 0 then defaultStart else ScanStart c.
Definition nextScanStartAfter (key : str) : str := key ++ [zero].
Definition cursor_advance (defaultStart : str) (items : list KV) (limit : Z) : CleanupCursor :=
  match last items with
  | None => MkCursor defaultStart
  | Some item =>
      if (limit <=? 0)%Z || (Z.of_nat (length items) <? limit)%Z then MkCursor defaultStart
      else MkCursor (nextScanStartAfter (kv_Key item))
  end.

Section cleanup.
Context `{Json Value} {E : Type}.
(** The raft node: a linearizable scan, a proposal (the error, if any), and the leadership
    check made before item [i]. *)
Variables (node_Scan : str → str → Z → result E (list KV)) (propose : Command → option E) (leader : nat → bool).
Definition delete_command (key : str) : Command := MkCommand OperationDelete key [] [].
Definition sweep_start : str := RootPrefix.
Definition sweep_end : str := RootPrefix ++ [byte_ff].

(** The loop: the proposed commands and the error that ended it. *)
Fixpoint sweep_items (now limit : Z) (i : nat) (deleted : Z) (items : list KV) : list Command * option E :=
  match items with
  | [] => ([], None)
  | item :: items =>
      if negb (leader i) then ([], None)
      else match json_unmarshal (kv_Value item) with
      | None => sweep_items now limit (S i) deleted items
      | Some value =>
          if IsAlive value now then sweep_items now limit (S i) deleted items
          else
            let cmd := delete_command (kv_Key item) in
            match propose cmd with
            | Some e => ([cmd], Some e)
            | None =>
                if (limit <=? deleted + 1)%Z then ([cmd], None)
                else let '(cmds, r) := sweep_items now limit (S i) (deleted + 1) items in (cmd :: cmds, r)
            end
      end
  end.
Definition CleanupExpiredRegistry (limit now : Z) (c : CleanupCursor) : CleanupCursor * list Command * option E :=
  match node_Scan (cursor_next c sweep_start) sweep_end limit with
  | Err e => (c, [], Some e)
  | Ok items =>
      let c' := cursor_advance sweep_start items limit in
      let '(cmds, r) := sweep_items now limit 0 0 items in (c', cmds, r)
  end.
End cleanup.

(** ** What one round proposes *)
Section sweep.
Context `{Json Value} {E : Type}.
(** An item that holds an expired instance. *)
Definition expired (now : Z) (item : KV) : bool :=
  match json_unmarshal (kv_Value item) with Some value => negb (IsAlive value now) | None => false end.
Lemma sweep_items_all (propose : Command → option E) leader now limit items i deleted :
  (∀ j, leader j = true) → (∀ cmd, propose cmd = None) → (deleted + Z.of_nat (length items) ≤ limit)%Z →
  sweep_items propose leader now limit i deleted items =
    ((λ item, delete_command (kv_Key item)) <$> filter (λ item, expired now item = true) items, None).
Proof.
  intros Hl Hp. revert i deleted; induction items as [|item items IH]; intros i deleted Hd; [done|].
  cbn [sweep_items length] in *. rewrite Hl. cbn [negb]. unfold expired at 1.
  destruct (json_unmarshal (kv_Value item)) as [value|] eqn:Hj.
  - destruct (IsAlive value now) eqn:Ha.
    + rewrite filter_cons_False by (unfold expired; by rewrite Hj, Ha). apply IH. lia.
    + rewrite filter_cons_True by (unfold expired; by rewrite Hj, Ha). cbn [fmap list_fmap]. rewrite Hp.
      destruct (Z.leb_spec limit (deleted + 1)).
      * destruct items; [done|]. cbn [length] in Hd. lia.
      * by rewrite IH by lia.
  - rewrite filter_cons_False by (unfold expired; by rewrite Hj). apply IH. lia.
Qed.
(** Whatever leadership and proposals do, only expired items are deleted. *)
Lemma sweep_items_only (propose : Command → option E) leader now limit items i deleted cmd :
  cmd ∈ (sweep_items propose leader now limit i deleted items).1 →
  ∃ item, item ∈ items ∧ expired now item = true ∧ cmd = delete_command (kv_Key item).
Proof.
  revert i deleted; induction items as [|item items IH]; intros i deleted; [by intros ?%elem_of_nil|].
  assert (Hgo : ∀ i d, cmd ∈ (sweep_items propose leader now limit i d items).1 →
    ∃ x, x ∈ item :: items ∧ expired now x = true ∧ cmd = delete_command (kv_Key x)).
  { intros j d Hc. destruct (IH _ _ Hc) as (x&?&?&?). exists x. split; [by right|done]. }
  cbn [sweep_items]. destruct (leader i); cbn [negb]; [|by intros ?%elem_of_nil].
  destruct (json_unmarshal (kv_Value item)) as [value|] eqn:Hj; [|apply Hgo].
  destruct (IsAlive value now) eqn:Ha; [apply Hgo|].
  assert (Hit : ∃ x, x ∈ item :: items ∧ expired now x = true ∧ delete_command (kv_Key item) = delete_command (kv_Key x)).
  { exists item. split; [by left|]. unfold expired. by rewrite Hj, Ha. }
  destruct (propose _); [by intros ->%list_elem_of_singleton|].
  destruct (limit <=? deleted + 1)%Z; [by intros ->%list_elem_of_singleton|].
  destruct (sweep_items propose leader now limit (S i) (deleted + 1) items) as [cmds r] eqn:Es.
  cbn [fst]. intros [->|Hc]%elem_of_cons; [done|]. apply (Hgo (S i) (deleted + 1)%Z). by rewrite Es.
Qed.
End sweep.

(** ** Every instance is visited

    The rounds of a history: round [i] scans the registry [m i]. *)
Definition batch (m : gmap str str) (limit : Z) (c : CleanupCursor) : list KV :=
  spec_scan m (cursor_next c sweep_start) sweep_end limit.
Fixpoint cursor_after (m : nat → gmap str str) (limit : Z) (c : CleanupCursor) (i : nat) : CleanupCursor :=
  match i with
  | O => c
  | S i => let c' := cursor_after m limit c i in cursor_advance sweep_start (batch (m i) limit c') limit
  end.
Definition remaining (D : gset str) (from : str) : nat := size (filter (λ k, str_le from k) D).

Lemma batch_prefix m limit c : (0 < limit)%Z →
  ∃ rest, to_kv <$> range_items m (cursor_next c sweep_start) sweep_end = batch m limit c ++ rest ∧
    (rest = [] ∨ length (batch m limit c) = Z.to_nat limit).
Proof.
  intros Hl. unfold batch, spec_scan, limited. rewrite (proj2 (Z.ltb_lt _ _)) by done.
  set (l := to_kv <$> _). exists (drop (Z.to_nat limit) l). split; [by rewrite take_drop|].
  destruct (decide (length l ≤ Z.to_nat limit)); [left; by apply drop_ge|right; rewrite length_take; lia].
Qed.
Lemma to_kv_keys l : kv_Key <$> (to_kv <$> l) = l.*1.
Proof. rewrite <-list_fmap_compose. by apply list_fmap_ext. Qed.
Lemma cursor_next_default : cursor_next (MkCursor sweep_start) sweep_start = sweep_start.
Proof. done. Qed.
Lemma cursor_next_after key : cursor_next (MkCursor (nextScanStartAfter key)) sweep_start = nextScanStartAfter key.
Proof. unfold cursor_next, nextScanStartAfter. cbn [ScanStart]. rewrite length_app. cbn. by rewrite Nat.add_1_r. Qed.
Lemma remaining_lt (D : gset str) a b x : x ∈ D → str_le a x → str_lt x b → remaining D b < remaining D a.
Proof.
  intros Hx Ha Hb. apply subset_size. split.
  - intros y. rewrite !elem_of_filter. intros [Hy HD]. split; [|done]. etrans; [exact Ha|]. apply str_lt_le. by eapply str_lt_le_trans.
  - intros Hs. assert (x ∈ filter (λ k, str_le b k) D) as [Hbx _]%elem_of_filter by (apply Hs; by apply elem_of_filter).
    apply (str_lt_irrefl x). by eapply str_lt_le_trans.
Qed.
Lemma remaining_pos (D : gset str) a x : x ∈ D → str_le a x → 0 < remaining D a.
Proof.
  intros Hx Ha. apply Nat.neq_0_lt_0. intros E%size_empty_inv. assert (Hin : x ∈ filter (λ k, str_le a k) D) by (by apply elem_of_filter).
  by apply E, not_elem_of_empty in Hin.
Qed.

Section rounds.
Context (limit : Z) (D : gset str) (m : nat → gmap str str) (c0 : CleanupCursor) (k : str).
Hypothesis limit_pos : (0 < limit)%Z.
Hypothesis keys_D : ∀ i, dom (m i) ⊆ D.
Hypothesis k_range : HasPrefix k RootPrefix = true ∧ str_lt k sweep_end.
Hypothesis k_there : ∀ i, is_Some (m i !! k).
Let from (i : nat) : str := cursor_next (cursor_after m limit c0 i) sweep_start.
Let round (i : nat) : list KV := batch (m i) limit (cursor_after m limit c0 i).

Lemma round_elem i item : item ∈ round i → kv_Key item ∈ D ∧ str_le (from i) (kv_Key item).
Proof.
  intros Hi. unfold round in Hi. destruct (batch_prefix (m i) limit (cursor_after m limit c0 i) limit_pos) as (rest&E&_).
  assert (Hin : item ∈ to_kv <$> range_items (m i) (from i) sweep_end) by (unfold from; rewrite E; apply elem_of_app; by left).
  apply list_elem_of_fmap in Hin as ([x v]&->&[Hx [Hr _]]%range_items_elem). cbn. split.
  - apply (keys_D i). apply elem_of_dom. by exists v.
  - destruct Hr as [->|Hr]; [apply str_le_nil|done].
Qed.
Lemma from_S i :
  from (S i) = sweep_start ∨
  ∃ item, last (round i) = Some item ∧ from (S i) = nextScanStartAfter (kv_Key item) ∧ length (round i) = Z.to_nat limit.
Proof.
  unfold from, round. cbn [cursor_after]. unfold cursor_advance.
  destruct (last (batch _ _ _)) as [item|] eqn:Hl; [|by left]. rewrite (proj2 (Z.leb_gt _ _)) by done. cbn [orb].
  destruct (Z.ltb_spec (Z.of_nat (length (batch (m i) limit (cursor_after m limit c0 i)))) limit) as [|Hge]; [by left|right].
  exists item. rewrite cursor_next_after. split_and!; [done|done|].
  destruct (batch_prefix (m i) limit (cursor_after m limit c0 i) limit_pos) as (rest&E&_).
  enough (length (batch (m i) limit (cursor_after m limit c0 i)) ≤ Z.to_nat limit) by lia.
  unfold batch, spec_scan, limited. rewrite (proj2 (Z.ltb_lt _ _)) by done. rewrite length_take. lia.
Qed.
Lemma from_decreases i : from (S i) = sweep_start ∨ remaining D (from (S i)) < remaining D (from i).
Proof.
  destruct (from_S i) as [?|(item&Hl&->&_)]; [by left|right].
  assert (Hin : item ∈ round i) by (apply last_Some in Hl as [l ->]; apply elem_of_app; right; by left).
  destruct (round_elem i item Hin). apply (remaining_lt _ _ _ (kv_Key item)); [done..|]. apply str_lt_snoc.
Qed.
(** In a round that starts in front of [k], [k] is visited or the next round still starts
    in front of it. *)
Lemma round_low i : str_le (from i) k → k ∈ kv_Key <$> round i ∨ str_le (from (S i)) k ∧ from (S i) ≠ sweep_start.
Proof.
  intros Hle. destruct (k_there i) as [v Hv]. destruct (decide (k ∈ kv_Key <$> round i)) as [|Hnot]; [by left|right].
  destruct (batch_prefix (m i) limit (cursor_after m limit c0 i) limit_pos) as (rest&E&Hrest).
  assert (Hin : (k, v) ∈ range_items (m i) (from i) sweep_end).
  { apply range_items_elem. split; [done|]. split; right; [done|apply k_range]. }
  assert (Hk : k ∈ kv_Key <$> rest).
  { assert (Hall : k ∈ kv_Key <$> (to_kv <$> range_items (m i) (from i) sweep_end)).
    { rewrite to_kv_keys. by apply (list_elem_of_fmap_2 fst _ (k, v)). }
    unfold from in Hall. rewrite E, fmap_app in Hall. apply elem_of_app in Hall as [|]; done. }
  destruct Hrest as [->|Hfull]; [by apply elem_of_nil in Hk|].
  pose proof (range_items_sorted (m i) (from i) sweep_end) as Hs.
  assert (Hlt : ∀ x, x ∈ kv_Key <$> round i → str_lt x k).
  { intros x Hx. assert (Hss : StronglySorted str_lt (kv_Key <$> (to_kv <$> range_items (m i) (from i) sweep_end))).
    { rewrite to_kv_keys. clear -Hs. induction Hs as [|a l Hs IH Ha]; cbn; constructor; [done|]. by apply Forall_fmap. }
    unfold from in Hss. rewrite E, fmap_app in Hss. apply StronglySorted_app in Hss as (Hss&_&_). by apply Hss. }
  destruct (from_S i) as [Hz|(item&Hl&->&_)].
  - exfalso. revert Hz. unfold from. cbn [cursor_after]. unfold cursor_advance.
    fold (round i) in Hfull |- *. destruct (last (round i)) as [item|] eqn:Hl.
    + rewrite (proj2 (Z.leb_gt _ _)), (proj2 (Z.ltb_ge _ _)) by lia. cbn [orb]. rewrite cursor_next_after.
      intros Hz. apply (f_equal (last)) in Hz. unfold nextScanStartAfter in Hz. rewrite last_snoc in Hz. done.
    + apply last_None in Hl. rewrite Hl in Hfull. cbn in Hfull. lia.
  - assert (Hi : kv_Key item ∈ kv_Key <$> round i).
    { apply list_elem_of_fmap_2. apply last_Some in Hl as [l ->]. apply elem_of_app. right. by left. }
    split; [by apply str_succ_spec, Hlt|]. intros Hz. apply (f_equal last) in Hz.
    unfold nextScanStartAfter in Hz. rewrite last_snoc in Hz. done.
Qed.
Lemma low_visited n i : str_le (from i) k → remaining D (from i) ≤ n → ∃ j, i ≤ j < i + n ∧ k ∈ kv_Key <$> round j.
Proof.
  revert i; induction n as [|n IH]; intros i Hle Hr.
  - assert (0 < remaining D (from i)); [|lia]. apply (remaining_pos _ _ k); [|done].
    apply (keys_D i), elem_of_dom, k_there.
  - destruct (round_low i Hle) as [?|[Hle' Hz]]; [exists i; split; [lia|done]|].
    destruct (from_decreases i) as [?|Hd]; [done|]. destruct (IH (S i) Hle') as (j&?&?); [lia|]. exists j. split; [lia|done].
Qed.
Lemma wraps n i : remaining D (from i) ≤ n → ∃ j, i ≤ j ≤ i + S n ∧ str_le (from j) k.
Proof.
  assert (Hstart : str_le sweep_start k).
  { destruct k_range as [[t ->]%HasPrefix_spec _]. rewrite <-(app_nil_r sweep_start). apply str_le_app_l, str_le_nil. }
  revert i; induction n as [|n IH]; intros i Hr.
  - destruct (from_decreases i) as [E|Hd]; [|lia]. exists (S i). rewrite E. split; [lia|done].
  - destruct (from_decreases i) as [E|Hd]; [exists (S i); rewrite E; split; [lia|done]|].
    destruct (IH (S i)) as (j&?&?); [lia|]. exists j. split; [lia|done].
Qed.
Lemma remaining_size a : remaining D a ≤ size D.
Proof. apply subseteq_size. set_solver. Qed.

End rounds.

(** A leader's sweep rounds: round [i] sees the registry [m i] at time [now i]; every
    proposal is accepted. *)
Section properties.
Context `{Json Value} {E : Type}.
Definition scan_of (m : gmap str str) (start end_ : str) (limit : Z) : result E (list KV) := Ok (spec_scan m start end_ limit).
Definition sweep_round (m : nat → gmap str str) (now : nat → Z) (limit : Z) (c : CleanupCursor) (i : nat)
    : CleanupCursor * list Command * option E :=
  CleanupExpiredRegistry (scan_of (m i)) (λ _, None) (λ _, true) limit (now i) c.
Fixpoint cursor_at (m : nat → gmap str str) (now : nat → Z) (limit : Z) (c : CleanupCursor) (i : nat) : CleanupCursor :=
  match i with
  | O => c
  | S i => (sweep_round m now limit (cursor_at m now limit c i) i).1.1
  end.
Lemma sweep_round_eq m now limit c i : (0 < limit)%Z →
  sweep_round m now limit c i = (cursor_advance sweep_start (batch (m i) limit c) limit,
    (λ item, delete_command (kv_Key item)) <$> filter (λ item, expired (now i) item = true) (batch (m i) limit c), None).
Proof.
  intros Hl. unfold sweep_round, CleanupExpiredRegistry, scan_of. fold (batch (m i) limit c).
  rewrite sweep_items_all; [done|done|done|]. unfold batch, spec_scan, limited.
  rewrite (proj2 (Z.ltb_lt _ _)) by done. rewrite length_take. lia.
Qed.
Lemma cursor_at_eq m now limit c i : (0 < limit)%Z → cursor_at m now limit c i = cursor_after m limit c i.
Proof. intros Hl. induction i as [|i IH]; [done|]. cbn [cursor_at cursor_after]. by rewrite IH, sweep_round_eq. Qed.

(** One round of the sweep: with a steady leadership it proposes to delete exactly the expired
    instances of its batch, each once and in key order; whatever happens to the leadership and
    to the proposals, nothing but an expired instance of the batch is proposed. *)
Theorem sweep_round_correct (scan : str → str → Z → result E (list KV)) (propose : Command → option E)
    leader limit now c items :
  scan (cursor_next c sweep_start) sweep_end limit = Ok items → (Z.of_nat (length items) ≤ limit)%Z →
  let '(c', cmds, r) := CleanupExpiredRegistry scan propose leader limit now c in
  (∀ cmd, cmd ∈ cmds → ∃ item, item ∈ items ∧ expired now item = true ∧ cmd = delete_command (kv_Key item)) ∧
  ((∀ j, leader j = true) → (∀ cmd, propose cmd = None) → r = None ∧
    cmds = (λ item, delete_command (kv_Key item)) <$> filter (λ item, expired now item = true) items).
Proof.
  intros Hs Hl. unfold CleanupExpiredRegistry. rewrite Hs.
  destruct (sweep_items propose leader now limit 0 0 items) as [cmds r] eqn:Es. split.
  - intros cmd Hc. apply (sweep_items_only propose leader now limit items 0 0). by rewrite Es.
  - intros H1 H2. rewrite sweep_items_all in Es by (done || lia). by injection Es as <- <-.
Qed.

(** C17: the sweep visits everything, whatever else changes in the registry meanwhile: an instance
    that stays expired in a registry whose keys come from a set of [n] keys is proposed
    for deletion within [2 n + 1] rounds, from any cursor and with any positive batch size. *)
Theorem sweep_visits (m : nat → gmap str str) (now : nat → Z) (limit : Z) (c : CleanupCursor) (D : gset str) (k : str) :
  (0 < limit)%Z → (∀ i, dom (m i) ⊆ D) →
  HasPrefix k RootPrefix = true → str_lt k sweep_end →
  (∀ i, ∃ v, m i !! k = Some v ∧ expired (now i) (MkKV k v) = true) →
  ∃ i, i ≤ 2 * size D ∧ delete_command k ∈ (sweep_round m now limit (cursor_at m now limit c i) i).1.2.
Proof.
  intros Hl HD Hp Hlt Hk. assert (Hthere : ∀ i, is_Some (m i !! k)) by (intros i; destruct (Hk i) as (v&?&_); by exists v).
  destruct (wraps limit D m c k Hl HD (conj Hp Hlt) Hthere (size D) 0 (remaining_size limit D m k Hl HD (conj Hp Hlt) Hthere _)) as (j&Hj&Hle).
  destruct (low_visited limit D m c k Hl HD (conj Hp Hlt) Hthere (size D) j Hle (remaining_size limit D m k Hl HD (conj Hp Hlt) Hthere _)) as (i&Hi&Hv).
  exists i. split; [lia|]. rewrite sweep_round_eq, cursor_at_eq by done. cbn [fst snd].
  apply list_elem_of_fmap in Hv as (item&->&Hin). apply list_elem_of_fmap. exists item. split; [done|].
  apply list_elem_of_filter. split; [|done]. destruct (Hk i) as (v&Hv&He).
  destruct (batch_prefix (m i) limit (cursor_after m limit c i) Hl) as (rest&Eb&_).
  assert (Hir : item ∈ to_kv <$> range_items (m i) (cursor_next (cursor_after m limit c i) sweep_start) sweep_end)
    by (rewrite Eb; apply elem_of_app; by left).
  apply list_elem_of_fmap in Hir as ([x w]&->&[Hw _]%range_items_elem). cbn in *. unfold to_kv in *. cbn in *. congruence.
Qed.
End properties.

(** ** An example: one registered instance, long expired *)
Definition dead_value : Value :=
  MkValue (lit "ns") (MkIdentity (lit "svc") (Dims [] [] [] [] [])) (lit "i") [] ∅ ∅ [] 10 5 5.
#[refine] Definition dead_json : Json Value := {|
  json_marshal _ := Some (lit "x");
  json_unmarshal s := match s with c :: _ => if bool_decide (c = byte 120) then Some dead_value else None | [] => None end;
  json_decode s := match s with c :: _ => if bool_decide (c = byte 120) then Some dead_value else None | [] => None end;
  json_faithful v := v = dead_value
|}.
Proof.
  - intros a ->. by eexists.
  - by intros [|c s].
  - by intros a s -> [= <-].
Defined.
Definition dead_key : str := lit "/registry/ns/svc/i".
Lemma sweep_round_correct_witness :
  let items := [MkKV dead_key (lit "x"); MkKV (lit "/registry/ns/svc/j") (lit "?")] in
  let '(c', cmds, r) := @CleanupExpiredRegistry dead_json unit (λ _ _ _, Ok items) (λ _, None) (λ _, true) 5 1000 (MkCursor []) in
  (∀ cmd, cmd ∈ cmds → ∃ item, item ∈ items ∧ @expired dead_json 1000 item = true ∧ cmd = delete_command (kv_Key item)) ∧
  ((∀ j : nat, true = true) → (∀ cmd : Command, @None unit = None) → r = None ∧
    cmds = (λ item, delete_command (kv_Key item)) <$> filter (λ item, @expired dead_json 1000 item = true) items).
Proof.
  intros items. apply (@sweep_round_correct dead_json unit (λ _ _ _, Ok items) (λ _, None) (λ _, true) 5 1000 (MkCursor []) items);
    [reflexivity|vm_compute; congruence].
Defined.
Lemma sweep_visits_witness : ∃ i, i ≤ 2 * size ({[dead_key]} : gset str) ∧
  delete_command dead_key ∈ (@sweep_round dead_json unit (λ _, {[dead_key := lit "x"]}) (λ _, 1000%Z) 1
    (@cursor_at dead_json unit (λ _, {[dead_key := lit "x"]}) (λ _, 1000%Z) 1 (MkCursor (lit "/registry/z")) i) i).1.2.
Proof.
  apply (@sweep_visits dead_json unit).
  - done.
  - intros i. by rewrite dom_singleton_L.
  - by vm_compute.
  - by vm_compute.
  - intros i. exists (lit "x"). split; [apply lookup_singleton_eq|by vm_compute].
Defined.
