(* ===== verification/RaftConfig.v ===== *)
(** * The configuration of the raft node ([internal/raftnode/config.go])

    Durations are nanoseconds. *)
From Stdlib Require Import ZArith.
From stdpp Require Import base list strings.
From S2P Require Import Prelude.

Definition millisecond : Z := 1000000.
Definition defaultTickInterval : Z := 100 * millisecond.
Definition defaultElectionTick : Z := 10.
Definition defaultHeartbeatTick : Z := 1.
Definition defaultReadyBufferSize : Z := 16.
Definition defaultLinearizableReadTimeout : Z := 3000 * millisecond.
Definition defaultMaxSizePerMsg : Z := 1024 * 1024.
Definition defaultMaxInflightMsgs : Z := 256.
Definition defaultSnapshotEntries : Z := 64.
Definition defaultCompactRetainEntries : Z := 16.
Definition defaultKeepSnapshots : Z := 2.

Record Config := MkConfig {
  cfg_NodeID : Z; cfg_ClusterID : Z; cfg_DataDir : str; cfg_Peers : list Z;
  cfg_TickInterval : Z; cfg_ElectionTick : Z; cfg_HeartbeatTick : Z; cfg_ReadyBufferSize : Z;
  cfg_LinearizableReadTimeout : Z; cfg_MaxSizePerMsg : Z; cfg_MaxInflightMsgs : Z;
  cfg_SnapshotEntries : Z; cfg_CompactRetainEntries : Z; cfg_KeepSnapshots : Z;
  cfg_InitialAppliedIndex : Z; cfg_InitialLeaderID : Z
}.
(** The unsigned fields are in range. *)
Definition config_ok (c : Config) : Prop :=
  is_u64 (cfg_NodeID c) ∧ is_u64 (cfg_ClusterID c) ∧ is_u64 (cfg_MaxSizePerMsg c) ∧ is_u64 (cfg_SnapshotEntries c) ∧
  is_u64 (cfg_CompactRetainEntries c) ∧ is_u64 (cfg_InitialAppliedIndex c) ∧ is_u64 (cfg_InitialLeaderID c).

Inductive ConfigErr :=
  | ErrNodeID | ErrElectionTick | ErrTickInterval | ErrReadyBuffer | ErrReadTimeout
  | ErrMaxSize | ErrMaxInflight | ErrSnapshotEntries | ErrKeepSnapshots.
#[export] Instance ConfigErr_eq_dec : EqDecision ConfigErr.
Proof. solve_decision. Defined.

Definition Validate (c : Config) : result ConfigErr unit :=
  fail_if (cfg_NodeID c =? 0)%Z ErrNodeID;;
  fail_if (cfg_ElectionTick c <=? cfg_HeartbeatTick c)%Z ErrElectionTick;;
  fail_if (cfg_TickInterval c <=? 0)%Z ErrTickInterval;;
  fail_if (cfg_ReadyBufferSize c <=? 0)%Z ErrReadyBuffer;;
  fail_if (cfg_LinearizableReadTimeout c <=? 0)%Z ErrReadTimeout;;
  fail_if (cfg_MaxSizePerMsg c =? 0)%Z ErrMaxSize;;
  fail_if (cfg_MaxInflightMsgs c <=? 0)%Z ErrMaxInflight;;
  fail_if (cfg_SnapshotEntries c =? 0)%Z ErrSnapshotEntries;;
  fail_if (cfg_KeepSnapshots c <=? 0)%Z ErrKeepSnapshots.

Definition or_default (x d : Z) : Z := if (x <=? 0)%Z then d else x.
Definition WithDefaults (c : Config) : Config := {|
  cfg_NodeID := cfg_NodeID c; cfg_ClusterID := cfg_ClusterID c; cfg_DataDir := cfg_DataDir c;
  cfg_Peers := if (bool_decide (cfg_Peers c = []) && negb (cfg_NodeID c =? 0)%Z)%bool then [cfg_NodeID c] else cfg_Peers c;
  cfg_TickInterval := or_default (cfg_TickInterval c) defaultTickInterval;
  cfg_ElectionTick := or_default (cfg_ElectionTick c) defaultElectionTick;
  cfg_HeartbeatTick := or_default (cfg_HeartbeatTick c) defaultHeartbeatTick;
  cfg_ReadyBufferSize := or_default (cfg_ReadyBufferSize c) defaultReadyBufferSize;
  cfg_LinearizableReadTimeout := or_default (cfg_LinearizableReadTimeout c) defaultLinearizableReadTimeout;
  cfg_MaxSizePerMsg := if (cfg_MaxSizePerMsg c =? 0)%Z then defaultMaxSizePerMsg else cfg_MaxSizePerMsg c;
  cfg_MaxInflightMsgs := or_default (cfg_MaxInflightMsgs c) defaultMaxInflightMsgs;
  cfg_SnapshotEntries := if (cfg_SnapshotEntries c =? 0)%Z then defaultSnapshotEntries else cfg_SnapshotEntries c;
  cfg_CompactRetainEntries := if (cfg_CompactRetainEntries c =? 0)%Z then defaultCompactRetainEntries else cfg_CompactRetainEntries c;
  cfg_KeepSnapshots := or_default (cfg_KeepSnapshots c) defaultKeepSnapshots;
  cfg_InitialAppliedIndex := cfg_InitialAppliedIndex c; cfg_InitialLeaderID := cfg_InitialLeaderID c
|}.

Lemma or_default_pos x d : (0 < d)%Z → (0 < or_default x d)%Z.
Proof. unfold or_default. destruct (Z.leb_spec x 0); lia. Qed.
Lemma or_default_set x d : (0 < d)%Z → (or_default x d <=? 0)%Z = false.
Proof. intros Hd. apply Z.leb_gt. by apply or_default_pos. Qed.
Lemma or_default_idem x d : (0 < d)%Z → or_default (or_default x d) d = or_default x d.
Proof. intros Hd. unfold or_default at 1. by rewrite or_default_set. Qed.
Lemma zero_default_set x d : (d ≠ 0)%Z → ((if x =? 0 then d else x) =? 0)%Z = false.
Proof. intros Hd. apply Z.eqb_neq. by destruct (Z.eqb_spec x 0). Qed.
Lemma WithDefaults_idem c : WithDefaults (WithDefaults c) = WithDefaults c.
Proof.
  unfold WithDefaults; cbn -[or_default Z.eqb]. f_equal; try by apply or_default_idem.
  2-4: by rewrite zero_default_set.
  destruct (bool_decide_reflect (cfg_Peers c = [])) as [Hp|Hp]; cbn -[Z.eqb].
  - destruct (cfg_NodeID c =? 0)%Z; cbn; [|done]. by rewrite bool_decide_true.
  - by rewrite bool_decide_false.
Qed.
(** A completed configuration can only be rejected for its node id or its timeouts. *)
Lemma Validate_completed c :
  Validate (WithDefaults c) =
    (if (cfg_NodeID c =? 0)%Z then Err ErrNodeID
     else if (or_default (cfg_ElectionTick c) defaultElectionTick <=? or_default (cfg_HeartbeatTick c) defaultHeartbeatTick)%Z
     then Err ErrElectionTick else Ok tt).
Proof.
  unfold Validate, WithDefaults; cbn -[or_default Z.eqb Z.leb]. unfold fail_if.
  destruct (cfg_NodeID c =? 0)%Z; [done|]. destruct (or_default (cfg_ElectionTick c) _ <=? _)%Z; [done|].
  by rewrite !or_default_set, !zero_default_set.
Qed.

(** After the defaults are filled in, the only configurations that are rejected are those
    without a node id and those whose election timeout does not exceed the heartbeat; the defaults
    are stable, and a completed configuration names at least one peer. *)
Theorem Validate_WithDefaults c :
  Validate (WithDefaults c) =
    (if (cfg_NodeID c =? 0)%Z then Err ErrNodeID
     else if (or_default (cfg_ElectionTick c) defaultElectionTick <=? or_default (cfg_HeartbeatTick c) defaultHeartbeatTick)%Z
     then Err ErrElectionTick else Ok tt) ∧
  WithDefaults (WithDefaults c) = WithDefaults c ∧
  (Validate (WithDefaults c) = Ok tt → cfg_Peers (WithDefaults c) ≠ []).
Proof.
  split_and!; [apply Validate_completed|apply WithDefaults_idem|]. rewrite Validate_completed.
  unfold WithDefaults; cbn -[or_default Z.eqb Z.leb].
  destruct (cfg_NodeID c =? 0)%Z; [done|]. intros _. case_bool_decide; by cbn.
Qed.
