(* ===== verification/PebbleTotal.v ===== *)
(** * Pebble without I/O errors

    When the engine fails no call, every operation of the store succeeds; the lemmas say what
    it leaves behind. *)
From Stdlib Require Import Ascii ZArith Sorted.
From stdpp Require Import gmap strings countable list sorting.
From S2P Require Import Prelude GoStrings Codec Engine StateMachine Pebble.

(** An engine whose calls do not fail. *)
Class EngineTotal `{PebbleEngine} : Prop := {
  open_total db : ∃ db', pebble_open db = Ok db';
  get_total db k : ∃ v, pebble_get db k = Ok v;
  add_total ops op : ∃ ops', batch_add ops op = Ok ops';
  commit_total db ops : ∃ db', pebble_commit db ops = (db', None);
  iter_total db l u : ∃ items, pebble_iter db l u = Ok (items, None)
}.
#[export] Instance memory_engine_total : @EngineTotal memory_engine.
Proof. split; by eauto. Qed.

Section stores.
Context `{EngineTotal} `{Json MemberAddress, Json snapshotPayload, Json (list KV)}.
Implicit Types s t : PebbleStore.

Lemma commit_done {A} db ops (a : A) : ∃ db', commit db ops a = (db', Ok a) ∧ contents db' = apply_batch (contents db) ops.
Proof.
  destruct (commit_total db ops) as [db' E]. exists db'. unfold commit. rewrite E. split; [done|]. by apply pebble_commit_ok.
Qed.
Lemma db_write_done s op : ps_open s = true →
  ∃ s', db_write s op = (s', Ok tt) ∧ ps_open s' = true ∧ store_map s' = apply_op (store_map s) op.
Proof.
  intros Ho. unfold db_write, with_db, getDB. rewrite Ho. destruct (commit_done (ps_db s) [op] tt) as (db'&->&Hc).
  by eexists.
Qed.
Lemma apply_one_done db op : ∃ db', apply_one db op = (db', Ok 1%Z) ∧ contents db' = apply_op (contents db) op.
Proof.
  unfold apply_one. destruct (add_total [] op) as [ops E]. rewrite E. apply batch_add_ok in E as ->. cbn [app].
  by apply commit_done.
Qed.
Lemma Apply_done s cmd : ps_open s = true →
  ∃ s' z, Apply s cmd = (s', Ok z) ∧ ps_open s' = true ∧ store_map s' = cmd_effect (store_map s) cmd.
Proof.
  intros Ho. unfold Apply, with_db, getDB, cmd_effect, cmd_op. rewrite Ho.
  destruct (cmd_Operation cmd).
  - destruct (apply_one_done (ps_db s) (BSet (cmd_Key cmd) (cmd_Value cmd))) as (db'&->&?). by do 2 eexists.
  - destruct (apply_one_done (ps_db s) (BDelete (cmd_Key cmd))) as (db'&->&?). by do 2 eexists.
  - destruct (apply_one_done (ps_db s) (BDeleteRange (cmd_Prefix cmd) (cmd_Prefix cmd ++ [byte_ff]))) as (db'&->&?). by do 2 eexists.
  - by do 2 eexists.
Qed.
Lemma AppliedIndex_done s : ps_open s = true →
  AppliedIndex s = Ok (match store_map s !! metaAppliedIndexKey with Some d => decodeUint64 d | None => 0%Z end).
Proof.
  intros Ho. unfold AppliedIndex, read_uint64, getDB. rewrite Ho. cbn [mbind result_bind].
  destruct (get_total (ps_db s) metaAppliedIndexKey) as [v E]. unfold lift. rewrite E. cbn [map_err mbind result_bind].
  apply pebble_get_ok in E as ->. done.
Qed.
Lemma batch_fold_done {A} (op : A → BatchOp) (l : list A) b :
  ∃ b', foldM (λ b x, lift (batch_add b (op x))) b l = Ok b'.
Proof.
  revert b. induction l as [|x l IH]; intros b; [by eexists|]. cbn [foldM].
  destruct (add_total b (op x)) as [b1 E]. unfold lift at 1. rewrite E. cbn [map_err mbind result_bind]. apply IH.
Qed.
Lemma business_deletes_done l b : ∃ b', foldM add_business_delete b l = Ok b'.
Proof.
  revert b. induction l as [|x l IH]; intros b; [by eexists|]. cbn [foldM].
  assert (∃ b1, add_business_delete b x = Ok b1) as [b1 ->]; [|cbn [mbind result_bind]; apply IH].
  unfold add_business_delete, add_delete, lift. destruct (isMetaKey x.1); [by eexists|].
  destruct (add_total b (BDelete x.1)) as [b1 E]. rewrite E. by eexists.
Qed.
Lemma restore_batch_done db p : ∃ b, restore_batch db p = Ok b.
Proof.
  unfold restore_batch, iter_batch, lift.
  destruct (iter_total db [] []) as [i1 ->]. cbn [map_err mbind result_bind fst snd].
  destruct (business_deletes_done i1 []) as [b1 ->]. cbn [mbind result_bind].
  destruct (iter_total db metaMembersPrefix memberPrefixEnd) as [i2 ->]. cbn [map_err mbind result_bind fst snd].
  destruct (batch_fold_done (λ kv : str * str, BDelete kv.1) i2 b1) as [b2 Hb2].
  assert (foldM add_delete b1 i2 = Ok b2) as -> by exact Hb2. cbn [mbind result_bind].
  destruct (batch_fold_done (λ i, BSet (kv_Key i) (kv_Value i)) (sp_Data p) b2) as [b3 Hb3]. unfold lift in Hb3. rewrite Hb3.
  cbn [mbind result_bind].
  destruct (batch_fold_done (λ m, BSet (memberAddressKey (ma_NodeID m)) (mustJSON m)) (sp_Members p) b3) as [b4 Hb4].
  unfold lift in Hb4. rewrite Hb4. by eexists.
Qed.
Lemma Restore_done s data p : ps_open s = true → decodeSnapshotPayload data = Ok p →
  ∃ s', Restore s data = (s', Ok tt) ∧ ps_open s' = true.
Proof.
  intros Ho Hp. unfold Restore, with_db, getDB. rewrite Ho, Hp. destruct (restore_batch_done (ps_db s) p) as [b ->].
  destruct (commit_done (ps_db s) b tt) as (db'&->&_). by eexists.
Qed.
End stores.
