(* ===== verification/Raft.v ===== *)
(** * The raft library interface

    [go.etcd.io/raft] is third-party code.  Its messages are records of the fields the program
    reads; its in-memory storage and the answers of its node are a class.  The laws state
    the documented behaviour of [raft.MemoryStorage]: which indexes it holds and when a
    call succeeds.  [memory_raft] is an instance. *)
From Stdlib Require Import Ascii ZArith.
From stdpp Require Import gmap strings countable list.
From S2P Require Import Prelude Codec Wal WalLog.

Record ConfState := MkConfState {
  cs_Voters : list Z; cs_VotersOutgoing : list Z; cs_Learners : list Z; cs_LearnersNext : list Z; cs_AutoLeave : bool
}.
Definition empty_conf : ConfState := MkConfState [] [] [] [] false.
Record RaftSnapshot := MkRaftSnapshot { rs_Data : str; rs_Index : Z; rs_Term : Z; rs_ConfState : ConfState }.
(** [tracker.Config]: the voter sets as ordered lists ([MajorityConfig.Slice]), the learner sets as sets. *)
Record TrackerConfig := MkTracker {
  tc_Voters : list Z; tc_VotersOutgoing : list Z; tc_Learners : gset Z; tc_LearnersNext : gset Z; tc_AutoLeave : bool
}.
Inductive StateType := StateFollower | StateCandidate | StateLeader | StatePreCandidate | StateOther (n : Z).
(** The fields of [raft.Config] the program sets, the storage apart. *)
Record RaftLibConfig := MkLibConfig { rc_ID : Z; rc_ElectionTick : Z; rc_HeartbeatTick : Z; rc_MaxSizePerMsg : Z; rc_MaxInflightMsgs : Z }.
Record RaftSoftState := MkRaftSoft { rss_Lead : Z; rss_RaftState : StateType }.
Record ReadState := MkReadState { rst_Index : Z; rst_RequestCtx : str }.

Inductive PbConfChangeType :=
  | ConfChangeAddNode | ConfChangeRemoveNode | ConfChangeUpdateNode | ConfChangeAddLearnerNode.
Record ConfChangeSingle := MkSingle { ccs_Type : PbConfChangeType; ccs_NodeID : Z }.
Record ConfChange := MkConfChange { cc_Type : PbConfChangeType; cc_NodeID : Z; cc_Context : str }.
Record ConfChangeV2 := MkConfChangeV2 { cc2_Changes : list ConfChangeSingle; cc2_Context : str }.
Inductive ConfChangeI := CCV1 (cc : ConfChange) | CCV2 (cc : ConfChangeV2).

Inductive RaftErr := ErrCompacted | ErrSnapOutOfDate | ErrSnapshotTemporarilyUnavailable | RaftOther | RaftPanic.
#[export] Instance RaftErr_eq_dec : EqDecision RaftErr.
Proof. solve_decision. Defined.

Class Raft := {
  IsEmptySnap : RaftSnapshot → bool;
  IsEmptyHardState : HardState → bool;
  IsEmptySnap_spec s : IsEmptySnap s = (rs_Index s =? 0)%Z;
  IsEmptyHardState_spec s : IsEmptyHardState s = isEmptyHardState s;
  (** Messages between nodes. *)
  Message : Type;
  msg_To : Message → Z;
  msg_From : Message → Z;
  msg_Type : Message → str;
  msg_Marshal : Message → option str;
  entry_type_string : EntryType → str;
  (** Membership messages. *)
  conf_Marshal : ConfState → option str;
  conf_Unmarshal : str → option ConfState;
  cc_Unmarshal : str → option ConfChange;
  cc2_Unmarshal : str → option ConfChangeV2;
  (** [raft.MemoryStorage] *)
  MemoryStorage : Type;
  NewMemoryStorage : MemoryStorage;
  ms_SetHardState : MemoryStorage → HardState → MemoryStorage;
  ms_ApplySnapshot : MemoryStorage → RaftSnapshot → result RaftErr MemoryStorage;
  ms_Append : MemoryStorage → list Entry → result RaftErr MemoryStorage;
  ms_Snapshot : MemoryStorage → result RaftErr RaftSnapshot;
  ms_CreateSnapshot : MemoryStorage → Z → ConfState → str → result RaftErr (MemoryStorage * RaftSnapshot);
  ms_FirstIndex : MemoryStorage → result RaftErr Z;
  ms_Compact : MemoryStorage → Z → result RaftErr MemoryStorage;
  ms_InitialState : MemoryStorage → result RaftErr (HardState * ConfState);
  (** The last index it holds and the index of its snapshot. *)
  ms_last : MemoryStorage → Z;
  ms_snap : MemoryStorage → Z;
  ms_first : MemoryStorage → Z;
  ms_new : ms_last NewMemoryStorage = 0%Z ∧ ms_snap NewMemoryStorage = 0%Z ∧ ms_first NewMemoryStorage = 1%Z;
  ms_Snapshot_ok ms : ∃ snap, ms_Snapshot ms = Ok snap ∧ rs_Index snap = ms_snap ms;
  ms_FirstIndex_ok ms : ms_FirstIndex ms = Ok (ms_first ms);
  ms_first_last ms : (ms_first ms ≤ ms_last ms + 1)%Z;
  ms_SetHardState_ok ms hs : ms_last (ms_SetHardState ms hs) = ms_last ms ∧ ms_snap (ms_SetHardState ms hs) = ms_snap ms ∧
    ms_first (ms_SetHardState ms hs) = ms_first ms;
  (** A newer snapshot replaces everything. *)
  ms_ApplySnapshot_ok ms snap : (ms_snap ms < rs_Index snap)%Z → (0 ≤ rs_Index snap)%Z → ∃ ms', ms_ApplySnapshot ms snap = Ok ms' ∧
    ms_last ms' = rs_Index snap ∧ ms_snap ms' = rs_Index snap ∧ ms_first ms' = (rs_Index snap + 1)%Z;
  ms_ApplySnapshot_old ms snap : (rs_Index snap ≤ ms_snap ms)%Z → ms_ApplySnapshot ms snap = Err ErrSnapOutOfDate;
  (** Entries that connect to the log are appended; what the storage has compacted is skipped. *)
  ms_Append_ok ms es e e' : head es = Some e → last es = Some e' → log_from (e_Index e) es → (e_Index e ≤ ms_last ms + 1)%Z →
    ∃ ms', ms_Append ms es = Ok ms' ∧ ms_snap ms' = ms_snap ms ∧ ms_first ms' = ms_first ms ∧
      ms_last ms' = (if (e_Index e' <? ms_first ms)%Z then ms_last ms else e_Index e');
  ms_CreateSnapshot_ok ms i cs data : (ms_snap ms < i ≤ ms_last ms)%Z → (ms_first ms ≤ i + 1)%Z → ∃ ms' snap,
    ms_CreateSnapshot ms i cs data = Ok (ms', snap) ∧ rs_Index snap = i ∧ is_u64 (rs_Term snap) ∧
    ms_last ms' = ms_last ms ∧ ms_snap ms' = i ∧ ms_first ms' = ms_first ms;
  ms_CreateSnapshot_old ms i cs data : (i ≤ ms_snap ms)%Z → ms_CreateSnapshot ms i cs data = Err ErrSnapOutOfDate;
  ms_Compact_ok ms i : (ms_first ms ≤ i ≤ ms_last ms)%Z → ∃ ms', ms_Compact ms i = Ok ms' ∧
    ms_last ms' = ms_last ms ∧ ms_snap ms' = ms_snap ms ∧ ms_first ms' = (i + 1)%Z
}.

Section node.
Context `{Raft}.
(** The calls the program makes on its [raft.Node]. *)
Inductive NodeCall :=
  | CStartNode (cfg : RaftLibConfig) (peers : list Z) | CRestartNode (cfg : RaftLibConfig) | CCampaign | CTick | CAdvance | CStop
  | CPropose (data : str) | CReadIndex (ctx : str) | CTransferLeadership (from to : Z)
  | CProposeConfChange (cc : ConfChangeV2) | CApplyConfChange (cc : ConfChangeI) | CStep (m : Message).
(** What the node answers after the calls made so far: the error of a call, its configuration. *)
Class RaftBehaviour := {
  call_result : list NodeCall → NodeCall → option RaftErr;
  node_config : list NodeCall → TrackerConfig
}.
End node.
Arguments NodeCall {_}.
Arguments RaftBehaviour {_}.

(** ** An instance: a list of entries behind an offset *)
Record MemStore := MkMemStore { mem_hs : HardState; mem_snap : RaftSnapshot; mem_offset : nat; mem_ents : list Entry }.
Definition mem_last (ms : MemStore) : Z := (Z.of_nat (mem_offset ms) + Z.of_nat (length (mem_ents ms)))%Z.
Definition mem_first (ms : MemStore) : Z := (Z.of_nat (mem_offset ms) + 1)%Z.
Definition mem_append (ms : MemStore) (es : list Entry) : result RaftErr MemStore :=
  match last es with
  | None => Ok ms
  | Some e =>
      if (e_Index e <? mem_first ms)%Z then Ok ms
      else
        let es := List.filter (λ e, (mem_first ms <=? e_Index e)%Z) es in
        let n := Z.to_nat (e_Index e - Z.of_nat (length es) - Z.of_nat (mem_offset ms)) in
        if (length (mem_ents ms) <? n)%nat then Err RaftPanic
        else Ok (MkMemStore (mem_hs ms) (mem_snap ms) (mem_offset ms) (take n (mem_ents ms) ++ es))
  end.
Definition mem_term (ms : MemStore) (i : Z) : Z :=
  match mem_ents ms !! Z.to_nat (i - mem_first ms) with Some e => u64 (e_Term e) | None => u64 (rs_Term (mem_snap ms)) end.
Definition mem_create (ms : MemStore) (i : Z) (cs : ConfState) (data : str) : result RaftErr (MemStore * RaftSnapshot) :=
  if (i <=? rs_Index (mem_snap ms))%Z then Err ErrSnapOutOfDate
  else if (mem_last ms <? i)%Z then Err RaftPanic
  else let snap := MkRaftSnapshot data i (mem_term ms i) cs in
       Ok (MkMemStore (mem_hs ms) snap (mem_offset ms) (mem_ents ms), snap).
Definition mem_apply (ms : MemStore) (snap : RaftSnapshot) : result RaftErr MemStore :=
  if (rs_Index snap <=? rs_Index (mem_snap ms))%Z then Err ErrSnapOutOfDate
  else Ok (MkMemStore (mem_hs ms) snap (Z.to_nat (rs_Index snap)) []).
Definition mem_compact (ms : MemStore) (i : Z) : result RaftErr MemStore :=
  if (i <? mem_first ms)%Z then Err ErrCompacted
  else if (mem_last ms <? i)%Z then Err RaftPanic
  else Ok (MkMemStore (mem_hs ms) (mem_snap ms) (Z.to_nat i) (drop (Z.to_nat i - mem_offset ms) (mem_ents ms))).

Lemma mem_append_ok ms es e e' : head es = Some e → last es = Some e' → log_from (e_Index e) es →
  (e_Index e ≤ mem_last ms + 1)%Z →
  ∃ ms', mem_append ms es = Ok ms' ∧ mem_snap ms' = mem_snap ms ∧ mem_offset ms' = mem_offset ms ∧
    mem_last ms' = (if (e_Index e' <? mem_first ms)%Z then mem_last ms else e_Index e').
Proof.
  intros Hh Hl Hf Hle. unfold mem_append. rewrite Hl.
  destruct (Z.ltb_spec (e_Index e') (mem_first ms)) as [Hc|Hc]; [by eexists|].
  rewrite (log_from_filter_ge _ _ _ Hf). apply last_Some in Hl as [pre ->]. apply log_last in Hf as He'.
  rewrite !length_drop, length_app. cbn [length].
  unfold mem_first, mem_last in *. rewrite (proj2 (Nat.ltb_ge _ _)) by lia.
  eexists. split_and!; [done|done|done|]. cbn [mem_offset mem_ents].
  rewrite length_app, length_take, length_drop, length_app. cbn [length]. lia.
Qed.
#[export] Instance PbConfChangeType_eq_dec : EqDecision PbConfChangeType.
Proof. solve_decision. Defined.
#[export] Instance ConfChangeSingle_eq_dec : EqDecision ConfChangeSingle.
Proof. solve_decision. Defined.
#[export] Instance ConfChangeV2_eq_dec : EqDecision ConfChangeV2.
Proof. solve_decision. Defined.
#[export] Instance PbConfChangeType_countable : Countable PbConfChangeType.
Proof.
  refine (inj_countable (λ t, match t with ConfChangeAddNode => 0 | ConfChangeRemoveNode => 1 | ConfChangeUpdateNode => 2 | ConfChangeAddLearnerNode => 3 end)
    (λ n, match n with 0 => Some ConfChangeAddNode | 1 => Some ConfChangeRemoveNode | 2 => Some ConfChangeUpdateNode | 3 => Some ConfChangeAddLearnerNode | _ => None end) _).
  by intros [].
Defined.
#[export] Instance ConfChangeV2_countable : Countable ConfChangeV2.
Proof.
  refine (inj_countable' (λ c, ((λ x, (ccs_Type x, ccs_NodeID x)) <$> cc2_Changes c, cc2_Context c))
    (λ '(l, ctx), MkConfChangeV2 ((λ '(t, i), MkSingle t i) <$> l) ctx) _).
  intros [l ctx]. cbn. f_equal. induction l as [|[t i] l IH]; cbn; by f_equal.
Defined.
(** A message as the bits of its code; node ids are 64-bit fields. *)
Definition cc2_bits (c : ConfChangeV2) : str := bits_marshal (byte 123) c.
Definition cc2_of_bits (s : str) : option ConfChangeV2 :=
  c ← bits_unmarshal (byte 123) s;
  if bool_decide (Forall (λ x, is_u64 (ccs_NodeID x)) (cc2_Changes c)) then Some c else None.
Lemma cc2_of_bits_u64 s c : cc2_of_bits s = Some c → Forall (λ x, is_u64 (ccs_NodeID x)) (cc2_Changes c).
Proof.
  unfold cc2_of_bits. destruct (bits_unmarshal (byte 123) s) as [c'|]; [|done]. cbn.
  case_bool_decide; [by intros [= <-]|done].
Qed.
Lemma cc2_of_bits_back c : Forall (λ x, is_u64 (ccs_NodeID x)) (cc2_Changes c) → cc2_of_bits (cc2_bits c) = Some c.
Proof. intros Hc. unfold cc2_of_bits, cc2_bits. rewrite bits_roundtrip. cbn. by rewrite bool_decide_true. Qed.
#[refine] Definition memory_raft : Raft := {|
  IsEmptySnap s := (rs_Index s =? 0)%Z; IsEmptyHardState := isEmptyHardState;
  Message := unit; msg_To _ := 2%Z; msg_From _ := 0%Z; msg_Type _ := []; msg_Marshal _ := Some [];
  entry_type_string _ := [];
  conf_Marshal _ := Some []; conf_Unmarshal _ := Some empty_conf; cc_Unmarshal _ := None; cc2_Unmarshal := cc2_of_bits;
  MemoryStorage := MemStore; NewMemoryStorage := MkMemStore zero_state (MkRaftSnapshot [] 0 0 empty_conf) 0 [];
  ms_SetHardState ms hs := MkMemStore hs (mem_snap ms) (mem_offset ms) (mem_ents ms);
  ms_ApplySnapshot := mem_apply; ms_Append := mem_append; ms_Snapshot ms := Ok (mem_snap ms);
  ms_CreateSnapshot := mem_create; ms_FirstIndex ms := Ok (mem_first ms); ms_Compact := mem_compact;
  ms_InitialState ms := Ok (mem_hs ms, rs_ConfState (mem_snap ms));
  ms_last := mem_last; ms_snap ms := rs_Index (mem_snap ms); ms_first := mem_first
|}.
Proof.
  - done.
  - done.
  - done.
  - intros ms. by eexists.
  - done.
  - intros ms. unfold mem_first, mem_last. lia.
  - done.
  - intros ms snap Hs H0. unfold mem_apply. rewrite (proj2 (Z.leb_gt _ _)) by done. eexists. split; [done|].
    unfold mem_last, mem_first. cbn. lia.
  - intros ms snap Hs. unfold mem_apply. by rewrite (proj2 (Z.leb_le _ _)).
  - intros ms es e e' H1 H2 H3 H4. destruct (mem_append_ok ms es e e' H1 H2 H3 H4) as (ms'&E1&E2&E3&E4).
    exists ms'. unfold mem_first in *. by rewrite E1, E2, E3, E4.
  - intros ms i cs data [Hs Hl] Hf. unfold mem_create.
    rewrite (proj2 (Z.leb_gt _ _)), (proj2 (Z.ltb_ge _ _)) by done. do 2 eexists. split; [done|].
    split_and!; [done| |done..]. cbn. unfold mem_term. case_match; apply u64_range.
  - intros ms i cs data Hi. unfold mem_create. by rewrite (proj2 (Z.leb_le _ _)).
  - intros ms i [Hf Hl]. unfold mem_compact. rewrite !(proj2 (Z.ltb_ge _ _)) by done. eexists. split; [done|].
    unfold mem_last, mem_first in *. cbn. rewrite length_drop. lia.
Defined.
(** A node that accepts every call. *)
Definition quiet_node : @RaftBehaviour memory_raft :=
  {| call_result _ _ := None; node_config _ := MkTracker [1%Z] [] ∅ ∅ false |}.
