(* ===== verification/RaftNode.v ===== *)
(** * The raft node ([internal/raftnode/node.go, ready.go, confchange.go, service.go])

    [RaftNode] ties the write-ahead log, the snapshot files, the pebble store and the raft
    library together.  Goroutines are not modelled as such: every method is one state
    transformer, and the waiting part of a read is split into its own steps. *)
From Stdlib Require Import Ascii ZArith.
From stdpp Require Import gmap strings countable list sorting.
From S2P Require Import Prelude GoStrings Codec Files Wal WalLog Engine StateMachine Pebble Snapshot RaftConfig Raft.

(** ** [ready.go] and [confchange.go] *)
Abbreviation Role := str.
Definition RoleFollower : Role := lit "follower".
Definition RoleCandidate : Role := lit "candidate".
Definition RoleLeader : Role := lit "leader".
Definition RoleLearner : Role := lit "learner".
Record SoftState := MkSoftState { ss_LeaderID : Z; ss_Role : Role }.
Record LogEntry := MkLogEntry { le_Index : Z; le_Term : Z; le_Type : str; le_Data : str; le_Raw : Entry }.
Record SnapshotMetadata := MkSnapMeta { sm_Term : Z; sm_Index : Z; sm_ConfState : str; sm_Checksum : str }.
Definition ConfChangeAddLearner : str := lit "add_learner".
Definition ConfChangePromoteLearner : str := lit "promote_learner".
Definition ConfChangeRemove : str := lit "remove_node".
Record ConfChangeRequest := MkConfRequest { cr_Type : str; cr_NodeID : Z; cr_Context : str }.

Record Status := MkStatus {
  st_NodeID : Z; st_ClusterID : Z; st_LeaderID : Z; st_Role : Role;
  st_AppliedIndex : Z; st_CommitIndex : Z; st_Started : bool; st_Stopped : bool
}.
(** A Go channel of capacity one. *)
Record Chan := MkChan { ch_buf : option Z; ch_closed : bool }.

Section messages.
Context `{Raft}.
Record OutboundMessage := MkOutbound { om_To : Z; om_From : Z; om_Type : str; om_Payload : str; om_Raw : Message }.
(** What the node hands to the application. *)
Record Ready := MkReady {
  r_SoftState : SoftState; r_HardState : HardState; r_Entries : list LogEntry; r_CommittedEntries : list LogEntry;
  r_Messages : list OutboundMessage; r_Snapshot : option SnapshotMetadata; r_MustSync : bool
}.
(** [raft.Ready] *)
Record RaftReady := MkRaftReady {
  rd_SoftState : option RaftSoftState; rd_HardState : HardState; rd_ReadStates : list ReadState;
  rd_Entries : list Entry; rd_Snapshot : RaftSnapshot; rd_CommittedEntries : list Entry;
  rd_Messages : list Message; rd_MustSync : bool
}.

Definition toRole (state : StateType) : Role :=
  match state with
  | StateLeader => RoleLeader
  | StateCandidate => RoleCandidate
  | StateFollower => RoleFollower
  | StatePreCandidate => RoleCandidate
  | StateOther _ => RoleFollower
  end.
Definition mustMarshalConfState (c : ConfState) : str := default [] (conf_Marshal c).
Definition unmarshalConfState (data : str) : ConfState :=
  if bool_decide (data = []) then empty_conf else default empty_conf (conf_Unmarshal data).
Definition toSortedIDs (items : gset Z) : list Z := merge_sort Z.le (elements items).
Definition convertEntries (entries : list Entry) : list LogEntry :=
  (λ e, MkLogEntry (e_Index e) (e_Term e) (entry_type_string (e_Type e)) (e_Data e) e) <$> entries.
Definition convertMessages (messages : list Message) : list OutboundMessage :=
  (λ m, MkOutbound (msg_To m) (msg_From m) (msg_Type m) (default [] (msg_Marshal m)) m) <$> messages.
Definition convertReady (rd : RaftReady) : Ready := {|
  r_SoftState := match rd_SoftState rd with
                 | Some ss => MkSoftState (rss_Lead ss) (toRole (rss_RaftState ss))
                 | None => MkSoftState 0 []
                 end;
  r_HardState := rd_HardState rd;
  r_Entries := convertEntries (rd_Entries rd);
  r_CommittedEntries := convertEntries (rd_CommittedEntries rd);
  r_Messages := convertMessages (rd_Messages rd);
  r_Snapshot := if IsEmptySnap (rd_Snapshot rd) then None
                else Some (MkSnapMeta (rs_Term (rd_Snapshot rd)) (rs_Index (rd_Snapshot rd))
                             (mustMarshalConfState (rs_ConfState (rd_Snapshot rd))) []);
  r_MustSync := rd_MustSync rd
|}.
Definition toConfChange (change : ConfChangeRequest) : ConfChangeV2 :=
  let single t := MkConfChangeV2 [MkSingle t (cr_NodeID change)] (cr_Context change) in
  if bool_decide (cr_Type change = ConfChangeAddLearner) then single ConfChangeAddLearnerNode
  else if bool_decide (cr_Type change = ConfChangePromoteLearner) then single ConfChangeAddNode
  else single ConfChangeRemoveNode.
End messages.

(** ** The node *)
Section node.
Context `{Raftpb, !Raft, !RaftBehaviour, PebbleEngine}.
Context `{Json MemberAddress, Json snapshotPayload, Json (list KV), Json Command, Json Snapshot.Metadata}.
Context (sha256_hex : str → str).

Inductive NodeErr :=
  | errNodeClosed | errNodeNotStarted | errNodeStarted
  | ErrTarget | ErrConfType | ErrConfNodeID | ErrMarshalCommand
  | ECtx      (* the context's error *)
  | EConfig (e : ConfigErr) | EWal (e : WalErr) | EStore (e : StoreErr) | ESnap (e : SnapErr) | ERaft (e : RaftErr)
  | EPanic    (* nil pointer, closed channel *)
  | EBlocked. (* a send on a full channel *)
(** [rn_node] holds the calls made on the [raft.Node]; [None] is a nil node.  [rn_chans] is
    the heap of result channels, [rn_readyCh] the buffer of the ready channel. *)
Record RaftNode := MkNode {
  rn_cfg : Config; rn_status : Status; rn_node : option (list NodeCall); rn_storage : MemoryStorage;
  rn_wal : FileWAL; rn_snap : FileStore; rn_kv : PebbleStore;
  rn_readyCh : list Ready; rn_waiters : gmap str nat; rn_chans : gmap nat Chan;
  rn_fresh : bool; rn_readIndexCounter : Z; rn_started : bool; rn_stopped : bool
}.
Definition N (A : Type) : Type := ST RaftNode NodeErr A.

Definition set_status (f : Status → Status) (n : RaftNode) : RaftNode :=
  MkNode (rn_cfg n) (f (rn_status n)) (rn_node n) (rn_storage n) (rn_wal n) (rn_snap n) (rn_kv n)
    (rn_readyCh n) (rn_waiters n) (rn_chans n) (rn_fresh n) (rn_readIndexCounter n) (rn_started n) (rn_stopped n).
Definition set_node (c : option (list NodeCall)) (n : RaftNode) : RaftNode :=
  MkNode (rn_cfg n) (rn_status n) c (rn_storage n) (rn_wal n) (rn_snap n) (rn_kv n)
    (rn_readyCh n) (rn_waiters n) (rn_chans n) (rn_fresh n) (rn_readIndexCounter n) (rn_started n) (rn_stopped n).
Definition set_stores (ms : MemoryStorage) (w : FileWAL) (s : FileStore) (kv : PebbleStore) (n : RaftNode) : RaftNode :=
  MkNode (rn_cfg n) (rn_status n) (rn_node n) ms w s kv
    (rn_readyCh n) (rn_waiters n) (rn_chans n) (rn_fresh n) (rn_readIndexCounter n) (rn_started n) (rn_stopped n).
Definition set_readyCh (q : list Ready) (n : RaftNode) : RaftNode :=
  MkNode (rn_cfg n) (rn_status n) (rn_node n) (rn_storage n) (rn_wal n) (rn_snap n) (rn_kv n)
    q (rn_waiters n) (rn_chans n) (rn_fresh n) (rn_readIndexCounter n) (rn_started n) (rn_stopped n).
Definition set_reads (ws : gmap str nat) (cs : gmap nat Chan) (n : RaftNode) : RaftNode :=
  MkNode (rn_cfg n) (rn_status n) (rn_node n) (rn_storage n) (rn_wal n) (rn_snap n) (rn_kv n)
    (rn_readyCh n) ws cs (rn_fresh n) (rn_readIndexCounter n) (rn_started n) (rn_stopped n).
Definition set_flags (fresh : bool) (counter : Z) (started stopped : bool) (n : RaftNode) : RaftNode :=
  MkNode (rn_cfg n) (rn_status n) (rn_node n) (rn_storage n) (rn_wal n) (rn_snap n) (rn_kv n)
    (rn_readyCh n) (rn_waiters n) (rn_chans n) fresh counter started stopped.
Definition with_applied (i : Z) (s : Status) : Status :=
  MkStatus (st_NodeID s) (st_ClusterID s) (st_LeaderID s) (st_Role s) i (st_CommitIndex s) (st_Started s) (st_Stopped s).
Definition with_commit (i : Z) (s : Status) : Status :=
  MkStatus (st_NodeID s) (st_ClusterID s) (st_LeaderID s) (st_Role s) (st_AppliedIndex s) i (st_Started s) (st_Stopped s).
Definition with_leader (lead : Z) (role : Role) (s : Status) : Status :=
  MkStatus (st_NodeID s) (st_ClusterID s) lead role (st_AppliedIndex s) (st_CommitIndex s) (st_Started s) (st_Stopped s).

(** Running an operation of a part. *)
Definition on_wal {A} (m : W A) : N A := λ n,
  let '(w, r) := m (rn_wal n) in (set_stores (rn_storage n) w (rn_snap n) (rn_kv n) n, map_err EWal r).
Definition on_snap {A} (m : S' A) : N A := λ n,
  let '(s, r) := m (rn_snap n) in (set_stores (rn_storage n) (rn_wal n) s (rn_kv n) n, map_err ESnap r).
Definition on_kv {A} (f : PebbleStore → PebbleStore * result StoreErr A) : N A := λ n,
  let '(kv, r) := f (rn_kv n) in (set_stores (rn_storage n) (rn_wal n) (rn_snap n) kv n, map_err EStore r).
Definition on_kv_read {A} (f : PebbleStore → result StoreErr A) : N A := λ n, (n, map_err EStore (f (rn_kv n))).
Definition on_ms {A} (f : MemoryStorage → result RaftErr (MemoryStorage * A)) : N A := λ n,
  match f (rn_storage n) with
  | Ok (ms, a) => (set_stores ms (rn_wal n) (rn_snap n) (rn_kv n) n, Ok a)
  | Err RaftPanic => (n, Err EPanic)
  | Err e => (n, Err (ERaft e))
  end.
Definition on_ms_ (f : MemoryStorage → result RaftErr MemoryStorage) : N unit := on_ms (λ ms, ms' ← f ms; Ok (ms', tt)).
(** A call on the [raft.Node]. *)
Definition node_call (c : NodeCall) : N unit := λ n,
  match rn_node n with
  | None => (n, Err EPanic)
  | Some calls =>
      (set_node (Some (calls ++ [c])) n, match call_result calls c with None => Ok tt | Some e => Err (ERaft e) end)
  end.
(** [_ = f()]: an error is dropped, a panic is not. *)
Definition drop_err {A} (m : N A) : N unit := λ n,
  match m n with
  | (n', Ok _) => (n', Ok tt)
  | (n', Err EPanic) => (n', Err EPanic)
  | (n', Err EBlocked) => (n', Err EBlocked)
  | (n', Err _) => (n', Ok tt)
  end.
Definition when (b : bool) (m : N unit) : N unit := if b then m else mret tt.

Definition ensureRunning : N unit :=
  n ← st_get;
  if negb (rn_started n) then st_fail errNodeNotStarted
  else if rn_stopped n then st_fail errNodeClosed else mret tt.

(** ** Linearizable reads: the waiters *)
Definition chan_send (ch : nat) (v : Z) : N unit :=
  n ← st_get;
  match rn_chans n !! ch with
  | Some (MkChan None false) => st_modify (set_reads (rn_waiters n) (<[ch := MkChan (Some v) false]> (rn_chans n)))
  | Some (MkChan (Some _) false) => st_fail EBlocked
  | _ => st_fail EPanic
  end.
Definition chan_close (ch : nat) : N unit :=
  n ← st_get;
  match rn_chans n !! ch with
  | Some (MkChan b false) => st_modify (set_reads (rn_waiters n) (<[ch := MkChan b true]> (rn_chans n)))
  | _ => st_fail EPanic
  end.
Definition forget_waiter (ctx : str) : N unit := st_modify (λ n, set_reads (delete ctx (rn_waiters n)) (rn_chans n) n).
Definition removeWaiter (reqCtx : str) : N unit :=
  n ← st_get;
  match rn_waiters n !! reqCtx with
  | Some ch => chan_close ch;; forget_waiter reqCtx
  | None => mret tt
  end.
Definition deliver (state : ReadState) : N unit :=
  n ← st_get;
  match rn_waiters n !! rst_RequestCtx state with
  | Some ch => chan_send ch (rst_Index state);; chan_close ch;; forget_waiter (rst_RequestCtx state)
  | None => mret tt
  end.
Definition handleReadStates (states : list ReadState) : N unit := st_iter deliver states.

(** [ReadIndex] up to its [select]: the request context and the result channel. *)
Definition request_context (reqCtx : str) : N str :=
  if bool_decide (reqCtx = []) then
    n ← st_get;
    let c := u64 (rn_readIndexCounter n + 1) in
    st_modify (set_flags (rn_fresh n) c (rn_started n) (rn_stopped n));;
    mret (lit "read-index-" ++ FormatUint c)
  else mret reqCtx.
Definition register_waiter (requestCtx : str) : N nat :=
  n ← st_get;
  let waiter := base.fresh (dom (rn_chans n)) in
  st_modify (set_reads (<[requestCtx := waiter]> (rn_waiters n)) (<[waiter := MkChan None false]> (rn_chans n)));;
  mret waiter.
(** Undo the registration when the call fails. *)
Definition or_remove {A} (requestCtx : str) (m : N A) : N A := λ n,
  match m n with
  | (n', Err EPanic) => (n', Err EPanic)
  | (n', Err e) => let '(n'', r) := removeWaiter requestCtx n' in
                   (n'', match r with Ok _ => Err e | Err p => Err p end)
  | (n', Ok a) => (n', Ok a)
  end.
Definition read_begin (reqCtx : str) : N (str * nat) :=
  ensureRunning;;
  requestCtx ← request_context reqCtx;
  waiter ← register_waiter requestCtx;
  or_remove requestCtx (node_call (CReadIndex requestCtx));;
  mret (requestCtx, waiter).
(** The branches of the [select]: the request's context is done, the node is stopped, or
    the channel is readable ([None]: it is not).  A closed channel yields zero. *)
Definition read_cancelled (requestCtx : str) : N Z := removeWaiter requestCtx;; st_fail ECtx.
Definition read_stopped (requestCtx : str) : N Z := removeWaiter requestCtx;; st_fail errNodeClosed.
Definition read_receive (waiter : nat) (n : RaftNode) : option (RaftNode * Z) :=
  match rn_chans n !! waiter with
  | Some (MkChan (Some index) c) => Some (set_reads (rn_waiters n) (<[waiter := MkChan None c]> (rn_chans n)) n, index)
  | Some (MkChan None true) => Some (n, 0%Z)
  | _ => None
  end.
(** [LinearizableRead] after [ReadIndex]: the applied index is looked at until it has caught up.
    Each round ends with the context done, the node stopped, or a tick, after which the node may have
    moved on; [None]: the reader still waits. *)
Definition read_poll (readIndex : Z) (n : RaftNode) : bool := (readIndex <=? st_AppliedIndex (rn_status n))%Z.
Inductive PollEvent := PECancelled | PEStopped | PETick (n : RaftNode).
Fixpoint LinearizableRead_wait (readIndex : Z) (n : RaftNode) (events : list PollEvent) : option (result NodeErr unit) :=
  if read_poll readIndex n then Some (Ok tt)
  else match events with
  | [] => None
  | PECancelled :: _ => Some (Err ECtx)
  | PEStopped :: _ => Some (Err errNodeClosed)
  | PETick n' :: events => LinearizableRead_wait readIndex n' events
  end.
(** [Get] and [Scan], given the outcome of their read barrier; the barrier's context is the key, or
    the two bounds. *)
Definition scan_context (start end_ : str) : str := start ++ end_.
Definition node_Get (barrier : result NodeErr unit) (key : str) : N str :=
  st_lift barrier;; on_kv_read (λ s, Pebble.Get s key).
Definition node_Scan (barrier : result NodeErr unit) (start end_ : str) (limit : Z) : N (list KV) :=
  st_lift barrier;; on_kv_read (λ s, Pebble.Scan s start end_ limit).

(** ** Applying committed entries *)
Definition apply_entry (entry : Entry) : N unit :=
  match e_Type entry with
  | EntryConfChange =>
      match cc_Unmarshal (e_Data entry) with
      | Some cc => drop_err (node_call (CApplyConfChange (CCV1 cc)))
      | None => mret tt
      end
  | EntryConfChangeV2 =>
      match cc2_Unmarshal (e_Data entry) with
      | Some cc => drop_err (node_call (CApplyConfChange (CCV2 cc)))
      | None => mret tt
      end
  | EntryNormal =>
      if bool_decide (e_Data entry = []) then mret tt
      else match json_unmarshal (e_Data entry) with
           | Some cmd => drop_err (on_kv (λ s, Pebble.Apply s cmd))
           | None => mret tt
           end
  end.
Definition set_applied (index term : Z) : N unit :=
  drop_err (on_kv (λ s, SetAppliedIndex s index));; drop_err (on_kv (λ s, SetAppliedTerm s term)).
Definition applyCommittedEntries (entries : list Entry) : N unit :=
  match last entries with
  | None => mret tt
  | Some entry =>
      st_iter apply_entry entries;;
      when (0 <? e_Index entry)%Z (set_applied (e_Index entry) (e_Term entry));;
      st_modify (set_status (with_applied (e_Index entry)))
  end.

Definition updateStatus (rd : RaftReady) : N unit := st_modify (set_status (λ s,
  let s := match rd_SoftState rd with
           | Some ss => with_leader (rss_Lead ss) (toRole (rss_RaftState ss)) s
           | None => s
           end in
  let s := if IsEmptyHardState (rd_HardState rd) then s else with_commit (hs_Commit (rd_HardState rd)) s in
  match last (rd_CommittedEntries rd) with
  | Some e => with_applied (e_Index e) s
  | None => s
  end)).

(** ** Snapshots and compaction *)
Definition currentConfState (n : RaftNode) : ConfState :=
  match rn_node n with
  | Some calls =>
      let c := node_config calls in
      MkConfState (tc_Voters c) (tc_VotersOutgoing c) (toSortedIDs (tc_Learners c)) (toSortedIDs (tc_LearnersNext c))
        (tc_AutoLeave c)
  | None => MkConfState (cfg_Peers (rn_cfg n)) [] [] [] false
  end.
Definition current_snapshot_index : N Z := λ n,
  match ms_Snapshot (rn_storage n) with
  | Ok s => (n, Ok (rs_Index s))
  | Err ErrSnapshotTemporarilyUnavailable => (n, Ok 0%Z)
  | Err RaftPanic => (n, Err EPanic)
  | Err e => (n, Err (ERaft e))
  end.
Definition first_index : N Z := λ n,
  match ms_FirstIndex (rn_storage n) with Ok i => (n, Ok i) | Err e => (n, Err (ERaft e)) end.
(** [err != nil && !errors.Is(err, tolerated)] *)
Definition tolerate (t : RaftErr) (m : N unit) : N unit := λ n,
  match m n with
  | (n', Err (ERaft e)) => if bool_decide (e = t) then (n', Ok tt) else (n', Err (ERaft e))
  | r => r
  end.
Definition compactIndex (cfg : Config) (appliedIndex : Z) : Z :=
  let retain := cfg_CompactRetainEntries cfg in
  if ((0 <? retain) && (retain <? appliedIndex))%Z then (appliedIndex - retain)%Z else appliedIndex.
Definition compact_logs (appliedIndex : Z) : N unit :=
  n ← st_get;
  let i := compactIndex (rn_cfg n) appliedIndex in
  first ← first_index;
  when (first <=? i)%Z
    (tolerate ErrCompacted (on_ms_ (λ ms, ms_Compact ms i));; on_wal (Wal.TruncatePrefix i)).
(** Export the state machine, snapshot the storage, write the file, compact. *)
Definition take_snapshot (appliedIndex : Z) : N unit :=
  buf ← on_kv_read Pebble.Snapshot;
  n ← st_get;
  let confState := currentConfState n in
  match ms_CreateSnapshot (rn_storage n) appliedIndex confState buf with
  | Err ErrSnapOutOfDate => mret tt
  | _ =>
      snap ← on_ms (λ ms, ms_CreateSnapshot ms appliedIndex confState buf);
      on_snap (Snapshot.Create sha256_hex
        (MkMetadata (rs_Term snap) (rs_Index snap) (mustMarshalConfState (rs_ConfState snap)) [] (Z.of_nat (length buf)))
        (Some (MkExporter buf false)));;
      compact_logs appliedIndex;;
      on_snap (Snapshot.Cleanup (cfg_KeepSnapshots (rn_cfg n)))
  end.
Definition maybeTriggerSnapshot : N unit :=
  appliedIndex ← on_kv_read Pebble.AppliedIndex;
  if (appliedIndex =? 0)%Z then mret tt
  else
    lastSnapshotIndex ← current_snapshot_index;
    n ← st_get;
    if (u64 (appliedIndex - lastSnapshotIndex) <? cfg_SnapshotEntries (rn_cfg n))%Z then mret tt
    else take_snapshot appliedIndex.

(** ** The ready loop *)
Definition install_ready_snapshot (snap : RaftSnapshot) : N unit :=
  when (negb (bool_decide (rs_Data snap = []))) (drop_err (on_kv (λ s, Pebble.Restore s (rs_Data snap))));;
  drop_err (on_snap (Snapshot.Install sha256_hex
    (MkMetadata (rs_Term snap) (rs_Index snap) (mustMarshalConfState (rs_ConfState snap)) [] 0)
    (MkExporter (rs_Data snap) false)));;
  drop_err (on_ms_ (λ ms, ms_ApplySnapshot ms snap)).
(** A full buffer drops the batch.  (On a stopped node with room in the buffer the code may do
    either; nobody is served any more.) *)
Definition emitReady (ready : Ready) : N unit := st_modify (λ n,
  if rn_stopped n then n
  else if (Z.of_nat (length (rn_readyCh n)) <? cfg_ReadyBufferSize (rn_cfg n))%Z
       then set_readyCh (rn_readyCh n ++ [ready]) n else n).
Definition persist_ready (rd : RaftReady) : N unit :=
  when (negb (IsEmptyHardState (rd_HardState rd)) || negb (bool_decide (rd_Entries rd = [])))
    (drop_err (on_wal (Wal.Append (rd_HardState rd) (rd_Entries rd))));;
  when (negb (bool_decide (rd_Entries rd = []))) (drop_err (on_ms_ (λ ms, ms_Append ms (rd_Entries rd))));;
  when (negb (IsEmptyHardState (rd_HardState rd)))
    (on_ms_ (λ ms, Ok (ms_SetHardState ms (rd_HardState rd)))).
Definition handleReady (rd : RaftReady) : N unit :=
  when (negb (IsEmptySnap (rd_Snapshot rd))) (install_ready_snapshot (rd_Snapshot rd));;
  persist_ready rd;;
  handleReadStates (rd_ReadStates rd);;
  applyCommittedEntries (rd_CommittedEntries rd);;
  updateStatus rd;;
  drop_err maybeTriggerSnapshot;;
  emitReady (convertReady rd);;
  drop_err (node_call CAdvance).

(** ** Recovery *)
Definition restore_snapshot (meta : Metadata) (data : str) : N Z :=
  if (0 <? md_Index meta)%Z then
    on_kv (λ s, Pebble.Restore s data);;
    set_applied (md_Index meta) (md_Term meta);;
    tolerate ErrSnapOutOfDate (on_ms_ (λ ms, ms_ApplySnapshot ms
      (MkRaftSnapshot data (md_Index meta) (md_Term meta) (unmarshalConfState (md_ConfState meta)))));;
    mret (md_Index meta)
  else mret 0%Z.
(** [OpenLatest]; its error is ignored. *)
Definition open_latest : N (option (Metadata * str)) := λ n,
  let '(s, r) := Snapshot.OpenLatest (rn_snap n) in
  (set_stores (rn_storage n) (rn_wal n) s (rn_kv n) n, Ok match r with Ok x => Some x | Err _ => None end).
Definition replay_entry (snapshotIndex commit : Z) (entry : Entry) : N unit :=
  if ((e_Index entry <=? snapshotIndex) || (commit <? e_Index entry))%Z then mret tt
  else
    (match e_Type entry with
     | EntryNormal =>
         if bool_decide (e_Data entry = []) then mret tt
         else match json_unmarshal (e_Data entry) with
              | Some cmd => drop_err (on_kv (λ s, Pebble.Apply s cmd))
              | None => mret tt
              end
     | _ => mret tt
     end);;
    set_applied (e_Index entry) (e_Term entry).
Definition bootstrapStorage : N unit :=
  latest ← open_latest;
  snapshotIndex ← match latest with Some (meta, data) => restore_snapshot meta data | None => mret 0%Z end;
  loaded ← on_wal Wal.Load;
  let hardState := loaded.1 in
  let entries := loaded.2 in
  when (negb (IsEmptyHardState hardState)) (on_ms_ (λ ms, Ok (ms_SetHardState ms hardState)));;
  when (negb (bool_decide (entries = []))) (on_ms_ (λ ms, ms_Append ms entries));;
  when (negb (IsEmptyHardState hardState) || negb (bool_decide (entries = [])) || (0 <? snapshotIndex)%Z)
    (st_modify (λ n, set_flags false (rn_readIndexCounter n) (rn_started n) (rn_stopped n) n));;
  when (negb (IsEmptyHardState hardState) && (snapshotIndex <? hs_Commit hardState)%Z)
    (st_iter (replay_entry snapshotIndex (hs_Commit hardState)) entries);;
  st_modify (set_status (with_applied (hs_Commit hardState)));;
  st_modify (set_status (with_commit (hs_Commit hardState))).

(** ** Life cycle *)
(** What a node finds on disk. *)
Record Disk := MkDisk { d_wal : files; d_snap : files; d_db : DB }.
Definition New (cfg : Config) (d : Disk) : result NodeErr RaftNode :=
  let cfg := WithDefaults cfg in
  match Validate cfg with
  | Err e => Err (EConfig e)
  | Ok _ => Ok {|
      rn_cfg := cfg;
      rn_status := MkStatus (cfg_NodeID cfg) (cfg_ClusterID cfg) (cfg_InitialLeaderID cfg) RoleFollower
                     (cfg_InitialAppliedIndex cfg) (cfg_InitialAppliedIndex cfg) false false;
      rn_node := None; rn_storage := NewMemoryStorage;
      rn_wal := NewFileWAL (d_wal d); rn_snap := NewFileStore (d_snap d); rn_kv := MkStore (d_db d) false;
      rn_readyCh := []; rn_waiters := ∅; rn_chans := ∅; rn_fresh := true; rn_readIndexCounter := 0;
      rn_started := false; rn_stopped := false |}
  end.
Definition buildRaftConfig (cfg : Config) : RaftLibConfig :=
  MkLibConfig (cfg_NodeID cfg) (cfg_ElectionTick cfg) (cfg_HeartbeatTick cfg) (cfg_MaxSizePerMsg cfg) (cfg_MaxInflightMsgs cfg).
Definition buildPeers (cfg : Config) : list Z := cfg_Peers cfg.
Definition Start : N unit :=
  n ← st_get;
  if rn_started n then st_fail errNodeStarted
  else
    st_modify (set_flags (rn_fresh n) (rn_readIndexCounter n) true (rn_stopped n));;
    on_wal Wal.Open;;
    on_kv Pebble.Open;;
    bootstrapStorage;;
    n ← st_get;
    st_modify (set_node (Some [if rn_fresh n then CStartNode (buildRaftConfig (rn_cfg n)) (buildPeers (rn_cfg n)) else CRestartNode (buildRaftConfig (rn_cfg n))]));;
    when (rn_fresh n) (node_call CCampaign).
Definition closeStores : N unit :=
  on_kv (λ s, (Pebble.Close s, Ok tt));; on_wal Wal.Close.
(** [Stop] signals the loop; [run_exit] is what the loop does on the signal. *)
Definition Stop : N unit :=
  n ← st_get;
  if negb (rn_started n) then st_fail errNodeNotStarted
  else if rn_stopped n then mret tt
  else st_modify (set_flags (rn_fresh n) (rn_readIndexCounter n) (rn_started n) true).
Definition run_exit : N unit := drop_err (node_call CStop);; closeStores.
(** One iteration of [run]. *)
Inductive RunEvent := REStop | RETick | REReady (rd : RaftReady).
Definition run_iteration (ev : RunEvent) : N unit :=
  match ev with
  | REStop => run_exit
  | RETick => drop_err (node_call CTick)
  | REReady rd => handleReady rd
  end.

(** ** Requests *)
Definition Propose (data : str) : N unit := ensureRunning;; node_call (CPropose data).
Definition ProposeCommand (cmd : Command) : N unit :=
  match json_marshal cmd with Some data => Propose data | None => st_fail ErrMarshalCommand end.
Definition Step (message : Message) : N unit := ensureRunning;; node_call (CStep message).
Definition TransferLeadership (targetNodeID : Z) : N unit :=
  ensureRunning;;
  if (targetNodeID =? 0)%Z then st_fail ErrTarget
  else n ← st_get; drop_err (node_call (CTransferLeadership (cfg_NodeID (rn_cfg n)) targetNodeID)).
Definition ApplyConfChange (change : ConfChangeRequest) : N unit :=
  ensureRunning;;
  if bool_decide (cr_Type change = []) then st_fail ErrConfType
  else if (cr_NodeID change =? 0)%Z then st_fail ErrConfNodeID
  else node_call (CProposeConfChange (toConfChange change)).
Definition node_Status (n : RaftNode) : Status :=
  let s := rn_status n in
  MkStatus (st_NodeID s) (st_ClusterID s) (st_LeaderID s) (st_Role s) (st_AppliedIndex s) (st_CommitIndex s)
    (rn_started n) (rn_stopped n).
Definition node_HardState (n : RaftNode) : HardState :=
  match ms_InitialState (rn_storage n) with Ok (hs, _) => hs | Err _ => zero_state end.
Definition node_ConfState (n : RaftNode) : ConfState :=
  match ms_InitialState (rn_storage n) with Ok (_, cs) => cs | Err _ => empty_conf end.
Definition node_SetMemberAddress (id : Z) (http grpc admin : str) : N unit :=
  on_kv (λ s, Pebble.SetMemberAddress s id http grpc admin).
Definition node_DeleteMemberAddress (id : Z) : N unit := on_kv (λ s, Pebble.DeleteMemberAddress s id).
Definition node_ListMemberAddresses : N (list MemberAddress) := on_kv_read Pebble.ListMemberAddresses.

(** A snapshot that arrived through the transport. *)
Definition InstallSnapshot (meta : Metadata) (data : str) : N unit :=
  ensureRunning;;
  on_snap (Snapshot.Install sha256_hex meta (MkExporter data false));;
  when (negb (bool_decide (data = []))) (on_kv (λ s, Pebble.Restore s data));;
  tolerate ErrSnapOutOfDate (on_ms_ (λ ms, ms_ApplySnapshot ms
    (MkRaftSnapshot data (md_Index meta) (md_Term meta) (unmarshalConfState (md_ConfState meta)))));;
  on_kv (λ s, SetAppliedIndex s (md_Index meta));;
  on_kv (λ s, SetAppliedTerm s (md_Term meta));;
  on_wal (Wal.TruncatePrefix (md_Index meta));;
  st_modify (set_status (λ s,
    let s := if (st_AppliedIndex s <? md_Index meta)%Z then with_applied (md_Index meta) s else s in
    if (st_CommitIndex s <? md_Index meta)%Z then with_commit (md_Index meta) s else s)).
End node.
