(* ===== verification/RaftReads.v ===== *)
(** * Linearizable reads

    [ReadIndex] registers a result channel under the request's context; the ready loop fills
    and closes the channel when raft confirms the read; a reader that gives up closes it
    empty.  The readers and the ready loop interleave as a step relation. *)
From Stdlib Require Import Ascii ZArith.
From stdpp Require Import gmap strings countable list sorting.
From S2P Require Import Prelude GoStrings Codec Files Wal WalLog Engine StateMachine Pebble Snapshot RaftConfig Raft RaftNode.

Section reads.
Context `{Raftpb, !Raft, !RaftBehaviour, PebbleEngine}.

(** ** The node's monad *)
Lemma n_bind {A B} (m : N A) (f : A → N B) n n1 a : m n = (n1, Ok a) → (m ≫= f) n = f a n1.
Proof. apply st_bind_ok. Qed.
Lemma n_bind_err {A B} (m : N A) (f : A → N B) n n1 e : m n = (n1, Err e) → (m ≫= f) n = (n1, Err e).
Proof. apply st_bind_err. Qed.
Lemma n_get {B} (f : RaftNode → N B) n : (st_get ≫= f) n = f n n.
Proof. done. Qed.
Lemma n_modify {B} g (f : unit → N B) n : (st_modify g ≫= f) n = f tt (g n).
Proof. done. Qed.
Lemma n_ret {A B} (a : A) (f : A → N B) n : ((mret a : N A) ≫= f) n = f a n.
Proof. done. Qed.
Lemma ensureRunning_same n n' r : ensureRunning n = (n', r) → n' = n.
Proof. unfold ensureRunning, mbind, ST_bind, st_get. repeat case_match; by intros [= <- _]. Qed.

(** ** The channels *)
(** Every registered channel is open and empty, and registered once. *)
Definition waiters_ok (n : RaftNode) : Prop :=
  (∀ ctx ch, rn_waiters n !! ctx = Some ch → rn_chans n !! ch = Some (MkChan None false)) ∧
  (∀ ctx1 ctx2 ch, rn_waiters n !! ctx1 = Some ch → rn_waiters n !! ctx2 = Some ch → ctx1 = ctx2).
Definition same_but_reads (n n' : RaftNode) : Prop := ∃ ws cs, n' = set_reads ws cs n.

Lemma deliver_reads st n : waiters_ok n →
  deliver st n = (match rn_waiters n !! rst_RequestCtx st with
                  | Some ch => set_reads (delete (rst_RequestCtx st) (rn_waiters n))
                                 (<[ch := MkChan (Some (rst_Index st)) true]> (rn_chans n)) n
                  | None => n
                  end, Ok tt).
Proof.
  intros [Hopen _]. unfold deliver. rewrite n_get.
  destruct (rn_waiters n !! rst_RequestCtx st) as [ch|] eqn:E; [|done]. pose proof (Hopen _ _ E) as Hch.
  unfold chan_send, chan_close, forget_waiter, st_modify, st_get, mbind, ST_bind. rewrite Hch. cbn [set_reads rn_chans rn_waiters].
  rewrite lookup_insert_eq. cbn [set_reads rn_chans rn_waiters]. by rewrite insert_insert_eq.
Qed.
Lemma remove_reads ctx n : waiters_ok n →
  removeWaiter ctx n = (match rn_waiters n !! ctx with
                        | Some ch => set_reads (delete ctx (rn_waiters n)) (<[ch := MkChan None true]> (rn_chans n)) n
                        | None => n
                        end, Ok tt).
Proof.
  intros [Hopen _]. unfold removeWaiter. rewrite n_get.
  destruct (rn_waiters n !! ctx) as [ch|] eqn:E; [|done]. pose proof (Hopen _ _ E) as Hch.
  unfold chan_close, forget_waiter, st_modify, st_get, mbind, ST_bind. by rewrite Hch.
Qed.
Lemma waiters_ok_drop ctx ch c n : waiters_ok n → rn_waiters n !! ctx = Some ch →
  waiters_ok (set_reads (delete ctx (rn_waiters n)) (<[ch := c]> (rn_chans n)) n).
Proof.
  intros [Hop Hin] Hc. split; cbn [set_reads rn_waiters rn_chans].
  - intros ctx' ch' [Hne Hl]%lookup_delete_Some. rewrite lookup_insert_ne; [by eapply Hop|].
    intros <-. apply Hne. by eapply Hin.
  - intros c1 c2 ch' [_ ?]%lookup_delete_Some [_ ?]%lookup_delete_Some. by eapply Hin.
Qed.
Lemma deliver_ok st n : waiters_ok n → waiters_ok (deliver st n).1 ∧ same_but_reads n (deliver st n).1.
Proof.
  intros Hn. rewrite deliver_reads by done. cbn [fst]. destruct (_ !! _) as [ch|] eqn:E.
  - split; [by apply waiters_ok_drop|by do 2 eexists].
  - split; [done|]. exists (rn_waiters n), (rn_chans n). by destruct n.
Qed.
Lemma same_but_reads_trans n1 n2 n3 : same_but_reads n1 n2 → same_but_reads n2 n3 → same_but_reads n1 n3.
Proof. intros (ws&cs&->) (ws'&cs'&->). by exists ws', cs'. Qed.
(** The ready loop neither blocks nor panics on the channels. *)
Lemma handleReadStates_ok sts n : waiters_ok n →
  ∃ n', handleReadStates sts n = (n', Ok tt) ∧ waiters_ok n' ∧ same_but_reads n n'.
Proof.
  revert n. induction sts as [|st sts IH]; intros n Hn.
  - exists n. split_and!; [done|done|]. exists (rn_waiters n), (rn_chans n). by destruct n.
  - destruct (deliver_ok st n Hn) as [Hop Hin]. destruct (IH _ Hop) as (n'&Hr&?&?).
    exists n'. split_and!; [|done|by eapply same_but_reads_trans].
    cbn [handleReadStates st_iter]. unfold handleReadStates in *. cbn [st_iter].
    erewrite n_bind; [exact Hr|]. by rewrite deliver_reads.
Qed.

(** ** Readers and the ready loop, interleaved *)
(** A reader waits under its context on a channel since a point of the confirmation history. *)
Inductive Reader := Waiting (ctx : str) (ch start : nat) | Got (ctx : str) (index : Z) (start : nat) | GaveUp.
Record Reads := MkReads { rs_node : RaftNode; rs_readers : list Reader; rs_confirmed : list ReadState }.
Definition joined (r : result NodeErr (str * nat)) (now : nat) : list Reader :=
  match r with Ok (ctx, ch) => [Waiting ctx ch now] | Err _ => [] end.
(** The label of a step is the context it registers. *)
Inductive reads_step : option str → Reads → Reads → Prop :=
  | step_begin reqCtx ctx n n1 n' r l h :
      request_context reqCtx n = (n1, Ok ctx) → read_begin reqCtx n = (n', r) →
      reads_step (Some ctx) (MkReads n l h) (MkReads n' (l ++ joined r (length h)) h)
  | step_confirm sts n n' l h :
      handleReadStates sts n = (n', Ok tt) → reads_step None (MkReads n l h) (MkReads n' l (h ++ sts))
  | step_receive i ctx ch start n n' index l h :
      l !! i = Some (Waiting ctx ch start) → read_receive ch n = Some (n', index) →
      reads_step None (MkReads n l h) (MkReads n' (<[i := Got ctx index start]> l) h)
  | step_cancel i ctx ch start n n' l h :
      l !! i = Some (Waiting ctx ch start) → read_cancelled ctx n = (n', Err ECtx) →
      reads_step None (MkReads n l h) (MkReads n' (<[i := GaveUp]> l) h).
Definition unused (ctx : str) (s : Reads) : Prop := ∀ i ch start, rs_readers s !! i ≠ Some (Waiting ctx ch start).
(** No two reads that wait at the same time share a context. *)
Definition distinct_step (s s' : Reads) : Prop :=
  ∃ a, reads_step a s s' ∧ ∀ ctx, a = Some ctx → unused ctx s.
Definition confirmed (ctx : str) (index : Z) (start : nat) (h : list ReadState) : Prop :=
  ∃ j, start ≤ j ∧ h !! j = Some (MkReadState index ctx).
(** The state of a reader's channel. *)
Definition reader_ok (n : RaftNode) (h : list ReadState) (r : Reader) : Prop :=
  match r with
  | Waiting ctx ch start =>
      start ≤ length h ∧
      (rn_waiters n !! ctx = Some ch ∨
       ∃ index, rn_chans n !! ch = Some (MkChan (Some index) true) ∧ confirmed ctx index start h ∧
         ∀ ctx', rn_waiters n !! ctx' ≠ Some ch)
  | Got ctx index start => confirmed ctx index start h
  | GaveUp => True
  end.
Definition channel (r : Reader) : option nat := match r with Waiting _ ch _ => Some ch | _ => None end.
Definition context (r : Reader) : option str := match r with Waiting ctx _ _ => Some ctx | _ => None end.
Definition reads_inv (s : Reads) : Prop :=
  waiters_ok (rs_node s) ∧
  (∀ i r, rs_readers s !! i = Some r → reader_ok (rs_node s) (rs_confirmed s) r) ∧
  (∀ i j r1 r2 ch, rs_readers s !! i = Some r1 → rs_readers s !! j = Some r2 →
    channel r1 = Some ch → channel r2 = Some ch → i = j) ∧
  (∀ i j r1 r2 ctx, rs_readers s !! i = Some r1 → rs_readers s !! j = Some r2 →
    context r1 = Some ctx → context r2 = Some ctx → i = j).

Lemma confirmed_app ctx index start h h' : confirmed ctx index start h → confirmed ctx index start (h ++ h').
Proof. intros (j&?&Hj). exists j. split; [done|]. by apply lookup_app_l_Some. Qed.
Lemma waiting_chan n h ctx ch start : waiters_ok n → reader_ok n h (Waiting ctx ch start) → is_Some (rn_chans n !! ch).
Proof. intros [Hop _] [_ [Hw|(index&Hc&_)]]; [apply Hop in Hw; by eexists|by eexists]. Qed.
Lemma inv_deliver st n l h : reads_inv (MkReads n l h) → reads_inv (MkReads (deliver st n).1 l (h ++ [st])).
Proof.
  intros (Hw&Hr&Hd&Hx). pose proof (deliver_ok st n Hw) as [Hw' _]. split_and!; [done| |done..].
  intros i r Hi. pose proof (Hr i r Hi) as Hok. cbn [rs_node rs_confirmed] in *.
  destruct r as [ctx ch start|ctx index start|]; [|by apply confirmed_app|done].
  destruct Hok as [Hs Hok]. split; [rewrite length_app; lia|]. rewrite deliver_reads by done. cbn [fst].
  destruct (rn_waiters n !! rst_RequestCtx st) as [c|] eqn:E.
  2: { destruct Hok as [?|(index&?&?&?)]; [by left|]. right. exists index. split_and!; [done|by apply confirmed_app|done]. }
  cbn [set_reads rn_waiters rn_chans]. destruct (decide (rst_RequestCtx st = ctx)) as [Hc|Hc].
  - subst ctx. destruct Hok as [Hl|(index&Hch&Hcf&Hno)].
    + assert (c = ch) as -> by congruence. right. exists (rst_Index st). rewrite lookup_insert_eq. split_and!; [done| |].
      * exists (length h). split; [done|]. rewrite lookup_app_r, Nat.sub_diag by done. by destruct st.
      * intros ctx' [Hne Hl']%lookup_delete_Some. apply Hne. by eapply (proj2 Hw).
    + right. exists index. split_and!; [|by apply confirmed_app|].
      * rewrite lookup_insert_ne; [done|]. intros ->. by apply (Hno _ E).
      * intros ctx' [_ Hl]%lookup_delete_Some. by apply (Hno ctx').
  - destruct Hok as [Hl|(index&Hch&Hcf&Hno)]; [left; by rewrite lookup_delete_ne|]. right. exists index. split_and!.
    + rewrite lookup_insert_ne; [done|]. intros ->. by apply (Hno _ E).
    + by apply confirmed_app.
    + intros ctx' [_ Hl]%lookup_delete_Some. by apply (Hno ctx').
Qed.
Lemma inv_confirm sts n n' l h :
  reads_inv (MkReads n l h) → handleReadStates sts n = (n', Ok tt) → reads_inv (MkReads n' l (h ++ sts)).
Proof.
  revert n h. induction sts as [|st sts IH]; intros n h Hi Hr.
  - injection Hr as <-. by rewrite app_nil_r.
  - unfold handleReadStates in Hr. cbn [st_iter] in Hr. erewrite n_bind in Hr by (by rewrite deliver_reads by apply Hi).
    rewrite (app_assoc h [st] sts : h ++ st :: sts = (h ++ [st]) ++ sts). eapply IH; [|exact Hr].
    pose proof (inv_deliver st n l h Hi) as Hd. by rewrite deliver_reads in Hd by apply Hi.
Qed.

Lemma inv_ext n n' l h : rn_waiters n' = rn_waiters n → rn_chans n' = rn_chans n →
  reads_inv (MkReads n l h) → reads_inv (MkReads n' l h).
Proof.
  intros Ew Ec (Hw&Hr&Hd&Hx). unfold reads_inv, waiters_ok in *. cbn [rs_node rs_readers rs_confirmed] in *.
  rewrite Ew, Ec. split_and!; [apply Hw..| |done|done].
  intros i r Hi. specialize (Hr i r Hi). destruct r; cbn [reader_ok] in *; [|done..]. by rewrite Ew, Ec.
Qed.
(** A channel is registered; then it is dropped again, or not. *)
Definition opened (ctx : str) (ch : nat) (n n' : RaftNode) : Prop :=
  rn_chans n !! ch = None ∧ rn_waiters n' = <[ctx := ch]> (rn_waiters n) ∧
  rn_chans n' = <[ch := MkChan None false]> (rn_chans n).
Lemma inv_opened ctx ch n n' l h : reads_inv (MkReads n l h) → unused ctx (MkReads n l h) → opened ctx ch n n' →
  reads_inv (MkReads n' l h) ∧ reads_inv (MkReads n' (l ++ [Waiting ctx ch (length h)]) h).
Proof.
  intros (Hw&Hr&Hd&Hx) Hu (Hch&Ew&Ec). unfold unused in Hu. cbn [rs_node rs_readers rs_confirmed] in *.
  assert (waiters_ok n') as Hw'.
  { destruct Hw as [Hop Hin]. split; rewrite Ew, ?Ec.
    - intros ctx' ch' [[<- <-]|[Hne Hl]]%lookup_insert_Some; [by rewrite lookup_insert_eq|].
      rewrite lookup_insert_ne; [by eapply Hop|]. intros <-. apply Hop in Hl. congruence.
    - intros c1 c2 ch' [[<- <-]|[Hn1 Hl1]]%lookup_insert_Some [[<- Hc]|[Hn2 Hl2]]%lookup_insert_Some; try done.
      + apply Hop in Hl2. congruence.
      + subst. apply Hop in Hl1. congruence.
      + by eapply Hin. }
  assert (∀ i r, l !! i = Some r → reader_ok n' h r) as Hr'.
  { intros i r Hi. pose proof (Hr i r Hi) as Hok. destruct r as [c k s| |]; [|done..].
    destruct (waiting_chan _ _ _ _ _ Hw Hok) as [x Hsome]. destruct Hok as [Hs Hok]. split; [done|].
    assert (c ≠ ctx) as Hne by (intros ->; by eapply Hu). rewrite Ew, Ec.
    destruct Hok as [Hl|(index&Hk&Hcf&Hno)]; [left; by rewrite lookup_insert_ne|]. right. exists index.
    split_and!; [rewrite lookup_insert_ne; [done|congruence]|done|].
    intros ctx' [[_ ->]|[_ Hl]]%lookup_insert_Some; [cbn in *; congruence|by eapply Hno]. }
  split; [by split_and!|]. split_and!; [done| | |].
  - cbn [rs_node rs_readers rs_confirmed]. intros i r [Hi|[_ [_ <-]%list_lookup_singleton_Some]]%lookup_app_Some; [by eapply Hr'|].
    split; [done|]. left. by rewrite Ew, lookup_insert_eq.
  - cbn [rs_readers]. intros i j r1 r2 k Hi Hj Hk1 Hk2.
    assert (∀ i r, l !! i = Some r → channel r = Some ch → False) as Hnew.
    { intros i' r Hi' Hc. destruct r as [c k' s| |]; [|done..]. injection Hc as ->.
      destruct (waiting_chan _ _ _ _ _ Hw (Hr _ _ Hi')) as [x Hsome]. congruence. }
    apply lookup_app_Some in Hi as [Hi|[Hi1 [Hi2 <-]%list_lookup_singleton_Some]],
      Hj as [Hj|[Hj1 [Hj2 <-]%list_lookup_singleton_Some]].
    + by eapply (Hd i j).
    + injection Hk2 as <-. by destruct (Hnew i r1).
    + injection Hk1 as <-. by destruct (Hnew j r2).
    + lia.
  - cbn [rs_readers]. intros i j r1 r2 c Hi Hj Hk1 Hk2.
    assert (∀ i r, l !! i = Some r → context r = Some ctx → False) as Hnew.
    { intros i' r Hi' Hc. destruct r as [c' k' s| |]; [|done..]. injection Hc as ->. by eapply Hu. }
    apply lookup_app_Some in Hi as [Hi|[Hi1 [Hi2 <-]%list_lookup_singleton_Some]],
      Hj as [Hj|[Hj1 [Hj2 <-]%list_lookup_singleton_Some]].
    + by eapply (Hx i j).
    + injection Hk2 as <-. by destruct (Hnew i r1).
    + injection Hk1 as <-. by destruct (Hnew j r2).
    + lia.
Qed.
Lemma inv_dropped ctx ch n n' l h : reads_inv (MkReads n l h) → unused ctx (MkReads n l h) →
  rn_waiters n !! ctx = Some ch → rn_waiters n' = delete ctx (rn_waiters n) → rn_chans n' = <[ch := MkChan None true]> (rn_chans n) →
  reads_inv (MkReads n' l h).
Proof.
  intros (Hw&Hr&Hd&Hx) Hu Hl Ew Ec. apply (inv_ext (set_reads (delete ctx (rn_waiters n)) (<[ch := MkChan None true]> (rn_chans n)) n)); [done..|].
  unfold unused in Hu. cbn [rs_node rs_readers rs_confirmed] in *.
  split_and!; [by apply waiters_ok_drop| |done|done]. cbn [rs_node rs_readers rs_confirmed] in *.
  intros i r Hi. pose proof (Hr i r Hi) as Hok. destruct r as [c k s| |]; [|done..].
  assert (c ≠ ctx) as Hne by (intros ->; by eapply Hu). destruct Hok as [Hs Hok]. split; [done|]. cbn [set_reads rn_waiters rn_chans].
  destruct Hok as [Hl'|(index&Hk&Hcf&Hno)]; [left; by rewrite lookup_delete_ne|]. right. exists index. split_and!; [|done|].
  - rewrite lookup_insert_ne; [done|]. intros ->. by eapply Hno.
  - intros ctx' [_ ?]%lookup_delete_Some. by eapply Hno.
Qed.
(** What a failing call leaves of a registration. *)
Lemma or_remove_cases ctx (m : N unit) n1 n2 r ch : waiters_ok n1 → rn_waiters n1 !! ctx = Some ch →
  rn_waiters (m n1).1 = rn_waiters n1 → rn_chans (m n1).1 = rn_chans n1 → or_remove ctx m n1 = (n2, r) →
  (rn_waiters n2 = rn_waiters n1 ∧ rn_chans n2 = rn_chans n1) ∨
  (is_Some (match r with Err e => Some e | Ok _ => None end) ∧
   rn_waiters n2 = delete ctx (rn_waiters n1) ∧ rn_chans n2 = <[ch := MkChan None true]> (rn_chans n1)).
Proof.
  intros Hw Hl Ew Ec. unfold or_remove. destruct (m n1) as [n' [a|e]] eqn:Em; cbn [fst] in *; [intros [= <- <-]; by left|].
  assert (waiters_ok n') as Hw' by (unfold waiters_ok; rewrite Ew, Ec; apply Hw).
  assert (removeWaiter ctx n' = (set_reads (delete ctx (rn_waiters n')) (<[ch := MkChan None true]> (rn_chans n')) n', Ok tt)) as Hrm.
  { rewrite remove_reads by done. by rewrite Ew, Hl. }
  destruct e; try rewrite Hrm; intros [= <- <-]; try (by left); right; rewrite ?Ew, ?Ec; (split; [by eexists|done]).
Qed.
Lemma inv_begin reqCtx ctx n n1 n' r l h :
  reads_inv (MkReads n l h) → unused ctx (MkReads n l h) →
  request_context reqCtx n = (n1, Ok ctx) → read_begin reqCtx n = (n', r) →
  reads_inv (MkReads n' (l ++ joined r (length h)) h).
Proof.
  intros Hi Hu Hc. unfold read_begin.
  assert (rn_waiters n1 = rn_waiters n ∧ rn_chans n1 = rn_chans n) as [Ew Ec].
  { unfold request_context in Hc. case_bool_decide; [|by injection Hc as <- _].
    rewrite n_get, n_modify in Hc. by injection Hc as <- _. }
  destruct (ensureRunning n) as [n0 [[]|e]] eqn:Er.
  2: { rewrite (n_bind_err _ _ _ _ _ Er). intros [= <- <-]. cbn [joined]. rewrite app_nil_r.
       by apply ensureRunning_same in Er as ->. }
  apply ensureRunning_same in Er as E0. subst n0.
  rewrite (n_bind _ _ _ _ _ Er), (n_bind _ _ _ _ _ Hc). unfold register_waiter.
  set (ch := base.fresh (dom (rn_chans n1))).
  set (n2 := set_reads (<[ctx := ch]> (rn_waiters n1)) (<[ch := MkChan None false]> (rn_chans n1)) n1).
  rewrite (n_bind _ _ n1 n2 ch) by done.
  assert (opened ctx ch n n2) as Ho.
  { split_and!; cbn; rewrite ?Ew, ?Ec; [|done..]. apply not_elem_of_dom. rewrite <-Ec. apply is_fresh. }
  destruct (inv_opened _ _ _ _ _ _ Hi Hu Ho) as [Hi1 Hi2].
  destruct (or_remove ctx (node_call (CReadIndex ctx)) n2) as [n3 r3] eqn:E3.
  destruct (or_remove_cases ctx (node_call (CReadIndex ctx)) n2 n3 r3 ch) as [[Ew3 Ec3]|([e He]&Ew3&Ec3)]; try done.
  - apply Hi1.
  - cbn. by rewrite lookup_insert_eq.
  - unfold node_call. by destruct (rn_node n2).
  - unfold node_call. by destruct (rn_node n2).
  - destruct r3 as [[]|e].
    + rewrite (n_bind _ _ _ _ _ E3). intros [= <- <-]. by eapply inv_ext.
    + rewrite (n_bind_err _ _ _ _ _ E3). intros [= <- <-]. cbn [joined]. rewrite app_nil_r. by eapply inv_ext.
  - destruct r3 as [[]|e']; [done|]. rewrite (n_bind_err _ _ _ _ _ E3). intros [= <- <-]. cbn [joined]. rewrite app_nil_r.
    eapply (inv_dropped ctx ch n2); [done..| |done|done]. cbn. by rewrite lookup_insert_eq.
Qed.
Lemma inv_settle n n' l h i r0 r :
  reads_inv (MkReads n l h) → l !! i = Some r0 → channel r = None → context r = None → reader_ok n' h r → waiters_ok n' →
  (∀ j r', j ≠ i → l !! j = Some r' → reader_ok n' h r') → reads_inv (MkReads n' (<[i := r]> l) h).
Proof.
  intros (_&_&Hd&Hx) Hi Hc Hc' Hr Hw Ho. cbn [rs_node rs_readers rs_confirmed] in *.
  assert (∀ j r', <[i := r]> l !! j = Some r' → (j = i ∧ r' = r) ∨ (j ≠ i ∧ l !! j = Some r')) as Hl.
  { intros j r' [(->&->&_)|[? ?]]%list_lookup_insert_Some; [by left|by right]. }
  split_and!; [done| | |]; cbn [rs_node rs_readers rs_confirmed].
  - intros j r' [[_ ->]|[? ?]]%Hl; [done|by eapply Ho].
  - intros j k r1 r2 ch [[_ ->]|[? ?]]%Hl [[_ ->]|[? ?]]%Hl Hk1 Hk2; try congruence. by eapply Hd.
  - intros j k r1 r2 ctx [[_ ->]|[? ?]]%Hl [[_ ->]|[? ?]]%Hl Hk1 Hk2; try congruence. by eapply Hx.
Qed.
Lemma inv_step a s s' : reads_inv s → reads_step a s s' → (∀ ctx, a = Some ctx → unused ctx s) → reads_inv s'.
Proof.
  intros Hi Hs Hu. destruct Hs as [reqCtx ctx n n1 n' r l h Hc Hb|sts n n' l h Hs|i ctx ch start n n' index l h Hl Hr|i ctx ch start n n' l h Hl Hc].
  - eapply inv_begin; eauto.
  - by eapply inv_confirm.
  - pose proof Hi as (Hw&Hok&Hd&Hx). cbn [rs_node rs_readers rs_confirmed] in *. pose proof (Hok _ _ Hl) as [Hs Hcase].
    unfold read_receive in Hr. destruct Hcase as [Hreg|(index'&Hch&Hcf&Hno)].
    { by rewrite (proj1 Hw _ _ Hreg) in Hr. }
    rewrite Hch in Hr. injection Hr as <- <-.
    assert (waiters_ok (set_reads (rn_waiters n) (<[ch := MkChan None true]> (rn_chans n)) n)) as Hw'.
    { destruct Hw as [Hop Hin]. split; [|exact Hin]. cbn. intros c k Hk. rewrite lookup_insert_ne; [by eapply Hop|]. intros <-. by eapply Hno. }
    eapply inv_settle; [done|done|done|done|exact Hcf|done|]. intros j r' Hne Hj. specialize (Hok j r' Hj).
    destruct r' as [c k s0| |]; [|done..]. destruct Hok as [? Hok]. split; [done|]. cbn [set_reads rn_waiters rn_chans].
    destruct Hok as [?|(x&Hk&?&?)]; [by left|]. right. exists x. split_and!; [|done|done]. rewrite lookup_insert_ne; [done|].
    intros <-. apply Hne. by eapply (Hd j i).
  - pose proof Hi as (Hw&Hok&Hd&Hx). cbn [rs_node rs_readers rs_confirmed] in *. unfold read_cancelled in Hc.
    rewrite (n_bind _ _ _ _ _ (remove_reads ctx n Hw)) in Hc. destruct (rn_waiters n !! ctx) as [ch'|] eqn:E; injection Hc as <-.
    2: { eapply inv_settle; [done|done|done|done|done|done|]. intros j r' _. apply Hok. }
    eapply inv_settle; [done|done|done|done|done|by apply waiters_ok_drop|]. intros j r' Hne Hj. specialize (Hok j r' Hj).
    destruct r' as [c k s0| |]; [|done..]. destruct Hok as [? Hok]. split; [done|]. cbn [set_reads rn_waiters rn_chans].
    assert (c ≠ ctx) by (intros ->; apply Hne; by eapply (Hx j i)).
    destruct Hok as [?|(x&Hk&?&Hno)]; [left; by rewrite lookup_delete_ne|]. right. exists x. split_and!; [|done|].
    + rewrite lookup_insert_ne; [done|]. intros ->. by eapply Hno.
    + intros ctx' [_ ?]%lookup_delete_Some. by eapply Hno.
Qed.

(** C7: in every interleaving in which reads that wait at the same time have different contexts, each
    index a reader obtains was confirmed by raft for this reader's own context after it had
    registered; the ready loop never blocks or panics on a result channel. *)
Theorem read_confirmed s0 s i ctx index start :
  waiters_ok (rs_node s0) → rs_readers s0 = [] → rtc distinct_step s0 s →
  (rs_readers s !! i = Some (Got ctx index start) → confirmed ctx index start (rs_confirmed s)) ∧
  (∀ sts, ∃ n', handleReadStates sts (rs_node s) = (n', Ok tt)).
Proof.
  intros Hw Hr Hs. assert (reads_inv s) as (Hw'&Hok&_).
  { assert (reads_inv s0) as Hi0 by (unfold reads_inv; rewrite Hr; by split_and!).
    clear Hw Hr. induction Hs as [s|s1 s2 s3 [a [Hstep Hu]] _ IH]; [done|]. apply IH. by eapply inv_step. }
  split; [apply (Hok i (Got ctx index start))|]. intros sts. destruct (handleReadStates_ok sts _ Hw') as (n'&?&_). by exists n'.
Qed.

Lemma read_begin_ok key n n' ctx ch : key ≠ [] → read_begin key n = (n', Ok (ctx, ch)) →
  ctx = key ∧ opened key ch n n'.
Proof.
  intros Hk. unfold read_begin. destruct (ensureRunning n) as [n0 [[]|e]] eqn:Er; [|by rewrite (n_bind_err _ _ _ _ _ Er)].
  apply ensureRunning_same in Er as E0. subst n0.
  rewrite (n_bind _ _ _ _ _ Er). unfold request_context. rewrite bool_decide_false by done. rewrite n_ret.
  unfold register_waiter. set (c := base.fresh (dom (rn_chans n))).
  set (n2 := set_reads (<[key := c]> (rn_waiters n)) (<[c := MkChan None false]> (rn_chans n)) n).
  rewrite (n_bind _ _ n n2 c) by done.
  assert (opened key c n n2) as Ho by (split_and!; [apply not_elem_of_dom, is_fresh|done|done]).
  destruct (or_remove key (node_call (CReadIndex key)) n2) as [n3 [[]|e]] eqn:E3; [|by rewrite (n_bind_err _ _ _ _ _ E3)].
  rewrite (n_bind _ _ _ _ _ E3). intros [= <- <- <-]. split; [done|].
  assert (rn_waiters n3 = rn_waiters n2 ∧ rn_chans n3 = rn_chans n2) as [Ew Ec].
  { unfold or_remove, node_call in E3. destruct (rn_node n2) as [calls|]; [|done].
    destruct (call_result calls (CReadIndex key)) as [e|]; [|by injection E3 as <-].
    by destruct (removeWaiter key _) as [? [?|?]]. }
  unfold opened. rewrite Ew, Ec. exact Ho.
Qed.

(** When two reads do share a context, as two [Get]s of the same key do, and the first gives up,
    the second one reads index zero without an error, and its wait for the applied index is over
    on the spot: its read is not linearizable.  The first channel is never filled. *)
Theorem shared_context_stale n n1 n2 n3 key ctx ctx' ch1 ch2 :
  key ≠ [] →
  read_begin key n = (n1, Ok (ctx, ch1)) → read_begin key n1 = (n2, Ok (ctx', ch2)) →
  read_cancelled ctx n2 = (n3, Err ECtx) →
  read_receive ch2 n3 = Some (n3, 0%Z) ∧ ((0 ≤ st_AppliedIndex (rn_status n3))%Z → LinearizableRead_wait 0 n3 [] = Some (Ok tt)) ∧
  read_receive ch1 n3 = None.
Proof.
  intros Hk Hb1 Hb2 Hc. apply read_begin_ok in Hb1 as (->&Hn1&Hw1&Hc1); [|done].
  apply read_begin_ok in Hb2 as (->&Hn2&Hw2&Hc2); [|done].
  assert (ch1 ≠ ch2) as Hne by (intros ->; rewrite Hc1, lookup_insert_eq in Hn2; done).
  assert (removeWaiter key n2 =
    (set_reads (delete key (rn_waiters n2)) (<[ch2 := MkChan None true]> (rn_chans n2)) n2, Ok tt)) as Hrm.
  { unfold removeWaiter. rewrite n_get, Hw2, lookup_insert_eq. unfold chan_close, forget_waiter.
    rewrite (n_bind _ _ n2 (set_reads (rn_waiters n2) (<[ch2 := MkChan None true]> (rn_chans n2)) n2) tt)
      by (rewrite n_get, Hc2, lookup_insert_eq; done). unfold st_modify. cbn [set_reads rn_waiters]. by rewrite Hw2. }
  unfold read_cancelled in Hc. rewrite (n_bind _ _ _ _ _ Hrm) in Hc. injection Hc as <-. unfold read_receive. cbn [set_reads rn_chans].
  rewrite lookup_insert_eq, lookup_insert_ne, Hc2, lookup_insert_ne, Hc1, lookup_insert_eq by done.
  split_and!; [done| |done]. intros Ha. cbn. unfold read_poll. by rewrite (proj2 (Z.leb_le _ _) Ha).
Qed.
End reads.

(** ** Examples: a started node without data *)
#[local] Existing Instances bits_raftpb memory_raft quiet_node memory_engine.
Definition idle_node : RaftNode := MkNode
  (WithDefaults (MkConfig 1 1 [] [] 0 0 0 0 0 0 0 0 0 0 0 0)) (MkStatus 1 1 1 RoleLeader 5 5 false false) (Some [CTick])
  NewMemoryStorage (NewFileWAL ∅) (NewFileStore ∅) (MkStore (∅ : gmap str str) true) [] ∅ ∅ false 0 true false.
Lemma idle_waiters : waiters_ok idle_node.
Proof. split; [by intros ???|by intros ????]. Qed.
Definition node1 : RaftNode := (read_begin (lit "k") idle_node).1.
Definition node2 : RaftNode := (handleReadStates [MkReadState 5 (lit "k")] node1).1.
Definition node3 : RaftNode := set_reads (rn_waiters node2) (<[0 := MkChan None true]> (rn_chans node2)) node2.
Lemma node1_eq : read_begin (lit "k") idle_node = (node1, Ok (lit "k", 0)).
Proof. apply run_unpack. vm_compute. reflexivity. Qed.
Lemma node2_eq : handleReadStates [MkReadState 5 (lit "k")] node1 = (node2, Ok tt).
Proof. apply run_unpack. vm_compute. reflexivity. Qed.
Lemma node3_eq : read_receive 0 node2 = Some (node3, 5%Z).
Proof.
  assert (rn_chans node2 !! 0 = Some (MkChan (Some 5%Z) true)) as E by (vm_compute; reflexivity).
  unfold read_receive. by rewrite E.
Qed.
Lemma read_confirmed_witness :
  let s := MkReads node3 [Got (lit "k") 5 0] [MkReadState 5 (lit "k")] in
  (rs_readers s !! 0 = Some (Got (lit "k") 5 0) → confirmed (lit "k") 5 0 (rs_confirmed s)) ∧
  (∀ sts, ∃ n', handleReadStates sts (rs_node s) = (n', Ok tt)).
Proof.
  intros s. apply (read_confirmed (MkReads idle_node [] [])); [apply idle_waiters|reflexivity|].
  eapply rtc_l; [exists (Some (lit "k")); split; [eapply (step_begin (lit "k")); [reflexivity|apply node1_eq]|intros ctx _ i; discriminate]|].
  eapply rtc_l; [exists None; split; [eapply step_confirm; apply node2_eq|discriminate]|].
  eapply rtc_l; [exists None; split; [eapply (step_receive 0); [reflexivity|apply node3_eq]|discriminate]|]. apply rtc_refl.
Defined.
Definition other1 : RaftNode := (read_begin (lit "k") node1).1.
Definition other2 : RaftNode := (removeWaiter (lit "k") other1).1.
Lemma other2_eq : read_cancelled (lit "k") other1 = (other2, Err ECtx).
Proof.
  assert (removeWaiter (lit "k") other1 = (other2, Ok tt)) as E by (apply run_unpack; vm_compute; reflexivity).
  unfold read_cancelled. by rewrite (n_bind _ _ _ _ _ E).
Qed.
Lemma shared_context_stale_witness :
  read_receive 1 other2 = Some (other2, 0%Z) ∧ ((0 ≤ st_AppliedIndex (rn_status other2))%Z → LinearizableRead_wait 0 other2 [] = Some (Ok tt)) ∧
  read_receive 0 other2 = None.
Proof.
  apply (shared_context_stale idle_node node1 other1 other2 (lit "k") (lit "k") (lit "k") 0 1).
  - discriminate.
  - apply node1_eq.
  - apply run_unpack. vm_compute. reflexivity.
  - apply other2_eq.
Defined.
