(* ===== verification/Replay.v ===== *)
(** * Replaying the log

    What the committed entries mean: the contents they leave behind.  A command fixes the value
    of the keys it writes and leaves the others alone, so replaying a stretch of the log over
    contents that already hold later writes catches up with them; [converges] states this. *)
From Stdlib Require Import Ascii ZArith.
From stdpp Require Import gmap strings countable list sorting.
From S2P Require Import Prelude GoStrings Codec Wal WalLog Engine StateMachine Pebble.

(** What a command makes of a key: nothing, or a value ([None]: absent). *)
Definition cmd_writes (cmd : Command) (k : str) : option (option str) :=
  match cmd_op cmd with
  | Some (BSet key v) => if bool_decide (k = key) then Some (Some v) else None
  | Some (BDelete key) => if bool_decide (k = key) then Some None else None
  | Some (BDeleteRange s e) => if bool_decide (str_le s k ∧ str_lt k e) then Some None else None
  | None => None
  end.
Lemma cmd_effect_lookup m cmd k : cmd_effect m cmd !! k = default (m !! k) (cmd_writes cmd k).
Proof.
  unfold cmd_effect, cmd_writes. destruct (cmd_op cmd) as [[key v|key|s e]|]; cbn [apply_op]; [| | |done].
  - case_bool_decide; subst; cbn; [by rewrite lookup_insert_eq|by rewrite lookup_insert_ne].
  - case_bool_decide; subst; cbn; [by rewrite lookup_delete_eq|by rewrite lookup_delete_ne].
  - rewrite map_lookup_filter. case_bool_decide as Hk; destruct (m !! k); cbn; try done.
    + rewrite option_guard_False; [done|]. cbn. tauto.
    + by rewrite option_guard_True.
Qed.
Lemma bind_default {A} (a b : option (option A)) (x : option A) :
  default (default x a) b = default x (match b with Some v => Some v | None => a end).
Proof. by destruct b. Qed.

Section replay.
Context `{Json Command}.
Definition entry_cmd (e : Entry) : option Command :=
  match e_Type e with
  | EntryNormal => if bool_decide (e_Data e = []) then None else json_unmarshal (e_Data e)
  | _ => None
  end.
Definition entry_effect (m : gmap str str) (e : Entry) : gmap str str :=
  match entry_cmd e with Some cmd => cmd_effect m cmd | None => m end.
Definition replay (m : gmap str str) (es : list Entry) : gmap str str := fold_left entry_effect es m.
Definition entry_writes (e : Entry) (k : str) : option (option str) := c ← entry_cmd e; cmd_writes c k.
(** The last write to a key. *)
Fixpoint last_write (es : list Entry) (k : str) : option (option str) :=
  match es with
  | [] => None
  | e :: es => match last_write es k with Some v => Some v | None => entry_writes e k end
  end.
(** The contents after the whole log: what a replica that applied it holds. *)
Definition state_after (es : list Entry) : gmap str str := business (replay ∅ es).
(** Entries [a+1 .. c], by index. *)
Definition stretch (a c : nat) (log : list Entry) : list Entry := drop a (take c log).
Definition converges (m : gmap str str) (log : list Entry) (a c : nat) : Prop :=
  business (replay m (stretch a c log)) = state_after (take c log).
(** Commands of the log stay out of the metadata. *)
Definition clean (e : Entry) : Prop := ∀ k, isMetaKey k = true → entry_writes e k = None.

Lemma replay_app m a b : replay m (a ++ b) = replay (replay m a) b.
Proof. apply fold_left_app. Qed.
Lemma entry_effect_lookup m e k : entry_effect m e !! k = default (m !! k) (entry_writes e k).
Proof. unfold entry_effect, entry_writes. destruct (entry_cmd e); [apply cmd_effect_lookup|done]. Qed.
Lemma replay_lookup m es k : replay m es !! k = default (m !! k) (last_write es k).
Proof.
  revert m. induction es as [|e es IH]; intros m; [done|].
  change (replay m (e :: es)) with (replay (entry_effect m e) es). rewrite IH, entry_effect_lookup. apply bind_default.
Qed.
Lemma last_write_app a b k :
  last_write (a ++ b) k = match last_write b k with Some v => Some v | None => last_write a k end.
Proof. induction a as [|e a IH]; cbn; [by destruct (last_write b k)|]. rewrite IH. by destruct (last_write b k). Qed.
Lemma clean_replay m es k : Forall clean es → isMetaKey k = true → replay m es !! k = m !! k.
Proof.
  intros Hc Hk. rewrite replay_lookup. assert (last_write es k = None) as ->; [|done].
  induction Hc as [|e es He _ IH]; cbn; [done|]. rewrite IH. by apply He.
Qed.
Lemma business_eq m1 m2 :
  business m1 = business m2 ↔ ∀ k, isMetaKey k = false → m1 !! k = m2 !! k.
Proof.
  split.
  - intros E k Hk. assert (business m1 !! k = business m2 !! k) as E' by by rewrite E.
    by rewrite !business_lookup, Hk in E'.
  - intros E. apply map_eq. intros k. rewrite !business_lookup. destruct (isMetaKey k) eqn:Hk; [done|by apply E].
Qed.
Lemma business_idem m : business (business m) = business m.
Proof. apply map_eq. intros k. rewrite !business_lookup. by destruct (isMetaKey k). Qed.
Lemma business_replay m1 m2 es : business m1 = business m2 → business (replay m1 es) = business (replay m2 es).
Proof. rewrite !business_eq. intros E k Hk. by rewrite !replay_lookup, E. Qed.

Lemma stretch_split a b c log : a ≤ b → b ≤ c → stretch a c log = stretch a b log ++ stretch b c log.
Proof.
  intros Hab Hbc. unfold stretch. rewrite <-(take_drop b (take c log)) at 1.
  rewrite take_take, Nat.min_l by done. destruct (decide (a ≤ length (take b log))) as [Ha|Ha].
  - by rewrite drop_app_le.
  - rewrite length_take in Ha. rewrite (drop_ge (take b log) a) by (rewrite length_take; lia).
    rewrite !drop_ge; [done| |]; repeat (rewrite ?length_drop, ?length_take, ?length_app); lia.
Qed.
Lemma stretch_refl c log : stretch c c log = [].
Proof. apply drop_ge. rewrite length_take. lia. Qed.
Lemma stretch_take a c n log : c ≤ n → stretch a c (take n log) = stretch a c log.
Proof. intros. unfold stretch. by rewrite take_take, Nat.min_l. Qed.

Lemma converges_key m log a c :
  converges m log a c ↔
  ∀ k, isMetaKey k = false → default (m !! k) (last_write (stretch a c log) k) = default None (last_write (take c log) k).
Proof. unfold converges, state_after. rewrite business_eq. by setoid_rewrite replay_lookup. Qed.
Lemma converges_business m1 m2 log a c : business m1 = business m2 → converges m1 log a c → converges m2 log a c.
Proof. unfold converges. intros E <-. by apply business_replay. Qed.
Lemma converges_init log c : converges ∅ log 0 c.
Proof. done. Qed.
Lemma converges_done m log c : converges m log c c ↔ business m = state_after (take c log).
Proof. unfold converges. by rewrite stretch_refl. Qed.
(** Starting the replay earlier makes no difference. *)
Lemma converges_earlier m log a0 a c : a0 ≤ a → a ≤ c → converges m log a c → converges m log a0 c.
Proof.
  rewrite !converges_key. intros Ha Hc Hm k Hk. specialize (Hm k Hk).
  rewrite (stretch_split a0 a c), last_write_app by done.
  destruct (last_write (stretch a c log) k) as [v|] eqn:E1; [done|]. cbn in Hm. rewrite Hm.
  destruct (last_write (stretch a0 a log) k) as [v|] eqn:E2; [|done]. cbn.
  change (take c log) with (stretch 0 c log). rewrite (stretch_split 0 a c), last_write_app, E1 by lia.
  by rewrite (stretch_split 0 a0 a), last_write_app, E2 by lia.
Qed.
Lemma converges_later m log a c c' : a ≤ c → c ≤ c' → converges m log a c → converges m log a c'.
Proof.
  unfold converges, state_after. intros Ha Hc Hm. rewrite (stretch_split a c c'), replay_app by done.
  change (take c' log) with (stretch 0 c' log). rewrite (stretch_split 0 c c'), replay_app by lia.
  by apply business_replay.
Qed.
Lemma converges_step m log a a' c : a ≤ a' → a' ≤ c → converges m log a c →
  converges (replay m (stretch a a' log)) log a' c.
Proof. unfold converges. intros Ha Hc. by rewrite (stretch_split a a' c), replay_app. Qed.
Lemma converges_log m log log' a c : take c log = take c log' → converges m log a c → converges m log' a c.
Proof. unfold converges, stretch. by intros ->. Qed.
End replay.
