(* ===== verification/Recovery.v ===== *)
(** * Crash recovery of a node

    What a node has persisted determines its state: the write-ahead log holds the tail of the
    log and the commit index, the newest snapshot the contents at some index, pebble the contents
    at some other.  The invariant relates the three to the committed log; the ready loop
    preserves it, and a restart from the files alone reaches the state after the whole
    committed log. *)
From Stdlib Require Import Ascii ZArith Sorted.
From stdpp Require Import gmap strings countable list sorting.
From S2P Require Import Prelude GoStrings Codec Files Wal WalLog Engine StateMachine Pebble PebbleTotal Snapshot RaftConfig Raft RaftNode RaftReads Replay.

Section recovery.
Context `{Raftpb, !Raft, !RaftBehaviour} `{EngineTotal}.
Context `{Json MemberAddress, Json snapshotPayload, Json (list KV), Json Command, Json Snapshot.Metadata}.
Context (sha256_hex : str → str).
Context (payload_faithful : ∀ p : snapshotPayload, Forall json_faithful (sp_Members p) → json_faithful p).
Context (metadata_faithful : ∀ (m : Metadata) data, json_faithful (complete sha256_hex m data)).

(** ** Running the parts *)
Lemma on_wal_ok {A} (m : W A) n w a : m (rn_wal n) = (w, Ok a) →
  on_wal m n = (set_stores (rn_storage n) w (rn_snap n) (rn_kv n) n, Ok a).
Proof. unfold on_wal. by intros ->. Qed.
Lemma on_snap_ok {A} (m : S' A) n s a : m (rn_snap n) = (s, Ok a) →
  on_snap m n = (set_stores (rn_storage n) (rn_wal n) s (rn_kv n) n, Ok a).
Proof. unfold on_snap. by intros ->. Qed.
Lemma on_kv_ok {A} (f : PebbleStore → PebbleStore * result StoreErr A) n s a : f (rn_kv n) = (s, Ok a) →
  on_kv f n = (set_stores (rn_storage n) (rn_wal n) (rn_snap n) s n, Ok a).
Proof. unfold on_kv. by intros ->. Qed.
Lemma on_ms_ok f n ms : f (rn_storage n) = Ok ms →
  on_ms_ f n = (set_stores ms (rn_wal n) (rn_snap n) (rn_kv n) n, Ok tt).
Proof. unfold on_ms_, on_ms. by intros ->. Qed.
Lemma drop_err_ok {A} (m : N A) n n' a : m n = (n', Ok a) → drop_err m n = (n', Ok tt).
Proof. unfold drop_err. by intros ->. Qed.
Lemma node_call_drop c n calls : rn_node n = Some calls →
  drop_err (node_call c) n = (set_node (Some (calls ++ [c])) n, Ok tt).
Proof. intros E. unfold drop_err, node_call. rewrite E. by destruct (call_result calls c). Qed.

(** ** Applying entries to the store *)
(** [n'] is [n] with another store and more calls made on its raft node. *)
Definition applied_to (n n' : RaftNode) (m : gmap str str) : Prop := ∃ calls kv,
  n' = set_node (Some calls) (set_stores (rn_storage n) (rn_wal n) (rn_snap n) kv n) ∧
  ps_open kv = true ∧ store_map kv = m.
Lemma applied_to_trans n1 n2 n3 m1 m2 : applied_to n1 n2 m1 → applied_to n2 n3 m2 → applied_to n1 n3 m2.
Proof. intros (c1&k1&->&_) (c2&k2&->&?&?). exists c2, k2. by split_and!. Qed.
Lemma apply_entry_ok e n calls : rn_node n = Some calls → ps_open (rn_kv n) = true →
  ∃ n', apply_entry e n = (n', Ok tt) ∧ applied_to n n' (entry_effect (store_map (rn_kv n)) e).
Proof.
  intros Hn Ho.
  assert (∃ n', (mret tt : N unit) n = (n', Ok tt) ∧ applied_to n n' (store_map (rn_kv n))) as Hnone.
  { exists n. split; [done|]. exists calls, (rn_kv n). split_and!; [|done|done]. by destruct n; cbn in *; subst. }
  assert (∀ c, ∃ n', drop_err (node_call c) n = (n', Ok tt) ∧ applied_to n n' (store_map (rn_kv n))) as Hcall.
  { intros c. rewrite (node_call_drop _ _ _ Hn). eexists. split; [done|]. by exists (calls ++ [c]), (rn_kv n). }
  unfold apply_entry, entry_effect, entry_cmd. destruct (e_Type e).
  - case_bool_decide; [done|]. destruct (json_unmarshal (e_Data e)) as [cmd|]; [|done].
    destruct (Apply_done (rn_kv n) cmd Ho) as (kv&z&Ha&Hk&Hm).
    rewrite (drop_err_ok _ _ _ _ (on_kv_ok _ _ _ _ Ha)). eexists. split; [done|].
    exists calls, kv. split_and!; [|done|done]. by destruct n; cbn in *; subst.
  - by destruct (cc_Unmarshal (e_Data e)).
  - by destruct (cc2_Unmarshal (e_Data e)).
Qed.
Lemma apply_entries_ok es n calls : rn_node n = Some calls → ps_open (rn_kv n) = true →
  ∃ n', st_iter apply_entry es n = (n', Ok tt) ∧ applied_to n n' (replay (store_map (rn_kv n)) es).
Proof.
  revert n calls. induction es as [|e es IH]; intros n calls Hn Ho.
  - exists n. split; [done|]. exists calls, (rn_kv n). split_and!; [|done|done]. by destruct n; cbn in *; subst.
  - destruct (apply_entry_ok e n calls Hn Ho) as (n1&Hr&Ha). pose proof Ha as (c1&k1&->&Ho1&Hm1).
    destruct (IH (set_node (Some c1) (set_stores (rn_storage n) (rn_wal n) (rn_snap n) k1 n)) c1 eq_refl Ho1) as (n2&Hr2&Ha2).
    exists n2. split; [cbn [st_iter]; by rewrite (n_bind _ _ _ _ _ Hr)|].
    eapply applied_to_trans; [exact Ha|]. cbn [set_node set_stores rn_kv] in Ha2. by rewrite Hm1 in Ha2.
Qed.
(** Recording the applied index and term. *)
Definition record_applied (m : gmap str str) (index term : Z) : gmap str str :=
  <[metaAppliedTermKey := encodeUint64 term]> (<[metaAppliedIndexKey := encodeUint64 index]> m).
Lemma set_applied_ok i t n : ps_open (rn_kv n) = true →
  ∃ kv, set_applied i t n = (set_stores (rn_storage n) (rn_wal n) (rn_snap n) kv n, Ok tt) ∧
    ps_open kv = true ∧ store_map kv = record_applied (store_map (rn_kv n)) i t.
Proof.
  intros Ho. unfold set_applied.
  destruct (db_write_done (rn_kv n) (BSet metaAppliedIndexKey (encodeUint64 i)) Ho) as (k1&E1&Ho1&Hm1).
  destruct (db_write_done k1 (BSet metaAppliedTermKey (encodeUint64 t)) Ho1) as (k2&E2&Ho2&Hm2).
  exists k2. rewrite (n_bind _ _ _ _ _ (drop_err_ok _ _ _ _ (on_kv_ok (λ s, SetAppliedIndex s i) n k1 tt E1))).
  rewrite (drop_err_ok _ _ _ _ (on_kv_ok (λ s, SetAppliedTerm s t)
    (set_stores (rn_storage n) (rn_wal n) (rn_snap n) k1 n) k2 tt E2)).
  split_and!; [done|done|]. rewrite Hm2, Hm1. done.
Qed.
Lemma record_applied_business m i t : business (record_applied m i t) = business m.
Proof. apply business_eq. intros k Hk. unfold record_applied. rewrite !lookup_insert_ne; [done| |]; by intros <-. Qed.
Lemma record_applied_index m i t : record_applied m i t !! metaAppliedIndexKey = Some (encodeUint64 i).
Proof. unfold record_applied. rewrite lookup_insert_ne by done. by rewrite lookup_insert_eq. Qed.
(** The whole batch. *)
Definition after_batch (m : gmap str str) (es : list Entry) : gmap str str :=
  match last es with
  | None => m
  | Some e => if (0 <? e_Index e)%Z then record_applied (replay m es) (e_Index e) (e_Term e) else replay m es
  end.
Lemma applyCommittedEntries_ok es n calls : rn_node n = Some calls → ps_open (rn_kv n) = true →
  ∃ n1 n', applyCommittedEntries es n = (n', Ok tt) ∧ applied_to n n1 (after_batch (store_map (rn_kv n)) es) ∧
    n' = match last es with Some e => set_status (with_applied (e_Index e)) n1 | None => n1 end.
Proof.
  intros Hn Ho. unfold applyCommittedEntries, after_batch. destruct (last es) as [e|] eqn:El.
  2: { exists n, n. split_and!; [done| |done]. exists calls, (rn_kv n). split_and!; [|done|done]. by destruct n; cbn in *; subst. }
  destruct (apply_entries_ok es n calls Hn Ho) as (n1&Hr&c1&k1&->&Ho1&Hm1).
  rewrite (n_bind _ _ _ _ _ Hr). unfold when. destruct (0 <? e_Index e)%Z eqn:E0.
  - destruct (set_applied_ok (e_Index e) (e_Term e)
      (set_node (Some c1) (set_stores (rn_storage n) (rn_wal n) (rn_snap n) k1 n)) Ho1) as (k2&Hr2&Ho2&Hm2).
    rewrite (n_bind _ _ _ _ _ Hr2). do 2 eexists. split_and!; [done| |done]. exists c1, k2. split_and!; [done|done|].
    rewrite Hm2. cbn [set_node set_stores rn_kv]. by rewrite Hm1.
  - do 2 eexists. split_and!; [done| |done]. by exists c1, k1.
Qed.

(** ** What is persisted *)
(** [log] is the log the node has seen, entry [i] at position [i - 1]. *)
Record log_wf (log : list Entry) : Prop := {
  lw_from : log_from 1 log;
  lw_storable : Forall storable log;
  lw_clean : Forall clean log;
  lw_bound : (Z.of_nat (length log) + 1 < 2 ^ 64)%Z
}.
(** The write-ahead log holds the entries behind [base] and the commit index [c]. *)
Definition wal_holds (w : FileWAL) (log : list Entry) (c base : nat) : Prop :=
  wal_inv w ∧ hs_Commit (w_state w) = Z.of_nat c ∧ w_entries w = drop base log.
Definition applied_is (m : gmap str str) (i : nat) : Prop :=
  m !! metaAppliedIndexKey = Some (encodeUint64 (Z.of_nat i)) ∨ (m !! metaAppliedIndexKey = None ∧ i = 0).
(** The store: its applied index [i], and contents from which the rest of the log leads to
    the state after [c]. *)
Definition kv_holds (kv : PebbleStore) (log : list Entry) (c i : nat) : Prop :=
  ps_open kv = true ∧ members_wf (store_map kv) ∧ applied_is (store_map kv) i ∧ i ≤ c ∧
  converges (store_map kv) log i c.
(** The newest snapshot, at [s] (0: none), was exported from such contents. *)
Definition snap_holds (sn : FileStore) (log : list Entry) (c s : nat) : Prop :=
  sn_keep sn = 2%Z ∧ ∃ ms, store_inv sha256_hex 2 (sn_files sn) ms ∧
  match ms with
  | [] => s = 0
  | m :: _ => md_Index m = Z.of_nat s ∧ 0 < s ≤ c ∧ ∃ data src,
      sn_files sn !! snapshotPath m = Some data ∧ members_wf (store_map src) ∧
      Pebble.Snapshot src = Ok data ∧ converges (store_map src) log s c
  end.
Definition ms_holds (ms : MemoryStorage) (log : list Entry) (s : nat) : Prop :=
  ms_last ms = Z.of_nat (length log) ∧ ms_snap ms = Z.of_nat s ∧ (ms_first ms ≤ Z.of_nat s + 1)%Z.
(** A running node: [a] is what raft has handed out as committed, [s] the newest snapshot. *)
Record node_inv (n : RaftNode) (log : list Entry) (c a : nat) : Prop := {
  ni_log : log_wf log;
  ni_commit : c ≤ length log;
  ni_node : is_Some (rn_node n);
  ni_waiters : waiters_ok n;
  ni_keep : (0 < cfg_KeepSnapshots (rn_cfg n))%Z;
  ni_stores : ∃ base s i, base ≤ s ∧ s ≤ c ∧ a ≤ i ∧
    wal_holds (rn_wal n) log c base ∧ snap_holds (rn_snap n) log c s ∧
    ms_holds (rn_storage n) log s ∧ kv_holds (rn_kv n) log c i
}.

(** A batch of the raft library, relative to what it has handed out so far: new entries
    overwrite no committed one, the commit index grows within the log, the committed entries
    continue the earlier ones. *)
Definition next_log (log : list Entry) (rd : RaftReady) : list Entry :=
  match rd_Entries rd with
  | [] => log
  | e :: _ => take (Z.to_nat (e_Index e) - 1) log ++ rd_Entries rd
  end.
Definition next_commit (c : nat) (rd : RaftReady) : nat :=
  if isEmptyHardState (rd_HardState rd) then c else Z.to_nat (hs_Commit (rd_HardState rd)).
Record ready_ok (log : list Entry) (c a : nat) (rd : RaftReady) (a' : nat) : Prop := {
  ro_snap : rs_Index (rd_Snapshot rd) = 0%Z;
  ro_state : state_ok (rd_HardState rd);
  ro_first : match rd_Entries rd with
             | e :: _ => (Z.of_nat c < e_Index e ≤ Z.of_nat (length log) + 1)%Z
             | [] => True
             end;
  ro_log : log_wf (next_log log rd);
  ro_commit : c ≤ next_commit c rd ≤ length (next_log log rd);
  ro_committed : rd_CommittedEntries rd = stretch a a' (next_log log rd);
  ro_applied : a ≤ a' ≤ next_commit c rd
}.

Lemma next_log_prefix log rd c a a' : ready_ok log c a rd a' → c ≤ length log → take c (next_log log rd) = take c log.
Proof.
  intros [_ _ Hf _ _ _ _] Hc. unfold next_log. destruct (rd_Entries rd) as [|e es]; [done|].
  rewrite take_app_le by (rewrite length_take; lia). rewrite take_take. f_equal. lia.
Qed.
Lemma entries_log log rd e es : log_wf (next_log log rd) → rd_Entries rd = e :: es →
  (1 ≤ e_Index e ≤ Z.of_nat (length log) + 1)%Z →
  log_from (e_Index e) (e :: es) ∧ log_ok (e :: es) ∧ Forall storable (e :: es) ∧
  length (next_log log rd) = (Z.to_nat (e_Index e) - 1) + length (e :: es).
Proof.
  intros [Hlf Hst _ Hb] E He. unfold next_log in *. rewrite E in *.
  apply log_from_app in Hlf as [_ Hlf]. rewrite length_take, Nat.min_l in Hlf by lia.
  replace (1 + Z.of_nat (Z.to_nat (e_Index e) - 1))%Z with (e_Index e) in Hlf by lia.
  apply Forall_app in Hst as [_ Hst]. rewrite length_app, length_take, Nat.min_l in * by lia.
  split_and!; [done| |done|done]. split_and!; [lia|done|]. cbn [length] in *. lia.
Qed.
Lemma merge_next log rd e es base : log_wf log → rd_Entries rd = e :: es →
  (Z.of_nat base < e_Index e ≤ Z.of_nat (length log) + 1)%Z →
  connects (drop base log) (e :: es) ∧ mergeEntries (drop base log) (e :: es) = drop base (next_log log rd).
Proof.
  intros [Hlf _ _ Hbd] E He. unfold next_log. rewrite E. destruct (drop base log) as [|x l] eqn:Ed.
  - apply (f_equal length) in Ed. rewrite length_drop in Ed. cbn [length] in Ed. split; [done|].
    cbn [mergeEntries]. rewrite (take_ge log) by lia. by replace base with (length log) by lia; rewrite drop_app_length.
  - assert (base < length log) as Hb by (apply (f_equal length) in Ed; rewrite length_drop in Ed; cbn [length] in Ed; lia).
    pose proof (log_from_drop 1 log base ltac:(lia) Hlf) as Hd.
    assert (e_Index x = Z.of_nat base + 1)%Z as Hx by (rewrite Ed in Hd; destruct Hd; lia).
    assert (length (x :: l) = length log - base) as Hl by (by rewrite <-Ed, length_drop).
    assert (connects (x :: l) (e :: es)) as Hc by (unfold connects, WalLog.first_index; rewrite Hl, Hx; lia).
    split; [done|]. rewrite merge_eq; [| |done|done|done].
    + unfold WalLog.first_index. rewrite Hx, <-Ed, take_drop_commute, drop_app_le by (rewrite length_take; lia).
      do 3 f_equal. lia.
    + rewrite <-Ed. rewrite Ed in Hd |- *. split_and!; [lia|rewrite Hx; by replace (Z.of_nat base + 1)%Z with (1 + Z.of_nat base)%Z by lia|].
      rewrite Hx, Hl. lia.
Qed.
Lemma next_state_commit w rd c : hs_Commit (w_state w) = Z.of_nat c → state_ok (rd_HardState rd) →
  hs_Commit (next_state (w_state w) (rd_HardState rd)) = Z.of_nat (next_commit c rd).
Proof.
  intros Hc (_&_&Hs&_). unfold next_state, next_commit. destruct (isEmptyHardState (rd_HardState rd)); [done|]. lia.
Qed.
Lemma append_done w log c base rd a a' : wal_holds w log c base → log_wf log → ready_ok log c a rd a' → base ≤ c →
  ∃ w', Wal.Append (rd_HardState rd) (rd_Entries rd) w = (w', Ok tt) ∧
    wal_holds w' (next_log log rd) (next_commit c rd) base.
Proof.
  intros (Hi&Hc&He) Hwf Hr Hb. pose proof (ro_state _ _ _ _ _ Hr) as Hs. pose proof (ro_first _ _ _ _ _ Hr) as Hf.
  pose proof (ro_log _ _ _ _ _ Hr) as Hwf'. destruct (rd_Entries rd) as [|e es] eqn:E.
  - destruct (Append_ok w (rd_HardState rd) [] Hi Hs) as (w'&Ha&Hi'&Hst&Hes); [done|done|by destruct (w_entries w)|].
    exists w'. split; [done|]. split_and!; [done| |].
    + rewrite Hst. by apply next_state_commit.
    + unfold next_log. rewrite E, Hes, <-He. by destruct (w_entries w).
  - destruct (entries_log log rd e es Hwf' E) as (_&Hok&Hsto&_); [lia|].
    destruct (merge_next log rd e es base Hwf E) as [Hcon Hm]; [lia|]. rewrite <-He in Hcon, Hm.
    destruct (Append_ok w (rd_HardState rd) (e :: es) Hi Hs Hok Hsto Hcon) as (w'&Ha&Hi'&Hst&Hes).
    exists w'. split; [done|]. split_and!; [done| |by rewrite Hes].
    rewrite Hst. by apply next_state_commit.
Qed.
Lemma last_entry e es : log_from (e_Index e) (e :: es) → ∃ e', last (e :: es) = Some e' ∧
  e_Index e' = (e_Index e + Z.of_nat (length (e :: es)) - 1)%Z.
Proof.
  intros Hl. destruct (last (e :: es)) as [e'|] eqn:El; [|by apply last_None in El].
  exists e'. split; [done|]. apply last_Some in El as [pre Ep]. rewrite Ep in Hl |- *.
  rewrite length_app. cbn [length]. rewrite (log_last _ _ _ Hl). lia.
Qed.
Lemma ms_append_done ms log s c a rd a' e es : ms_holds ms log s → log_wf log → ready_ok log c a rd a' → s ≤ c →
  rd_Entries rd = e :: es → ∃ ms', ms_Append ms (e :: es) = Ok ms' ∧ ms_holds ms' (next_log log rd) s.
Proof.
  intros (Hl&Hs&Hf) Hwf Hr Hb E. pose proof (ro_first _ _ _ _ _ Hr) as Hfi. rewrite E in Hfi.
  destruct (entries_log log rd e es (ro_log _ _ _ _ _ Hr) E) as (Hlf&_&_&Hlen); [lia|].
  destruct (last_entry e es Hlf) as (e'&He'&Hi').
  destruct (ms_Append_ok ms (e :: es) e e' eq_refl He' Hlf) as (ms'&Ha&Hs'&Hf'&Hl'); [lia|].
  exists ms'. split; [done|]. assert (1 ≤ length (e :: es)) by (cbn; lia).
  split_and!; [|congruence|by rewrite Hf']. rewrite Hl', (proj2 (Z.ltb_ge _ _)) by lia. lia.
Qed.
Lemma persist_ready_ok n log c a rd a' base s : wal_holds (rn_wal n) log c base → ms_holds (rn_storage n) log s →
  log_wf log → ready_ok log c a rd a' → base ≤ s → s ≤ c →
  ∃ w ms, persist_ready rd n = (set_stores ms w (rn_snap n) (rn_kv n) n, Ok tt) ∧
    wal_holds w (next_log log rd) (next_commit c rd) base ∧ ms_holds ms (next_log log rd) s.
Proof.
  intros Hw Hm Hwf Hr Hbs Hsc. unfold persist_ready. rewrite IsEmptyHardState_spec.
  assert (∃ w, when (negb (isEmptyHardState (rd_HardState rd)) || negb (bool_decide (rd_Entries rd = [])))
      (drop_err (on_wal (Wal.Append (rd_HardState rd) (rd_Entries rd)))) n =
      (set_stores (rn_storage n) w (rn_snap n) (rn_kv n) n, Ok tt) ∧
      wal_holds w (next_log log rd) (next_commit c rd) base) as (w&Ew&Hw').
  { destruct (negb (isEmptyHardState (rd_HardState rd)) || negb (bool_decide (rd_Entries rd = []))) eqn:Eb.
    - destruct (append_done _ _ _ _ _ _ _ Hw Hwf Hr) as (w&Ha&?); [lia|]. exists w. split; [|done].
      cbn [when]. apply (drop_err_ok _ _ _ tt). by apply on_wal_ok.
    - exists (rn_wal n). split; [by destruct n|]. apply orb_false_iff in Eb as [E1%negb_false_iff E2%negb_false_iff%bool_decide_eq_true].
      unfold next_log, next_commit. by rewrite E1, E2. }
  rewrite (n_bind _ _ _ _ _ Ew).
  set (n1 := set_stores (rn_storage n) w (rn_snap n) (rn_kv n) n).
  assert (∃ ms, when (negb (bool_decide (rd_Entries rd = []))) (drop_err (on_ms_ (λ ms, ms_Append ms (rd_Entries rd)))) n1 =
      (set_stores ms w (rn_snap n) (rn_kv n) n, Ok tt) ∧ ms_holds ms (next_log log rd) s) as (ms&Em&Hm').
  { case_bool_decide as Ee; cbn [when negb].
    - exists (rn_storage n). split; [done|]. unfold next_log. by rewrite Ee.
    - destruct (rd_Entries rd) as [|e es] eqn:E; [done|].
      destruct (ms_append_done _ _ _ _ _ _ _ _ _ Hm Hwf Hr Hsc E) as (ms&Ha&?). exists ms. split; [|done].
      apply (drop_err_ok _ _ _ tt). by erewrite on_ms_ok. }
  rewrite (n_bind _ _ _ _ _ Em). destruct (negb (isEmptyHardState (rd_HardState rd))); cbn [when].
  - exists w, (ms_SetHardState ms (rd_HardState rd)). split; [by erewrite on_ms_ok|].
    split; [done|]. destruct (ms_SetHardState_ok ms (rd_HardState rd)) as (E1&E2&E3). unfold ms_holds. by rewrite E1, E2, E3.
  - by exists w, ms.
Qed.

(** ** The store after a batch *)
Lemma members_wf_ext m m' : (∀ k, in_range metaMembersPrefix memberPrefixEnd k → m' !! k = m !! k) →
  members_wf m → members_wf m'.
Proof. intros E Hw k v Hk Hr. rewrite E in Hk by done. by eapply Hw. Qed.
Lemma applied_keys_out k : in_range metaMembersPrefix memberPrefixEnd k → k ≠ metaAppliedIndexKey ∧ k ≠ metaAppliedTermKey.
Proof.
  assert (¬ in_range metaMembersPrefix memberPrefixEnd metaAppliedIndexKey) as Hi
    by (apply (bool_decide_eq_false_1 _); vm_compute; reflexivity).
  assert (¬ in_range metaMembersPrefix memberPrefixEnd metaAppliedTermKey) as Ht
    by (apply (bool_decide_eq_false_1 _); vm_compute; reflexivity).
  intros Hr. split; by intros ->.
Qed.
Lemma members_wf_record m i t : members_wf m → members_wf (record_applied m i t).
Proof.
  apply members_wf_ext. intros k [Hi Ht]%applied_keys_out. unfold record_applied. by rewrite !lookup_insert_ne.
Qed.
Lemma members_wf_replay m es : Forall clean es → members_wf m → members_wf (replay m es).
Proof. intros Hc. apply members_wf_ext. intros k Hr. apply clean_replay; [done|by apply members_range_meta]. Qed.
Lemma stretch_last a a' log e : log_from 1 log → a < a' → a' ≤ length log → last (stretch a a' log) = Some e →
  e_Index e = Z.of_nat a'.
Proof.
  intros Hl Ha Hb He. rewrite last_lookup in He. unfold stretch in *. rewrite length_drop, length_take, lookup_drop in He.
  replace (a + Init.Nat.pred (a' `min` length log - a)) with (a' - 1) in He by lia.
  rewrite lookup_take_lt in He by lia. apply (log_from_lookup _ _ _ _ Hl) in He. lia.
Qed.
Lemma stretch_nonempty a a' (log : list Entry) : a < a' → a' ≤ length log → is_Some (last (stretch a a' log)).
Proof.
  intros Ha Hb. apply last_is_Some. intros E%(f_equal length). unfold stretch in E. rewrite length_drop, length_take in E.
  cbn [length] in E. lia.
Qed.
Lemma clean_stretch a a' log : Forall clean log → Forall clean (stretch a a' log).
Proof. intros Hc. by apply Forall_drop, Forall_take. Qed.
Lemma kv_extend kv log log' c c' i : kv_holds kv log c i → take c log' = take c log → c ≤ c' → kv_holds kv log' c' i.
Proof.
  intros (Ho&Hm&Ha&Hi&Hc) Et Hcc. split_and!; [done..|lia|].
  apply (converges_later _ _ i c); [done|done|]. by apply (converges_log _ log).
Qed.
Lemma kv_batch kv kv' log c a a' i : kv_holds kv log c i → log_wf log → c ≤ length log → a ≤ i → a ≤ a' ≤ c →
  ps_open kv' = true → store_map kv' = after_batch (store_map kv) (stretch a a' log) →
  ∃ i', a' ≤ i' ∧ kv_holds kv' log c i'.
Proof.
  intros (Ho&Hm&Ha&Hi&Hc) [Hlf _ Hcl _] Hlen Hai Haa Ho' E. destruct (decide (a = a')) as [->|Hne].
  - exists i. split; [done|]. rewrite stretch_refl in E. cbn in E. unfold kv_holds. by rewrite E.
  - destruct (stretch_nonempty a a' log) as [e He]; [lia..|].
    assert (e_Index e = Z.of_nat a') as Hie by (apply (stretch_last a a' log); [done|lia|lia|done]).
    unfold after_batch in E. rewrite He, Hie, (proj2 (Z.ltb_lt _ _)) in E by lia.
    exists a'. split; [done|]. unfold kv_holds. rewrite E. split_and!; [done| |left; apply record_applied_index|lia|].
    + by apply members_wf_record, members_wf_replay; [apply clean_stretch|].
    + eapply converges_business; [symmetry; apply record_applied_business|].
      apply converges_step; [lia|lia|]. by apply (converges_earlier _ _ a i).
Qed.
Lemma snap_extend sn log log' c c' s : snap_holds sn log c s → take c log' = take c log → c ≤ c' → snap_holds sn log' c' s.
Proof.
  intros (Hk&ms&Hi&Hms) Et Hcc. split; [done|]. exists ms. split; [done|]. destruct ms as [|m ms]; [done|].
  destruct Hms as (Hix&Hs&data&src&Hf&Hw&Hsn&Hcv). split_and!; [done|lia|lia|]. exists data, src. split_and!; [done..|].
  apply (converges_later _ _ s c); [lia|done|]. by apply (converges_log _ log).
Qed.

(** ** Snapshots *)
Lemma applied_index_read kv log c i : kv_holds kv log c i → c ≤ length log → log_wf log →
  Pebble.AppliedIndex kv = Ok (Z.of_nat i).
Proof.
  intros (Ho&_&Ha&Hi&_) Hc Hwf. rewrite AppliedIndex_done by done. pose proof (lw_bound _ Hwf).
  destruct Ha as [->|[-> ->]]; [|done]. rewrite decodeUint64_encode; [done|]. unfold is_u64. lia.
Qed.
Lemma newest_of sn (s : nat) (term : Z) cs len (i : nat) ms :
  store_inv sha256_hex 2 (sn_files sn) ms → (match ms with [] => s = 0 | m :: _ => md_Index m = Z.of_nat s end) → s < i →
  ∀ m, m ∈ ms → newest_lt (MkMetadata term (Z.of_nat i) cs [] len) m.
Proof.
  intros (Hs&_) Hms Hsi m Hm. destruct ms as [|m0 ms]; [by apply elem_of_nil in Hm|].
  assert (md_Index m ≤ Z.of_nat s)%Z.
  { apply elem_of_cons in Hm as [->|Hm]; [lia|]. apply StronglySorted_inv in Hs as [_ Hall].
    rewrite Forall_forall in Hall. destruct (Hall _ Hm) as [Hle _]. unfold newest_le in Hle. lia. }
  split; [left; cbn; lia|]. unfold same_name. cbn. lia.
Qed.
(** The log of the new snapshot need not be the one of the older ones. *)
Lemma create_snapshot_ok sn log0 c0 log c s i term cs len data src : snap_holds sn log0 c0 s → s < i → i ≤ c →
  (Z.of_nat c < 2 ^ 64)%Z → is_u64 term →
  members_wf (store_map src) → Pebble.Snapshot src = Ok data → converges (store_map src) log i c →
  ∃ sn' md, Snapshot.Create sha256_hex (MkMetadata term (Z.of_nat i) cs [] len) (Some (MkExporter data false)) sn = (sn', Ok md) ∧
    snap_holds sn' log c i.
Proof.
  intros (Hk&ms&Hi&Hms) Hsi Hic Hb Ht Hw Hsnap Hcv. set (x := MkMetadata term (Z.of_nat i) cs [] len).
  assert (∀ m, m ∈ ms → newest_lt x m) as Hnew.
  { apply (newest_of sn s); [done| |done]. destruct ms; [done|]. apply Hms. }
  assert (meta_ok (complete sha256_hex x data)) as Hx.
  { split; [split; [exact Ht|]|apply metadata_faithful]. unfold is_u64. cbn. lia. }
  destruct (create_newest sha256_hex sn ms x data Hk Hi Hx Hnew) as (sn'&Hc&Hopen&Hk'&Hi').
  exists sn', (complete sha256_hex x data). split; [done|]. split; [done|]. eexists. split; [exact Hi'|].
  split_and!; [done|lia|lia|]. exists data, src. split_and!; [|done..].
  destruct (OpenLatest_ok sha256_hex 1 _ _ _ Hi') as (d&Ho&_&_&Hf). rewrite Hopen in Ho. injection Ho as <-. done.
Qed.
Lemma cleanup_snapshots_ok sn log c s keep : snap_holds sn log c s → (0 < keep)%Z →
  ∃ sn', Snapshot.Cleanup keep sn = (sn', Ok tt) ∧ snap_holds sn' log c s.
Proof.
  intros (Hk&ms&Hi&Hms) Hkeep. destruct ms as [|m ms].
  - rewrite (Cleanup_ok sha256_hex 2 _ _ _ Hi Hkeep), drop_nil. eexists. split; [done|]. split; [done|]. by exists [].
  - destruct (Cleanup_newest sha256_hex _ _ _ _ Hi Hkeep) as (sn'&ms'&Hc&Hk'&Hi'&Hf).
    exists sn'. split; [done|]. split; [congruence|]. exists (m :: ms'). split; [done|]. by rewrite Hf.
Qed.
Lemma compactIndex_range cfg i : (0 < i)%Z → (0 < compactIndex cfg i ≤ i)%Z.
Proof.
  intros Hi. unfold compactIndex. destruct (0 <? _)%Z eqn:E1; cbn; [|lia].
  destruct (_ <? i)%Z eqn:E2; [|lia]. apply Z.ltb_lt in E1, E2. lia.
Qed.
Lemma truncate_done w log c base (k : Z) s : wal_holds w log c base → log_wf log → base ≤ s → (0 < k ≤ Z.of_nat s)%Z →
  ∃ w' base', Wal.TruncatePrefix k w = (w', Ok tt) ∧ wal_holds w' log c base' ∧ base' ≤ s.
Proof.
  intros (Hi&Hc&He) [Hlf _ _ _] Hb Hk. destruct (TruncatePrefix_ok w k Hi) as (w'&Ht&Hi'&Hst&Hes).
  exists w', (max base (Z.to_nat k - 1)). split; [done|]. split; [|lia].
  split_and!; [done|by rewrite Hst|]. rewrite Hes, He. destruct (decide (base ≤ length log)) as [Hl|Hl].
  - pose proof (log_from_drop 1 log base Hl Hlf) as Hd. rewrite (log_from_filter_ge _ _ _ Hd), drop_drop. f_equal. lia.
  - by rewrite !drop_ge by lia.
Qed.
Lemma compact_logs_ok n log c s i base : (0 < i)%Z → (i ≤ Z.of_nat s)%Z → base ≤ s → s ≤ length log → log_wf log →
  wal_holds (rn_wal n) log c base → ms_holds (rn_storage n) log s →
  ∃ ms w base', compact_logs i n = (set_stores ms w (rn_snap n) (rn_kv n) n, Ok tt) ∧
    base' ≤ s ∧ wal_holds w log c base' ∧ ms_holds ms log s.
Proof.
  intros H0' His Hbs Hsl Hwf Hw (Hl&Hs&Hf). unfold compact_logs. rewrite n_get.
  assert (first_index n = (n, Ok (ms_first (rn_storage n)))) as Ef by (unfold first_index; by rewrite ms_FirstIndex_ok).
  rewrite (n_bind _ _ _ _ _ Ef). set (k := compactIndex (rn_cfg n) i).
  pose proof (compactIndex_range (rn_cfg n) i H0') as Hk. fold k in Hk.
  destruct (Z.leb_spec (ms_first (rn_storage n)) k) as [Hfk|Hfk]; cbn [when].
  - destruct (ms_Compact_ok (rn_storage n) k) as (ms&Hc&Hl'&Hs'&Hf'); [lia|].
    destruct (truncate_done _ _ _ _ k s Hw Hwf Hbs) as (w&base'&Ht&Hw'&Hb'); [lia|].
    assert (tolerate ErrCompacted (on_ms_ (λ ms, ms_Compact ms k)) n =
      (set_stores ms (rn_wal n) (rn_snap n) (rn_kv n) n, Ok tt)) as E1.
    { unfold tolerate. by rewrite (on_ms_ok _ _ _ Hc). }
    rewrite (n_bind _ _ _ _ _ E1). exists ms, w, base'. split; [by erewrite on_wal_ok|]. split; [done|]. split; [done|].
    unfold ms_holds. rewrite Hl', Hs', Hf'. split_and!; [done..|lia].
  - exists (rn_storage n), (rn_wal n), base. split; [by destruct n|]. by split_and!.
Qed.

(** The stores of a node apart from pebble. *)
Definition stores_hold (ms : MemoryStorage) (w : FileWAL) (sn : FileStore) (log : list Entry) (c : nat) : Prop :=
  ∃ base s, base ≤ s ∧ s ≤ c ∧ wal_holds w log c base ∧ snap_holds sn log c s ∧ ms_holds ms log s.
Definition compacted (n n' : RaftNode) (log : list Entry) (c : nat) : Prop :=
  ∃ ms w sn, n' = set_stores ms w sn (rn_kv n) n ∧ stores_hold ms w sn log c.
Lemma compacted_refl n log c : stores_hold (rn_storage n) (rn_wal n) (rn_snap n) log c → compacted n n log c.
Proof. intros Hs. exists (rn_storage n), (rn_wal n), (rn_snap n). split; [by destruct n|done]. Qed.
Lemma drop_err_store {A} (m : N A) n n' e : m n = (n', Err (EStore e)) → drop_err m n = (n', Ok tt).
Proof. unfold drop_err. by intros ->. Qed.
Lemma take_snapshot_ok n log c i : stores_hold (rn_storage n) (rn_wal n) (rn_snap n) log c → kv_holds (rn_kv n) log c i →
  log_wf log → c ≤ length log → 0 < i → (0 < cfg_KeepSnapshots (rn_cfg n))%Z →
  (∃ e, take_snapshot sha256_hex (Z.of_nat i) n = (n, Err (EStore e))) ∨
  ∃ n', take_snapshot sha256_hex (Z.of_nat i) n = (n', Ok tt) ∧ compacted n n' log c.
Proof.
  intros Hst Hkv Hwf Hc Hi Hkeep. pose proof Hst as (base&s&Hbs&Hsc&Hw&Hsn&Hm). pose proof Hkv as (Ho&Hmw&_&Hic&Hcv).
  pose proof Hm as (Hml&Hms&Hmf). pose proof (lw_bound _ Hwf) as Hb. unfold take_snapshot.
  destruct (Pebble.Snapshot (rn_kv n)) as [buf|e] eqn:Eb.
  2: { left. exists e. unfold on_kv_read. by erewrite n_bind_err by (by rewrite Eb). }
  right. rewrite (n_bind _ _ n n buf) by (unfold on_kv_read; by rewrite Eb). rewrite n_get.
  destruct (decide (i ≤ s)) as [His|His].
  { rewrite ms_CreateSnapshot_old by lia. exists n. split; [done|]. by apply compacted_refl. }
  destruct (ms_CreateSnapshot_ok (rn_storage n) (Z.of_nat i) (currentConfState n) buf) as (ms1&snap&Ec&Hix&Ht&Hl1&Hs1&Hf1); [lia|lia|].
  rewrite Ec. set (n1 := set_stores ms1 (rn_wal n) (rn_snap n) (rn_kv n) n).
  rewrite (n_bind _ _ n n1 snap) by (unfold on_ms; by rewrite Ec). rewrite Hix.
  destruct (create_snapshot_ok _ _ _ log c _ i (rs_Term snap) (mustMarshalConfState (rs_ConfState snap)) (Z.of_nat (length buf)) buf (rn_kv n) Hsn)
    as (sn1&md&Hcr&Hsn1); [lia|done|lia|done..|].
  rewrite (n_bind _ _ _ _ _ (on_snap_ok _ n1 _ _ Hcr)). set (n2 := set_stores _ _ _ _ n1).
  assert (ms_holds ms1 log i) as Hm1 by (unfold ms_holds; rewrite Hl1, Hs1, Hf1; lia).
  destruct (compact_logs_ok n2 log c i (Z.of_nat i) base) as (ms3&w3&base3&Hcp&Hb3&Hw3&Hm3); [lia|lia|lia|lia|done|done|done|].
  rewrite (n_bind _ _ _ _ _ Hcp). set (n3 := set_stores _ _ _ _ n2).
  destruct (cleanup_snapshots_ok sn1 log c i (cfg_KeepSnapshots (rn_cfg n)) Hsn1 Hkeep) as (sn4&Hcl&Hsn4).
  rewrite (on_snap_ok _ n3 _ _ Hcl). eexists. split; [done|]. exists ms3, w3, sn4. split; [done|]. by exists base3, i.
Qed.
Lemma maybeTriggerSnapshot_ok n log c i : stores_hold (rn_storage n) (rn_wal n) (rn_snap n) log c → kv_holds (rn_kv n) log c i →
  log_wf log → c ≤ length log → (0 < cfg_KeepSnapshots (rn_cfg n))%Z →
  ∃ n', drop_err (maybeTriggerSnapshot sha256_hex) n = (n', Ok tt) ∧ compacted n n' log c.
Proof.
  intros Hst Hkv Hwf Hc Hkeep.
  assert ((∃ e, maybeTriggerSnapshot sha256_hex n = (n, Err (EStore e))) ∨
    ∃ n', maybeTriggerSnapshot sha256_hex n = (n', Ok tt) ∧ compacted n n' log c) as [[e E]|(n'&E&Hn')].
  - unfold maybeTriggerSnapshot.
    rewrite (n_bind _ _ n n (Z.of_nat i)) by (unfold on_kv_read; by rewrite (applied_index_read _ _ _ _ Hkv)).
    destruct (Z.eqb_spec (Z.of_nat i) 0) as [Hi|Hi]; [right; exists n; split; [done|by apply compacted_refl]|].
    destruct (ms_Snapshot_ok (rn_storage n)) as (snap&Es&_).
    rewrite (n_bind _ _ n n (rs_Index snap)) by (unfold current_snapshot_index; by rewrite Es). rewrite n_get.
    destruct (_ <? _)%Z; [right; exists n; split; [done|by apply compacted_refl]|].
    apply take_snapshot_ok; try done. lia.
  - exists n. split; [by eapply drop_err_store|by apply compacted_refl].
  - exists n'. split; [by eapply drop_err_ok|done].
Qed.

(** ** One batch *)
Lemma emitReady_cases r n : ∃ q, emitReady r n = (set_readyCh q n, Ok tt).
Proof.
  unfold emitReady, st_modify. destruct (rn_stopped n); [exists (rn_readyCh n); by destruct n|].
  destruct (_ <? _)%Z; [by eexists|]. exists (rn_readyCh n). by destruct n.
Qed.
(** The applied index after the entries [es]. *)
Definition applied_after (es : list Entry) (i : Z) : Z := match last es with Some e => e_Index e | None => i end.
Lemma updateStatus_cases rd n : ∃ f, updateStatus rd n = (set_status f n, Ok tt) ∧
  ∀ st, st_AppliedIndex (f st) = applied_after (rd_CommittedEntries rd) (st_AppliedIndex st).
Proof.
  eexists. split; [reflexivity|]. intros st. unfold applied_after. cbv beta zeta. destruct (last _); [done|].
  by destruct (rd_SoftState rd), (IsEmptyHardState _).
Qed.
Lemma handleReady_done n log c a rd a' : node_inv n log c a → ready_ok log c a rd a' →
  ∃ n', handleReady sha256_hex rd n = (n', Ok tt) ∧ node_inv n' (next_log log rd) (next_commit c rd) a' ∧
    store_map (rn_kv n') = after_batch (store_map (rn_kv n)) (rd_CommittedEntries rd) ∧
    st_AppliedIndex (rn_status n') = applied_after (rd_CommittedEntries rd) (st_AppliedIndex (rn_status n)).
Proof.
  intros [Hwf Hc [calls Hn] Hwt Hkeep (base&s&i&Hbs&Hsc&Hai&Hw&Hsn&Hm&Hkv)] Hr.
  pose proof (next_log_prefix _ _ _ _ _ Hr Hc) as Hpre. pose proof (ro_commit _ _ _ _ _ Hr) as Hcc.
  pose proof (ro_log _ _ _ _ _ Hr) as Hwf'. pose proof (ro_applied _ _ _ _ _ Hr) as Haa.
  unfold handleReady. rewrite IsEmptySnap_spec, (ro_snap _ _ _ _ _ Hr). cbn [Z.eqb negb when]. rewrite n_ret.
  destruct (persist_ready_ok n log c a rd a' base s Hw Hm Hwf Hr Hbs Hsc) as (w1&ms1&Ep&Hw1&Hm1).
  rewrite (n_bind _ _ _ _ _ Ep). set (n1 := set_stores ms1 w1 (rn_snap n) (rn_kv n) n).
  destruct (handleReadStates_ok (rd_ReadStates rd) n1) as (n2&Er&Hwt2&(ws&cs&->)); [exact Hwt|].
  rewrite (n_bind _ _ _ _ _ Er).
  destruct (applyCommittedEntries_ok (rd_CommittedEntries rd) (set_reads ws cs n1) calls) as (n3&n3'&Ea&(calls3&kv3&->&Ho3&Hm3)&Hn3); [exact Hn|apply Hkv|].
  rewrite (n_bind _ _ _ _ _ Ea).
  assert (∃ f, n3' = set_status f (set_node (Some calls3) (set_stores ms1 w1 (rn_snap n) kv3 (set_reads ws cs n1))) ∧
    ∀ st, applied_after (rd_CommittedEntries rd) (st_AppliedIndex (f st)) = applied_after (rd_CommittedEntries rd) (st_AppliedIndex st)) as (f&->&Hf).
  { rewrite Hn3. unfold applied_after. destruct (last _); [by eexists|]. by exists id. }
  destruct (updateStatus_cases rd (set_status f (set_node (Some calls3) (set_stores ms1 w1 (rn_snap n) kv3 (set_reads ws cs n1))))) as (g&Eg&Hg).
  rewrite (n_bind _ _ _ _ _ Eg). set (n4 := set_status g _).
  destruct (kv_batch (rn_kv n) kv3 (next_log log rd) (next_commit c rd) a a' i) as (i'&Hai'&Hkv3).
  { apply (kv_extend _ log _ c); [done..|lia]. }
  { done. }
  { lia. }
  { done. }
  { lia. }
  { done. }
  { cbn in Hm3. by rewrite Hm3, (ro_committed _ _ _ _ _ Hr). }
  assert (stores_hold ms1 w1 (rn_snap n) (next_log log rd) (next_commit c rd)) as Hst.
  { exists base, s. split_and!; [done|lia|done| |done]. apply (snap_extend _ log _ c); [done..|lia]. }
  destruct (maybeTriggerSnapshot_ok n4 (next_log log rd) (next_commit c rd) i' Hst Hkv3 Hwf') as (n5&Et&ms5&w5&sn5&->&(base5&s5&Hb5&Hs5&Hw5&Hsn5&Hm5)); [lia|done|].
  rewrite (n_bind _ _ _ _ _ Et). set (n5 := set_stores ms5 w5 sn5 (rn_kv n4) n4).
  destruct (emitReady_cases (convertReady rd) n5) as [q Eq]. rewrite (n_bind _ _ _ _ _ Eq).
  rewrite (node_call_drop _ _ calls3) by done. eexists. split; [done|]. split.
  - split; [done|lia|by eexists|exact Hwt2|exact Hkeep|]. exists base5, s5, i'. by split_and!.
  - split; [exact Hm3|]. cbn [set_node set_readyCh set_stores rn_status]. unfold n5, n4. cbn [set_status set_stores set_node rn_status].
    by rewrite Hg, Hf.
Qed.
Lemma handleReady_ok n log c a rd a' : node_inv n log c a → ready_ok log c a rd a' →
  ∃ n', handleReady sha256_hex rd n = (n', Ok tt) ∧ node_inv n' (next_log log rd) (next_commit c rd) a'.
Proof. intros Hi Hr. destruct (handleReady_done n log c a rd a' Hi Hr) as (n'&?&?&_). by exists n'. Qed.
End recovery.
