(* ===== verification/Restart.v ===== *)
(** * Restarting a node

    [Start] from the files alone: the newest snapshot is restored, the log behind it
    replayed.  Together with the invariant of the ready loop this gives the recovery theorem
    over whole runs: batches and restarts in any order. *)
From Stdlib Require Import Ascii ZArith Sorted.
From stdpp Require Import gmap strings countable list sorting.
From S2P Require Import Prelude GoStrings Codec Files Wal WalLog Engine StateMachine Pebble PebbleTotal Snapshot RaftConfig Raft RaftNode RaftReads Replay Recovery.

(** Entries [s+1 .. c] of a stretch of log. *)
Lemma log_from_filter_range i l (s c : Z) : log_from i l → (i ≤ s + 1)%Z →
  List.filter (λ e, negb ((e_Index e <=? s) || (c <? e_Index e))%Z) l = drop (Z.to_nat (s + 1 - i)) (take (Z.to_nat (c + 1 - i)) l).
Proof.
  intros Hl Hi. rewrite <-(log_from_filter_lt i l (c + 1) Hl).
  pose proof (log_from_take i l (Z.to_nat (c + 1 - i)) Hl) as Ht. rewrite <-(log_from_filter_lt i l (c + 1) Hl) in Ht.
  rewrite <-(log_from_filter_ge i _ (s + 1) Ht). clear. induction l as [|e l IH]; [done|]. cbn [List.filter].
  rewrite IH. destruct (Z.leb_spec (e_Index e) s), (Z.ltb_spec c (e_Index e)), (Z.ltb_spec (e_Index e) (c + 1)); cbn [orb negb List.filter]; try lia.
  - done.
  - by rewrite (proj2 (Z.leb_gt _ _)) by lia.
  - done.
  - by rewrite (proj2 (Z.leb_le _ _)) by lia.
Qed.

Section restart.
Context `{Raftpb, !Raft, !RaftBehaviour} `{EngineTotal}.
Context `{Json MemberAddress, Json snapshotPayload, Json (list KV), Json Command, Json Snapshot.Metadata}.
Context (sha256_hex : str → str).
Context (payload_faithful : ∀ p : snapshotPayload, Forall json_faithful (sp_Members p) → json_faithful p).
Context (metadata_faithful : ∀ (m : Metadata) data, json_faithful (complete sha256_hex m data)).

(** ** The replay loop *)
Definition kept (s c : Z) (e : Entry) : bool := negb ((e_Index e <=? s) || (c <? e_Index e))%Z.
Definition with_kv (kv : PebbleStore) (n : RaftNode) : RaftNode :=
  set_stores (rn_storage n) (rn_wal n) (rn_snap n) kv n.
Lemma replay_entry_ok s c e n : ps_open (rn_kv n) = true →
  ∃ kv, replay_entry s c e n = (with_kv kv n, Ok tt) ∧ ps_open kv = true ∧
    store_map kv = if kept s c e then record_applied (entry_effect (store_map (rn_kv n)) e) (e_Index e) (e_Term e)
                   else store_map (rn_kv n).
Proof.
  intros Ho. unfold replay_entry, kept. destruct (_ || _)%Z eqn:E; cbn [negb].
  { exists (rn_kv n). split_and!; [by destruct n|done|done]. }
  assert (∃ kv, (match e_Type e with
     | EntryNormal =>
         if bool_decide (e_Data e = []) then mret tt
         else match json_unmarshal (e_Data e) with
              | Some cmd => drop_err (on_kv (λ s, Pebble.Apply s cmd))
              | None => mret tt
              end
     | _ => mret tt
     end : N unit) n = (with_kv kv n, Ok tt) ∧ ps_open kv = true ∧ store_map kv = entry_effect (store_map (rn_kv n)) e)
    as (k1&Er&Ho1&Hm1).
  { assert (∃ kv, (mret tt : N unit) n = (with_kv kv n, Ok tt) ∧ ps_open kv = true ∧ store_map kv = store_map (rn_kv n)) as Hnone
      by (exists (rn_kv n); split_and!; [by destruct n|done|done]).
    unfold entry_effect, entry_cmd. destruct (e_Type e); [|done..]. case_bool_decide; [done|].
    destruct (json_unmarshal (e_Data e)) as [cmd|]; [|done]. destruct (Apply_done (rn_kv n) cmd Ho) as (kv&z&Ha&Hk&Hm).
    exists kv. by rewrite (drop_err_ok _ _ _ _ (on_kv_ok _ _ _ _ Ha)). }
  rewrite (n_bind _ _ _ _ _ Er). destruct (set_applied_ok (e_Index e) (e_Term e) (with_kv k1 n) Ho1) as (k2&Er2&Ho2&Hm2).
  exists k2. split_and!; [exact Er2|done|]. rewrite Hm2. cbn [with_kv set_stores rn_kv]. by rewrite Hm1.
Qed.
(** What the loop leaves: the business keys of the replay, the last index, the members. *)
Record replayed (m m' : gmap str str) (es : list Entry) : Prop := {
  rp_business : business m' = business (replay m es);
  rp_applied : m' !! metaAppliedIndexKey = match last es with
                                          | Some e => Some (encodeUint64 (e_Index e))
                                          | None => m !! metaAppliedIndexKey
                                          end;
  rp_members : members_wf m → members_wf m'
}.
Lemma replay_loop_ok s c es n : ps_open (rn_kv n) = true → Forall clean es →
  ∃ kv, st_iter (replay_entry s c) es n = (with_kv kv n, Ok tt) ∧ ps_open kv = true ∧
    replayed (store_map (rn_kv n)) (store_map kv) (List.filter (kept s c) es).
Proof.
  intros Ho Hc. revert n Ho. induction Hc as [|e es He Hc IH]; intros n Ho.
  - exists (rn_kv n). split_and!; [by destruct n|done|done].
  - destruct (replay_entry_ok s c e n Ho) as (k1&E1&Ho1&Hm1). destruct (IH (with_kv k1 n) Ho1) as (k2&E2&Ho2&[Hb Ha Hw]).
    exists k2. split_and!; [cbn [st_iter]; rewrite (n_bind _ _ _ _ _ E1); exact E2|done|].
    cbn [with_kv set_stores rn_kv] in Hb, Ha, Hw. cbn [List.filter]. destruct (kept s c e); [|rewrite Hm1 in *; by split].
    split.
    + rewrite Hb. change (replay (store_map (rn_kv n)) (e :: List.filter (kept s c) es))
        with (replay (entry_effect (store_map (rn_kv n)) e) (List.filter (kept s c) es)).
      apply business_replay. rewrite Hm1. apply record_applied_business.
    + rewrite Ha, Hm1, record_applied_index. destruct (List.filter (kept s c) es) as [|e' es']; [done|].
      rewrite (last_cons e (e' :: es')). destruct (last (e' :: es')) eqn:El; [done|by apply last_None in El].
    + intros Hmw. apply Hw. rewrite Hm1. apply members_wf_record.
      change (entry_effect (store_map (rn_kv n)) e) with (replay (store_map (rn_kv n)) [e]).
      apply members_wf_replay; [by constructor|done].
Qed.

(** ** Bootstrap *)
(** A node of [New] whose log and store have been opened. *)
Definition booting (n : RaftNode) : Prop :=
  rn_node n = None ∧ rn_storage n = NewMemoryStorage ∧ rn_waiters n = ∅ ∧ rn_chans n = ∅.
Lemma restore_snapshot_ok n m data src log c s : rn_storage n = NewMemoryStorage → ps_open (rn_kv n) = true →
  md_Index m = Z.of_nat s → 0 < s → s ≤ c → members_wf (store_map src) → Pebble.Snapshot src = Ok data →
  converges (store_map src) log s c →
  ∃ ms kv, restore_snapshot m data n = (set_stores ms (rn_wal n) (rn_snap n) kv n, Ok (Z.of_nat s)) ∧
    kv_holds kv log c s ∧ ms_last ms = Z.of_nat s ∧ ms_snap ms = Z.of_nat s ∧ ms_first ms = (Z.of_nat s + 1)%Z.
Proof.
  intros Hms Ho Hix Hs Hsc Hw Hsn Hcv. unfold restore_snapshot. rewrite Hix, (proj2 (Z.ltb_lt _ _)) by lia.
  destruct (snapshot_decodes payload_faithful src data Hw Hsn) as [p Hp].
  destruct (Restore_done (rn_kv n) data p Ho Hp) as (k1&Er&Ho1).
  destruct (snapshot_restored payload_faithful src data (rn_kv n) k1 Hw Hsn Er) as (Hb&Hmem&_).
  rewrite (n_bind _ _ _ _ _ (on_kv_ok _ _ _ _ Er)). set (n1 := set_stores _ _ _ k1 n).
  destruct (set_applied_ok (Z.of_nat s) (md_Term m) n1 Ho1) as (k2&E2&Ho2&Hm2). rewrite (n_bind _ _ _ _ _ E2).
  set (n2 := set_stores _ _ _ k2 n1). set (snap := MkRaftSnapshot data (Z.of_nat s) _ _).
  destruct ms_new as (Hl0&Hs0&Hf0).
  destruct (ms_ApplySnapshot_ok NewMemoryStorage snap) as (ms&Ea&Hl&Hs'&Hf); [cbn; lia|cbn; lia|].
  assert (tolerate ErrSnapOutOfDate (on_ms_ (λ ms, ms_ApplySnapshot ms snap)) n2 =
    (set_stores ms (rn_wal n) (rn_snap n) k2 n, Ok tt)) as E3.
  { unfold tolerate. erewrite on_ms_ok; [reflexivity|]. cbn. by rewrite Hms. }
  rewrite (n_bind _ _ _ _ _ E3). exists ms, k2. split; [done|]. split_and!; [|done..].
  change (rn_kv n1) with k1 in Hm2. split_and!; [done| |rewrite Hm2; left; apply record_applied_index|done|].
  - rewrite Hm2. apply members_wf_record. by apply (members_wf_ext (store_map src)).
  - eapply converges_business; [|exact Hcv]. by rewrite Hm2, record_applied_business, Hb.
Qed.
(** The snapshot phase: the contents at [s], or the old ones. *)
Definition snapshot_phase : N Z :=
  latest ← open_latest; match latest with Some (meta, data) => restore_snapshot meta data | None => mret 0%Z end.
Lemma latest_newest n log c s : snap_holds sha256_hex (rn_snap n) log c s → 0 < s → rn_storage n = NewMemoryStorage →
  ps_open (rn_kv n) = true →
  ∃ ms kv, snapshot_phase n = (set_stores ms (rn_wal n) (rn_snap n) kv n, Ok (Z.of_nat s)) ∧
    kv_holds kv log c s ∧ ms_last ms = Z.of_nat s ∧ ms_snap ms = Z.of_nat s ∧ ms_first ms = (Z.of_nat s + 1)%Z.
Proof.
  intros (_&ms0&Hi&Hms) Hpos Hst Ho. destruct ms0 as [|m ms0]; [lia|].
  destruct Hms as (Hix&[Hs Hsc]&data&src&Hf&Hw&Hsn&Hcv).
  destruct (OpenLatest_ok sha256_hex 1 _ _ _ Hi) as (d&Hop&_&_&Hf'). rewrite Hf in Hf'. injection Hf' as <-.
  unfold snapshot_phase. rewrite (n_bind _ _ n n (Some (m, data))) by (unfold open_latest; rewrite Hop; by destruct n).
  destruct (restore_snapshot_ok n m data src log c s Hst Ho Hix Hs Hsc Hw Hsn Hcv) as (ms&kv&E&?&?&?&?).
  exists ms, kv. by split_and!.
Qed.
Lemma latest_ok n log c s i : snap_holds sha256_hex (rn_snap n) log c s → rn_storage n = NewMemoryStorage →
  kv_holds (rn_kv n) log c i →
  ∃ ms kv i', snapshot_phase n = (set_stores ms (rn_wal n) (rn_snap n) kv n, Ok (Z.of_nat s)) ∧
    s ≤ i' ∧ kv_holds kv log c i' ∧ ms_last ms = Z.of_nat s ∧ ms_snap ms = Z.of_nat s ∧ ms_first ms = (Z.of_nat s + 1)%Z.
Proof.
  intros Hsn Hst Hkv. destruct (decide (0 < s)) as [Hs|Hs].
  { destruct (latest_newest n log c s Hsn Hs Hst (proj1 Hkv)) as (ms&kv&E&Hkv2). exists ms, kv, s. split_and!; [done|lia|apply Hkv2..]. }
  destruct Hsn as (_&[|m ms0]&Hi&Hms); [|destruct Hms as (_&?&_); lia]. subst s.
  unfold snapshot_phase. rewrite (n_bind _ _ n n None).
  2: { unfold open_latest. rewrite (OpenLatest_none sha256_hex 2 _ Hi). by destruct n. }
  exists (rn_storage n), (rn_kv n), i. split; [by destruct n|]. rewrite Hst. destruct ms_new as (->&->&->).
  by split_and!; [lia|..].
Qed.
Lemma n_bind2 {A B C} (m : N A) (f : A → N B) (g : B → N C) n n1 b :
  (m ≫= f) n = (n1, Ok b) → (m ≫= (λ a, f a ≫= g)) n = g b n1.
Proof.
  unfold mbind, ST_bind. destruct (m n) as [n0 [a|e]]; [|done]. destruct (f a n0) as [n2 [b'|e]]; [|done]. by intros [= -> ->].
Qed.
Lemma ms_load_done ms log s base : log_wf log → base ≤ s → s ≤ length log →
  ms_last ms = Z.of_nat s → ms_snap ms = Z.of_nat s → ms_first ms = (Z.of_nat s + 1)%Z → drop base log ≠ [] →
  ∃ ms', ms_Append ms (drop base log) = Ok ms' ∧ ms_holds ms' log s.
Proof.
  intros [Hlf _ _ _] Hb Hsl Hl Hs Hf Hne. destruct (drop base log) as [|e es] eqn:Ed; [done|].
  assert (length (e :: es) = length log - base) as Hlen by (by rewrite <-Ed, length_drop). cbn [length] in Hlen.
  pose proof (log_from_drop 1 log base ltac:(lia) Hlf) as Hd. rewrite Ed in Hd.
  assert (e_Index e = Z.of_nat base + 1)%Z as He by (destruct Hd; lia).
  assert (log_from (e_Index e) (e :: es)) as Hd' by (rewrite He; by replace (Z.of_nat base + 1)%Z with (1 + Z.of_nat base)%Z by lia).
  destruct (last_entry e es Hd') as (e'&El&Hi'). cbn [length] in Hi'.
  destruct (ms_Append_ok ms (e :: es) e e' eq_refl El Hd') as (ms'&Ha&Hs'&Hf'&Hl'); [lia|].
  exists ms'. split; [done|]. unfold ms_holds. rewrite Hl', Hs', Hf', Hs, Hf, Hl. split_and!; [|done|lia].
  destruct (Z.ltb_spec (e_Index e') (Z.of_nat s + 1)); lia.
Qed.
Lemma kept_stretch log (s c base : nat) : log_from 1 log → base ≤ s → s ≤ c → c ≤ length log →
  List.filter (kept (Z.of_nat s) (Z.of_nat c)) (drop base log) = stretch s c log.
Proof.
  intros Hl Hb Hs Hc. pose proof (log_from_drop 1 log base ltac:(lia) Hl) as Hd.
  unfold kept. rewrite (log_from_filter_range _ _ (Z.of_nat s) (Z.of_nat c) Hd) by lia. unfold stretch.
  rewrite take_drop_commute, drop_drop. f_equal; [lia|]. f_equal. lia.
Qed.
(** The replay over the loaded log. *)
Lemma replay_committed_ok n log (s c base i : nat) : log_wf log → base ≤ s → s ≤ i → s ≤ c → c ≤ length log → kv_holds (rn_kv n) log c i →
  ∃ kv i', st_iter (replay_entry (Z.of_nat s) (Z.of_nat c)) (drop base log) n = (with_kv kv n, Ok tt) ∧
    s ≤ i' ∧ kv_holds kv log c i' ∧ business (store_map kv) = state_after (take c log).
Proof.
  intros Hwf Hb Hsi Hsc Hc (Ho&Hm&Ha&Hi&Hcv). pose proof (lw_from _ Hwf) as Hlf.
  destruct (replay_loop_ok (Z.of_nat s) (Z.of_nat c) (drop base log) n Ho) as (kv&Er&Ho'&[Hbu Hap Hmem]).
  { apply Forall_drop, Hwf. }
  rewrite kept_stretch in * by done.
  assert (business (store_map kv) = state_after (take c log)) as Hst
    by (rewrite Hbu; by apply (converges_earlier _ _ s i c)).
  destruct (decide (s = c)) as [->|Hne].
  - exists kv, i. rewrite stretch_refl in Hap, Hbu. cbn [last] in Hap. unfold replay in Hbu. cbn [fold_left] in Hbu. split_and!; [done..| |done].
    split_and!; [done|by apply Hmem| |done|by apply (converges_business (store_map (rn_kv n)))].
    unfold applied_is. by rewrite Hap.
  - exists kv, c. split_and!; [done|done| |done].
    destruct (stretch_nonempty s c log) as [e He]; [lia..|]. rewrite He in Hap.
    rewrite (stretch_last s c log e) in Hap by (done || lia).
    split_and!; [done|by apply Hmem|by left|done|by apply converges_done].
Qed.
Lemma bootstrap_ok n log c i base s : booting n → log_wf log → c ≤ length log → base ≤ s → s ≤ c →
  wal_holds (rn_wal n) log c base → snap_holds sha256_hex (rn_snap n) log c s → kv_holds (rn_kv n) log c i →
  ∃ ms kv i' f fresh, bootstrapStorage n =
      (set_status f (set_flags fresh (rn_readIndexCounter n) (rn_started n) (rn_stopped n)
        (set_stores ms (rn_wal n) (rn_snap n) kv n)), Ok tt) ∧
    (∀ st, st_AppliedIndex (f st) = Z.of_nat c ∧ st_CommitIndex (f st) = Z.of_nat c) ∧
    s ≤ i' ∧ kv_holds kv log c i' ∧ ms_holds ms log s ∧ business (store_map kv) = state_after (take c log).
Proof.
  intros (Hnode&Hst&Hws&Hcs) Hwf Hc Hbs Hsc Hw Hsn Hkv. unfold bootstrapStorage.
  destruct (latest_ok n log c s i Hsn Hst Hkv) as (ms1&k1&i1&El&Hsi&Hkv1&Hl1&Hs1&Hf1).
  rewrite (n_bind2 _ _ _ _ _ _ El). set (n1 := set_stores ms1 _ _ k1 n).
  destruct Hw as (Hinv&Hcm&Hes).
  rewrite (n_bind _ _ n1 n1 (w_state (rn_wal n), drop base log)).
  2: { assert (Wal.Load (rn_wal n1) = (rn_wal n, Ok (w_state (rn_wal n), drop base log))) as E.
       { unfold Wal.Load, mbind, ST_bind, st_get. cbn. destruct Hinv as (cs&Hop&_). by rewrite Hop, Hes. }
       by rewrite (on_wal_ok _ n1 _ _ E). }
  cbn [fst snd]. rewrite !IsEmptyHardState_spec, Hcm.
  assert (∃ ms2, when (negb (isEmptyHardState (w_state (rn_wal n)))) (on_ms_ (λ ms, Ok (ms_SetHardState ms (w_state (rn_wal n))))) n1 =
      (set_stores ms2 (rn_wal n) (rn_snap n) k1 n, Ok tt) ∧
      ms_last ms2 = Z.of_nat s ∧ ms_snap ms2 = Z.of_nat s ∧ ms_first ms2 = (Z.of_nat s + 1)%Z) as (ms2&E2&Hl2&Hs2&Hf2).
  { destruct (isEmptyHardState _); cbn [negb when]; [by exists ms1|].
    destruct (ms_SetHardState_ok ms1 (w_state (rn_wal n))) as (E1'&E2'&E3').
    exists (ms_SetHardState ms1 (w_state (rn_wal n))). rewrite E1', E2', E3'. split; [by erewrite on_ms_ok|done]. }
  rewrite (n_bind _ _ _ _ _ E2). set (n2 := set_stores ms2 _ _ k1 n).
  assert (∃ ms3, when (negb (bool_decide (drop base log = []))) (on_ms_ (λ ms, ms_Append ms (drop base log))) n2 =
      (set_stores ms3 (rn_wal n) (rn_snap n) k1 n, Ok tt) ∧ ms_holds ms3 log s) as (ms3&E3&Hm3).
  { case_bool_decide as Ed; cbn [negb when].
    - exists ms2. split; [done|]. apply (f_equal length) in Ed. rewrite length_drop in Ed. cbn [length] in Ed.
      unfold ms_holds. rewrite Hl2, Hs2, Hf2. lia.
    - destruct (ms_load_done ms2 log s base) as (ms3&Ea&?); [done|done|lia|done..|]. exists ms3. split; [by erewrite on_ms_ok|done]. }
  rewrite (n_bind _ _ _ _ _ E3). set (n3 := set_stores ms3 _ _ k1 n).
  match goal with |- context [when ?b (st_modify ?g)] => assert (∃ fr, when b (st_modify g) n3 =
    (set_flags fr (rn_readIndexCounter n) (rn_started n) (rn_stopped n) n3, Ok tt)) as [fr E4] end.
  { destruct (_ || _ || _); [by exists false|]. exists (rn_fresh n). by destruct n. }
  rewrite (n_bind _ _ _ _ _ E4). set (n4 := set_flags fr _ _ _ n3).
  assert (∃ kv i', when (negb (isEmptyHardState (w_state (rn_wal n))) && (Z.of_nat s <? Z.of_nat c)%Z)
      (st_iter (replay_entry (Z.of_nat s) (Z.of_nat c)) (drop base log)) n4 = (with_kv kv n4, Ok tt) ∧
      s ≤ i' ∧ kv_holds kv log c i' ∧ business (store_map kv) = state_after (take c log)) as (kv&i'&E5&Hsi'&Hkv'&Hbus).
  { destruct (negb (isEmptyHardState (w_state (rn_wal n))) && (Z.of_nat s <? Z.of_nat c)%Z) eqn:Eb; cbn [when].
    - by apply (replay_committed_ok n4 log s c base i1).
    - assert (s = c) as ->.
      { apply andb_false_iff in Eb as [Eb|Eb%Z.ltb_ge]; [|lia]. apply negb_false_iff in Eb. unfold isEmptyHardState in Eb.
        rewrite Hcm in Eb. apply andb_true_iff in Eb as [_ Eb%Z.eqb_eq]. lia. }
      pose proof Hkv1 as (_&_&_&Hi1&Hcv). assert (i1 = c) as -> by lia.
      exists k1, c. split_and!; [done|done|done|]. by apply converges_done. }
  rewrite (n_bind _ _ _ _ _ E5).
  exists ms3, kv, i', (λ st, with_commit (Z.of_nat c) (with_applied (Z.of_nat c) st)), fr.
  split; [done|]. by split_and!.
Qed.

(** ** Starting from the files *)
Definition disk_of (n : RaftNode) : Disk := MkDisk (w_files (rn_wal n)) (sn_files (rn_snap n)) (ps_db (rn_kv n)).
(** The files of a disk hold a log, a snapshot and contents. *)
Definition disk_holds (d : Disk) (log : list Entry) (c s : nat) : Prop :=
  ∃ w base i, Wal.Open (NewFileWAL (d_wal d)) = (w, Ok tt) ∧ base ≤ s ∧ wal_holds w log c base ∧
    snap_holds sha256_hex (NewFileStore (d_snap d)) log c s ∧ kv_holds (MkStore (d_db d) true) log c i.
Lemma kv_reopen db db' log c i : contents db' = contents db → kv_holds (MkStore db true) log c i → kv_holds (MkStore db' true) log c i.
Proof. unfold kv_holds, store_map. cbn [ps_db ps_open]. by intros ->. Qed.
Lemma Start_ok cfg d n0 log c s : New cfg d = Ok n0 → disk_holds d log c s → log_wf log → c ≤ length log → s ≤ c →
  ∃ n' r, Start n0 = (n', r) ∧ (r = Ok tt ∨ rn_fresh n' = true) ∧ node_inv sha256_hex n' log c s ∧
    ms_snap (rn_storage n') = Z.of_nat s ∧ business (store_map (rn_kv n')) = state_after (take c log) ∧
    st_AppliedIndex (rn_status n') = Z.of_nat c ∧ st_CommitIndex (rn_status n') = Z.of_nat c.
Proof.
  intros Hnew (w&base&i&Hopen&Hbs&Hw&Hsn&Hkv) Hwf Hc Hsc. unfold New in Hnew.
  destruct (Validate (WithDefaults cfg)) as [[]|] eqn:Ev; [|done].
  assert (0 < cfg_KeepSnapshots (WithDefaults cfg))%Z as Hkeep by (cbn; by apply or_default_pos).
  injection Hnew as <-. unfold Start.
  change (ST RaftNode NodeErr) with N. rewrite n_get. cbn [rn_started]. rewrite n_modify.
  set (n1 := set_flags _ _ _ _ _).
  rewrite (n_bind _ _ _ _ _ (on_wal_ok _ n1 _ _ Hopen)). set (n2 := set_stores _ _ _ _ n1).
  destruct (open_total (d_db d)) as [db' Edb]. pose proof (pebble_open_ok _ _ Edb) as Hcon.
  assert (Pebble.Open (rn_kv n2) = (MkStore db' true, Ok tt)) as Ek by (unfold Pebble.Open; cbn; by rewrite Edb).
  rewrite (n_bind _ _ _ _ _ (on_kv_ok _ n2 _ _ Ek)). set (n3 := set_stores _ _ _ _ n2).
  destruct (bootstrap_ok n3 log c i base s) as (ms&kv&i'&f&fr&Eb&Hf&Hsi&Hkv'&Hms&Hbus); try done.
  { by apply (kv_reopen (d_db d)). }
  rewrite (n_bind _ _ _ _ _ Eb), n_get, n_modify. set (n4 := set_node _ _).
  assert (∀ calls, node_inv sha256_hex (set_node (Some calls) n4) log c s ∧
    ms_snap (rn_storage (set_node (Some calls) n4)) = Z.of_nat s ∧ business (store_map (rn_kv (set_node (Some calls) n4))) = state_after (take c log) ∧
    st_AppliedIndex (rn_status (set_node (Some calls) n4)) = Z.of_nat c ∧
    st_CommitIndex (rn_status (set_node (Some calls) n4)) = Z.of_nat c) as Hdone.
  { intros calls. split; [|split; [apply Hms|by split; [|apply Hf]]]. split; [done|done|by eexists| |exact Hkeep|].
    - by split; intros ??; rewrite ?lookup_empty.
    - exists base, s, i'. by split_and!. }
  change (rn_fresh (set_status f _)) with fr. destruct fr; cbn [when].
  - unfold node_call. cbn. eexists _, _. split; [reflexivity|]. split; [by right|apply (Hdone _)].
  - eexists _, _. split; [reflexivity|]. split; [by left|apply (Hdone _)].
Qed.

Lemma inv_disk n log c a : node_inv sha256_hex n log c a → ∃ s, s ≤ c ∧ disk_holds (disk_of n) log c s.
Proof.
  intros [_ _ _ _ _ (base&s&i&Hbs&Hsc&_&(Hi&Hc&He)&(Hk&ms&Hsn)&_&Hkv)]. exists s. split; [done|].
  destruct (reopen_ok (rn_wal n) Hi) as (w'&Ho&Hi'&Hst&Hes&_).
  exists w', base, i. split; [exact Ho|]. split; [done|]. split; [by rewrite <-Hst, <-Hes in *|].
  split; [split; [done|by exists ms]|]. destruct Hkv as (Hop&Hkv). split; [done|exact Hkv].
Qed.
Lemma empty_disk db : contents db = ∅ → disk_holds (MkDisk ∅ ∅ db) [] 0 0.
Proof.
  intros Hdb. destruct open_empty as (w&Ho&Hi&Hs&He). exists w, 0, 0. split_and!; [done|done| | |].
  - split_and!; [done|by rewrite Hs|by rewrite He].
  - split; [done|]. exists []. split; [|done]. split_and!; [constructor|constructor| | |constructor].
    + by intros m Hm%elem_of_nil.
    + intros p [d Hd]. cbn in Hd. by rewrite lookup_empty in Hd.
  - split_and!; [done| | |done|].
    + intros k v Hk. unfold store_map in Hk. cbn in Hk. by rewrite Hdb, lookup_empty in Hk.
    + right. unfold store_map. cbn. by rewrite Hdb, lookup_empty.
    + unfold store_map. cbn. rewrite Hdb. apply converges_init.
Qed.
Lemma log_wf_nil : log_wf [].
Proof. split; [done|constructor|constructor|cbn; lia]. Qed.

(** ** Runs *)
(** A node starts on an empty disk, handles batches of raft, and is restarted from its files at
    any moment between two batches.  After a restart raft hands out the entries behind the snapshot again. *)
Inductive node_run (cfg : Config) : RaftNode → list Entry → nat → nat → Prop :=
  | run_start db n0 n r : contents db = ∅ → New cfg (MkDisk ∅ ∅ db) = Ok n0 → Start n0 = (n, r) →
      node_run cfg n [] 0 0
  | run_ready n log c a rd a' n' : node_run cfg n log c a → ready_ok log c a rd a' →
      handleReady sha256_hex rd n = (n', Ok tt) → node_run cfg n' (next_log log rd) (next_commit c rd) a'
  | run_restart n log c a n0 n' r : node_run cfg n log c a → New cfg (disk_of n) = Ok n0 → Start n0 = (n', r) →
      node_run cfg n' log c (Z.to_nat (ms_snap (rn_storage n'))).
Lemma Start_inv cfg d n0 log c s : New cfg d = Ok n0 → disk_holds d log c s → log_wf log → c ≤ length log → s ≤ c →
  node_inv sha256_hex (Start n0).1 log c (Z.to_nat (ms_snap (rn_storage (Start n0).1))).
Proof.
  intros Hn Hd Hwf Hc Hs. destruct (Start_ok cfg d n0 log c s Hn Hd Hwf Hc Hs) as (n'&r&->&_&Hi&Hsnap&_). cbn [fst].
  by rewrite Hsnap, Nat2Z.id.
Qed.
Lemma node_run_inv cfg n log c a : node_run cfg n log c a → node_inv sha256_hex n log c a.
Proof.
  induction 1 as [db n0 n r Hdb Hn Hs|n log c a rd a' n' _ IH Hr Hh|n log c a n0 n' r _ IH Hn Hs].
  - pose proof (Start_inv cfg _ n0 [] 0 0 Hn (empty_disk db Hdb) log_wf_nil) as Hi. rewrite Hs in Hi. cbn [fst] in Hi.
    destruct (Start_ok cfg _ n0 [] 0 0 Hn (empty_disk db Hdb) log_wf_nil) as (n'&r'&E&_&_&Hsnap&_); [done..|].
    rewrite Hs in E. injection E as <- <-. rewrite Hsnap in Hi. by apply Hi.
  - destruct (handleReady_ok sha256_hex metadata_faithful n log c a rd a' IH Hr) as (n''&E&Hi). rewrite Hh in E. by injection E as <-.
  - destruct (inv_disk _ _ _ _ IH) as (s&Hs'&Hd). pose proof (Start_inv cfg _ n0 log c s Hn Hd (ni_log _ _ _ _ _ IH) (ni_commit _ _ _ _ _ IH) Hs') as Hi.
    by rewrite Hs in Hi.
Qed.

(** C1: crash recovery.  In every run of batches and restarts, whatever snapshots and compactions it
    triggers, the node processes every admissible batch without a panic, and a restart from
    the files alone succeeds (up to the error of an election campaign): pebble then holds exactly the
    contents after the committed log, no matter how much of it had been applied before,
    and the node reports the commit index as applied. *)
Theorem node_recovers cfg n log c a : node_run cfg n log c a →
  (∀ rd a', ready_ok log c a rd a' → ∃ n', handleReady sha256_hex rd n = (n', Ok tt)) ∧
  (∀ n0, New cfg (disk_of n) = Ok n0 → ∃ n' r, Start n0 = (n', r) ∧ (r = Ok tt ∨ rn_fresh n' = true) ∧
    business (store_map (rn_kv n')) = state_after (take c log) ∧ st_AppliedIndex (rn_status n') = Z.of_nat c).
Proof.
  intros Hrun%node_run_inv. split.
  - intros rd a' Hr. destruct (handleReady_ok sha256_hex metadata_faithful n log c a rd a' Hrun Hr) as (n'&E&_). by exists n'.
  - intros n0 Hn. destruct (inv_disk _ _ _ _ Hrun) as (s&Hs&Hd).
    destruct (Start_ok cfg _ n0 log c s Hn Hd (ni_log _ _ _ _ _ Hrun) (ni_commit _ _ _ _ _ Hrun) Hs) as (n'&r&E&Hr&_&_&Hb&Ha&_).
    by exists n', r.
Qed.
End restart.

(** ** An example: one committed write *)
#[export] Instance Operation_countable : Countable Operation.
Proof.
  refine (inj_countable' (λ o, match o with OperationPut => inl 0 | OperationDelete => inl 1 | OperationDeletePrefix => inl 2 | OperationOther s => inr s end)
    (λ x, match x with inl 0 => OperationPut | inl 1 => OperationDelete | inl _ => OperationDeletePrefix | inr s => OperationOther s end) _).
  by intros [].
Defined.
#[export] Instance Command_countable : Countable Command.
Proof.
  refine (inj_countable' (λ c, (cmd_Operation c, cmd_Key c, cmd_Value c, cmd_Prefix c)) (λ '(a, b, c, d), MkCommand a b c d) _).
  by intros [].
Defined.
Definition command_json : Json Command := bits_json (byte 123) brace_tag.
#[local] Existing Instances bits_raftpb memory_raft quiet_node memory_engine.
#[local] Existing Instances member_json payload_json items_json command_json sample_json.
Definition sample_cfg : Config := MkConfig 1 1 [] [] 0 0 0 0 0 0 0 1 0 0 0 0.
Definition put_kv : Command := MkCommand OperationPut (lit "k") (lit "v") [].
Definition put_entry : Entry := MkEntry 1 1 EntryNormal (bits_marshal (byte 123) put_kv).
Definition put_ready : RaftReady :=
  MkRaftReady None (MkHardState 1 1 1) [] [put_entry] (MkRaftSnapshot [] 0 0 empty_conf) [put_entry] [] true.
Definition sample_new (d : @Disk memory_engine) : RaftNode :=
  match New sample_cfg d with Ok n => n | Err _ => idle_node end.
Definition sample_n0 : RaftNode := (Start (sample_new (@MkDisk memory_engine ∅ ∅ (∅ : gmap str str)))).1.
Definition sample_n1 : RaftNode := (handleReady sample_hash put_ready sample_n0).1.
Lemma sample_new_eq d : New sample_cfg d = Ok (sample_new d).
Proof. reflexivity. Qed.
Lemma put_ready_ok : ready_ok [] 0 0 put_ready 1.
Proof.
  assert (entry_cmd put_entry = Some put_kv) as Hcmd by (apply (bool_decide_eq_true_1 _); vm_compute; reflexivity).
  split; [done| | | | |done|].
  2: { cbn -[Z.of_nat]. rewrite Nat2Z.inj_0. lia. }
  3-4: change (next_commit 0 put_ready) with 1; try change (length (next_log [] put_ready)) with 1; lia.
  - split_and!; apply (u64_small 1); lia.
  - change (next_log [] put_ready) with [put_entry]. split; [done| | |cbn [length]; lia].
    + constructor; [|constructor]. split; [split; apply (u64_small 1); lia|]. vm_compute. reflexivity.
    + constructor; [|constructor]. intros k Hk. unfold entry_writes. rewrite Hcmd. cbn.
      unfold cmd_writes; cbn [cmd_op put_kv cmd_Operation cmd_Key]. rewrite bool_decide_false; [done|]. intros ->. by vm_compute in Hk.
Qed.
Lemma sample_run0 : node_run sample_hash sample_cfg sample_n0 [] 0 0.
Proof.
  eapply run_start; [|apply (sample_new_eq (@MkDisk memory_engine ∅ ∅ (∅ : gmap str str)))|apply surjective_pairing].
  reflexivity.
Qed.
Lemma sample_metadata (m : Metadata) data : json_faithful (complete sample_hash m data).
Proof. exact I. Qed.
Lemma sample_payload (p : snapshotPayload) : Forall json_faithful (sp_Members p) → json_faithful p.
Proof. intros _. exact I. Qed.
Lemma sample_ready_eq : handleReady sample_hash put_ready sample_n0 = (sample_n1, Ok tt).
Proof.
  destruct (handleReady_ok sample_hash sample_metadata sample_n0 [] 0 0 put_ready 1) as (n'&E&_).
  - exact (node_run_inv sample_hash sample_payload sample_metadata _ _ _ _ _ sample_run0).
  - apply put_ready_ok.
  - unfold sample_n1. by rewrite E.
Qed.
Lemma sample_run1 : node_run sample_hash sample_cfg sample_n1 [put_entry] 1 1.
Proof. exact (run_ready _ _ sample_n0 [] 0 0 put_ready 1 _ sample_run0 put_ready_ok sample_ready_eq). Qed.
Lemma node_recovers_witness :
  node_run sample_hash sample_cfg sample_n1 [put_entry] 1 1 ∧
  (∀ rd a', ready_ok [put_entry] 1 1 rd a' → ∃ n', handleReady sample_hash rd sample_n1 = (n', Ok tt)) ∧
  (∀ n0, New sample_cfg (disk_of sample_n1) = Ok n0 → ∃ n' r, Start n0 = (n', r) ∧ (r = Ok tt ∨ rn_fresh n' = true) ∧
    business (store_map (rn_kv n')) = state_after [put_entry] ∧ st_AppliedIndex (rn_status n') = 1%Z).
Proof.
  split; [exact sample_run1|].
  exact (node_recovers sample_hash sample_payload sample_metadata sample_cfg sample_n1 [put_entry] 1 1 sample_run1).
Defined.
