(* ===== verification/RaftFacts.v ===== *)
(** * Flaws of the raft node

    What the ready loop and the snapshot installation do off the path that [Restart] proves
    correct: a log gap behind an installed snapshot, an old snapshot over a newer state, a start that fails. *)
From Stdlib Require Import Ascii ZArith Sorted.
From stdpp Require Import gmap strings countable list sorting.
From S2P Require Import Prelude GoStrings Codec Files Wal WalLog Engine StateMachine Pebble PebbleTotal Snapshot RaftConfig Raft RaftNode RaftReads Replay Recovery Restart.

(** ** Successful runs, taken apart *)
Section inversion.
Context `{Raftpb, !Raft, !RaftBehaviour, PebbleEngine}.
Lemma n_bind_inv {A B} (m : N A) (f : A → N B) n n2 b : (m ≫= f) n = (n2, Ok b) →
  ∃ n1 a, m n = (n1, Ok a) ∧ f a n1 = (n2, Ok b).
Proof. unfold mbind, ST_bind. destruct (m n) as [n1 [a|e]]; [|done]. by exists n1, a. Qed.
Lemma map_err_inv {E F A} (g : E → F) (r : result E A) a : map_err g r = Ok a → r = Ok a.
Proof. destruct r; cbn; congruence. Qed.
Lemma on_snap_inv {A} (m : S' A) n n' a : on_snap m n = (n', Ok a) →
  ∃ s, m (rn_snap n) = (s, Ok a) ∧ n' = set_stores (rn_storage n) (rn_wal n) s (rn_kv n) n.
Proof. unfold on_snap. destruct (m (rn_snap n)) as [s r]. intros [= <- ->%map_err_inv]. by exists s. Qed.
Lemma on_kv_inv {A} (f : PebbleStore → PebbleStore * result StoreErr A) n n' a : on_kv f n = (n', Ok a) →
  ∃ s, f (rn_kv n) = (s, Ok a) ∧ n' = set_stores (rn_storage n) (rn_wal n) (rn_snap n) s n.
Proof. unfold on_kv. destruct (f (rn_kv n)) as [s r]. intros [= <- ->%map_err_inv]. by exists s. Qed.
Lemma on_wal_inv {A} (m : W A) n n' a : on_wal m n = (n', Ok a) →
  ∃ w, m (rn_wal n) = (w, Ok a) ∧ n' = set_stores (rn_storage n) w (rn_snap n) (rn_kv n) n.
Proof. unfold on_wal. destruct (m (rn_wal n)) as [w r]. intros [= <- ->%map_err_inv]. by exists w. Qed.
Lemma tolerate_inv t f n n' : tolerate t (on_ms_ f) n = (n', Ok tt) →
  ∃ ms, n' = set_stores ms (rn_wal n) (rn_snap n) (rn_kv n) n.
Proof.
  unfold tolerate, on_ms_, on_ms. destruct (f (rn_storage n)) as [ms|e]; cbn [mbind result_bind].
  - intros [= <-]. by exists ms.
  - intros E. exists (rn_storage n). destruct e; try done; case_bool_decide; try done; injection E as <-; by destruct n.
Qed.
Context `{Json MemberAddress, Json snapshotPayload, Json (list KV), Json Snapshot.Metadata}.
(** Installing a snapshot of the raft library leaves the write-ahead log alone. *)
Lemma drop_err_wal {A} (m : N A) n : rn_wal (m n).1 = rn_wal n → rn_wal (drop_err m n).1 = rn_wal n.
Proof. unfold drop_err. destruct (m n) as [n' [a|[]]]; done. Qed.
Lemma bind_wal {A B} (m : N A) (f : A → N B) n : rn_wal (m n).1 = rn_wal n → (∀ a n', rn_wal (f a n').1 = rn_wal n') →
  rn_wal ((m ≫= f) n).1 = rn_wal n.
Proof. intros Hm Hf. unfold mbind, ST_bind. destruct (m n) as [n' [a|e]]; cbn in *; [|done]. by rewrite Hf. Qed.
Lemma install_ready_wal sha snap n : rn_wal (install_ready_snapshot sha snap n).1 = rn_wal n.
Proof.
  unfold install_ready_snapshot. apply bind_wal.
  { destruct (negb _); [|done]. cbn [when]. apply drop_err_wal. unfold on_kv. by destruct (Pebble.Restore _ _). }
  intros _ n1. apply bind_wal.
  { apply drop_err_wal. unfold on_snap. by destruct (Snapshot.Install _ _ _ _). }
  intros _ n2. apply drop_err_wal. unfold on_ms_, on_ms. destruct (ms_ApplySnapshot _ _) as [ms|[]]; done.
Qed.
End inversion.

Section flaws.
Context `{Raftpb, !Raft, !RaftBehaviour} `{EngineTotal}.
Context `{Json MemberAddress, Json snapshotPayload, Json (list KV), Json Command, Json Snapshot.Metadata}.
Context (sha256_hex : str → str).

(** A batch whose entries do not connect to the write-ahead log, as after a snapshot of the
    raft library was installed (which leaves the log alone), is taken over in memory while the log keeps
    none of its entries; only the hard state, with the new commit index, is persisted. *)
Theorem unpersisted_entries n rd e s : wal_inv (rn_wal n) → state_ok (rd_HardState rd) → rd_Entries rd ≠ [] →
  gap (w_entries (rn_wal n)) (rd_Entries rd) = Some e → ms_Append (rn_storage n) (rd_Entries rd) = Ok s →
  ∃ n', persist_ready rd n = (n', Ok tt) ∧ ms_last (rn_storage n') = ms_last s ∧
    w_entries (rn_wal n') = w_entries (rn_wal n) ∧
    w_state (rn_wal n') = next_state (w_state (rn_wal n)) (rd_HardState rd).
Proof.
  intros Hi Hs Hne Hg Hm. unfold persist_ready. rewrite (bool_decide_false _ Hne), orb_true_r. cbn [negb when].
  destruct (Append_gap _ _ _ _ Hi Hs Hg) as (w'&Ea&_&Hst&Hes).
  assert (drop_err (on_wal (Wal.Append (rd_HardState rd) (rd_Entries rd))) n =
    (set_stores (rn_storage n) w' (rn_snap n) (rn_kv n) n, Ok tt)) as E1.
  { unfold drop_err, on_wal. rewrite Ea. done. }
  rewrite (n_bind _ _ _ _ _ E1). set (n1 := set_stores _ w' _ _ n).
  rewrite (n_bind _ _ n1 (set_stores s w' (rn_snap n) (rn_kv n) n) tt).
  2: { apply (drop_err_ok _ _ _ tt). by erewrite on_ms_ok. }
  destruct (negb _); cbn [when].
  - erewrite on_ms_ok by reflexivity. eexists. split; [done|]. cbn. by split; [apply ms_SetHardState_ok|].
  - by eexists.
Qed.

Context (payload_faithful : ∀ p : snapshotPayload, Forall json_faithful (sp_Members p) → json_faithful p).
(** [InstallSnapshot] does not compare the snapshot with what is applied: an old snapshot takes the
    state machine back to its contents and index, while the reported applied index, on which
    linearizable reads rely, stays where it was. *)
Theorem InstallSnapshot_rollback n n' meta data src : is_u64 (md_Index meta) → members_wf (store_map src) → Pebble.Snapshot src = Ok data →
  data ≠ [] → (md_Index meta < st_AppliedIndex (rn_status n))%Z →
  InstallSnapshot sha256_hex meta data n = (n', Ok tt) →
  business (store_map (rn_kv n')) = business (store_map src) ∧ Pebble.AppliedIndex (rn_kv n') = Ok (md_Index meta) ∧
  st_AppliedIndex (rn_status n') = st_AppliedIndex (rn_status n).
Proof.
  intros Hu Hw Hsn Hd Hlt. unfold InstallSnapshot.
  intros E.
  apply n_bind_inv in E as (n0&[]&E0&E). apply ensureRunning_same in E0 as ->.
  apply n_bind_inv in E as (n1&[]&E1&E). apply on_snap_inv in E1 as (sn&_&->).
  rewrite (bool_decide_false _ Hd) in E. cbn [negb when] in E.
  apply n_bind_inv in E as (n2&[]&E2&E). apply on_kv_inv in E2 as (k2&Er&->). cbn [set_stores rn_kv] in Er.
  apply n_bind_inv in E as (n3&[]&E3&E). apply tolerate_inv in E3 as [ms ->].
  apply n_bind_inv in E as (n4&[]&E4&E). apply on_kv_inv in E4 as (k4&Ei&->). cbn [set_stores rn_kv] in Ei.
  apply n_bind_inv in E as (n5&[]&E5&E). apply on_kv_inv in E5 as (k5&Et&->). cbn [set_stores rn_kv] in Et.
  apply n_bind_inv in E as (n6&[]&E6&E). apply on_wal_inv in E6 as (w&_&->). injection E as <-.
  destruct (snapshot_restored payload_faithful src data (rn_kv n) k2 Hw Hsn Er) as (Hb&_&_).
  apply db_write_ok in Ei as [Hi _], Et as [Ht Ho]. cbn [apply_op] in Hi, Ht.
  assert (store_map k5 = record_applied (store_map k2) (md_Index meta) (md_Term meta)) as Hk by (by rewrite Ht, Hi).
  cbn [set_status set_stores rn_kv rn_status]. split_and!.
  - by rewrite Hk, record_applied_business, Hb.
  - rewrite AppliedIndex_done by done. by rewrite Hk, record_applied_index, decodeUint64_encode.
  - rewrite (proj2 (Z.ltb_ge (st_AppliedIndex (rn_status n)) (md_Index meta))) by lia.
    by destruct (st_CommitIndex (rn_status n) <? md_Index meta)%Z.
Qed.

Context (metadata_faithful : ∀ (m : Metadata) data, json_faithful (complete sha256_hex m data)).
(** After a restart the node reports the commit index as applied and pebble holds the contents up to it, but
    raft hands the entries behind the snapshot out again: while they are applied once more, a
    key goes back to each of its older values, and a read that waits for any committed index is
    let through and returns them. *)
Theorem restart_reapplies cfg n log (c a j : nat) n0 n' r key v : node_run sha256_hex cfg n log c a →
  New cfg (disk_of n) = Ok n0 → Start n0 = (n', r) → Z.to_nat (ms_snap (rn_storage n')) ≤ j → j ≤ c →
  isMetaKey key = false → last_write (stretch (Z.to_nat (ms_snap (rn_storage n'))) j log) key = Some (Some v) →
  business (store_map (rn_kv n')) = state_after (take c log) ∧
  ∃ n'', st_iter apply_entry (stretch (Z.to_nat (ms_snap (rn_storage n'))) j log) n' = (n'', Ok tt) ∧
    read_poll (Z.of_nat c) n'' = true ∧ Pebble.AppliedIndex (rn_kv n'') = Pebble.AppliedIndex (rn_kv n') ∧
    store_map (rn_kv n'') !! key = Some v.
Proof.
  intros Hrun Hn Hst Hs Hj Hk Hw.
  pose proof (node_run_inv sha256_hex payload_faithful metadata_faithful _ _ _ _ _ Hrun) as Hinv.
  destruct (inv_disk _ _ _ _ _ Hinv) as (s&Hsc&Hd).
  destruct (Start_ok sha256_hex payload_faithful cfg _ n0 log c s Hn Hd (ni_log _ _ _ _ _ Hinv) (ni_commit _ _ _ _ _ Hinv) Hsc)
    as (n1&r1&E&_&Hi1&Hsn&Hb&Hap&_). rewrite Hst in E. injection E as <- <-. split; [done|].
  pose proof Hi1 as [Hwf _ [calls Hcalls] _ _ (_&_&i&_&_&_&_&_&_&Ho&_)].
  set (es := stretch _ j log) in *. destruct (apply_entries_ok es n' calls Hcalls Ho) as (n2&Er&calls2&kv2&->&Ho2&Hm2).
  eexists. split; [exact Er|]. cbn [set_node set_stores rn_kv rn_status]. split_and!.
  - unfold read_poll. cbn [set_node set_stores rn_status]. rewrite Hap. lia.
  - rewrite !AppliedIndex_done by done. rewrite Hm2, clean_replay; [done|by apply clean_stretch, Hwf|by vm_compute].
  - by rewrite Hm2, replay_lookup, Hw.
Qed.

(** A [Start] that fails on the write-ahead log marks the node as started all the same: a later [Start] is
    refused, and a proposal dereferences the nil raft node. *)
Theorem failed_Start n e data : rn_started n = false → rn_stopped n = false → rn_node n = None →
  (Wal.Open (rn_wal n)).2 = Err e →
  let n' := (Start n).1 in
  (Start n).2 = Err (EWal e) ∧ (Start n').2 = Err errNodeStarted ∧ (Propose data n').2 = Err EPanic.
Proof.
  intros Hs Hp Hn He. destruct (Wal.Open (rn_wal n)) as [w r] eqn:Eo. cbn in He. subst r.
  assert (Start n = (set_stores (rn_storage n) w (rn_snap n) (rn_kv n)
    (set_flags (rn_fresh n) (rn_readIndexCounter n) true (rn_stopped n) n), Err (EWal e))) as ->.
  { unfold Start. change (ST RaftNode NodeErr) with N. rewrite n_get, Hs, n_modify. apply n_bind_err.
    unfold on_wal. cbn [set_flags rn_wal rn_storage rn_snap rn_kv]. by rewrite Eo. }
  cbn [fst snd]. split_and!; [done|done|]. unfold Propose, ensureRunning.
  unfold mbind, ST_bind, st_get, node_call. cbn. rewrite Hp. cbn. cbn [set_stores set_flags rn_node]. by rewrite Hn.
Qed.
End flaws.

(** ** Examples *)
#[local] Existing Instances bits_raftpb memory_raft quiet_node memory_engine.
#[local] Existing Instances member_json payload_json items_json command_json sample_json.
(** A follower with one entry receives a snapshot at 5, then entry 6. *)
Definition behind : RaftNode := (install_ready_snapshot sample_hash (MkRaftSnapshot [] 5 1 empty_conf) sample_n1).1.
Definition entry6 : Entry := MkEntry 6 1 EntryNormal [].
Definition ready6 : RaftReady := MkRaftReady None (MkHardState 1 1 6) [] [entry6] (MkRaftSnapshot [] 0 0 empty_conf) [entry6] [] true.
Definition store6 : MemStore := match mem_append (rn_storage behind) [entry6] with Ok s => s | Err _ => NewMemoryStorage end.
Lemma sample_n1_inv : node_inv sample_hash sample_n1 [put_entry] 1 1.
Proof.
  pose proof (node_run_inv sample_hash sample_payload sample_metadata _ _ _ _ _ sample_run0) as Hi.
  destruct (handleReady_ok sample_hash sample_metadata sample_n0 [] 0 0 put_ready 1 Hi put_ready_ok) as (n'&E&Hn).
  unfold sample_n1. by rewrite E.
Qed.
Lemma unpersisted_entries_witness : ∃ n', persist_ready ready6 behind = (n', Ok tt) ∧
  ms_last (rn_storage n') = 6%Z ∧ w_entries (rn_wal n') = w_entries (rn_wal behind) ∧
  w_state (rn_wal n') = next_state (w_state (rn_wal behind)) (MkHardState 1 1 6).
Proof.
  apply (unpersisted_entries behind ready6 (ErrGap 6 1) store6).
  - destruct sample_n1_inv as [_ _ _ _ _ (base&s&i&_&_&_&Hw&_)]. unfold behind. rewrite install_ready_wal. exact (proj1 Hw).
  - split_and!; [apply (u64_small 1)|apply (u64_small 1)|apply (u64_small 6)]; lia.
  - discriminate.
  - vm_compute. reflexivity.
  - vm_compute. reflexivity.
Defined.
(** An old snapshot arrives at a node that has applied nine entries. *)
Definition ahead : RaftNode := set_status (with_applied 9) sample_n1.
Definition rolled_back : RaftNode := (InstallSnapshot sample_hash (sample_meta 3) sample_snapshot ahead).1.
Lemma InstallSnapshot_rollback_witness :
  business (store_map (rn_kv rolled_back)) = business (store_map source_store) ∧
  Pebble.AppliedIndex (rn_kv rolled_back) = Ok 3%Z ∧ st_AppliedIndex (rn_status rolled_back) = 9%Z.
Proof.
  apply (InstallSnapshot_rollback sample_hash sample_payload ahead rolled_back (sample_meta 3) sample_snapshot source_store).
  - apply (u64_small 3); lia.
  - apply no_members_wf. intros k Hr. apply lookup_singleton_ne. intros <-. by apply members_range_meta in Hr.
  - apply ok_unpack. vm_compute. reflexivity.
  - intros E. apply (f_equal length) in E. vm_compute in E. discriminate.
  - reflexivity.
  - unfold rolled_back. refine (run_unpack (InstallSnapshot sample_hash (sample_meta 3) sample_snapshot ahead) tt _).
    vm_compute. reflexivity.
Defined.
(** A node whose hard state cannot be decoded. *)
Definition corrupt : RaftNode := sample_new (@MkDisk memory_engine {[stateFileName := lit "?"]} ∅ (∅ : gmap str str)).
Lemma failed_Start_witness :
  let n' := (Start corrupt).1 in
  (Start corrupt).2 = Err (EWal ErrDecode) ∧ (Start n').2 = Err errNodeStarted ∧ (Propose (lit "x") n').2 = Err EPanic.
Proof.
  apply (failed_Start corrupt ErrDecode (lit "x")); reflexivity.
Defined.
