(* ===== verification/Agreement.v ===== *)
(** * Replicas agree

    What raft promises is an assumption here: the committed logs of two nodes agree as far as both go.  Under it the
    stores of two nodes agree too, up to the entries that one of them has yet to apply, in every
    run of batches, snapshots and restarts; and nodes that have applied the same log answer reads alike. *)
From Stdlib Require Import Ascii ZArith Sorted.
From stdpp Require Import gmap strings countable list sorting.
From S2P Require Import Prelude GoStrings Codec Files Wal WalLog Engine StateMachine Pebble PebbleTotal Snapshot RaftConfig Raft RaftNode RaftReads Replay Recovery Restart.

Section agreement.
Context `{Raftpb, !Raft, !RaftBehaviour} `{EngineTotal}.
Context `{Json MemberAddress, Json snapshotPayload, Json (list KV), Json Command, Json Snapshot.Metadata}.
Context (sha256_hex : str → str).
Context (payload_faithful : ∀ p : snapshotPayload, Forall json_faithful (sp_Members p) → json_faithful p).
Context (metadata_faithful : ∀ (m : Metadata) data, json_faithful (complete sha256_hex m data)).

(** ** Reads are functions of the business contents *)
Lemma Scan_done s start end_ limit : ps_open s = true →
  Pebble.Scan s start end_ limit = Ok (spec_scan (business (store_map s)) start end_ limit).
Proof.
  intros Ho. destruct (Pebble.Scan s start end_ limit) as [items|e] eqn:E; [by rewrite (Scan_spec _ _ _ _ _ E)|].
  exfalso. revert E. unfold Pebble.Scan, getDB, lift. rewrite Ho. cbn [mbind result_bind].
  destruct (iter_total (ps_db s) start end_) as [items ->]. cbn. by destruct (scan_items _ _ _).
Qed.
Lemma Get_done s key : ps_open s = true → isMetaKey key = false →
  Pebble.Get s key = Ok (default [] (business (store_map s) !! key)).
Proof.
  intros Ho Hk. unfold Pebble.Get, getDB, lift. rewrite Ho. cbn [mbind result_bind].
  destruct (get_total (ps_db s) key) as [v Ev]. rewrite Ev. cbn. by rewrite (pebble_get_ok _ _ _ Ev), business_lookup, Hk.
Qed.
(** A read behind a passed barrier. *)
Definition answers (n : RaftNode) (key start end_ : str) (limit : Z) : result NodeErr str * result NodeErr (list KV) :=
  ((node_Get (Ok tt) key n).2, (node_Scan (Ok tt) start end_ limit n).2).
Lemma answers_business n1 n2 key start end_ limit : ps_open (rn_kv n1) = true → ps_open (rn_kv n2) = true →
  business (store_map (rn_kv n1)) = business (store_map (rn_kv n2)) → isMetaKey key = false →
  answers n1 key start end_ limit = answers n2 key start end_ limit.
Proof.
  intros H1' H2' Hb Hk. unfold answers, node_Get, node_Scan, on_kv_read, st_lift, mbind, ST_bind. cbn.
  by rewrite !Scan_done, !Get_done, Hb.
Qed.

(** ** Two nodes *)
(** The contents once everything outstanding is applied. *)
Lemma contents_run cfg n log c a (i : nat) : node_run sha256_hex cfg n log c a → Pebble.AppliedIndex (rn_kv n) = Ok (Z.of_nat i) →
  ps_open (rn_kv n) = true ∧ i ≤ c ∧ business (replay (store_map (rn_kv n)) (stretch i c log)) = state_after (take c log).
Proof.
  intros Hrun Hi. pose proof (node_run_inv sha256_hex payload_faithful metadata_faithful _ _ _ _ _ Hrun) as [Hwf Hc _ _ _ (_&_&i'&_&_&_&_&_&_&Hkv)].
  rewrite (applied_index_read _ _ _ _ Hkv Hc Hwf) in Hi. injection Hi as ->%Nat2Z.inj. by destruct Hkv as (Ho&_&_&Hic&Hcv).
Qed.
Lemma state_extend log c c' : c ≤ c' → state_after (take c' log) = business (replay (state_after (take c log)) (stretch c c' log)).
Proof.
  intros Hc. unfold state_after. change (take c' log) with (stretch 0 c' log). rewrite (stretch_split 0 c c'), replay_app by lia.
  change (stretch 0 c log) with (take c log). apply business_replay. by rewrite business_idem.
Qed.

(** C5: Replicas agree.  Two nodes have been started, fed with batches and restarted in any way, and their
    committed logs agree as far as the shorter one goes, which raft guarantees.  Then their
    stores hold the same contents up to what they have yet to apply; and if both have applied the
    same committed log they answer every read alike. *)
Theorem replicas_agree cfg1 cfg2 n1 n2 log1 log2 (c1 c2 a1 a2 i1 i2 : nat) :
  node_run sha256_hex cfg1 n1 log1 c1 a1 → node_run sha256_hex cfg2 n2 log2 c2 a2 → c1 ≤ c2 → take c1 log1 = take c1 log2 →
  Pebble.AppliedIndex (rn_kv n1) = Ok (Z.of_nat i1) → Pebble.AppliedIndex (rn_kv n2) = Ok (Z.of_nat i2) →
  business (replay (store_map (rn_kv n1)) (stretch i1 c1 log1 ++ stretch c1 c2 log2)) =
    business (replay (store_map (rn_kv n2)) (stretch i2 c2 log2)) ∧
  (i1 = c1 → c1 = c2 → i2 = c2 → ∀ key start end_ limit, isMetaKey key = false →
    answers n1 key start end_ limit = answers n2 key start end_ limit).
Proof.
  intros Hr1 Hr2 Hc Hlog Hi1 Hi2. destruct (contents_run _ _ _ _ _ _ Hr1 Hi1) as (Ho1&_&Hs1), (contents_run _ _ _ _ _ _ Hr2 Hi2) as (Ho2&_&Hs2).
  split.
  - rewrite replay_app, Hs2, (state_extend log2 c1 c2) by done. apply business_replay. rewrite Hs1, Hlog. unfold state_after. by rewrite business_idem.
  - intros -> <- -> key start end_ limit Hk. apply answers_business; [done|done| |done].
    rewrite stretch_refl in Hs1, Hs2. unfold replay in Hs1, Hs2. cbn [fold_left] in Hs1, Hs2. by rewrite Hs1, Hs2, Hlog.
Qed.
(** ** Linearizable reads *)
(** A run that remembers the commit index [r] of its last restart. *)
Inductive tracked_run (cfg : Config) : RaftNode → list Entry → nat → nat → nat → Prop :=
  | tracked_start db n0 n r : contents db = ∅ → New cfg (MkDisk ∅ ∅ db) = Ok n0 → Start n0 = (n, r) →
      tracked_run cfg n [] 0 0 0
  | tracked_ready n log c a r rd a' n' : tracked_run cfg n log c a r → ready_ok log c a rd a' →
      handleReady sha256_hex rd n = (n', Ok tt) → tracked_run cfg n' (next_log log rd) (next_commit c rd) a' r
  | tracked_restart n log c a r n0 n' e : tracked_run cfg n log c a r → New cfg (disk_of n) = Ok n0 → Start n0 = (n', e) →
      tracked_run cfg n' log c (Z.to_nat (ms_snap (rn_storage n'))) c.
Lemma tracked_node_run cfg n log c a r : tracked_run cfg n log c a r → node_run sha256_hex cfg n log c a.
Proof. induction 1; [by eapply run_start|by eapply run_ready|by eapply run_restart]. Qed.
(** What pebble holds between two batches: the log up to [r], with the entries from [b] on, which raft
    hands out again, replayed as far as [a]. *)
Definition replays_from (n : RaftNode) (log : list Entry) (a r b : nat) : Prop :=
  b ≤ a ∧ b ≤ r ∧ business (store_map (rn_kv n)) = business (replay (state_after (take r log)) (stretch b a log)) ∧
  st_AppliedIndex (rn_status n) = Z.of_nat (if decide (a = b) then r else a).
Lemma Start_tracked cfg d n0 log c s n' e : New cfg d = Ok n0 → disk_holds sha256_hex d log c s → log_wf log → c ≤ length log → s ≤ c →
  Start n0 = (n', e) → replays_from n' log (Z.to_nat (ms_snap (rn_storage n'))) c (Z.to_nat (ms_snap (rn_storage n'))).
Proof.
  intros Hn Hd Hwf Hc Hs Hst. destruct (Start_ok sha256_hex payload_faithful cfg d n0 log c s Hn Hd Hwf Hc Hs) as (n1&r1&E&_&_&Hsn&Hb&Ha&_).
  rewrite Hst in E. injection E as <- <-. rewrite Hsn, Nat2Z.id. split_and!; [done|done| |by rewrite decide_True].
  rewrite stretch_refl, Hb. unfold state_after. cbn. by rewrite business_idem.
Qed.
Lemma after_batch_business m es : business (after_batch m es) = business (replay m es).
Proof.
  unfold after_batch. destruct (last es) as [e|] eqn:El; [|by apply last_None in El as ->].
  destruct (0 <? e_Index e)%Z; [apply record_applied_business|done].
Qed.
Lemma ready_tracked n n' log c a rd a' r b : node_inv sha256_hex n log c a → ready_ok log c a rd a' → r ≤ c → replays_from n log a r b →
  handleReady sha256_hex rd n = (n', Ok tt) → replays_from n' (next_log log rd) a' r b.
Proof.
  intros Hi Hr Hrc (Hba&Hbr&Hb&Hap) Hh.
  destruct (handleReady_done sha256_hex metadata_faithful n log c a rd a' Hi Hr) as (n1&E&_&Hkv&Hst). rewrite Hh in E. injection E as <-.
  pose proof (ni_commit _ _ _ _ _ Hi) as Hc. pose proof (next_log_prefix _ _ _ _ _ Hr Hc) as Hpre.
  pose proof (ro_applied _ _ _ _ _ Hr) as Haa. pose proof (ro_commit _ _ _ _ _ Hr) as Hcc. pose proof (lw_from _ (ro_log _ _ _ _ _ Hr)) as Hlf.
  assert (a ≤ c) as Hac by (destruct Hi as [_ _ _ _ _ (_&_&i&_&_&?&_&_&_&(_&_&_&?&_))]; lia).
  assert (∀ i, i ≤ c → take i (next_log log rd) = take i log) as Htake.
  { intros i Hic. rewrite <-(Nat.min_l i c) by done. by rewrite <-!take_take, Hpre. }
  rewrite (ro_committed _ _ _ _ _ Hr) in Hkv, Hst. split_and!; [lia|done| |].
  - rewrite Hkv, after_batch_business, (stretch_split b a a'), replay_app, Htake by lia. apply business_replay. rewrite Hb.
    unfold stretch. by rewrite Htake.
  - rewrite Hst. unfold applied_after. destruct (decide (a = a')) as [<-|Hne]; [by rewrite stretch_refl|].
    destruct (stretch_nonempty a a' (next_log log rd)) as [e He]; [lia|lia|]. rewrite He.
    rewrite (stretch_last a a' _ e Hlf) by (lia || done). rewrite decide_False by lia. done.
Qed.
Lemma tracked_inv cfg n log c a r : tracked_run cfg n log c a r → r ≤ c ∧ ∃ b, replays_from n log a r b.
Proof.
  induction 1 as [db n0 n e Hdb Hn Hs|n log c a r rd a' n' Hrun [Hrc [b IH]] Hr Hh|n log c a r n0 n' e Hrun _ Hn Hs].
  - split; [done|]. pose proof (Start_tracked cfg _ n0 [] 0 0 n e Hn (empty_disk sha256_hex db Hdb) log_wf_nil (le_n 0) (le_n 0) Hs) as Hb.
    destruct (Start_ok sha256_hex payload_faithful cfg _ n0 [] 0 0 Hn (empty_disk sha256_hex db Hdb) log_wf_nil (le_n 0) (le_n 0)) as (n1&r1&E&_&_&Hsn&_).
    rewrite Hs in E. injection E as <- <-. rewrite Hsn in Hb. by exists 0.
  - pose proof (node_run_inv sha256_hex payload_faithful metadata_faithful _ _ _ _ _ (tracked_node_run _ _ _ _ _ _ Hrun)) as Hi.
    split; [pose proof (ro_commit _ _ _ _ _ Hr); lia|]. exists b. by eapply (ready_tracked n n' log c a rd a' r b).
  - split; [done|]. pose proof (node_run_inv sha256_hex payload_faithful metadata_faithful _ _ _ _ _ (tracked_node_run _ _ _ _ _ _ Hrun)) as Hi.
    destruct (inv_disk _ _ _ _ _ Hi) as (s&Hsc&Hd). eexists.
    by apply (Start_tracked cfg _ n0 log c s n' e Hn Hd (ni_log _ _ _ _ _ Hi) (ni_commit _ _ _ _ _ Hi) Hsc).
Qed.
(** Once raft has come back to [r], pebble holds exactly the log as far as [a]. *)
Lemma replays_state n log a r b : r ≤ a → replays_from n log a r b → business (store_map (rn_kv n)) = state_after (take a log).
Proof.
  intros Hra (Hba&Hbr&->&_). rewrite (stretch_split b r a), replay_app by done.
  assert (converges (state_after (take r log)) log b r) as Hcv.
  { apply (converges_earlier _ _ b r r); [done|done|]. apply converges_done. unfold state_after. by rewrite business_idem. }
  rewrite (state_extend log r a) by done. apply business_replay. rewrite Hcv. unfold state_after. by rewrite business_idem.
Qed.

(** C4: Linearizable reads.  In every run of batches and restarts, a read that was let through with an index that
    raft confirmed since the last restart finds, between two batches, exactly the contents after a
    committed prefix of the log that reaches at least to that index: every write committed before the read began
    is seen, and nothing beyond what is committed. *)
Theorem linearizable_read cfg n log (c a r : nat) (index : Z) : tracked_run cfg n log c a r → (Z.of_nat r ≤ index)%Z →
  LinearizableRead_wait index n [] = Some (Ok tt) →
  ∃ j, (index ≤ Z.of_nat j ≤ Z.of_nat c)%Z ∧
    (∀ key, isMetaKey key = false → (node_Get (Ok tt) key n).2 = Ok (default [] (state_after (take j log) !! key))) ∧
    ∀ start end_ limit, (node_Scan (Ok tt) start end_ limit n).2 = Ok (spec_scan (state_after (take j log)) start end_ limit).
Proof.
  intros Hrun Hri Hpoll. destruct (tracked_inv _ _ _ _ _ _ Hrun) as [Hrc [b Hb]]. pose proof Hb as (Hba&Hbr&Hcont&Hap).
  pose proof (node_run_inv sha256_hex payload_faithful metadata_faithful _ _ _ _ _ (tracked_node_run _ _ _ _ _ _ Hrun)) as Hi.
  destruct Hi as [_ _ _ _ _ (_&_&i&_&_&Hai&_&_&_&(Ho&_&_&Hic&_))].
  cbn [LinearizableRead_wait] in Hpoll. destruct (read_poll index n) eqn:Ep; [|done]. apply Z.leb_le in Ep. rewrite Hap in Ep.
  assert (∃ j, (index ≤ Z.of_nat j ≤ Z.of_nat c)%Z ∧ business (store_map (rn_kv n)) = state_after (take j log)) as (j&Hj&Hs).
  { destruct (decide (a = b)) as [->|Hne].
    - exists r. split; [lia|]. rewrite Hcont, stretch_refl. unfold state_after. cbn. by rewrite business_idem.
    - exists a. split; [lia|]. apply (replays_state n log a r b); [lia|done]. }
  exists j. split; [done|]. unfold node_Get, node_Scan, on_kv_read, st_lift, mbind, ST_bind. cbn. rewrite <-Hs. split.
  - intros key Hk. by rewrite Get_done.
  - intros start end_ limit. by rewrite Scan_done.
Qed.
End agreement.

(** ** An example: a node and its restart *)
#[local] Existing Instances bits_raftpb memory_raft quiet_node memory_engine.
#[local] Existing Instances member_json payload_json items_json command_json sample_json.
Definition sample_restarted : RaftNode := (Start (sample_new (disk_of sample_n1))).1.
Lemma replicas_agree_witness : Pebble.Get (rn_kv sample_n1) (lit "k") = Ok (lit "v") ∧
  answers sample_n1 (lit "k") [] [] 0 = answers sample_restarted (lit "k") [] [] 0.
Proof.
  split; [apply ok_unpack; vm_compute; reflexivity|].
  apply (replicas_agree sample_hash sample_payload sample_metadata sample_cfg sample_cfg sample_n1 sample_restarted [put_entry] [put_entry]
    1 1 1 (Z.to_nat (ms_snap (rn_storage sample_restarted))) 1 1).
  - exact sample_run1.
  - eapply run_restart; [exact sample_run1|apply (sample_new_eq (disk_of sample_n1))|apply surjective_pairing].
  - done.
  - done.
  - apply ok_unpack. vm_compute. reflexivity.
  - apply ok_unpack. vm_compute. reflexivity.
  - done.
  - done.
  - done.
  - vm_compute. reflexivity.
Defined.
Lemma sample_tracked0 : tracked_run sample_hash sample_cfg sample_n0 [] 0 0 0.
Proof.
  eapply tracked_start; [|apply (sample_new_eq (@MkDisk memory_engine ∅ ∅ (∅ : gmap str str)))|apply surjective_pairing]. reflexivity.
Qed.
Lemma sample_tracked : tracked_run sample_hash sample_cfg sample_n1 [put_entry] 1 1 0.
Proof.
  exact (tracked_ready sample_hash sample_cfg sample_n0 [] 0 0 0 put_ready 1 sample_n1 sample_tracked0 put_ready_ok sample_ready_eq).
Qed.
Lemma linearizable_read_witness : LinearizableRead_wait 1 sample_n1 [] = Some (Ok tt) ∧
  ∃ j, (1 ≤ Z.of_nat j ≤ 1)%Z ∧ (node_Get (Ok tt) (lit "k") sample_n1).2 = Ok (default [] (state_after (take j [put_entry]) !! lit "k")).
Proof.
  assert (read_poll 1 sample_n1 = true) as Hp by (vm_compute; reflexivity).
  assert (LinearizableRead_wait 1 sample_n1 [] = Some (Ok tt)) as Hw by (cbn [LinearizableRead_wait]; by rewrite Hp). split; [exact Hw|].
  destruct (linearizable_read sample_hash sample_payload sample_metadata sample_cfg sample_n1 [put_entry] 1 1 0 1 sample_tracked) as (j&Hj&Hg&_);
    [lia|exact Hw|].
  exists j. split; [exact Hj|]. apply Hg. vm_compute. reflexivity.
Defined.
