(* ===== verification/Tracker.v ===== *)
(** * The replication tracker ([internal/replication/tracker.go])

    One status record per replicated service, in a map whose keys join the four identifying
    fields with NUL bytes.  Every operation overwrites the identifying fields, so the record
    stored under a key always carries that key; [List] is then sorted strictly. *)
From Stdlib Require Import Ascii ZArith Sorted.
From stdpp Require Import gmap strings list sorting.
From S2P Require Import Prelude GoStrings.

Record Status := MkStatus {
  SourceRegion : str; SourceClusterID : str; Namespace : str; ServiceName : str; Connected : bool;
  LastAppliedRevision : Z; LastSnapshotRevision : Z; LastSyncUnix : Z; ErrorCount : Z; LastError : str
}.
(** The zero value of the struct, which a map lookup yields for an absent key. *)
Definition no_status : Status := MkStatus [] [] [] [] false 0 0 0 0 [].
Record Tracker := MkTracker { t_status : gmap str Status }.
Definition NewTracker : Tracker := MkTracker ∅.
#[export] Instance Status_eq_dec : EqDecision Status.
Proof. solve_decision. Defined.

Definition key (sourceRegion sourceClusterID namespace service : str) : str :=
  sourceRegion ++ [zero] ++ sourceClusterID ++ [zero] ++ namespace ++ [zero] ++ service.

(** The record under a key, with its identifying fields overwritten. *)
Definition item_of (t : Tracker) (sr sc ns svc : str) : Status :=
  let item := default no_status (t_status t !! key sr sc ns svc) in
  MkStatus sr sc ns svc (Connected item) (LastAppliedRevision item) (LastSnapshotRevision item)
    (LastSyncUnix item) (ErrorCount item) (LastError item).
Definition store_item (t : Tracker) (sr sc ns svc : str) (item : Status) : Tracker :=
  MkTracker (<[key sr sc ns svc := item]> (t_status t)).

(** [now] is [time.Now().Unix()]. *)
Definition SetConnected (now : Z) (t : Tracker) (sr sc ns svc : str) (connected : bool) : Tracker :=
  let item := item_of t sr sc ns svc in
  store_item t sr sc ns svc
    (MkStatus sr sc ns svc connected (LastAppliedRevision item) (LastSnapshotRevision item)
       (if connected then now else LastSyncUnix item) (ErrorCount item)
       (if connected then [] else LastError item)).
Definition UpdateRevision (now : Z) (t : Tracker) (sr sc ns svc : str) (appliedRevision snapshotRevision : Z) : Tracker :=
  let item := item_of t sr sc ns svc in
  store_item t sr sc ns svc
    (MkStatus sr sc ns svc true
       (if (LastAppliedRevision item <? appliedRevision)%Z then appliedRevision else LastAppliedRevision item)
       (if (0 <? snapshotRevision)%Z then snapshotRevision else LastSnapshotRevision item)
       now (ErrorCount item) []).
Definition RecordError (now : Z) (t : Tracker) (sr sc ns svc message : str) : Tracker :=
  let item := item_of t sr sc ns svc in
  store_item t sr sc ns svc
    (MkStatus sr sc ns svc false (LastAppliedRevision item) (LastSnapshotRevision item)
       now (u64 (ErrorCount item + 1)) message).

(** The comparison passed to [sort.Slice]. *)
Definition status_less (a b : Status) : bool :=
  if negb (bool_decide (SourceRegion a = SourceRegion b)) then str_ltb (SourceRegion a) (SourceRegion b)
  else if negb (bool_decide (SourceClusterID a = SourceClusterID b))
  then str_ltb (SourceClusterID a) (SourceClusterID b)
  else if negb (bool_decide (Namespace a = Namespace b)) then str_ltb (Namespace a) (Namespace b)
  else str_ltb (ServiceName a) (ServiceName b).
Definition status_le (a b : Status) : Prop := status_less b a = false.
#[export] Instance status_le_dec : RelDecision status_le := λ a b, decide (status_less b a = false).
Definition List (t : Tracker) : list Status := merge_sort status_le (map_to_list (t_status t)).*2.

(** ** The invariant *)
Definition status_key (s : Status) : str := key (SourceRegion s) (SourceClusterID s) (Namespace s) (ServiceName s).
Definition tracker_ok (t : Tracker) : Prop := ∀ k s, t_status t !! k = Some s → status_key s = k.
Definition same_service (a b : Status) : Prop :=
  SourceRegion a = SourceRegion b ∧ SourceClusterID a = SourceClusterID b ∧
  Namespace a = Namespace b ∧ ServiceName a = ServiceName b.
(** The watermark a key reports. *)
Definition watermark (t : Tracker) (k : str) : Z := from_option LastAppliedRevision 0%Z (t_status t !! k).
Inductive TrackerOp :=
  | OpConnected (connected : bool) | OpRevision (applied snapshot : Z) | OpError (message : str).
Definition track (t : Tracker) (op : Z * (str * str * str * str) * TrackerOp) : Tracker :=
  let '(now, (sr, sc, ns, svc), o) := op in
  match o with
  | OpConnected c => SetConnected now t sr sc ns svc c
  | OpRevision a s => UpdateRevision now t sr sc ns svc a s
  | OpError e => RecordError now t sr sc ns svc e
  end.

Lemma lex_step (x y : str) (P : bool) :
  (if negb (bool_decide (x = y)) then str_ltb x y else P) = true ↔ str_lt x y ∨ x = y ∧ P = true.
Proof.
  case_bool_decide as Hxy; cbn [negb]; [|by split; [left|intros [|[]]]].
  subst. split; [by right|]. intros [Hlt|[_ HP]]; [by destruct (str_lt_irrefl y)|done].
Qed.
Lemma status_less_spec a b :
  status_less a b = true ↔
    str_lt (SourceRegion a) (SourceRegion b) ∨
    SourceRegion a = SourceRegion b ∧ (str_lt (SourceClusterID a) (SourceClusterID b) ∨
    SourceClusterID a = SourceClusterID b ∧ (str_lt (Namespace a) (Namespace b) ∨
    Namespace a = Namespace b ∧ str_lt (ServiceName a) (ServiceName b))).
Proof. unfold status_less. by rewrite !lex_step. Qed.
Lemma status_less_trans a b c : status_less a b = true → status_less b c = true → status_less a c = true.
Proof. rewrite !status_less_spec. pose proof str_lt_trans as T. unfold Transitive in T. naive_solver congruence. Qed.
Lemma status_less_tricho a b : status_less a b = true ∨ same_service a b ∨ status_less b a = true.
Proof.
  rewrite !status_less_spec. unfold same_service.
  destruct (str_lt_trichotomy (SourceRegion a) (SourceRegion b)) as [|[|]]; [tauto| |tauto].
  destruct (str_lt_trichotomy (SourceClusterID a) (SourceClusterID b)) as [|[|]]; [tauto| |intuition congruence].
  destruct (str_lt_trichotomy (Namespace a) (Namespace b)) as [|[|]]; [tauto| |intuition congruence].
  destruct (str_lt_trichotomy (ServiceName a) (ServiceName b)) as [|[|]]; intuition congruence.
Qed.
Lemma status_less_irrefl a : status_less a a = false.
Proof.
  destruct (status_less a a) eqn:E; [|done]. apply status_less_spec in E. pose proof str_lt_irrefl as I. naive_solver.
Qed.
#[export] Instance status_le_trans : Transitive status_le.
Proof.
  intros a b c H1 H2. unfold status_le in *. destruct (status_less c a) eqn:E; [|done].
  destruct (status_less_tricho a b) as [Hab|[Hab|Hab]]; [by rewrite (status_less_trans _ _ _ E Hab) in H2| |congruence].
  apply not_true_iff_false in H2. contradict H2. revert E. rewrite !status_less_spec.
  destruct Hab as (<-&<-&<-&<-). done.
Qed.
#[export] Instance status_le_total : Total status_le.
Proof.
  intros a b. unfold status_le. destruct (status_less b a) eqn:E; [right|by left].
  destruct (status_less a b) eqn:E'; [|done]. pose proof (status_less_trans _ _ _ E E') as E2.
  by rewrite status_less_irrefl in E2.
Qed.
Lemma store_item_lookup t sr sc ns svc item k :
  t_status (store_item t sr sc ns svc item) !! k =
    if bool_decide (k = key sr sc ns svc) then Some item else t_status t !! k.
Proof.
  cbn. case_bool_decide; subst; [by rewrite lookup_insert_eq|by rewrite lookup_insert_ne].
Qed.
Lemma store_item_ok t sr sc ns svc item :
  tracker_ok t → status_key item = key sr sc ns svc → tracker_ok (store_item t sr sc ns svc item).
Proof. intros Ht Hi k s. rewrite store_item_lookup. case_bool_decide; [intros [= <-]; congruence|apply Ht]. Qed.
Lemma track_ok t op : tracker_ok t → tracker_ok (track t op).
Proof. destruct op as [[now [[[sr sc] ns] svc]] []]; intros Ht; by apply store_item_ok. Qed.
Lemma track_watermark t op k : (watermark t k ≤ watermark (track t op) k)%Z.
Proof.
  destruct op as [[now [[[sr sc] ns] svc]] []]; unfold watermark; cbn [track]; unfold SetConnected, UpdateRevision, RecordError;
    rewrite store_item_lookup; case_bool_decide; subst; cbn; try lia; unfold item_of; destruct (t_status t !! _); cbn; try lia;
    match goal with |- context [(?a <? ?b)%Z] => destruct (Z.ltb_spec a b) end; lia.
Qed.
Lemma List_elem t s : tracker_ok t → s ∈ List t ↔ t_status t !! status_key s = Some s.
Proof.
  intros Ht. unfold List. rewrite merge_sort_Permutation, list_elem_of_fmap. split.
  - intros ([k s']&->&Hin). apply elem_of_map_to_list in Hin. cbn. by rewrite (Ht _ _ Hin).
  - intros Hs. exists (status_key s, s). split; [done|]. by apply elem_of_map_to_list.
Qed.
Lemma NoDup_values t : tracker_ok t → NoDup ((λ p, status_key p.2) <$> map_to_list (t_status t)).
Proof.
  intros Ht. rewrite (list_fmap_ext _ fst); [apply NoDup_fst_map_to_list|].
  intros i [k s] Hi. apply list_elem_of_lookup_2, elem_of_map_to_list in Hi. cbn. by apply Ht.
Qed.
Lemma strict_statuses (l : list Status) :
  StronglySorted status_le l → NoDup (status_key <$> l) → StronglySorted (λ a b, status_less a b = true) l.
Proof.
  induction 1 as [|s l Hl IH Hs]; cbn; intros Hnd; constructor; apply NoDup_cons in Hnd as [Hn Hnd]; [by apply IH|].
  rewrite Forall_forall in *. intros x Hx. destruct (status_less_tricho s x) as [|[Hsame|Hlt]]; [done| |].
  - destruct Hn. apply list_elem_of_fmap. exists x. split; [|done]. unfold status_key.
    destruct Hsame as (->&->&->&->). done.
  - specialize (Hs x Hx). unfold status_le in Hs. congruence.
Qed.

(** C30: After any sequence of operations on a new tracker, [List] reports exactly one status per
    tracked service, in strictly increasing order of (region, cluster, namespace, service), and
    no further operation ever lowers the revision reported as applied. *)
Theorem tracker_correct ops op k :
  let t := fold_left track ops NewTracker in
  StronglySorted (λ a b, status_less a b = true) (List t) ∧
  (∀ s, s ∈ List t ↔ t_status t !! status_key s = Some s) ∧
  length (List t) = size (t_status t) ∧
  (watermark t k ≤ watermark (track t op) k)%Z.
Proof.
  intros t. assert (Ht : tracker_ok t).
  { subst t. assert (H0 : tracker_ok NewTracker) by (intros ?? Hl; cbn in Hl; by rewrite lookup_empty in Hl).
    revert H0. generalize NewTracker. induction ops as [|o ops IH]; intros t0 H0; [done|]. apply IH. by apply track_ok. }
  split_and!; [|by intros; apply List_elem| |apply track_watermark].
  - apply strict_statuses; [apply StronglySorted_merge_sort; apply _|]. unfold List. rewrite merge_sort_Permutation.
    rewrite <- list_fmap_compose. by apply NoDup_values.
  - unfold List. by rewrite merge_sort_Permutation, length_fmap, length_map_to_list.
Qed.
