(* ===== verification/AddressBook.v ===== *)
(** * The address book ([internal/runtime/address_book.go])

    Three maps from node ids to addresses.  [Set] overwrites only the addresses it is given,
    [Delete] removes a node, the snapshots are copies. *)
From Stdlib Require Import Ascii ZArith.
From stdpp Require Import gmap strings list.
From S2P Require Import Prelude GoStrings.

Abbreviation addr_map := (gmap Z str).
Record AddressBook := MkBook { httpByID : addr_map; grpcByID : addr_map; adminByID : addr_map }.
#[export] Instance AddressBook_eq_dec : EqDecision AddressBook.
Proof. solve_decision. Defined.

(** Copying one map into another, in any order of its (distinct) keys. *)
Definition copy_addrs (addrs : addr_map) : addr_map :=
  foldr (λ p copied, <[p.1 := p.2]> copied) ∅ (map_to_list addrs).
Definition NewAddressBook (httpAddrs grpcAddrs adminAddrs : addr_map) : AddressBook :=
  MkBook (copy_addrs httpAddrs) (copy_addrs grpcAddrs) (copy_addrs adminAddrs).

(** An absent key reads as the empty string. *)
Definition addr_of (m : addr_map) (id : Z) : str := default [] (m !! id).
Definition HTTPAddr (b : AddressBook) (id : Z) : str := addr_of (httpByID b) id.
Definition GRPCAddr (b : AddressBook) (id : Z) : str := addr_of (grpcByID b) id.
Definition AdminAddr (b : AddressBook) (id : Z) : str := addr_of (adminByID b) id.

Definition set_addr (id : Z) (addr : str) (m : addr_map) : addr_map :=
  if bool_decide (addr = []) then m else <[id := addr]> m.
Definition Set_ (b : AddressBook) (id : Z) (httpAddr grpcAddr adminAddr : str) : AddressBook :=
  MkBook (set_addr id httpAddr (httpByID b)) (set_addr id grpcAddr (grpcByID b)) (set_addr id adminAddr (adminByID b)).
Definition Delete (b : AddressBook) (id : Z) : AddressBook :=
  MkBook (delete id (httpByID b)) (delete id (grpcByID b)) (delete id (adminByID b)).
Definition SnapshotHTTP (b : AddressBook) : addr_map := copy_addrs (httpByID b).
Definition SnapshotGRPC (b : AddressBook) : addr_map := copy_addrs (grpcByID b).
Definition SnapshotAdmin (b : AddressBook) : addr_map := copy_addrs (adminByID b).

(** ** Lemmas *)
Lemma copy_addrs_id m : copy_addrs m = m.
Proof. apply list_to_map_to_list. Qed.
Lemma addr_of_set id addr m j :
  addr_of (set_addr id addr m) j = if bool_decide (j = id ∧ addr ≠ []) then addr else addr_of m j.
Proof.
  unfold addr_of, set_addr. case_bool_decide as Ha; [subst|]; case_bool_decide as Hj; try naive_solver.
  - destruct Hj as [-> _]. by rewrite lookup_insert_eq.
  - rewrite lookup_insert_ne by naive_solver. done.
Qed.
Lemma addr_of_delete id m j : addr_of (delete id m) j = if bool_decide (j = id) then [] else addr_of m j.
Proof. unfold addr_of. case_bool_decide; subst; [by rewrite lookup_delete_eq|by rewrite lookup_delete_ne]. Qed.
(** No stored address is empty: entries and non-empty reads coincide. *)
Definition solid (m : addr_map) : Prop := map_Forall (λ _ a, a ≠ []) m.
Definition book_solid (b : AddressBook) : Prop := solid (httpByID b) ∧ solid (grpcByID b) ∧ solid (adminByID b).
Lemma set_addr_solid id addr m : solid m → solid (set_addr id addr m).
Proof.
  intros Hm. unfold set_addr. case_bool_decide; [done|]. by apply map_Forall_insert_2.
Qed.
Lemma solid_lookup m id : solid m → m !! id = (if bool_decide (addr_of m id = []) then None else Some (addr_of m id)).
Proof.
  intros Hm. unfold addr_of. destruct (m !! id) as [a|] eqn:E; cbn [default from_option]; [|done].
  case_bool_decide; [|done]. by destruct (Hm _ _ E).
Qed.
Lemma solid_ext m1 m2 : solid m1 → solid m2 → (∀ id, addr_of m1 id = addr_of m2 id) → m1 = m2.
Proof. intros H1 H2 He. apply map_eq. intros id. by rewrite !solid_lookup, He by done. Qed.
