(* ===== verification/Transport.v ===== *)
(** * Node to node transport ([internal/runtime/peer_transport.go], [transport_service.go], [internal/transport/grpc])

    A ready batch is forwarded: raft messages grouped per target, snapshots cut into chunks.
    The receiving side steps the messages into its node and puts the chunks together again.
    gRPC itself is a parameter: what it answers to a call, and how much of a stream arrives. *)
From Stdlib Require Import Ascii ZArith.
From stdpp Require Import gmap strings list.
From S2P Require Import Prelude GoStrings Codec Wal Engine StateMachine Pebble Snapshot Raft RaftNode AddressBook.

(** ** Messages ([types.go]) *)
Record RaftEnvelope := MkEnvelope { env_From : Z; env_To : Z; env_Payload : str }.
Record RaftMessageBatch := MkBatch { b_Messages : list RaftEnvelope }.
Record SnapshotMetadata := MkSnapMeta {
  sm_Term : Z; sm_Index : Z; sm_ConfState : str; sm_Checksum : str; sm_FileSize : Z
}.
Record SnapshotChunk := MkChunk { sc_Metadata : SnapshotMetadata; sc_Data : str; sc_Offset : Z; sc_EOF : bool }.
#[export] Instance RaftEnvelope_eq_dec : EqDecision RaftEnvelope.
Proof. solve_decision. Defined.
#[export] Instance SnapshotMetadata_eq_dec : EqDecision SnapshotMetadata.
Proof. solve_decision. Defined.
#[export] Instance SnapshotChunk_eq_dec : EqDecision SnapshotChunk.
Proof. solve_decision. Defined.
Definition no_snap_meta : SnapshotMetadata := MkSnapMeta 0 0 [] [] 0.

(** The generated message types: the same fields, messages behind pointers. *)
Record pb_RaftEnvelope := PbEnvelope { pe_From : Z; pe_To : Z; pe_Payload : str }.
Record pb_RaftMessageBatch := PbBatch { pb_Messages : list (option pb_RaftEnvelope) }.
Record pb_SnapshotMetadata := PbSnapMeta { pm_Term : Z; pm_Index : Z; pm_ConfState : str; pm_Checksum : str; pm_FileSize : Z }.
Record pb_SnapshotChunk := PbChunk { pc_Metadata : option pb_SnapshotMetadata; pc_Data : str; pc_Offset : Z; pc_Eof : bool }.

Definition toProtoRaftBatch (batch : RaftMessageBatch) : option pb_RaftMessageBatch :=
  Some (PbBatch ((λ m, Some (PbEnvelope (env_From m) (env_To m) (env_Payload m))) <$> b_Messages batch)).
Definition fromProtoRaftBatch (batch : option pb_RaftMessageBatch) : RaftMessageBatch :=
  match batch with
  | None => MkBatch []
  | Some batch => MkBatch (omap (fmap (λ m, MkEnvelope (pe_From m) (pe_To m) (pe_Payload m))) (pb_Messages batch))
  end.
Definition toProtoSnapshotMetadata (meta : SnapshotMetadata) : option pb_SnapshotMetadata :=
  Some (PbSnapMeta (sm_Term meta) (sm_Index meta) (sm_ConfState meta) (sm_Checksum meta) (sm_FileSize meta)).
Definition fromProtoSnapshotMetadata (meta : option pb_SnapshotMetadata) : SnapshotMetadata :=
  match meta with
  | None => no_snap_meta
  | Some m => MkSnapMeta (pm_Term m) (pm_Index m) (pm_ConfState m) (pm_Checksum m) (pm_FileSize m)
  end.
Definition toProtoSnapshotChunk (chunk : SnapshotChunk) : option pb_SnapshotChunk :=
  Some (PbChunk (toProtoSnapshotMetadata (sc_Metadata chunk)) (sc_Data chunk) (sc_Offset chunk) (sc_EOF chunk)).
Definition fromProtoInstallChunk (chunk : option pb_SnapshotChunk) : SnapshotChunk :=
  match chunk with
  | None => MkChunk no_snap_meta [] 0 false
  | Some c => MkChunk (fromProtoSnapshotMetadata (pc_Metadata c)) (pc_Data c) (pc_Offset c) (pc_Eof c)
  end.
Definition fromProtoDownloadChunk (chunk : option pb_SnapshotChunk) : SnapshotChunk :=
  match chunk with
  | None => MkChunk no_snap_meta [] 0 false
  | Some c => MkChunk (fromProtoSnapshotMetadata (pc_Metadata c)) (pc_Data c) (pc_Offset c) (pc_Eof c)
  end.

(** ** Cutting a snapshot *)
Definition DefaultSnapshotChunk : Z := 64 * 1024.
Fixpoint split_loop (fuel : nat) (meta : SnapshotMetadata) (data : str) (chunkSize offset : nat) : list SnapshotChunk :=
  match fuel with
  | O => []
  | S fuel =>
      if (offset <? length data)%nat then
        let end_ := if (length data <? offset + chunkSize)%nat then length data else (offset + chunkSize)%nat in
        MkChunk meta (take (end_ - offset) (drop offset data)) (Z.of_nat offset) (end_ =? length data)%nat
          :: split_loop fuel meta data chunkSize (offset + chunkSize)
      else []
  end.
Definition splitSnapshotChunks (meta : SnapshotMetadata) (data : str) (chunkSize : Z) : list SnapshotChunk :=
  let chunkSize := if (chunkSize <=? 0)%Z then DefaultSnapshotChunk else chunkSize in
  if bool_decide (data = []) then [MkChunk meta [] 0 true]
  else split_loop (length data) meta data (Z.to_nat chunkSize) 0.
Definition snapshotKey (term index : Z) : str := FormatUint term ++ lit "-" ++ FormatUint index.

(** ** The receiving service ([transport_service.go])

    Against an interface to the local node: stepping a message and installing a snapshot. *)
Class TransportNode (Nd Msg E : Type) := {
  tn_Unmarshal : str → option Msg;
  tn_Step : Msg → ST Nd E unit;
  tn_InstallSnapshot : Metadata → str → ST Nd E unit
}.
Inductive TransportErr (E : Type) :=
  | ErrUnmarshalMessage | ErrOffset (got want : Z) | ErrStream
  | ErrNode (e : E) | ErrSnapshot (e : SnapErr) | ErrSnapshotNotFound (term index : Z).
Arguments ErrUnmarshalMessage {E}. Arguments ErrOffset {E}. Arguments ErrStream {E}. Arguments ErrNode {E}.
Arguments ErrSnapshot {E}. Arguments ErrSnapshotNotFound {E}.
Record snapshotInstallSession := MkSession { ses_meta : SnapshotMetadata; ses_buf : str }.
Record InternalTransportService (Nd : Type) := MkService {
  ts_node : Nd; ts_install : gmap str snapshotInstallSession
}.
Arguments MkService {Nd}. Arguments ts_node {Nd}. Arguments ts_install {Nd}.
Definition NewInternalTransportService {Nd} (node : Nd) : InternalTransportService Nd := MkService node ∅.

Section service.
Context `{TransportNode Nd Msg E}.
Abbreviation TS := (InternalTransportService Nd).
Abbreviation T := (ST TS (TransportErr E)).
Definition on_node {A} (m : ST Nd E A) : T A := λ s,
  let '(nd, r) := m (ts_node s) in (MkService nd (ts_install s), map_err ErrNode r).

Definition SendRaftMessages (batch : RaftMessageBatch) : T unit :=
  st_iter (λ envelope,
    match tn_Unmarshal (env_Payload envelope) with
    | None => st_fail ErrUnmarshalMessage
    | Some message => on_node (tn_Step message)
    end) (b_Messages batch).

Definition store_meta (m : SnapshotMetadata) : Metadata :=
  MkMetadata (sm_Term m) (sm_Index m) (sm_ConfState m) (sm_Checksum m) (sm_FileSize m).
(** The session of a chunk is made before its offset is checked, and kept when the check fails. *)
Definition InstallSnapshotChunk (chunk : SnapshotChunk) : T unit := λ s,
  let key := snapshotKey (sm_Term (sc_Metadata chunk)) (sm_Index (sc_Metadata chunk)) in
  let session := default (MkSession (sc_Metadata chunk) []) (ts_install s !! key) in
  let s := MkService (ts_node s) (<[key := session]> (ts_install s)) in
  let want := Z.of_nat (length (ses_buf session)) in
  if negb (sc_Offset chunk =? want)%Z then (s, Err (ErrOffset (sc_Offset chunk) want))
  else
    let session := MkSession (ses_meta session) (ses_buf session ++ sc_Data chunk) in
    if negb (sc_EOF chunk) then (MkService (ts_node s) (<[key := session]> (ts_install s)), Ok tt)
    else on_node (tn_InstallSnapshot (store_meta (sc_Metadata chunk)) (ses_buf session))
           (MkService (ts_node s) (delete key (ts_install s))).

(** [Server.Install]: the chunks that arrive, and whether the stream then ends cleanly; the
    answer is the term and the index of the installed snapshot. *)
Fixpoint Install (stream : list (option pb_SnapshotChunk)) (clean : bool) : T (Z * Z) :=
  match stream with
  | [] => if clean then mret (0%Z, 0%Z) else st_fail ErrStream
  | chunk :: stream =>
      InstallSnapshotChunk (fromProtoInstallChunk chunk);;
      if sc_EOF (fromProtoInstallChunk chunk) then
        let meta := sc_Metadata (fromProtoInstallChunk chunk) in mret (sm_Term meta, sm_Index meta)
      else Install stream clean
  end.
(** [Server.Send] *)
Definition Send (batch : option pb_RaftMessageBatch) : T unit := SendRaftMessages (fromProtoRaftBatch batch).
End service.

(** ** Downloading *)
Section download.
Context `{Json Metadata} {E : Type}.
Definition transfer_meta (m : Metadata) : SnapshotMetadata :=
  MkSnapMeta (md_Term m) (md_Index m) (md_ConfState m) (md_Checksum m) (md_FileSize m).
Definition DownloadSnapshot (store : FileStore) (term index : Z) : result (TransportErr E) (list SnapshotChunk) :=
  match (OpenLatest store).2 with
  | Err e => Err (ErrSnapshot e)
  | Ok (meta, data) =>
      if negb (term =? 0)%Z && negb (index =? 0)%Z && (negb (md_Term meta =? term)%Z || negb (md_Index meta =? index)%Z)
      then Err (ErrSnapshotNotFound term index)
      else Ok (splitSnapshotChunks (transfer_meta meta) data DefaultSnapshotChunk)
  end.
(** [Server.Download]: what is written to the stream. *)
Definition Download (store : FileStore) (term index : Z) : result (TransportErr E) (list (option pb_SnapshotChunk)) :=
  match DownloadSnapshot store term index with
  | Err e => Err e
  | Ok chunks => Ok (map (λ c, Some (PbChunk (toProtoSnapshotMetadata (sc_Metadata c)) (sc_Data c) (sc_Offset c) (sc_EOF c))) chunks)
  end.
End download.
(** [PeerClient.DownloadSnapshot]: receive until the last chunk or the end of the stream. *)
Fixpoint client_download (stream : list (option pb_SnapshotChunk)) : list SnapshotChunk :=
  match stream with
  | [] => []
  | chunk :: stream =>
      let c := fromProtoDownloadChunk chunk in
      if sc_EOF c then [c] else c :: client_download stream
  end.

(** ** The sending side ([peer_transport.go])

    A client is its target address.  [dial] says whether a client can be made; [rpc] and
    [close] what gRPC answers, given the calls made so far. *)
Inductive Rpc := RpcSend (target : str) (batch : option pb_RaftMessageBatch)
  | RpcInstall (target : str) (stream : list (option pb_SnapshotChunk)).
Inductive ForwardErr (E : Type) :=
  | ErrNoAddress (node : Z) | ErrDial (e : E) | ErrRpc (e : E) | ErrEmptySnapshot (node : Z) | ErrClose (node : Z) (e : E).
Arguments ErrNoAddress {E}. Arguments ErrDial {E}. Arguments ErrRpc {E}. Arguments ErrEmptySnapshot {E}. Arguments ErrClose {E}.
(** [pt_calls] is a history variable: the calls made. *)
Record PeerTransport := MkTransport {
  pt_selfID : Z; pt_book : AddressBook; pt_chunkSize : Z; pt_clients : gmap Z str; pt_calls : list Rpc
}.
Definition NewPeerTransport (selfID : Z) (book : AddressBook) (chunkSize : Z) : PeerTransport :=
  MkTransport selfID book (if (chunkSize <=? 0)%Z then DefaultSnapshotChunk else chunkSize) ∅ [].

Section sending.
Context `{Raft, GoRange} {E : Type}.
(** [message.Raw.Type == raftpb.MsgSnap] and [message.Raw.Snapshot]. *)
Context (is_MsgSnap : Message → bool) (msg_Snapshot : Message → RaftSnapshot).
Context (dial : str → option E) (rpc : list Rpc → Rpc → option E) (close : str → option E).
Abbreviation P := (ST PeerTransport (ForwardErr E)).
Definition set_clients (clients : gmap Z str) (t : PeerTransport) : PeerTransport :=
  MkTransport (pt_selfID t) (pt_book t) (pt_chunkSize t) clients (pt_calls t).
Definition set_book (book : AddressBook) (t : PeerTransport) : PeerTransport :=
  MkTransport (pt_selfID t) book (pt_chunkSize t) (pt_clients t) (pt_calls t).
Definition client (targetID : Z) : P str := λ t,
  match pt_clients t !! targetID with
  | Some c => (t, Ok c)
  | None =>
      let addr := GRPCAddr (pt_book t) targetID in
      if bool_decide (addr = []) then (t, Err (ErrNoAddress targetID))
      else match dial addr with
      | Some e => (t, Err (ErrDial e))
      | None => (set_clients (<[targetID := addr]> (pt_clients t)) t, Ok addr)
      end
  end.
Definition call_rpc (call : Rpc) : P unit := λ t,
  (MkTransport (pt_selfID t) (pt_book t) (pt_chunkSize t) (pt_clients t) (pt_calls t ++ [call]),
   match rpc (pt_calls t) call with Some e => Err (ErrRpc e) | None => Ok tt end).
Definition client_Send (c : str) (batch : RaftMessageBatch) : P unit := call_rpc (RpcSend c (toProtoRaftBatch batch)).
Definition client_InstallSnapshot (c : str) (chunks : list SnapshotChunk) : P unit :=
  call_rpc (RpcInstall c (toProtoSnapshotChunk <$> chunks)).
Definition marshalConfState (confState : ConfState) : str := default [] (conf_Marshal confState).
Definition sendSnapshot (message : Message) : P unit :=
  t ← st_get;
  if (msg_To message =? 0)%Z || (msg_To message =? pt_selfID t)%Z then mret tt
  else
    c ← client (msg_To message);
    let snap := msg_Snapshot message in
    if bool_decide (rs_Data snap = []) then st_fail (ErrEmptySnapshot (msg_To message))
    else client_InstallSnapshot c (splitSnapshotChunks
           (MkSnapMeta (rs_Term snap) (rs_Index snap) (marshalConfState (rs_ConfState snap)) []
              (Z.of_nat (length (rs_Data snap)))) (rs_Data snap) (pt_chunkSize t)).

(** [errors.Join]: the errors collected so far. *)
Definition joined (m : P unit) (errs : list (ForwardErr E)) : P (list (ForwardErr E)) := λ t,
  let '(t, r) := m t in (t, Ok (match r with Err e => errs ++ [e] | Ok _ => errs end)).
Definition group_message (self : Z) (grouped : gmap Z (list RaftEnvelope)) (message : OutboundMessage) : gmap Z (list RaftEnvelope) :=
  if (om_To message =? 0)%Z || (om_To message =? self)%Z || is_MsgSnap (om_Raw message) then grouped
  else <[om_To message := default [] (grouped !! om_To message)
           ++ [MkEnvelope (om_From message) (om_To message) (om_Payload message)]]> grouped.
(** The snapshots of the first loop. *)
Definition send_snapshots (self : Z) (messages : list OutboundMessage) (errs : list (ForwardErr E)) : P (list (ForwardErr E)) :=
  st_fold (λ errs message,
    if (om_To message =? 0)%Z || (om_To message =? self)%Z then mret errs
    else if is_MsgSnap (om_Raw message) then joined (sendSnapshot (om_Raw message)) errs
    else mret errs) errs messages.
Definition send_group (errs : list (ForwardErr E)) (group : Z * list RaftEnvelope) : P (list (ForwardErr E)) :=
  joined (c ← client group.1; client_Send c (MkBatch group.2)) errs.
(** The batches go out in the order of the map iteration. *)
Definition Forward (ready : Ready) : P (list (ForwardErr E)) :=
  t ← st_get;
  errs ← send_snapshots (pt_selfID t) (r_Messages ready) [];
  st_fold send_group errs (range (fold_left (group_message (pt_selfID t)) (r_Messages ready) ∅)).

Definition drop_client (nodeID : Z) : P unit := λ t,
  match pt_clients t !! nodeID with
  | None => (t, Ok tt)
  | Some c => match close c with
              | Some e => (t, Err (ErrClose nodeID e))
              | None => (set_clients (delete nodeID (pt_clients t)) t, Ok tt)
              end
  end.
Definition UpsertPeer (nodeID : Z) (httpAddr grpcAddr adminAddr : str) : P unit :=
  st_modify (λ t, set_book (Set_ (pt_book t) nodeID httpAddr grpcAddr adminAddr) t);; drop_client nodeID.
Definition RemovePeer (nodeID : Z) : P unit :=
  st_modify (λ t, set_book (Delete (pt_book t) nodeID) t);; drop_client nodeID.
(** [Close]: every client is closed, the errors are joined, the table is emptied. *)
Definition Close (t : PeerTransport) : PeerTransport * list (ForwardErr E) :=
  (set_clients ∅ t,
   omap (λ p, ErrClose p.1 <$> close p.2) (map_to_list (pt_clients t))).
End sending.

(** ** A transfer *)
Lemma toProto_chunk c : fromProtoInstallChunk (toProtoSnapshotChunk c) = c.
Proof. by destruct c as [[] ? ? ?]. Qed.
Lemma toProto_batch b : fromProtoRaftBatch (toProtoRaftBatch b) = b.
Proof.
  destruct b as [ms]. cbn. f_equal. induction ms as [|[f t p] ms IH]; [done|].
  cbn [fmap list_fmap omap list_omap]. cbn. by rewrite IH.
Qed.
Definition effective_size (chunkSize : Z) : nat := Z.to_nat (if (chunkSize <=? 0)%Z then DefaultSnapshotChunk else chunkSize).
Lemma effective_size_pos z : 0 < effective_size z.
Proof. unfold effective_size. destruct (Z.leb_spec z 0); [unfold DefaultSnapshotChunk|]; lia. Qed.
(** The chunk that starts at [off]. *)
Definition chunk_at (meta : SnapshotMetadata) (data : str) (size off : nat) : SnapshotChunk :=
  MkChunk meta (take size (drop off data)) (Z.of_nat off) (length data <=? off + size)%nat.
Lemma split_loop_cons n meta data size off : off < length data → 0 < size →
  split_loop (S n) meta data size off =
    chunk_at meta data size off :: split_loop n meta data size (off + size).
Proof.
  intros Ho Hs. cbn [split_loop]. destruct (Nat.ltb_spec off (length data)); [|lia]. f_equal. unfold chunk_at.
  destruct (Nat.ltb_spec (length data) (off + size)).
  - f_equal; [|by rewrite Nat.eqb_refl; symmetry; apply Nat.leb_le; lia].
    rewrite !take_ge; [done| |]; rewrite length_drop; lia.
  - f_equal; [f_equal; lia|].
    destruct (Nat.eqb_spec (off + size) (length data)); symmetry; [apply Nat.leb_le|apply Nat.leb_gt]; lia.
Qed.
Lemma split_loop_nil n meta data size off : length data ≤ off → split_loop n meta data size off = [].
Proof. intros Ho. destruct n; [done|]. cbn [split_loop]. by destruct (Nat.ltb_spec off (length data)); [lia|]. Qed.
(** The pieces cover the data, none is longer than asked for. *)
Lemma split_loop_pieces n meta data size off : 0 < size → length data - off ≤ n →
  concat (sc_Data <$> split_loop n meta data size off) = drop off data ∧
  Forall (λ c, length (sc_Data c) ≤ size ∧ sc_Metadata c = meta) (split_loop n meta data size off).
Proof.
  intros Hs. revert off; induction n as [|n IH]; intros off Hn.
  { rewrite split_loop_nil by lia. cbn. split; [|constructor]. by rewrite drop_ge by lia. }
  destruct (decide (off < length data)) as [Ho|Ho].
  - rewrite split_loop_cons by done. destruct (IH (off + size)) as [Hc Hf]; [lia|]. cbn [fmap list_fmap concat]. split.
    + cbn [sc_Data chunk_at]. change (list_fmap ?A ?B) with (@fmap list _ A B) in *. rewrite Hc, <- drop_drop. apply take_drop.
    + constructor; [|done]. cbn. split; [|done]. rewrite length_take. lia.
  - rewrite split_loop_nil by lia. cbn. split; [|constructor]. by rewrite drop_ge by lia.
Qed.

Section transfer.
Context `{TransportNode Nd Msg E}.
Abbreviation TS := (InternalTransportService Nd).
Definition key_of (meta : SnapshotMetadata) : str := snapshotKey (sm_Term meta) (sm_Index meta).
Definition session_buf (s : TS) (k : str) : str := from_option ses_buf [] (ts_install s !! k).
Lemma InstallSnapshotChunk_at (s : TS) meta data size off :
  session_buf s (key_of meta) = take off data → off ≤ length data →
  InstallSnapshotChunk (chunk_at meta data size off) s =
    if (length data <=? off + size)%nat
    then on_node (tn_InstallSnapshot (store_meta meta) data) (MkService (ts_node s) (delete (key_of meta) (ts_install s)))
    else (MkService (ts_node s) (<[key_of meta := MkSession (from_option ses_meta meta (ts_install s !! key_of meta))
                                     (take (off + size) data)]> (ts_install s)), Ok tt).
Proof.
  intros Hb Ho. unfold InstallSnapshotChunk. cbn [chunk_at sc_Metadata sc_Data sc_Offset sc_EOF]. fold (key_of meta).
  set (ses := default (MkSession meta []) (ts_install s !! key_of meta)).
  assert (Hses : ses_buf ses = take off data) by (rewrite <- Hb; unfold ses, session_buf; by destruct (ts_install s !! _)).
  assert (Hmeta : ses_meta ses = from_option ses_meta meta (ts_install s !! key_of meta)) by (unfold ses; by destruct (ts_install s !! _)).
  rewrite Hses, Hmeta. replace (Z.of_nat off =? Z.of_nat (length (take off data)))%Z with true
    by (symmetry; apply Z.eqb_eq; rewrite length_take; lia). cbn [negb].
  destruct (Nat.leb_spec (length data) (off + size)); cbn [negb ses_buf ts_install ts_node].
  - rewrite (take_ge (drop off data)) by (rewrite length_drop; lia). rewrite take_drop, delete_insert_eq. done.
  - rewrite insert_insert_eq. by rewrite <- take_take_drop.
Qed.
Lemma Install_cons c stream clean (s : TS) :
  Install (toProtoSnapshotChunk c :: stream) clean s =
    match InstallSnapshotChunk c s with
    | (s', Err e) => (s', Err e)
    | (s', Ok _) => if sc_EOF c then (s', Ok (sm_Term (sc_Metadata c), sm_Index (sc_Metadata c))) else Install stream clean s'
    end.
Proof.
  cbn [Install]. unfold mbind, ST_bind. rewrite toProto_chunk. destruct (InstallSnapshotChunk c s) as [s' []]; [|done].
  by destruct (sc_EOF c).
Qed.
Definition installed (meta : SnapshotMetadata) (data : str) (s : TS) : TS * result (TransportErr E) (Z * Z) :=
  match on_node (tn_InstallSnapshot (store_meta meta) data) (MkService (ts_node s) (delete (key_of meta) (ts_install s))) with
  | (s', Err e) => (s', Err e)
  | (s', Ok _) => (s', Ok (sm_Term meta, sm_Index meta))
  end.
Lemma Install_rest n meta data size off clean (s : TS) :
  session_buf s (key_of meta) = take off data → off < length data → 0 < size → length data - off ≤ n →
  Install (toProtoSnapshotChunk <$> split_loop n meta data size off) clean s = installed meta data s.
Proof.
  revert off s; induction n as [|n IH]; intros off s Hb Ho Hs Hn; [lia|].
  rewrite split_loop_cons by done. cbn [fmap list_fmap]. rewrite Install_cons, (InstallSnapshotChunk_at _ _ data) by (done || lia).
  cbn [chunk_at sc_EOF sc_Metadata]. destruct (Nat.leb_spec (length data) (off + size)); [done|].
  change (list_fmap ?A ?B) with (@fmap list _ A B). rewrite (IH (off + size)); [| |lia..].
  - unfold installed. cbn [ts_node ts_install]. by rewrite delete_insert_eq.
  - unfold session_buf. cbn [ts_install]. by rewrite lookup_insert_eq.
Qed.
(** What a broken stream leaves: its bytes in the session. *)
Lemma Install_prefix k n meta data size off clean (s : TS) :
  session_buf s (key_of meta) = take off data → 0 < size → 0 < k → off + k * size < length data → length data - off ≤ n →
  ∃ m, Install (toProtoSnapshotChunk <$> take k (split_loop n meta data size off)) clean s =
    (MkService (ts_node s) (<[key_of meta := MkSession m (take (off + k * size) data)]> (ts_install s)),
     if clean then Ok (0%Z, 0%Z) else Err ErrStream).
Proof.
  revert n off s; induction k as [|k IH]; intros n off s Hb Hs Hk Hl Hn; [lia|].
  destruct n as [|n]; [lia|]. rewrite split_loop_cons by lia. cbn [take fmap list_fmap].
  rewrite Install_cons, (InstallSnapshotChunk_at _ _ data) by (done || lia). cbn [chunk_at sc_EOF].
  destruct (Nat.leb_spec (length data) (off + size)); [lia|]. destruct k as [|k].
  - eexists. cbn [take fmap list_fmap Install]. replace (off + 1 * size) with (off + size) by lia. by destruct clean.
  - set (s' := MkService _ _). change (list_fmap ?A ?B) with (@fmap list _ A B).
    destruct (IH n (off + size) s') as [m ->]; [|lia..|].
    + unfold session_buf, s'. cbn [ts_install]. by rewrite lookup_insert_eq.
    + exists m. unfold s'. cbn [ts_node ts_install]. rewrite insert_insert_eq.
      by replace (off + size + S k * size) with (off + S (S k) * size) by lia.
Qed.

(** The whole stream. *)
Lemma Install_all meta data chunkSize clean (s : TS) : ts_install s !! key_of meta = None →
  Install (toProtoSnapshotChunk <$> splitSnapshotChunks meta data chunkSize) clean s =
    (on_node (tn_InstallSnapshot (store_meta meta) data);; mret (sm_Term meta, sm_Index meta)) s.
Proof.
  intros Hk.
  assert (Hin : installed meta data s = (on_node (tn_InstallSnapshot (store_meta meta) data);; mret (sm_Term meta, sm_Index meta)) s).
  { unfold installed, mbind, ST_bind, mret, ST_ret. rewrite delete_id by done. destruct s as [nd ins]. cbn [ts_node ts_install].
    by destruct (on_node _ _) as [? []]. }
  rewrite <- Hin. unfold splitSnapshotChunks. fold (effective_size chunkSize). pose proof (effective_size_pos chunkSize).
  assert (Hb : session_buf s (key_of meta) = take 0 data) by (unfold session_buf; by rewrite Hk).
  case_bool_decide as Hd; [|by apply Install_rest; [|destruct data; [|cbn; lia]..|lia]].
  subst data. cbn [fmap list_fmap]. change (MkChunk meta [] 0 true) with (chunk_at meta [] 1 0).
  by rewrite Install_cons, (InstallSnapshotChunk_at _ _ []).
Qed.

(** C21: A snapshot cut into chunks, sent over the stream and put together again is installed once,
    with exactly its bytes and its metadata, whatever the chunk size: no chunk exceeds that size,
    and the session of the transfer is gone afterwards. *)
Theorem transfer_roundtrip meta data chunkSize clean (s : TS) :
  ts_install s !! key_of meta = None →
  let chunks := splitSnapshotChunks meta data chunkSize in
  concat (sc_Data <$> chunks) = data ∧
  Forall (λ c, length (sc_Data c) ≤ effective_size chunkSize) chunks ∧
  Install (toProtoSnapshotChunk <$> chunks) clean s =
    (on_node (tn_InstallSnapshot (store_meta meta) data);; mret (sm_Term meta, sm_Index meta)) s.
Proof.
  intros Hk chunks. subst chunks. rewrite (and_assoc (_ = _)). split; [|by apply Install_all].
  unfold splitSnapshotChunks. fold (effective_size chunkSize). pose proof (effective_size_pos chunkSize).
  case_bool_decide; [subst data; split; [done|by constructor; [cbn; lia|]]|].
  destruct (split_loop_pieces (length data) meta data (effective_size chunkSize) 0) as [Hc Hf]; [done|lia|].
  split; [done|by eapply Forall_impl; [exact Hf|]; cbn; intros c []].
Qed.

Lemma first_chunk meta data chunkSize : ∃ c cs, splitSnapshotChunks meta data chunkSize = c :: cs ∧ sc_Offset c = 0%Z ∧ sc_Metadata c = meta.
Proof.
  unfold splitSnapshotChunks. fold (effective_size chunkSize). case_bool_decide; [by eexists _, _|].
  pose proof (effective_size_pos chunkSize). destruct data as [|b data]; [done|]. cbn [length].
  rewrite split_loop_cons by (cbn; lia). by eexists _, _.
Qed.
(** A transfer that breaks off after some chunks leaves its session behind: every later
    transfer of the same snapshot, which starts at offset zero, is refused, and leaves the
    service as it was. *)
Theorem interrupted_transfer meta data chunkSize k clean (s : TS) :
  ts_install s !! key_of meta = None → 0 < k → k * effective_size chunkSize < length data →
  let s' := (Install (toProtoSnapshotChunk <$> take k (splitSnapshotChunks meta data chunkSize)) clean s).1 in
  ts_node s' = ts_node s ∧
  ∀ meta' data' chunkSize' clean', key_of meta' = key_of meta →
    Install (toProtoSnapshotChunk <$> splitSnapshotChunks meta' data' chunkSize') clean' s' =
      (s', Err (ErrOffset 0 (Z.of_nat (k * effective_size chunkSize)))).
Proof.
  intros Hk Hpos Hlen s'. pose proof (effective_size_pos chunkSize).
  destruct (Install_prefix k (length data) meta data (effective_size chunkSize) 0 clean s) as [m Hs']; [|lia..|].
  { unfold session_buf. by rewrite Hk. }
  assert (Hs : s' = MkService (ts_node s) (<[key_of meta := MkSession m (take (k * effective_size chunkSize) data)]> (ts_install s))).
  { subst s'. unfold splitSnapshotChunks. fold (effective_size chunkSize).
    rewrite bool_decide_false by (destruct data; cbn in *; [lia|done]). by rewrite Hs'. }
  clearbody s'. subst s'. split; [done|]. intros meta' data' chunkSize' clean' Hkey.
  destruct (first_chunk meta' data' chunkSize') as (c&cs&->&Ho&Hm). cbn [fmap list_fmap]. rewrite Install_cons.
  unfold InstallSnapshotChunk. rewrite Hm. fold (key_of meta'). rewrite Hkey. cbn [ts_install ts_node].
  rewrite lookup_insert_eq, Ho. change (default ?a (Some ?b)) with b. cbn [ses_buf].
  rewrite (length_take data), Nat.min_l by lia.
  destruct (Z.eqb_spec 0 (Z.of_nat (k * effective_size chunkSize))); [lia|]. cbn [negb]. by rewrite insert_insert_eq.
Qed.
End transfer.

(** ** Downloads *)
Definition download_chunk (c : SnapshotChunk) : option pb_SnapshotChunk :=
  Some (PbChunk (toProtoSnapshotMetadata (sc_Metadata c)) (sc_Data c) (sc_Offset c) (sc_EOF c)).
Lemma download_chunk_back c : fromProtoDownloadChunk (download_chunk c) = c.
Proof. by destruct c as [[] ? ? ?]. Qed.
Lemma client_download_loop n meta data size off : 0 < size →
  client_download (map download_chunk (split_loop n meta data size off)) = split_loop n meta data size off.
Proof.
  intros Hs. revert off; induction n as [|n IH]; intros off; [done|]. destruct (decide (off < length data)).
  - rewrite split_loop_cons by done. cbn [map client_download]. rewrite download_chunk_back. cbn [chunk_at sc_EOF].
    destruct (Nat.leb_spec (length data) (off + size)); [by rewrite split_loop_nil by lia|by rewrite IH].
  - by rewrite split_loop_nil by lia.
Qed.
(** What the client collects is the snapshot of the store. *)
Theorem download_roundtrip `{Json Metadata} {E} store term index stream meta data :
  (OpenLatest store).2 = Ok (meta, data) → Download (E:=E) store term index = Ok stream →
  concat (sc_Data <$> client_download stream) = data ∧
  Forall (λ c, sc_Metadata c = transfer_meta meta) (client_download stream).
Proof.
  intros Hopen. unfold Download, DownloadSnapshot. rewrite Hopen.
  destruct (_ && _); [discriminate|]. intros [= <-]. change (λ c, Some _) with download_chunk.
  unfold splitSnapshotChunks. fold (effective_size DefaultSnapshotChunk).
  pose proof (effective_size_pos DefaultSnapshotChunk). case_bool_decide.
  - subst. cbn [map client_download]. rewrite download_chunk_back. split; [done|by constructor].
  - rewrite client_download_loop by done.
    destruct (split_loop_pieces (length data) (transfer_meta meta) data (effective_size DefaultSnapshotChunk) 0) as [Hc Hf];
      [done|lia|]. split; [done|]. by eapply Forall_impl; [exact Hf|]; cbn; intros c [].
Qed.

(** ** Forwarding *)
Section forwarding.
Context `{Raft, GoRange} {E : Type}.
Context (is_MsgSnap : Message → bool) (msg_Snapshot : Message → RaftSnapshot).
Context (dial : str → option E) (rpc : list Rpc → Rpc → option E).
(** The messages a ready batch holds for node [j], and their envelopes. *)
Definition messages_for (self j : Z) (messages : list OutboundMessage) : list OutboundMessage :=
  List.filter (λ m, (om_To m =? j)%Z && negb ((om_To m =? 0)%Z || (om_To m =? self)%Z || is_MsgSnap (om_Raw m))) messages.
Definition envelope (m : OutboundMessage) : RaftEnvelope := MkEnvelope (om_From m) (om_To m) (om_Payload m).
(** Where a peer is reached, if it is. *)
Definition peer_addr (t : PeerTransport) (j : Z) : option str :=
  match pt_clients t !! j with
  | Some c => Some c
  | None => let addr := GRPCAddr (pt_book t) j in
            if bool_decide (addr = []) then None else match dial addr with Some _ => None | None => Some addr end
  end.
Definition send_of (t : PeerTransport) (group : Z * list RaftEnvelope) : list Rpc :=
  match peer_addr t group.1 with Some c => [RpcSend c (toProtoRaftBatch (MkBatch group.2))] | None => [] end.
Definition same_peers (t t' : PeerTransport) : Prop :=
  pt_selfID t' = pt_selfID t ∧ pt_chunkSize t' = pt_chunkSize t ∧ ∀ j, peer_addr t' j = peer_addr t j.
(** The snapshots of a batch that go out, with the address of their peer: those of the snapshot messages
    that name another node, when that one is reachable and the snapshot is not empty. *)
Definition snapshot_out (t : PeerTransport) (m : OutboundMessage) : option (str * RaftSnapshot) :=
  let snap := msg_Snapshot (om_Raw m) in
  if (om_To m =? 0)%Z || (om_To m =? pt_selfID t)%Z || negb (is_MsgSnap (om_Raw m)) then None
  else if (msg_To (om_Raw m) =? 0)%Z || (msg_To (om_Raw m) =? pt_selfID t)%Z || bool_decide (rs_Data snap = []) then None
  else c ← peer_addr t (msg_To (om_Raw m)); Some (c, snap).
(** What the peer is told about a snapshot. *)
Definition snapshot_meta (snap : RaftSnapshot) : SnapshotMetadata :=
  MkSnapMeta (rs_Term snap) (rs_Index snap) (marshalConfState (rs_ConfState snap)) [] (Z.of_nat (length (rs_Data snap))).
(** A call to [target] whose stream, read by any receiving service without an open session for it,
    installs this snapshot: its metadata and all of its bytes, once. *)
Definition installs `{TransportNode Nd Msg E'} (out : str * RaftSnapshot) (call : Rpc) : Prop := ∃ stream,
  call = RpcInstall out.1 stream ∧
  ∀ clean (s : InternalTransportService Nd), ts_install s !! key_of (snapshot_meta out.2) = None →
    Install stream clean s =
      (on_node (tn_InstallSnapshot (store_meta (snapshot_meta out.2)) (rs_Data out.2));; mret (rs_Term out.2, rs_Index out.2)) s.

Lemma group_message_lookup self messages grouped j :
  fold_left (group_message is_MsgSnap self) messages grouped !! j =
    match messages_for self j messages with
    | [] => grouped !! j
    | ms => Some (default [] (grouped !! j) ++ (envelope <$> ms))
    end.
Proof.
  revert grouped; induction messages as [|m messages IH]; intros grouped; [done|]. cbn [fold_left messages_for List.filter].
  rewrite IH. unfold group_message. fold (messages_for self j messages).
  destruct ((om_To m =? 0)%Z || _ || _) eqn:Hskip; cbn [negb]; [by rewrite andb_false_r|]. rewrite andb_true_r.
  destruct (Z.eqb_spec (om_To m) j) as [Hj|Hne].
  - subst j. rewrite lookup_insert_eq. change (default ?a (Some ?b)) with b.
    destruct (messages_for self (om_To m) messages) as [|x xs]; [done|]. by rewrite <- app_assoc.
  - by rewrite lookup_insert_ne by done.
Qed.
#[local] Instance same_peers_trans : Transitive same_peers.
Proof. intros t1 t2 t3 (?&?&?) (?&?&?). split_and!; [congruence..|]. intros j. congruence. Qed.
Lemma client_spec (t : PeerTransport) j : ∃ t' e, same_peers t t' ∧ pt_calls t' = pt_calls t ∧
  client dial j t = (t', match peer_addr t j with Some c => Ok c | None => Err e end).
Proof.
  assert (Hself : same_peers t t) by done. unfold client. destruct (peer_addr t j) as [c|] eqn:Hp; unfold peer_addr in Hp.
  - destruct (pt_clients t !! j) as [c'|] eqn:Hc; [injection Hp as ->; by exists t, (ErrNoAddress j)|]. cbn zeta in *.
    destruct (bool_decide _) eqn:Ha; [done|]. destruct (dial _) as [e|] eqn:Hd; [done|]. injection Hp as <-.
    eexists (set_clients (<[j:=GRPCAddr (pt_book t) j]> (pt_clients t)) t), (ErrNoAddress j). split; [|by split]. split; [done|split; [done|]].
    intros i. unfold peer_addr. cbn [set_clients pt_clients pt_book]. destruct (decide (i = j)) as [->|Hne].
    + rewrite lookup_insert_eq, Hc. cbn zeta. by rewrite Ha, Hd.
    + by rewrite lookup_insert_ne.
  - destruct (pt_clients t !! j) as [c'|] eqn:Hc; [done|]. cbn zeta in *.
    destruct (bool_decide _) eqn:Ha; [by eexists t, _|]. destruct (dial _) as [e|] eqn:Hd; [by eexists t, _|done].
Qed.
Lemma call_rpc_spec call (t : PeerTransport) : ∃ t' r, same_peers t t' ∧ call_rpc rpc call t = (t', r) ∧
  pt_calls t' = pt_calls t ++ [call].
Proof. eexists _, _. split; [|done]. by split_and!. Qed.
Lemma send_group_spec errs group (t : PeerTransport) : ∃ t' errs', same_peers t t' ∧
  send_group dial rpc errs group t = (t', Ok errs') ∧ pt_calls t' = pt_calls t ++ send_of t group.
Proof.
  destruct (client_spec t group.1) as (t1&e1&Hp1&Hc1&Hcl). unfold send_group, joined, mbind, ST_bind, send_of. rewrite Hcl.
  destruct (peer_addr t group.1) as [c|].
  - unfold client_Send. destruct (call_rpc_spec (RpcSend c (toProtoRaftBatch (MkBatch group.2))) t1) as (t2&r&Hp2&->&Hc2).
    eexists t2, _. split; [by etrans|split; [done|by rewrite Hc2, Hc1]].
  - eexists t1, _. split; [done|split; [done|]]. by rewrite Hc1, app_nil_r.
Qed.
Lemma send_of_same t t' group : same_peers t t' → send_of t' group = send_of t group.
Proof. intros (_&_&Hp). unfold send_of. by rewrite Hp. Qed.
Lemma snapshot_out_same t t' m : same_peers t t' → snapshot_out t' m = snapshot_out t m.
Proof. intros (Hs&_&Hp). unfold snapshot_out. by rewrite Hs, Hp. Qed.
Lemma send_groups_spec groups errs (t : PeerTransport) : ∃ t' errs',
  st_fold (send_group dial rpc) errs groups t = (t', Ok errs') ∧ pt_calls t' = pt_calls t ++ concat (map (send_of t) groups).
Proof.
  revert errs t; induction groups as [|g groups IH]; intros errs t.
  { eexists t, errs. split; [done|]. cbn. by rewrite app_nil_r. }
  destruct (send_group_spec errs g t) as (t1&errs1&Hp1&Hg&Hc1). cbn [st_fold]. unfold mbind, ST_bind. rewrite Hg.
  destruct (IH errs1 t1) as (t2&errs2&->&Hc2). eexists t2, errs2. split; [done|]. rewrite Hc2, Hc1.
  cbn [map concat]. rewrite <- app_assoc. do 3 f_equal. apply map_ext. intros g'. by apply send_of_same.
Qed.
(** The snapshot message of a batch makes its call, or none. *)
Lemma sendSnapshot_spec m (t : PeerTransport) : (om_To m =? 0)%Z || (om_To m =? pt_selfID t)%Z || negb (is_MsgSnap (om_Raw m)) = false →
  ∃ t' r, same_peers t t' ∧ sendSnapshot msg_Snapshot dial rpc (om_Raw m) t = (t', r) ∧
    pt_calls t' = pt_calls t ++ match snapshot_out t m with
                                | None => []
                                | Some (c, snap) => [RpcInstall c (toProtoSnapshotChunk <$>
                                    splitSnapshotChunks (snapshot_meta snap) (rs_Data snap) (pt_chunkSize t))]
                                end.
Proof.
  intros Hm. unfold snapshot_out. rewrite Hm. unfold sendSnapshot, mbind, ST_bind, st_get. destruct ((msg_To (om_Raw m) =? 0)%Z || (msg_To (om_Raw m) =? pt_selfID t)%Z); cbn [orb].
  { eexists t, _. split; [done|]. split; [done|]. cbn. by rewrite app_nil_r. }
  destruct (client_spec t (msg_To (om_Raw m))) as (t1&e1&Hp1&Hc1&->).
  destruct (peer_addr t (msg_To (om_Raw m))) as [c|]; case_bool_decide.
  1, 3-4: eexists t1, _; split; [done|]; split; [done|]; cbn; by rewrite Hc1, app_nil_r.
  unfold client_InstallSnapshot. set (chunks := splitSnapshotChunks _ _ (pt_chunkSize t)).
  destruct (call_rpc_spec (RpcInstall c (toProtoSnapshotChunk <$> chunks)) t1) as (t2&r&Hp2&->&Hc2).
  eexists t2, r. split; [by etrans|]. split; [done|]. by rewrite Hc2, Hc1.
Qed.
Lemma send_snapshots_spec `{TransportNode Nd Msg E'} self messages errs (t : PeerTransport) : self = pt_selfID t → ∃ t' errs' calls, same_peers t t' ∧
  send_snapshots is_MsgSnap msg_Snapshot dial rpc self messages errs t = (t', Ok errs') ∧
  pt_calls t' = pt_calls t ++ calls ∧ Forall2 installs (omap (snapshot_out t) messages) calls.
Proof.
  intros ->. revert errs t; induction messages as [|m messages IH]; intros errs t.
  { eexists t, errs, []. split_and!; [done|done|by rewrite app_nil_r|constructor]. }
  assert (Hstep : send_snapshots is_MsgSnap msg_Snapshot dial rpc (pt_selfID t) (m :: messages) errs t =
    if (om_To m =? 0)%Z || (om_To m =? pt_selfID t)%Z || negb (is_MsgSnap (om_Raw m))
    then send_snapshots is_MsgSnap msg_Snapshot dial rpc (pt_selfID t) messages errs t
    else let '(t1, r1) := sendSnapshot msg_Snapshot dial rpc (om_Raw m) t in
         send_snapshots is_MsgSnap msg_Snapshot dial rpc (pt_selfID t) messages (match r1 with Err e => errs ++ [e] | Ok _ => errs end) t1).
  { unfold send_snapshots, joined. cbn [st_fold]. unfold mbind, ST_bind. destruct (_ || _); [done|]. destruct (is_MsgSnap _); [|done].
    cbn [negb orb]. by destruct (sendSnapshot _ _ _ _ _). }
  rewrite Hstep. cbn [omap list_omap]. destruct (_ || negb _) eqn:Hskip.
  { assert (snapshot_out t m = None) as -> by (unfold snapshot_out; by rewrite Hskip). apply IH. }
  destruct (sendSnapshot_spec m t Hskip) as (t1&r1&Hp1&->&Hc1).
  destruct (IH (match r1 with Err e => errs ++ [e] | Ok _ => errs end) t1) as (t2&errs2&c2&Hp2&Heq&Hc2&Hf2).
  rewrite (proj1 Hp1) in Heq. rewrite Heq.
  assert (omap (snapshot_out t1) messages = omap (snapshot_out t) messages) as Hout.
  { clear -Hp1. induction messages as [|x l IHl]; [done|]. cbn. by rewrite (snapshot_out_same _ _ _ Hp1), IHl. }
  rewrite Hout in Hf2. change (list_omap ?A ?B) with (@omap list _ A B) in *. eexists t2, errs2, _.
  split; [by etrans|]. split; [done|]. split; [by rewrite Hc2, Hc1, <- app_assoc|].
  destruct (snapshot_out t m) as [[c snap]|]; [|done]. constructor; [|done]. eexists. split; [done|]. intros clean s Hs. by apply Install_all.
Qed.

(** C22: Forwarding a batch first makes one call per snapshot that goes out, in order, to the address of its peer,
    and the receiving service installs exactly that snapshot.  Then it makes one call per
    reachable peer that the batch has other messages for; that call carries exactly these messages in
    their order, and the receiving service steps them in that order.  Unreachable peers, the
    node itself and node 0 get nothing. *)
Theorem Forward_delivers `{TransportNode Nd Msg E'} (ready : Ready) (t : PeerTransport) :
  ∃ t' errs calls sends groups,
    Forward is_MsgSnap msg_Snapshot dial rpc ready t = (t', Ok errs) ∧
    pt_calls t' = pt_calls t ++ calls ++ sends ∧ Forall2 installs (omap (snapshot_out t) (r_Messages ready)) calls ∧
    sends = concat (map (send_of t) groups) ∧ NoDup groups.*1 ∧
    (∀ j items, (j, items) ∈ groups ↔ messages_for (pt_selfID t) j (r_Messages ready) ≠ [] ∧
                  items = envelope <$> messages_for (pt_selfID t) j (r_Messages ready)) ∧
    (∀ j (dec : OutboundMessage → Msg) (s : InternalTransportService Nd),
       (∀ m, m ∈ r_Messages ready → tn_Unmarshal (om_Payload m) = Some (dec m)) →
       Send (toProtoRaftBatch (MkBatch (envelope <$> messages_for (pt_selfID t) j (r_Messages ready)))) s =
         st_iter (λ m, on_node (tn_Step (dec m))) (messages_for (pt_selfID t) j (r_Messages ready)) s).
Proof.
  destruct (send_snapshots_spec (pt_selfID t) (r_Messages ready) [] t eq_refl) as (t1&errs1&calls&Hp1&Heq1&Hc1&Hf1).
  set (grouped := fold_left (group_message is_MsgSnap (pt_selfID t)) (r_Messages ready) ∅).
  destruct (send_groups_spec (range grouped) errs1 t1) as (t2&errs2&Heq2&Hc2).
  exists t2, errs2, calls, (concat (map (send_of t) (range grouped))), (range grouped). split_and!; [| |done|done| | |].
  - unfold Forward, mbind, ST_bind, st_get. rewrite Heq1. exact Heq2.
  - rewrite Hc2, Hc1, <- app_assoc. rewrite (map_ext (send_of t1) (send_of t)); [done|]. intros g. by apply send_of_same.
  - rewrite range_perm. apply NoDup_fst_map_to_list.
  - intros j items. rewrite range_perm, elem_of_map_to_list. unfold grouped. rewrite group_message_lookup, lookup_empty.
    destruct (messages_for _ j _) as [|m ms]; [naive_solver|]. cbn [default from_option id app]. naive_solver.
  - intros j dec s Hdec. unfold Send, SendRaftMessages. rewrite toProto_batch. cbn [b_Messages].
    assert (Hsub : ∀ m, m ∈ messages_for (pt_selfID t) j (r_Messages ready) → m ∈ r_Messages ready).
    { intros m Hm. by apply list_elem_of_In, filter_In in Hm as [?%list_elem_of_In _]. }
    revert s. induction (messages_for _ j _) as [|m ms IH]; intros s; [done|]. cbn [fmap list_fmap st_iter].
    unfold mbind, ST_bind. cbn [env_Payload envelope]. rewrite Hdec by (apply Hsub; by left).
    destruct (on_node _ s) as [s' []]; [|done]. apply IH. intros x Hx. apply Hsub. by right.
Qed.
End forwarding.

(** ** Instances and witnesses *)
Section raft_node.
Context `{Raftpb, !Raft, !RaftBehaviour, PebbleEngine}.
Context `{Json MemberAddress, Json snapshotPayload, Json (list KV), Json Command, Json Snapshot.Metadata}.
(** The node of the program behind the interface. *)
Definition raft_transport_node (sha256_hex : str → str) (msg_Unmarshal : str → option Message) :
  TransportNode RaftNode Message NodeErr :=
  {| tn_Unmarshal := msg_Unmarshal; tn_Step := Step; tn_InstallSnapshot := InstallSnapshot sha256_hex |}.
End raft_node.
(** A node that records what is installed. *)
Definition recorder : TransportNode (list (Metadata * str)) str Empty_set :=
  {| tn_Unmarshal := Some; tn_Step := λ _, mret tt;
     tn_InstallSnapshot := λ meta data s, (s ++ [(meta, data)], Ok tt) |}.
Definition sample_meta : SnapshotMetadata := MkSnapMeta 2 7 [] [] 10.
Definition sample_service : InternalTransportService (list (Metadata * str)) := NewInternalTransportService [].
Lemma transfer_roundtrip_witness :
  (Install (H:=recorder) (toProtoSnapshotChunk <$> splitSnapshotChunks sample_meta (lit "0123456789") 4) true sample_service).2 = Ok (2%Z, 7%Z).
Proof.
  rewrite (proj2 (proj2 (transfer_roundtrip (H:=recorder) sample_meta (lit "0123456789") 4 true sample_service eq_refl))).
  reflexivity.
Defined.
Lemma interrupted_transfer_witness :
  let s' := (Install (H:=recorder) (toProtoSnapshotChunk <$> take 2 (splitSnapshotChunks sample_meta (lit "0123456789") 4)) false sample_service).1 in
  Install (H:=recorder) (toProtoSnapshotChunk <$> splitSnapshotChunks sample_meta (lit "0123456789") 4) true s' = (s', Err (ErrOffset 0 8)).
Proof.
  apply (proj2 (interrupted_transfer (H:=recorder) sample_meta (lit "0123456789") 4 2 false sample_service eq_refl
    ltac:(lia) ltac:(vm_compute; lia))). reflexivity.
Defined.
