(* ===== verification/CatchUp.v ===== *)
(** * A lagging follower catches up from a snapshot

    Two nodes and the transport between them: the leader exports its store, [sendSnapshot] cuts the
    export into chunks, the follower's service puts it together again, installs it and is later
    restarted from its files.  The composition of [Transport], [Recovery] and [Restart]. *)
From Stdlib Require Import Ascii ZArith Sorted.
From stdpp Require Import gmap strings countable list sorting.
From S2P Require Import Prelude GoStrings Codec Files Wal WalLog Engine StateMachine Pebble PebbleTotal Snapshot RaftConfig Raft RaftNode RaftReads Replay Recovery Restart AddressBook Transport.

Section catch_up.
Context `{Raftpb, !Raft, !RaftBehaviour} `{EngineTotal}.
Context `{Json MemberAddress, Json snapshotPayload, Json (list KV), Json Command, Json Snapshot.Metadata}.
Context (sha256_hex : str → str).
Context (payload_faithful : ∀ p : snapshotPayload, Forall json_faithful (sp_Members p) → json_faithful p).
Context (metadata_faithful : ∀ (m : Metadata) data, json_faithful (complete sha256_hex m data)).

(** ** Installing *)
(** What an export at index [s] of the log says: the contents of a store from which the rest of
    the log leads on. *)
Record exported (data : str) (log : list Entry) (s c : nat) (src : PebbleStore) : Prop := {
  ex_members : members_wf (store_map src);
  ex_snapshot : Pebble.Snapshot src = Ok data;
  ex_converges : converges (store_map src) log s c
}.
(** Files of a node whose log ends before the snapshot: no entries, the old hard state. *)
Record behind_at (w : FileWAL) (h : nat) : Prop := {
  ba_inv : wal_inv w;
  ba_commit : hs_Commit (w_state w) = Z.of_nat h;
  ba_entries : w_entries w = []
}.
Lemma truncate_behind w logf h base s : wal_holds w logf h base → log_wf logf → length logf < s →
  ∃ w', Wal.TruncatePrefix (Z.of_nat s) w = (w', Ok tt) ∧ behind_at w' h.
Proof.
  intros (Hi&Hc&He) Hwf Hs. destruct (TruncatePrefix_ok w (Z.of_nat s) Hi) as (w'&Ht&Hi'&Hst&Hes).
  exists w'. split; [done|]. split; [done|by rewrite Hst|]. rewrite Hes, He.
  destruct (decide (base ≤ length logf)) as [Hl|Hl].
  - pose proof (log_from_drop 1 logf base Hl (lw_from _ Hwf)) as Hd.
    rewrite (log_from_filter_ge _ _ _ Hd), drop_drop, drop_ge; [done|lia].
  - by rewrite drop_ge by lia.
Qed.
(** The store after [Restore] and the two index records. *)
Lemma restored_kv kv data src log c s term : exported data log s c src → s ≤ c → ps_open kv = true →
  ∃ k1 k k2, Pebble.Restore kv data = (k1, Ok tt) ∧ SetAppliedIndex k1 (Z.of_nat s) = (k, Ok tt) ∧
    SetAppliedTerm k term = (k2, Ok tt) ∧ kv_holds k2 log c s ∧ business (store_map k2) = business (store_map src).
Proof.
  intros [Hw Hsn Hcv] Hsc Ho. destruct (snapshot_decodes payload_faithful src data Hw Hsn) as [p Hp].
  destruct (Restore_done kv data p Ho Hp) as (k1&Er&Ho1).
  destruct (snapshot_restored payload_faithful src data kv k1 Hw Hsn Er) as (Hb&Hmem&_).
  destruct (db_write_done k1 (BSet metaAppliedIndexKey (encodeUint64 (Z.of_nat s))) Ho1) as (k&E1&Hok&Hm1).
  destruct (db_write_done k (BSet metaAppliedTermKey (encodeUint64 term)) Hok) as (k2&E2&Ho2&Hm2).
  assert (store_map k2 = record_applied (store_map k1) (Z.of_nat s) term) as Hk by (by rewrite Hm2, Hm1).
  exists k1, k, k2. split_and!; [done..| |by rewrite Hk, record_applied_business, Hb].
  unfold kv_holds. rewrite Hk. split_and!; [done| |left; apply record_applied_index|done|].
  - apply members_wf_record. by apply (members_wf_ext (store_map src)).
  - eapply converges_business; [|exact Hcv]. by rewrite record_applied_business, Hb.
Qed.
Lemma raise_status st i :
  let st1 := if (st_AppliedIndex st <? i)%Z then with_applied i st else st in
  let st2 := if (st_CommitIndex st1 <? i)%Z then with_commit i st1 else st1 in
  st_AppliedIndex st2 = Z.max (st_AppliedIndex st) i ∧ st_CommitIndex st2 = Z.max (st_CommitIndex st) i.
Proof.
  destruct st as [n cl l r a c st sp]. cbn. destruct (Z.ltb_spec a i); cbn; destruct (Z.ltb_spec c i); cbn; lia.
Qed.
(** Everything the installation changes. *)
Record caught_up (f f' : RaftNode) (log : list Entry) (c s h : nat) (src : PebbleStore) : Prop := {
  cu_kv : kv_holds (rn_kv f') log c s;
  cu_business : business (store_map (rn_kv f')) = business (store_map src);
  cu_snap : snap_holds sha256_hex (rn_snap f') log c s;
  cu_wal : behind_at (rn_wal f') h;
  cu_storage : ms_last (rn_storage f') = Z.of_nat s ∧ ms_snap (rn_storage f') = Z.of_nat s;
  cu_applied : st_AppliedIndex (rn_status f') = Z.max (st_AppliedIndex (rn_status f)) (Z.of_nat s);
  cu_commit : st_CommitIndex (rn_status f') = Z.max (st_CommitIndex (rn_status f)) (Z.of_nat s)
}.
Lemma InstallSnapshot_ok f logf h a data src log c s term cs len :
  node_inv sha256_hex f logf h a → rn_started f = true → rn_stopped f = false → length logf < s →
  exported data log s c src → data ≠ [] → s ≤ c → (Z.of_nat c < 2 ^ 64)%Z → is_u64 term →
  ∃ f', InstallSnapshot sha256_hex (MkMetadata term (Z.of_nat s) cs [] len) data f = (f', Ok tt) ∧
    caught_up f f' log c s h src.
Proof.
  intros [Hwf Hh _ _ _ (base&s0&i&Hbs&Hsc0&_&Hwal&Hsnap&(Hl&Hs&_)&Hkv)] Hst Hsp Hlen Hex Hd Hsc Hc Ht.
  unfold InstallSnapshot. cbn [md_Index md_Term md_ConfState].
  rewrite (n_bind _ _ f f tt) by (unfold ensureRunning, mbind, ST_bind, st_get; by rewrite Hst, Hsp).
  pose proof Hex as [Hw Hsn Hcv].
  destruct (create_snapshot_ok sha256_hex metadata_faithful _ _ _ log c _ s term cs len data src Hsnap)
    as (sn&md&Hcr&Hsn'); [lia|done|done|done|done|done|done|].
  assert (Snapshot.Install sha256_hex (MkMetadata term (Z.of_nat s) cs [] len) (MkExporter data false) (rn_snap f) = (sn, Ok tt)) as Ei.
  { unfold Snapshot.Install, mbind, ST_bind. by rewrite Hcr. }
  rewrite (n_bind _ _ _ _ _ (on_snap_ok _ f _ _ Ei)). set (f1 := set_stores _ _ sn _ f).
  destruct (restored_kv (rn_kv f) data src log c s term Hex Hsc (proj1 Hkv)) as (k1&k&k2&Er&E1&E2&Hk2&Hbu).
  rewrite (bool_decide_false _ Hd). cbn [negb when].
  rewrite (n_bind _ _ _ _ _ (on_kv_ok _ f1 _ _ Er)). set (f2 := set_stores _ _ _ k1 f1).
  destruct (ms_ApplySnapshot_ok (rn_storage f) (MkRaftSnapshot data (Z.of_nat s) term (unmarshalConfState cs)))
    as (ms&Ea&Hl'&Hs'&_); [cbn; lia|cbn; lia|].
  rewrite (n_bind _ _ f2 (set_stores ms (rn_wal f) sn k1 f) tt) by (unfold tolerate; by erewrite on_ms_ok).
  set (f3 := set_stores ms _ _ k1 f).
  rewrite (n_bind _ _ _ _ _ (on_kv_ok (λ s', SetAppliedIndex s' (Z.of_nat s)) f3 _ _ E1)). set (f4 := set_stores _ _ _ k f3).
  rewrite (n_bind _ _ _ _ _ (on_kv_ok (λ s', SetAppliedTerm s' term) f4 _ _ E2)). set (f5 := set_stores _ _ _ k2 f4).
  destruct (truncate_behind (rn_wal f) logf h base s Hwal Hwf Hlen) as (w&Etr&Hw').
  rewrite (n_bind _ _ _ _ _ (on_wal_ok _ f5 _ _ Etr)). eexists. split; [reflexivity|].
  split; [done|done|done|done|done|apply raise_status..].
Qed.

(** ** Restarting behind the snapshot *)
Definition disk_behind (d : Disk) (log : list Entry) (c s h : nat) : Prop :=
  ∃ w, Wal.Open (NewFileWAL (d_wal d)) = (w, Ok tt) ∧ behind_at w h ∧
    snap_holds sha256_hex (NewFileStore (d_snap d)) log c s.
Lemma caught_up_disk f f' log c s h src : caught_up f f' log c s h src → disk_behind (disk_of f') log c s h.
Proof.
  intros [_ _ (Hk&ms&Hsn) [Hi Hc He] _ _ _]. destruct (reopen_ok (rn_wal f') Hi) as (w'&Ho&Hi'&Hst&Hes&_).
  exists w'. split; [exact Ho|]. split; [split; [done|by rewrite Hst|by rewrite Hes]|]. split; [done|by exists ms].
Qed.
Lemma bootstrap_behind n log c s h : booting n → 0 < s → h < s → behind_at (rn_wal n) h →
  snap_holds sha256_hex (rn_snap n) log c s → ps_open (rn_kv n) = true →
  ∃ ms kv, bootstrapStorage n =
      (set_status (λ st, with_commit (Z.of_nat h) (with_applied (Z.of_nat h) st))
        (set_flags false (rn_readIndexCounter n) (rn_started n) (rn_stopped n)
          (set_stores ms (rn_wal n) (rn_snap n) kv n)), Ok tt) ∧
    kv_holds kv log c s ∧ ms_last ms = Z.of_nat s ∧ ms_snap ms = Z.of_nat s.
Proof.
  intros (_&Hst&_&_) Hs Hh [Hinv Hcm Hes] Hsn Ho. unfold bootstrapStorage.
  destruct (latest_newest sha256_hex payload_faithful n log c s Hsn Hs Hst Ho) as (ms&kv&El&Hkv&Hl&Hsnap&_).
  rewrite (n_bind2 _ _ _ _ _ _ El). set (n1 := set_stores ms _ _ kv n).
  rewrite (n_bind _ _ n1 n1 (w_state (rn_wal n), [])).
  2: { assert (Wal.Load (rn_wal n1) = (rn_wal n, Ok (w_state (rn_wal n), []))) as E.
       { unfold Wal.Load, mbind, ST_bind, st_get. cbn. destruct Hinv as (cs&Hop&_). by rewrite Hop, Hes. }
       by rewrite (on_wal_ok _ n1 _ _ E). }
  cbn [fst snd]. rewrite !IsEmptyHardState_spec, Hcm.
  rewrite (proj2 (Z.ltb_lt 0 (Z.of_nat s))), (proj2 (Z.ltb_ge (Z.of_nat s) (Z.of_nat h))), orb_true_r, andb_false_r by lia.
  rewrite bool_decide_true by done. cbn [negb when].
  assert (∃ ms2, when (negb (isEmptyHardState (w_state (rn_wal n)))) (on_ms_ (λ ms, Ok (ms_SetHardState ms (w_state (rn_wal n))))) n1 =
      (set_stores ms2 (rn_wal n) (rn_snap n) kv n, Ok tt) ∧ ms_last ms2 = Z.of_nat s ∧ ms_snap ms2 = Z.of_nat s) as (ms2&E2&Hl2&Hs2).
  { destruct (isEmptyHardState _); cbn [negb when]; [by exists ms|].
    destruct (ms_SetHardState_ok ms (w_state (rn_wal n))) as (E1'&E2'&_).
    exists (ms_SetHardState ms (w_state (rn_wal n))). rewrite E1', E2'. split; [by erewrite on_ms_ok|done]. }
  rewrite (n_bind _ _ _ _ _ E2). by exists ms2, kv.
Qed.
Lemma Start_behind cfg d n0 log c s h : New cfg d = Ok n0 → disk_behind d log c s h → 0 < s → h < s →
  ∃ n', Start n0 = (n', Ok tt) ∧ kv_holds (rn_kv n') log c s ∧ ms_snap (rn_storage n') = Z.of_nat s ∧
    behind_at (rn_wal n') h ∧ st_AppliedIndex (rn_status n') = Z.of_nat h ∧ st_CommitIndex (rn_status n') = Z.of_nat h.
Proof.
  intros Hnew (w&Hopen&Hw&Hsn) Hs Hh. unfold New in Hnew.
  destruct (Validate (WithDefaults cfg)) as [[]|] eqn:Ev; [|done]. injection Hnew as <-. unfold Start.
  change (ST RaftNode NodeErr) with N. rewrite n_get. cbn [rn_started]. rewrite n_modify. set (n1 := set_flags _ _ _ _ _).
  rewrite (n_bind _ _ _ _ _ (on_wal_ok _ n1 _ _ Hopen)). set (n2 := set_stores _ _ _ _ n1).
  destruct (open_total (d_db d)) as [db' Edb].
  assert (Pebble.Open (rn_kv n2) = (MkStore db' true, Ok tt)) as Ek by (unfold Pebble.Open; cbn; by rewrite Edb).
  rewrite (n_bind _ _ _ _ _ (on_kv_ok _ n2 _ _ Ek)). set (n3 := set_stores _ _ _ _ n2).
  destruct (bootstrap_behind n3 log c s h) as (ms&kv&Eb&Hkv&_&Hms); try done.
  rewrite (n_bind _ _ _ _ _ Eb), n_get, n_modify. eexists. split; [reflexivity|]. by split_and!.
Qed.

(** ** The transfer *)
Context {E : Type} (msg_Snapshot : Message → RaftSnapshot) (dial : str → option E) (rpc : list Rpc → Rpc → option E).
Context (msg_Unmarshal : str → option Message).
#[local] Instance follower_node : TransportNode RaftNode Message NodeErr := raft_transport_node sha256_hex msg_Unmarshal.
Definition snapshot_meta (snap : RaftSnapshot) : Transport.SnapshotMetadata :=
  Transport.MkSnapMeta (rs_Term snap) (rs_Index snap) (marshalConfState (rs_ConfState snap)) [] (Z.of_nat (length (rs_Data snap))).
Lemma sendSnapshot_streams m t addr : msg_To m ≠ 0%Z → msg_To m ≠ pt_selfID t → peer_addr dial t (msg_To m) = Some addr →
  rs_Data (msg_Snapshot m) ≠ [] →
  ∃ t' r, sendSnapshot msg_Snapshot dial rpc m t = (t', r) ∧
    pt_calls t' = pt_calls t ++ [RpcInstall addr (toProtoSnapshotChunk <$>
      splitSnapshotChunks (snapshot_meta (msg_Snapshot m)) (rs_Data (msg_Snapshot m)) (pt_chunkSize t))].
Proof.
  intros H0' Hself Haddr Hd. destruct (client_spec dial t (msg_To m)) as (t1&e&_&Hc1&Ec). rewrite Haddr in Ec.
  unfold sendSnapshot, mbind, ST_bind, st_get.
  rewrite (proj2 (Z.eqb_neq _ _) H0'), (proj2 (Z.eqb_neq _ _) Hself). cbn [orb]. rewrite Ec, (bool_decide_false _ Hd).
  eexists _, _. split; [reflexivity|]. unfold client_InstallSnapshot, call_rpc. cbn [fst pt_calls]. rewrite Hc1.
  replace (pt_chunkSize t1) with (pt_chunkSize t); [done|].
  unfold client in Ec. destruct (pt_clients t !! msg_To m); [by injection Ec as <- _|]. cbn zeta in Ec.
  destruct (bool_decide _); [done|]. destruct (dial _); [done|]. by injection Ec as <- _.
Qed.

(** C3: Catching up.  A leader, after any run of batches and restarts, sends the export of its store
    to a follower whose log ends before it: the stream that the transport puts on the wire, handed to the
    follower's service, is installed.  The follower then holds the leader's contents at the
    leader's applied index [s], replaying the leader's log behind [s] leads it to the contents after the
    whole committed log, and both survive a restart from its files.  The restart however
    finds the old hard state: raft is handed a commit index [h] behind the snapshot, and the reported
    applied index falls back from [s] to [h]. *)
Theorem snapshot_catches_up cfgl cfgf leader f log logf (c a s h a' : nat) data m t addr clean svc :
  node_run sha256_hex cfgl leader log c a →
  Pebble.AppliedIndex (rn_kv leader) = Ok (Z.of_nat s) → Pebble.Snapshot (rn_kv leader) = Ok data → data ≠ [] →
  node_run sha256_hex cfgf f logf h a' → rn_started f = true → rn_stopped f = false → length logf < s →
  rs_Data (msg_Snapshot m) = data → rs_Index (msg_Snapshot m) = Z.of_nat s → is_u64 (rs_Term (msg_Snapshot m)) →
  msg_To m ≠ 0%Z → msg_To m ≠ pt_selfID t → peer_addr dial t (msg_To m) = Some addr →
  ts_node svc = f → ts_install svc !! key_of (snapshot_meta (msg_Snapshot m)) = None →
  let replays n := business (replay (store_map (rn_kv n)) (stretch s c log)) = state_after (take c log) in
  ∃ t' r stream f',
    sendSnapshot msg_Snapshot dial rpc m t = (t', r) ∧ pt_calls t' = pt_calls t ++ [RpcInstall addr stream] ∧
    Install stream clean svc = (MkService f' (ts_install svc), Ok (rs_Term (msg_Snapshot m), Z.of_nat s)) ∧
    business (store_map (rn_kv f')) = business (store_map (rn_kv leader)) ∧
    Pebble.AppliedIndex (rn_kv f') = Ok (Z.of_nat s) ∧ (Z.of_nat s ≤ st_AppliedIndex (rn_status f'))%Z ∧ replays f' ∧
    ∀ n0, New cfgf (disk_of f') = Ok n0 → ∃ n', Start n0 = (n', Ok tt) ∧
      Pebble.AppliedIndex (rn_kv n') = Ok (Z.of_nat s) ∧ replays n' ∧ ms_snap (rn_storage n') = Z.of_nat s ∧
      hs_Commit (w_state (rn_wal n')) = Z.of_nat h ∧ h < s ∧ st_AppliedIndex (rn_status n') = Z.of_nat h.
Proof.
  intros Hrl Hai Hsn Hd Hrf Hst Hsp Hlen Hsd Hsi Ht H0' Hself Haddr <- Hses replays.
  pose proof (node_run_inv sha256_hex payload_faithful metadata_faithful _ _ _ _ _ Hrl) as [Hwf Hc _ _ _ (_&_&i&_&_&_&_&_&_&Hkv)].
  rewrite (applied_index_read _ _ _ _ Hkv Hc Hwf) in Hai. injection Hai as Hi%Nat2Z.inj. subst i.
  pose proof Hkv as (_&Hmem&_&Hsc&Hcv). pose proof (lw_bound _ Hwf) as Hb.
  pose proof (node_run_inv sha256_hex payload_faithful metadata_faithful _ _ _ _ _ Hrf) as Hfi.
  pose proof (ni_commit _ _ _ _ _ Hfi) as Hh. rewrite <-Hsd in Hsn, Hd.
  destruct (sendSnapshot_streams m t addr H0' Hself Haddr Hd) as (t'&r&Es&Ec).
  destruct (InstallSnapshot_ok (ts_node svc) logf h a' (rs_Data (msg_Snapshot m)) (rn_kv leader) log c s (rs_Term (msg_Snapshot m))
    (marshalConfState (rs_ConfState (msg_Snapshot m))) (Z.of_nat (length (rs_Data (msg_Snapshot m)))) Hfi Hst Hsp Hlen)
    as (f'&Ei&Hcu); [by split|done|done|lia|done|].
  eexists t', r, _, f'. split; [exact Es|]. split; [exact Ec|]. split.
  { rewrite Install_all by done. unfold mbind, ST_bind, on_node. cbn [tn_InstallSnapshot follower_node raft_transport_node].
    unfold store_meta, snapshot_meta. cbn [sm_Term sm_Index sm_ConfState sm_Checksum sm_FileSize]. rewrite Hsi, Ei. done. }
  split; [exact (cu_business _ _ _ _ _ _ _ Hcu)|]. pose proof (cu_kv _ _ _ _ _ _ _ Hcu) as Hk.
  split; [exact (applied_index_read _ _ _ _ Hk Hc Hwf)|].
  split; [rewrite (cu_applied _ _ _ _ _ _ _ Hcu); lia|]. split; [apply Hk|].
  intros n0 Hn. destruct (Start_behind cfgf _ n0 log c s h Hn (caught_up_disk _ _ _ _ _ _ _ Hcu)) as (n'&E1&Hk'&Hms&[_ Hhs _]&Hap&_); [lia|lia|].
  exists n'. split; [done|]. split; [exact (applied_index_read _ _ _ _ Hk' Hc Hwf)|]. split; [apply Hk'|]. by split_and!; [..|lia|].
Qed.
End catch_up.

(** ** An example: one committed write on the leader, an empty follower *)
#[local] Existing Instances bits_raftpb memory_raft quiet_node memory_engine.
#[local] Existing Instances member_json payload_json items_json command_json sample_json.
Definition sample_export : str := match Pebble.Snapshot (rn_kv sample_n1) with Ok data => data | Err _ => [] end.
Definition sample_message (m : @Message memory_raft) : RaftSnapshot := MkRaftSnapshot sample_export 1 1 empty_conf.
Definition sample_sender : PeerTransport := MkTransport 1 (NewAddressBook ∅ ∅ ∅) 4 {[2%Z := lit "peer"]} [].
Definition sample_receiver : InternalTransportService RaftNode := NewInternalTransportService sample_n0.
Definition sample_dial (addr : str) : option unit := None.
Definition sample_rpc (calls : list Rpc) (call : Rpc) : option unit := None.
Definition no_messages (data : str) : option (@Message memory_raft) := None.
Lemma snapshot_catches_up_witness : ∃ stream f',
  (sendSnapshot sample_message sample_dial sample_rpc (tt : @Message memory_raft) sample_sender).1.(pt_calls) = [RpcInstall (lit "peer") stream] ∧
  Install (H:=raft_transport_node sample_hash no_messages) stream true sample_receiver = (MkService f' ∅, Ok (1%Z, 1%Z)) ∧
  business (store_map (rn_kv f')) = business (store_map (rn_kv sample_n1)) ∧ Pebble.AppliedIndex (rn_kv f') = Ok 1%Z.
Proof.
  destruct (snapshot_catches_up sample_hash sample_payload sample_metadata sample_message sample_dial sample_rpc no_messages
    sample_cfg sample_cfg sample_n1 sample_n0 [put_entry] [] 1 1 1 0 0 sample_export tt sample_sender (lit "peer") true sample_receiver
    sample_run1) as (t'&r&stream&f'&Es&Ec&Ei&Hb&Ha&_).
  - apply ok_unpack. vm_compute. reflexivity.
  - unfold sample_export. apply ok_unpack. vm_compute. reflexivity.
  - intros E. apply (f_equal length) in E. vm_compute in E. discriminate.
  - exact sample_run0.
  - vm_compute. reflexivity.
  - vm_compute. reflexivity.
  - cbn. lia.
  - reflexivity.
  - reflexivity.
  - apply (u64_small 1); lia.
  - discriminate.
  - discriminate.
  - reflexivity.
  - reflexivity.
  - reflexivity.
  - exists stream, f'. rewrite Es. cbn [fst]. split_and!; [exact Ec|exact Ei|exact Hb|exact Ha].
Defined.
