(* ===== verification/Dto.v ===== *)
(** * Transfer objects ([internal/transport/http/dto.go] and the conversions of [handlers_impl.go])

    What the data plane sends and receives.  The request types are aliases of the model's. *)
From Stdlib Require Import Ascii ZArith.
From stdpp Require Import gmap strings list.
From S2P Require Import Prelude GoStrings Selector RegistryModel WatchHub.

Abbreviation EndpointDTO := Endpoint.
Abbreviation RegisterRequestDTO := RegisterInput.
Abbreviation DeregisterRequestDTO := DeregisterRequest.
Abbreviation HeartbeatRequestDTO := HeartbeatRequest.

Record RegistryInstanceDTO := MkInstance {
  in_Namespace : str; in_Identity : Identity; in_InstanceID : str; in_Zone : str;
  in_Labels : gmap str str; in_Metadata : gmap str str; in_Endpoints : list Endpoint;
  in_LeaseTTLSeconds : Z; in_RegisteredAtUnix : Z; in_LastHeartbeatUnix : Z
}.
(** The events of both watch streams; the public one leaves the source fields out. *)
Record RegistryWatchEventDTO := MkWatchDTO {
  wd_Revision : Z; wd_Type : str; wd_Namespace : str; wd_Identity : Identity; wd_InstanceID : str;
  wd_Instance : option RegistryInstanceDTO; wd_Instances : list RegistryInstanceDTO
}.
Record ReplicationWatchEventDTO := MkReplicationDTO {
  rd_Event : RegistryWatchEventDTO; rd_SourceRegion : str; rd_SourceClusterID : str; rd_ExportedAtUnix : Z
}.
Record MemberChangeRequestDTO := MkMemberChange { mc_NodeID : Z; mc_HTTPAddr : str; mc_GRPCAddr : str; mc_AdminAddr : str }.
Record LeaderTransferRequestDTO := MkLeaderTransfer { lt_TargetNodeID : Z }.
Record HealthResponseDTO := MkHealth { he_Status : str; he_LeaderID : Z; he_LocalNodeID : Z; he_LeaderAddr : str }.
Record ClusterStatusDTO := MkClusterStatus {
  cl_ClusterID : Z; cl_LocalNodeID : Z; cl_LeaderID : Z; cl_Role : str; cl_Term : Z; cl_Vote : Z;
  cl_CommitIndex : Z; cl_AppliedIndex : Z; cl_Started : bool; cl_Stopped : bool;
  cl_Voters : list Z; cl_VotersOutgoing : list Z; cl_Learners : list Z; cl_LearnersNext : list Z; cl_AutoLeave : bool;
  cl_HTTPAddrs : gmap Z str; cl_GRPCAddrs : gmap Z str; cl_AdminAddrs : gmap Z str
}.
Record ReplicationStatusDTO := MkReplicationStatus {
  rt_SourceRegion : str; rt_SourceClusterID : str; rt_Namespace : str; rt_Service : str; rt_Connected : bool;
  rt_LastAppliedRevision : Z; rt_LastSnapshotRevision : Z; rt_LastSyncUnix : Z; rt_ErrorCount : Z; rt_LastError : str
}.
Record PrometheusSDTargetGroupDTO := MkTargetGroup { tg_Targets : list str; tg_Labels : gmap str str }.
#[export] Instance RegistryInstanceDTO_eq_dec : EqDecision RegistryInstanceDTO.
Proof. solve_decision. Defined.
#[export] Instance RegistryWatchEventDTO_eq_dec : EqDecision RegistryWatchEventDTO.
Proof. solve_decision. Defined.
#[export] Instance ReplicationWatchEventDTO_eq_dec : EqDecision ReplicationWatchEventDTO.
Proof. solve_decision. Defined.
#[export] Instance MemberChangeRequestDTO_eq_dec : EqDecision MemberChangeRequestDTO.
Proof. solve_decision. Defined.
#[export] Instance HealthResponseDTO_eq_dec : EqDecision HealthResponseDTO.
Proof. solve_decision. Defined.
#[export] Instance ClusterStatusDTO_eq_dec : EqDecision ClusterStatusDTO.
Proof. solve_decision. Defined.
#[export] Instance ReplicationStatusDTO_eq_dec : EqDecision ReplicationStatusDTO.
Proof. solve_decision. Defined.
#[export] Instance PrometheusSDTargetGroupDTO_eq_dec : EqDecision PrometheusSDTargetGroupDTO.
Proof. solve_decision. Defined.

Definition registryEndpointsFromDTO (items : list EndpointDTO) : list Endpoint :=
  if bool_decide (items = []) then []
  else (λ e, MkEndpoint (ep_Name e) (ep_Protocol e) (ep_Host e) (ep_Port e) (ep_Path e) (ep_Weight e)) <$> items.
Definition endpointDTOsFromRegistry (items : list Endpoint) : list EndpointDTO :=
  if bool_decide (items = []) then []
  else (λ e, MkEndpoint (ep_Name e) (ep_Protocol e) (ep_Host e) (ep_Port e) (ep_Path e) (ep_Weight e)) <$> items.
Definition registryRegisterInputFromDTO (r : RegisterRequestDTO) : RegisterInput :=
  MkRegisterInput (ri_Namespace r) (ri_Identity r) (ri_InstanceID r) (ri_Zone r) (ri_Labels r) (ri_Metadata r)
    (registryEndpointsFromDTO (ri_Endpoints r)) (ri_LeaseTTLSeconds r).

Section dto.
Context `{GoRange}.
(** [Some None]: filtered out; [None]: the panic of the label matcher. *)
Definition registryInstanceDTOFromValue (value : Value) (query : Query) (now : Z) : option (option RegistryInstanceDTO) :=
  if negb (IsAlive value now) then Some None
  else
    m ← MatchQuery value query;
    if negb m then Some None
    else
      let endpoints := if bool_decide (q_Endpoint query = []) then CloneEndpoints (v_Endpoints value)
                       else FilterEndpoints (v_Endpoints value) (q_Endpoint query) in
      if negb (bool_decide (q_Endpoint query = [])) && bool_decide (endpoints = []) then Some None
      else Some (Some (MkInstance (v_Namespace value) (v_Identity value) (v_InstanceID value) (v_Zone value)
             (CloneStringMap (v_Labels value)) (CloneStringMap (v_Metadata value)) (endpointDTOsFromRegistry endpoints)
             (EffectiveLeaseTTLSeconds (v_LeaseTTLSeconds value)) (v_RegisteredAtUnix value) (v_LastHeartbeatUnix value))).

(** The payload of an event, [None] if the query does not select it; the outer [None] is the panic.
    An upsert that the query does not select any more becomes a deletion. *)
Definition delete_payload (event : WatchEvent) : RegistryWatchEventDTO :=
  MkWatchDTO (we_Revision event) (lit "delete") (we_Namespace event)
    (MkIdentity (we_Service event) (default empty_dims (ParseServiceName (we_Service event)))) (we_InstanceID event) None [].
Definition registryWatchEventDTO (query : Query) (event : WatchEvent) (now : Z) : option (option RegistryWatchEventDTO) :=
  if negb (bool_decide (we_Namespace event = q_Namespace query)) || negb (MatchServiceQuery (we_Service event) query)
  then Some None
  else match we_Type event with
  | WatchEventUpsert =>
      match we_Value event with
      | Some value =>
          r ← registryInstanceDTOFromValue value query now;
          match r with
          | Some instance =>
              Some (Some (MkWatchDTO (we_Revision event) (lit "upsert") (we_Namespace event)
                (MkIdentity (we_Service event) (dims (in_Identity instance))) (we_InstanceID event) (Some instance) []))
          | None => Some (Some (delete_payload event))
          end
      | None => Some (Some (delete_payload event))
      end
  | WatchEventDelete => Some (Some (delete_payload event))
  end.
Definition replicationWatchEventDTO (query : Query) (sourceRegion sourceCluster : str) (event : WatchEvent)
    (exportedAt now : Z) : option (option ReplicationWatchEventDTO) :=
  match registryWatchEventDTO query event now with
  | None => None
  | Some r => Some (option_map (λ payload, MkReplicationDTO payload sourceRegion sourceCluster exportedAt) r)
  end.
End dto.

(** ** Lemmas *)
Lemma endpoints_copy (items : list Endpoint) : (λ e, MkEndpoint (ep_Name e) (ep_Protocol e) (ep_Host e) (ep_Port e) (ep_Path e) (ep_Weight e)) <$> items = items.
Proof. induction items as [|[]]; cbn; by f_equal. Qed.
Lemma registryEndpointsFromDTO_id items : registryEndpointsFromDTO items = items.
Proof. unfold registryEndpointsFromDTO. case_bool_decide; [done|apply endpoints_copy]. Qed.
Lemma endpointDTOsFromRegistry_id items : endpointDTOsFromRegistry items = items.
Proof. apply registryEndpointsFromDTO_id. Qed.
Lemma registryRegisterInputFromDTO_id r : registryRegisterInputFromDTO r = r.
Proof. destruct r. unfold registryRegisterInputFromDTO. cbn. by rewrite registryEndpointsFromDTO_id. Qed.

(** What a query shows of a value. *)
Section visible.
Context `{GoRange}.
Definition shown_endpoints (value : Value) (query : Query) : list Endpoint :=
  if bool_decide (q_Endpoint query = []) then v_Endpoints value
  else List.filter (λ e, bool_decide (ep_Name e = q_Endpoint query) || bool_decide (ep_Protocol e = q_Endpoint query)) (v_Endpoints value).
Definition instance_of (value : Value) (query : Query) : RegistryInstanceDTO :=
  MkInstance (v_Namespace value) (v_Identity value) (v_InstanceID value) (v_Zone value)
    (CloneStringMap (v_Labels value)) (CloneStringMap (v_Metadata value)) (shown_endpoints value query)
    (EffectiveLeaseTTLSeconds (v_LeaseTTLSeconds value)) (v_RegisteredAtUnix value) (v_LastHeartbeatUnix value).
Definition selects (query : Query) (now : Z) (value : Value) : bool :=
  IsAlive value now && bool_decide (MatchQuery value query = Some true).
Lemma registryInstanceDTOFromValue_spec value query now b :
  MatchQuery value query = Some b →
  registryInstanceDTOFromValue value query now = Some (if selects query now value then Some (instance_of value query) else None).
Proof.
  intros Hm. unfold registryInstanceDTOFromValue, selects. rewrite Hm. destruct (IsAlive value now); [|done]. cbn [negb andb].
  change (Some b ≫= ?f) with (f b). cbn beta. destruct b; cbn [negb]; [|by rewrite bool_decide_false].
  rewrite (bool_decide_true (Some true = Some true)) by done.
  assert (Hshown : (if bool_decide (q_Endpoint query = []) then CloneEndpoints (v_Endpoints value)
                    else FilterEndpoints (v_Endpoints value) (q_Endpoint query)) = shown_endpoints value query).
  { unfold shown_endpoints, FilterEndpoints. case_bool_decide; [apply CloneEndpoints_id|].
    change (map clone_endpoint ?l) with (CloneEndpoints l). by rewrite CloneEndpoints_id. }
  rewrite Hshown, endpointDTOsFromRegistry_id. destruct (negb _ && _) eqn:Hempty; [|done].
  exfalso. apply andb_true_iff in Hempty as [Hq%negb_true_iff He]. apply bool_decide_eq_true in He.
  apply bool_decide_eq_false in Hq.
  revert Hm. unfold MatchQuery. repeat (destruct (_ && _); [done|]). destruct (MatchServiceQuery _ _); [|done]. cbn [negb].
  destruct (_ && _); [done|]. destruct (MatchesLabelSelector _ _) as [[]|]; [|done|done].
  intros [= Hb]. rewrite (bool_decide_false (q_Endpoint query = [])) in Hb by done. cbn [negb andb] in Hb.
  rewrite <- Hshown, (bool_decide_false (q_Endpoint query = [])) in He by done. rewrite He in Hb. done.
Qed.
End visible.
