(* ===== verification/DataNode.v ===== *)
(** * What the handlers need of the node

    [registryNode] of [handlers_impl.go]: proposals, linearizable reads, the status.  The laws
    are the promises the handlers rely on: a read returns what the state machine holds when it
    returns, a proposal hands one command to raft, and reads propose nothing.  [raft_data_node]
    discharges them for the raft node over its pebble store. *)
From Stdlib Require Import Ascii ZArith.
From stdpp Require Import gmap strings list.
From S2P Require Import Prelude GoStrings Codec Wal Engine StateMachine Pebble Snapshot Raft RaftNode RaftReads Restart.

Class DataNode `{Json Command} (Nd E : Type) := {
  nd_ProposeCommand : Command → ST Nd E unit;
  nd_LinearizableRead : str → ST Nd E unit;
  nd_Get : str → ST Nd E str;
  nd_Scan : str → str → Z → ST Nd E (list KV);
  nd_Status : Nd → Status;
  (** What the state machine holds, and the data of the proposals made so far. *)
  nd_contents : Nd → gmap str str;
  nd_proposed : Nd → list str;
  nd_Propose_ok s cmd s' : nd_ProposeCommand cmd s = (s', Ok tt) →
    ∃ data, json_marshal cmd = Some data ∧ nd_proposed s' = nd_proposed s ++ [data];
  (** A proposal that is reported as failed may have been made all the same. *)
  nd_Propose_err s cmd s' e : nd_ProposeCommand cmd s = (s', Err e) → nd_proposed s' = nd_proposed s ∨
    ∃ data, json_marshal cmd = Some data ∧ nd_proposed s' = nd_proposed s ++ [data];
  nd_Read_quiet s ctx : nd_proposed (nd_LinearizableRead ctx s).1 = nd_proposed s;
  nd_Get_quiet s key : nd_proposed (nd_Get key s).1 = nd_proposed s;
  nd_Scan_quiet s start end_ limit : nd_proposed (nd_Scan start end_ limit s).1 = nd_proposed s;
  nd_Get_ok s key s' data : isMetaKey key = false → nd_Get key s = (s', Ok data) →
    data = default [] (nd_contents s' !! key);
  nd_Scan_ok s start end_ limit s' items :
    nd_Scan start end_ limit s = (s', Ok items) → items = spec_scan (nd_contents s') start end_ limit
}.

(** ** A node that answers at once: contents, proposals, status *)
Record Desk := MkDesk { dk_contents : gmap str str; dk_proposed : list str; dk_status : Status }.
#[refine] Definition desk_node `{Json Command} : DataNode Desk unit := {|
  nd_ProposeCommand cmd := λ s, match json_marshal cmd with
    | Some data => (MkDesk (dk_contents s) (dk_proposed s ++ [data]) (dk_status s), Ok tt)
    | None => (s, Err tt)
    end;
  nd_LinearizableRead _ := mret tt;
  nd_Get key := λ s, (s, Ok (default [] (dk_contents s !! key)));
  nd_Scan start end_ limit := λ s, (s, Ok (spec_scan (dk_contents s) start end_ limit));
  nd_Status := dk_status; nd_contents := dk_contents; nd_proposed := dk_proposed
|}.
Proof.
  - cbn; intros s cmd s' He. destruct (json_marshal cmd) as [data|]; [|done]. injection He as <-. by exists data.
  - cbn; intros s cmd s' e He. destruct (json_marshal cmd) as [data|]; [done|]. injection He as <-. by left.
  - done.
  - done.
  - done.
  - by intros s key s' data _ [= <- <-].
  - by intros s start end_ limit s' items [= <- <-].
Defined.

(** ** The raft node

    [outcome n ctx] is how the barrier of a read ends and what the ready loop has made of the
    node by then; the reads of the handlers run behind it. *)
Section raft.
Context `{Raftpb, !Raft, !RaftBehaviour, PebbleEngine, !Json Command}.
Context (outcome : RaftNode → str → RaftNode * result NodeErr unit).
Definition proposals (n : RaftNode) : list str :=
  omap (λ c, match c with CPropose data => Some data | _ => None end) (default [] (rn_node n)).
Context (outcome_quiet : ∀ n ctx, proposals (outcome n ctx).1 = proposals n).
Definition barrier_then {A} (ctx : str) (m : result NodeErr unit → N A) : N A := λ n,
  let '(n', r) := outcome n ctx in m r n'.
Lemma ProposeCommand_proposals cmd n n' r : ProposeCommand cmd n = (n', r) →
  proposals n' = proposals n ∧ r ≠ Ok tt ∨ ∃ data, json_marshal cmd = Some data ∧ proposals n' = proposals n ++ [data].
Proof.
  unfold ProposeCommand. destruct (json_marshal cmd) as [data|]; [|intros [= <- <-]; by left].
  unfold Propose, ensureRunning, mbind, ST_bind, st_get.
  destruct (rn_started n); cbn [negb]; [|intros [= <- <-]; by left].
  destruct (rn_stopped n); [intros [= <- <-]; by left|]. cbn [mret ST_ret]. unfold node_call.
  destruct (rn_node n) as [calls|] eqn:Hn; [|intros [= <- <-]; by left].
  intros [= <- _]. right. exists data. split; [done|]. unfold proposals. cbn [set_node rn_node]. rewrite Hn.
  cbn [default from_option id]. by rewrite omap_app.
Qed.
#[refine] Definition raft_data_node : DataNode RaftNode NodeErr := {|
  nd_ProposeCommand := ProposeCommand;
  nd_LinearizableRead ctx := λ n, outcome n ctx;
  nd_Get key := barrier_then key (λ barrier, node_Get barrier key);
  nd_Scan start end_ limit := barrier_then (scan_context start end_) (λ barrier, node_Scan barrier start end_ limit);
  nd_Status := rn_status; nd_contents n := business (store_map (rn_kv n)); nd_proposed := proposals
|}.
Proof.
  - intros n cmd n' He. destruct (ProposeCommand_proposals _ _ _ _ He) as [[_ Hne]|]; [done|done].
  - intros n cmd n' e He. destruct (ProposeCommand_proposals _ _ _ _ He) as [[-> _]|]; [by left|by right].
  - intros n ctx. apply outcome_quiet.
  - intros n key. unfold barrier_then. destruct (outcome n key) as [n' r] eqn:Ho.
    pose proof (outcome_quiet n key) as Hq. rewrite Ho in Hq. by destruct r.
  - intros n start end_ limit. unfold barrier_then. destruct (outcome n _) as [n' r] eqn:Ho.
    pose proof (outcome_quiet n (scan_context start end_)) as Hq. rewrite Ho in Hq. by destruct r.
  - intros n key n' data Hmeta. unfold barrier_then. destruct (outcome n key) as [n1 [[]|e]]; [|done].
    unfold node_Get, on_kv_read, mbind, ST_bind, st_lift. destruct (Pebble.Get _ _) as [v|] eqn:Hg; [|done].
    intros [= <- <-]. revert Hg. unfold Pebble.Get. rewrite business_lookup, Hmeta.
    unfold getDB. destruct (ps_open (rn_kv n1)); [|done]. cbn. destruct (pebble_get _ _) as [v'|] eqn:Hp; [|done].
    intros [= <-]. by rewrite (pebble_get_ok _ _ _ Hp).
  - intros n start end_ limit n' items. unfold barrier_then. destruct (outcome n _) as [n1 [[]|e]]; [|done].
    unfold node_Scan, on_kv_read, mbind, ST_bind, st_lift. destruct (Pebble.Scan _ _ _ _) as [v|] eqn:Hg; [|done].
    intros [= <- <-]. by apply Scan_spec.
Defined.
End raft.
