(* ===== verification/Http.v ===== *)
(** * The data plane ([internal/transport/http/handlers_impl.go])

    Registration, deregistration, heartbeats and queries, against the node interface of
    [DataNode].  A handler is a state transformer that ends with a response; an early return is
    the error of the monad.  Decoding a request body is a parameter ([json.Decoder] with unknown
    fields refused); messages for people and the request metrics are left out.  [now] is
    [time.Now().Unix()]. *)
From Stdlib Require Import Ascii ZArith Sorted.
From stdpp Require Import gmap strings list sorting.
From S2P Require Import Prelude GoStrings Selector RegistryModel ReplicationModel WatchHub Codec Engine StateMachine RaftNode AddressBook DataNode Dto.

Record Request := MkRequest { rq_Method : str; rq_Query : url_Values; rq_Body : str; rq_Header : str → str }.
Inductive Body :=
  | BodyNone
  | BodyMessage (message : str)
  | BodyInstances (instances : list RegistryInstanceDTO)
  | BodyTargets (groups : list PrometheusSDTargetGroupDTO)
  | BodyHealth (health : HealthResponseDTO)
  | BodyCluster (cluster : ClusterStatusDTO)
  | BodyReplication (items : list ReplicationStatusDTO)
  | BodyError (code : str)
  | BodyNotLeader (leaderID : Z) (leaderAddr : str).
Record Response := MkResponse { rsp_Status : Z; rsp_Body : Body }.
#[export] Instance Body_eq_dec : EqDecision Body.
Proof. solve_decision. Defined.
#[export] Instance Response_eq_dec : EqDecision Response.
Proof. solve_decision. Defined.
Definition StatusOK : Z := 200.
Definition StatusBadRequest : Z := 400.
Definition StatusUnauthorized : Z := 401.
Definition StatusNotFound : Z := 404.
Definition StatusMethodNotAllowed : Z := 405.
Definition StatusGone : Z := 410.
Definition StatusInternalServerError : Z := 500.
Definition StatusServiceUnavailable : Z := 503.
Definition writeError (status : Z) (code : string) : Response := MkResponse status (BodyError (lit code)).
Definition bad_request : Response := writeError StatusBadRequest "bad_request".
Definition writeNotLeader (leaderID : Z) (leaderAddr : str) : Response :=
  MkResponse StatusServiceUnavailable (BodyNotLeader leaderID leaderAddr).
Definition success (message : string) : Response := MkResponse StatusOK (BodyMessage (lit message)).

(** ** Ranges and parameters *)
Definition prefixUpperBound (prefix : str) : str := if bool_decide (prefix = []) then [] else prefix ++ [byte_ff].
Definition prefixRange (prefix : str) : str * str := if bool_decide (prefix = []) then ([], []) else (prefix, prefixUpperBound prefix).
Definition parseSinceRevision (raw : str) : option Z :=
  let raw := TrimSpace raw in if bool_decide (raw = []) then Some 0%Z else ParseUint raw.
Definition firstQueryValue (values : url_Values) (key : string) : str :=
  match url_all values key with v :: _ => v | [] => [] end.

Record RegistryAPI := MkRegistryAPI {
  h_httpAddr : str; h_book : AddressBook; h_sourceRegion : str; h_sourceCluster : str; h_replicateAuth : str; h_promSDAuth : str
}.

Section handlers.
Context `{DN : DataNode Nd E} `{GoRange, CaseTable, Json Value, Json ReplicatedValue}.
Context (decode_register : str → option RegisterRequestDTO) (decode_deregister : str → option DeregisterRequestDTO)
  (decode_heartbeat : str → option HeartbeatRequestDTO).
Abbreviation HM := (ST Nd Response).
(** [ServeHTTP]: the response, early or not. *)
Definition serve (handler : HM Response) (s : Nd) : Nd * Response :=
  let '(s, r) := handler s in (s, match r with Ok rsp => rsp | Err rsp => rsp end).
Definition or_respond {A} (rsp : Response) (m : ST Nd E A) : HM A := λ s,
  let '(s, r) := m s in (s, match r with Ok a => Ok a | Err _ => Err rsp end).
Definition guard_respond (b : bool) (rsp : Response) : HM unit := if b then mret tt else st_fail rsp.
Definition required {A} (o : option A) (rsp : Response) : HM A := match o with Some a => mret a | None => st_fail rsp end.

Definition allowMethod (r : Request) (method : string) : HM unit :=
  guard_respond (bool_decide (rq_Method r = lit method)) (MkResponse StatusMethodNotAllowed BodyNone).
Definition leaderHTTPAddr (h : RegistryAPI) (self leaderID : Z) : str :=
  if (leaderID =? 0)%Z then []
  else if (leaderID =? self)%Z then
    let addr := TrimSpace (HTTPAddr (h_book h) leaderID) in
    if bool_decide (addr = []) then h_httpAddr h else addr
  else HTTPAddr (h_book h) leaderID.
Definition is_leader (status : Status) : bool :=
  bool_decide (st_Role status = RoleLeader) && (st_LeaderID status =? st_NodeID status)%Z.
Definition ensureWritable (h : RegistryAPI) : HM unit :=
  s ← st_get;
  let status := nd_Status s in
  guard_respond (is_leader status)
    (writeNotLeader (st_LeaderID status) (leaderHTTPAddr h (st_NodeID status) (st_LeaderID status))).
Definition propose (cmd : Command) : HM unit :=
  or_respond (writeError StatusInternalServerError "propose_failed") (nd_ProposeCommand cmd).

(** ** Writes *)
Definition named (namespace service instanceID : str) : bool :=
  negb (bool_decide (namespace = [])) && negb (bool_decide (service = [])) && negb (bool_decide (instanceID = [])).
Definition Register (h : RegistryAPI) (now : Z) (r : Request) : HM Response :=
  allowMethod r "POST";;
  request ← required (decode_register (rq_Body r)) bad_request;
  match NormalizeRegisterInput (registryRegisterInputFromDTO request) with
  | Err _ => st_fail bad_request
  | Ok input =>
      guard_respond (named (ri_Namespace input) (Service (ri_Identity input)) (ri_InstanceID input)) bad_request;;
      ensureWritable h;;
      value ← required (json_marshal (NewValue input now)) (writeError StatusInternalServerError "marshal_failed");
      propose (MkCommand OperationPut (Key (ri_Namespace input) (Service (ri_Identity input)) (ri_InstanceID input)) value []);;
      mret (success "instance registered")
  end.
Definition Deregister (h : RegistryAPI) (r : Request) : HM Response :=
  allowMethod r "POST";;
  request ← required (decode_deregister (rq_Body r)) bad_request;
  let namespace := TrimSpace (dr_Namespace request) in
  let instanceID := TrimSpace (dr_InstanceID request) in
  match NormalizeStructuredServiceIdentity (dr_Identity request) with
  | Err _ => st_fail bad_request
  | Ok identity =>
      guard_respond (named namespace (Service identity) instanceID) bad_request;;
      ensureWritable h;;
      propose (MkCommand OperationDelete (Key namespace (Service identity) instanceID) [] []);;
      mret (success "instance deregistered")
  end.
(** What a heartbeat makes of the stored value. *)
Definition refreshed (existing : Value) (ttl now : Z) : Value :=
  let stored := v_LeaseTTLSeconds existing in
  let ttl := if (0 <? ttl)%Z then ttl else if (stored <=? 0)%Z then EffectiveLeaseTTLSeconds stored else stored in
  MkValue (v_Namespace existing) (v_Identity existing) (v_InstanceID existing) (v_Zone existing) (v_Labels existing)
    (v_Metadata existing) (v_Endpoints existing) ttl (v_RegisteredAtUnix existing) now.
(** The handler up to its read, and from the read on: other requests run in between. *)
Definition heartbeat_request (r : Request) : result Response (str * str * str * Z) :=
  match decode_heartbeat (rq_Body r) with
  | None => Err bad_request
  | Some request =>
      let namespace := TrimSpace (hr_Namespace request) in
      let instanceID := TrimSpace (hr_InstanceID request) in
      match NormalizeStructuredServiceIdentity (hr_Identity request) with
      | Err _ => Err bad_request
      | Ok identity =>
          if negb (named namespace (Service identity) instanceID) then Err bad_request
          else if (hr_LeaseTTLSeconds request <? 0)%Z then Err bad_request
          else Ok (namespace, Service identity, instanceID, hr_LeaseTTLSeconds request)
      end
  end.
Definition heartbeat_write (key current : str) (ttl now : Z) : HM Response :=
  guard_respond (negb (bool_decide (current = []))) (writeError StatusNotFound "not_found");;
  existing ← required (json_unmarshal (A:=Value) current) (writeError StatusInternalServerError "unmarshal_failed");
  value ← required (json_marshal (refreshed existing ttl now)) (writeError StatusInternalServerError "marshal_failed");
  propose (MkCommand OperationPut key value []);;
  mret (success "heartbeat accepted").
Definition Heartbeat (h : RegistryAPI) (now : Z) (r : Request) : HM Response :=
  allowMethod r "POST";;
  req ← st_lift (heartbeat_request r);
  let '(namespace, service, instanceID, ttl) := req in
  ensureWritable h;;
  let key := Key namespace service instanceID in
  current ← or_respond (writeError StatusInternalServerError "read_failed") (nd_Get key);
  heartbeat_write key current ttl now.

(** ** Queries

    The loop over the scanned items; [limit] 0 means no limit; [None] is the panic of the label
    matcher. *)
Definition limit_reached (limit : Z) (n : nat) : bool := (0 <? limit)%Z && (limit <=? Z.of_nat n)%Z.
Fixpoint collect (decode : KV → option Value) (query : Query) (now : Z) (items : list KV) (acc : list RegistryInstanceDTO) :
  option (list RegistryInstanceDTO) :=
  match items with
  | [] => Some acc
  | item :: items =>
      match decode item with
      | None => collect decode query now items acc
      | Some value =>
          match registryInstanceDTOFromValue value query now with
          | None => None
          | Some None => collect decode query now items acc
          | Some (Some instance) =>
              let acc := acc ++ [instance] in
              if limit_reached (q_Limit query) (length acc) then Some acc else collect decode query now items acc
          end
      end
  end.
Definition scan_prefix (query : Query) : str :=
  if negb (bool_decide (q_Service query = [])) && (length (q_Services query) <=? 1)%nat && (length (q_ServicePrefixes query) =? 0)%nat
  then ServicePrefix (q_Namespace query) (q_Service query) else NamespacePrefix (q_Namespace query).
Definition decode_local (item : KV) : option Value := json_unmarshal (kv_Value item).
Definition decode_replicated (query : Query) (item : KV) : option Value :=
  match ParseReplicatedKey (kv_Key item) with
  | Some (_, _, namespace, service, _) =>
      if negb (bool_decide (namespace = q_Namespace query)) || negb (MatchServiceQuery service query) then None
      else ToValue <$> json_unmarshal (kv_Value item)
  | None => None
  end.
(** A panic: the server drops the connection without a response. *)
Definition panics {A} (o : option A) : HM A := required o (MkResponse 0 BodyNone).
Definition scan_failed : Response := writeError StatusInternalServerError "scan_failed".
Definition queryReplicatedInstances (query : Query) (now : Z) : HM (list RegistryInstanceDTO) :=
  items ← or_respond scan_failed (nd_Scan ReplicationRootPrefix (prefixUpperBound ReplicationRootPrefix) 0);
  panics (collect (decode_replicated query) query now items []).
Definition QueryInstances (now : Z) (r : Request) : HM Response :=
  allowMethod r "GET";;
  match ParseQuery (rq_Query r) with
  | Err _ => st_fail bad_request
  | Ok query =>
      let '(start, end_) := prefixRange (scan_prefix query) in
      items ← or_respond scan_failed (nd_Scan start end_ 0);
      result ← panics (collect decode_local query now items []);
      result ← (if (length result =? 0)%nat then queryReplicatedInstances query now else mret result);
      mret (MkResponse StatusOK (BodyInstances result))
  end.
End handlers.

(** A read that is answered with its result has succeeded. *)
Lemma or_respond_inv {Nd E A} (rsp : Response) (m : ST Nd E A) s s' a : or_respond rsp m s = (s', Ok a) → m s = (s', Ok a).
Proof. unfold or_respond. destruct (m s) as [s1 [x|e]]; [by intros [= <- <-]|done]. Qed.
