(* ===== verification/QueryFacts.v ===== *)
(** * What queries return

    The scan of [QueryInstances] is narrowed to the keys of the service; on a well-kept registry
    (every instance under the key made of its own fields) the answer is that of the plain
    filter over everything the registry holds.  The write handlers keep the registry so. *)
From Stdlib Require Import Ascii ZArith Sorted.
From stdpp Require Import gmap strings list sorting.
From S2P Require Import Prelude GoStrings Selector RegistryModel ReplicationModel WatchHub Codec Engine StateMachine RaftNode AddressBook DataNode Dto Http.

(** ** The loop is a filter *)
Section collect.
Context `{GoRange, Json Value, Json ReplicatedValue}.
Definition pick (decode : KV → option Value) (query : Query) (now : Z) (item : KV) : option RegistryInstanceDTO :=
  value ← decode item; if selects query now value then Some (instance_of value query) else None.
Lemma collect_spec decode query now items acc :
  (∀ v, ∃ b, MatchQuery v query = Some b) → limit_reached (q_Limit query) (length acc) = false →
  collect decode query now items acc = Some (limited (q_Limit query) (acc ++ omap (pick decode query now) items)).
Proof.
  intros Hm. revert acc. induction items as [|item items IH]; intros acc Hacc.
  - cbn [collect omap list_omap]. rewrite app_nil_r. unfold limited, limit_reached in *.
    destruct (Z.ltb_spec 0 (q_Limit query)); [|done]. cbn [andb] in Hacc. apply Z.leb_gt in Hacc. rewrite take_ge by lia. done.
  - cbn [collect omap list_omap]. unfold pick at 1. destruct (decode item) as [value|]; cbn [mbind option_bind]; [|by apply IH].
    destruct (Hm value) as [b Hb]. rewrite (registryInstanceDTOFromValue_spec _ _ _ b) by done.
    destruct (selects query now value); [|by apply IH].
    destruct (limit_reached _ (length (acc ++ [_]))) eqn:Hl.
    + unfold limited, limit_reached in *. apply andb_true_iff in Hl as [Hpos Hle]. rewrite Hpos in *.
      cbn [andb] in Hacc. apply Z.leb_gt in Hacc. apply Z.leb_le in Hle. rewrite length_app in Hle. cbn [length] in Hle.
      f_equal. symmetry. change (?x :: omap ?f ?l) with ([x] ++ omap f l). rewrite app_assoc. apply (take_app_length' (acc ++ [_])).
      rewrite length_app. cbn [length]. lia.
    + rewrite IH by done. by rewrite <- app_assoc.
Qed.
End collect.

(** ** A well-kept registry *)
Section registry.
Context `{GoRange, Json Value}.
(** A field of a key: not blank, trimmed, without slash and without the byte 0xFF (which is no
    part of any UTF-8 text). *)
Definition key_field (s : str) : Prop := segment s ∧ trimmed s ∧ byte_ff ∉ s.
#[export] Instance key_field_dec s : Decision (key_field s) := _.
Definition keyed (v : Value) : Prop :=
  key_field (v_Namespace v) ∧ key_field (Service (v_Identity v)) ∧ key_field (v_InstanceID v).
Definition value_key (v : Value) : str := Key (v_Namespace v) (Service (v_Identity v)) (v_InstanceID v).
Definition registry_ok (m : gmap str str) : Prop :=
  ∀ k data v, m !! k = Some data → HasPrefix k RootPrefix = true → json_unmarshal data = Some v → keyed v ∧ k = value_key v.

Lemma Key_inj n s i n' s' i' : segment n → segment s → segment n' → segment s' →
  Key n s i = Key n' s' i' → n = n' ∧ s = s' ∧ i = i'.
Proof.
  intros [Hn _] [Hs _] [Hn' _] [Hs' _]. unfold Key. intros Heq%(inj (app _)). cbn [app] in Heq.
  apply slash_app_inj in Heq as [-> Heq]; [|done..]. apply slash_app_inj in Heq as [-> ->]; done.
Qed.
(** The reference answer: every instance of the registry that the query selects, in key order. *)
Definition registered (query : Query) (now : Z) (p : str * str) : option RegistryInstanceDTO :=
  if HasPrefix p.1 RootPrefix then pick decode_local query now (to_kv p) else None.
Definition answer (m : gmap str str) (query : Query) (now : Z) : list RegistryInstanceDTO :=
  limited (q_Limit query) (omap (registered query now) (sorted_items m)).

Lemma omap_filter {A B} (f g : A → option B) (P : A → Prop) `{∀ x, Decision (P x)} (l : list A) :
  (∀ x, x ∈ l → g x = if decide (P x) then f x else None) → omap f (filter P l) = omap g l.
Proof.
  induction l as [|x l IH]; intros Hg; [done|]. cbn [omap list_omap].
  rewrite (Hg x) by by left. rewrite <- IH by (intros y Hy; apply Hg; by right).
  destruct (decide (P x)) as [HP|HP]; [by rewrite filter_cons_True|by rewrite filter_cons_False].
Qed.
Lemma omap_fmap {A B C} (f : B → option C) (g : A → B) (l : list A) : omap f (g <$> l) = omap (f ∘ g) l.
Proof. induction l as [|x l IH]; [done|]. cbn. destruct (f (g x)); by rewrite <- IH. Qed.

Lemma prefix_in_range p k : p ≠ [] → in_range p (p ++ [byte_ff]) k ↔
  HasPrefix k p = true ∧ match drop (length p) k with c :: _ => c ≠ byte_ff | [] => True end.
Proof.
  intros Hp. rewrite <- prefix_range. unfold in_range. split; [|by intros []; split; right].
  intros [[|] [?%app_nil|]]; naive_solver.
Qed.
Lemma scan_prefix_root query : HasPrefix (scan_prefix query) RootPrefix = true.
Proof. unfold scan_prefix. destruct (_ && _); unfold ServicePrefix, NamespacePrefix; apply HasPrefix_app. Qed.
Lemma HasPrefix_trans a b c : HasPrefix a b = true → HasPrefix b c = true → HasPrefix a c = true.
Proof. intros [x ->]%HasPrefix_spec [y ->]%HasPrefix_spec. rewrite <- app_assoc. apply HasPrefix_app. Qed.
(** A selected instance is under the scanned prefix. *)
Lemma selected_prefix query now v : wf_query query → keyed v → selects query now v = true →
  ∃ rest, value_key v = scan_prefix query ++ rest ∧ byte_ff ∉ rest.
Proof.
  intros Hq (Hn&Hs&Hi) Hsel. apply andb_true_iff in Hsel as [_ Hm]. apply bool_decide_eq_true in Hm.
  assert (Hns : v_Namespace v = q_Namespace query ∧ MatchServiceQuery (Service (v_Identity v)) query = true).
  { revert Hm. unfold MatchQuery. destruct (wq_namespace _ Hq) as [_ Hne]. rewrite (bool_decide_false (q_Namespace query = [])) by done.
    cbn [negb andb]. case_bool_decide; cbn [negb]; [|done]. by destruct (MatchServiceQuery _ _). }
  destruct Hns as [Hns Hsvc]. unfold value_key, scan_prefix, Key, ServicePrefix, NamespacePrefix. rewrite Hns.
  destruct (wq_namespace _ Hq) as [Htrim _].
  destruct (negb (bool_decide (q_Service query = []))) eqn:Hne; cbn [andb].
  - assert (Heq : Service (v_Identity v) = q_Service query).
    { revert Hsvc. unfold MatchServiceQuery. rewrite Hne. destruct Hs as (_&Hst&_). rewrite Hst. cbn [andb].
      destruct (bool_decide (Service _ = q_Service query)) eqn:E; [by apply bool_decide_eq_true in E|]. cbn [negb]. by intros [=]. }
    destruct (_ && _).
    + exists (v_InstanceID v). rewrite Heq. split; [by rewrite <- !app_assoc|]. apply Hi.
    + rewrite Htrim. exists (Service (v_Identity v) ++ [ch_slash] ++ v_InstanceID v). split; [by rewrite <- !app_assoc|].
      destruct Hs as (_&_&?), Hi as (_&_&?). rewrite !elem_of_app, list_elem_of_singleton. intros [?|[?|?]]; try done.
  - rewrite Htrim. exists (Service (v_Identity v) ++ [ch_slash] ++ v_InstanceID v). split; [by rewrite <- !app_assoc|].
    destruct Hs as (_&_&?), Hi as (_&_&?). rewrite !elem_of_app, list_elem_of_singleton. intros [?|[?|?]]; try done.
Qed.
(** Narrowing the scan loses nothing. *)
Lemma narrowed_scan m query now : registry_ok m → wf_query query →
  omap (pick decode_local query now) (spec_scan m (prefixRange (scan_prefix query)).1 (prefixRange (scan_prefix query)).2 0) =
    omap (registered query now) (sorted_items m).
Proof.
  intros Hm Hq. assert (Hne : scan_prefix query ≠ []).
  { intros He. pose proof (scan_prefix_root query) as Hr. by rewrite He in Hr. }
  unfold prefixRange, prefixUpperBound. rewrite bool_decide_false by done. cbn [fst snd].
  unfold spec_scan, limited. cbn [Z.ltb Z.compare]. unfold range_items. rewrite omap_fmap. apply omap_filter.
  intros [k data] Hin%sorted_items_elem. unfold registered, compose. cbn [fst].
  unfold pick, decode_local, to_kv. cbn [kv_Value snd]. destruct (json_unmarshal data) as [v|] eqn:Hj; cbn [mbind option_bind].
  2: { by destruct (HasPrefix _ _), (decide _). }
  destruct (selects query now v) eqn:Hsel; [|by destruct (HasPrefix _ _), (decide _)].
  destruct (decide _) as [Hr|Hr]; rewrite prefix_in_range in Hr by done.
  - destruct Hr as [Hp _]. by rewrite (HasPrefix_trans _ _ _ Hp (scan_prefix_root query)).
  - destruct (HasPrefix k RootPrefix) eqn:Hroot; [|done]. destruct Hr. destruct (Hm k data v Hin Hroot Hj) as [Hk ->].
    destruct (selected_prefix query now v Hq Hk Hsel) as (rest&->&Hff). split; [apply HasPrefix_app|].
    rewrite drop_app_length. destruct rest as [|c rest]; [done|]. intros ->. apply Hff. by left.
Qed.
End registry.

(** ** Queries *)
Section queries.
Context `{DN : DataNode Nd E} `{GoRange, CaseTable, Json Value, Json ReplicatedValue}.
(** The copied instances of other regions that the query selects, in key order. *)
Definition replicated_answer (m : gmap str str) (query : Query) (now : Z) : list RegistryInstanceDTO :=
  limited (q_Limit query) (omap (pick (decode_replicated query) query now)
    (spec_scan m ReplicationRootPrefix (prefixUpperBound ReplicationRootPrefix) 0)).
Lemma limit_start query : limit_reached (q_Limit query) 0 = false.
Proof. unfold limit_reached. destruct (Z.ltb_spec 0 (q_Limit query)); [|done]. cbn. apply Z.leb_gt. lia. Qed.
Lemma or_respond_cases {A} rsp (m : ST Nd E A) s : ∃ s' r, or_respond rsp m s = (s', r) ∧
  match r with Ok a => m s = (s', Ok a) | Err x => x = rsp ∧ ∃ e, m s = (s', Err e) end.
Proof. unfold or_respond. destruct (m s) as [s' [a|e]] eqn:Hm; eexists s', _; (split; [done|]); [done|by split; [|by eexists]]. Qed.
Lemma queryReplicated_cases query now s : (∀ v, ∃ b, MatchQuery v query = Some b) →
  ∃ s' r, queryReplicatedInstances query now s = (s', r) ∧
    (r = Err scan_failed ∨ r = Ok (replicated_answer (nd_contents s') query now)) ∧ nd_proposed s' = nd_proposed s.
Proof.
  intros Hm. unfold queryReplicatedInstances, mbind, ST_bind.
  pose proof (nd_Scan_quiet s ReplicationRootPrefix (prefixUpperBound ReplicationRootPrefix) 0) as Hq.
  destruct (or_respond_cases scan_failed (nd_Scan ReplicationRootPrefix (prefixUpperBound ReplicationRootPrefix) 0) s)
    as (s'&[items|x]&->&Hr).
  - rewrite Hr in Hq. rewrite (collect_spec _ query now items [] Hm (limit_start query)). cbn [panics required app].
    eexists s', _. split; [done|]. split; [right|done]. unfold replicated_answer. by rewrite <- (nd_Scan_ok _ _ _ _ _ _ Hr).
  - destruct Hr as [-> [e He]]. rewrite He in Hq. eexists s', _. by split; [|split; [left|]].
Qed.

(** C14: On a well-kept registry a query is answered with exactly the live instances it selects, in
    key order and up to its limit, although only the keys of one service may be scanned; when
    there are none, with the copied instances of other regions.  Apart from a failed scan there
    is no other outcome, and a query proposes nothing. *)
Theorem QueryInstances_correct now r s query :
  (∀ start end_ limit, registry_ok (nd_contents (nd_Scan start end_ limit s).1)) → rq_Method r = lit "GET" → ParseQuery (rq_Query r) = Ok query →
  ∃ s1 s' rsp, serve (QueryInstances now r) s = (s', rsp) ∧ nd_proposed s' = nd_proposed s ∧
    (rsp = scan_failed ∨
     rsp = MkResponse StatusOK (BodyInstances
       match answer (nd_contents s1) query now with
       | [] => replicated_answer (nd_contents s') query now
       | found => found
       end)).
Proof.
  intros Hok Hget Hparse. destruct (ParseQuery_ok _ _ Hparse) as [Hwf Hmatch].
  assert (Hm : ∀ v, ∃ b, MatchQuery v query = Some b) by (intros v; destruct (Hmatch v) as (b&?&_); by exists b).
  unfold serve, QueryInstances, allowMethod, guard_respond. rewrite bool_decide_true by done.
  unfold mbind, ST_bind, mret, ST_ret. rewrite Hparse.
  destruct (prefixRange (scan_prefix query)) as [start end_] eqn:Hrange.
  pose proof (nd_Scan_quiet s start end_ 0) as Hq.
  destruct (or_respond_cases scan_failed (nd_Scan start end_ 0) s) as (s1&[items|x]&->&Hr).
  2: { destruct Hr as [-> [e He]]. rewrite He in Hq. exists s1, s1, scan_failed. by split; [|split; [|left]]. }
  assert (Hok1 : registry_ok (nd_contents s1)) by (specialize (Hok start end_ 0%Z); by rewrite Hr in Hok).
  rewrite Hr in Hq. rewrite (collect_spec _ query now items [] Hm (limit_start query)). cbn [panics required mret ST_ret app].
  assert (Hans : limited (q_Limit query) (omap (pick decode_local query now) items) = answer (nd_contents s1) query now).
  { unfold answer. rewrite <- (narrowed_scan _ _ _ Hok1 Hwf). rewrite Hrange. cbn [fst snd].
    by rewrite (nd_Scan_ok _ _ _ _ _ _ Hr). }
  rewrite Hans. exists s1. destruct (answer _ query now) as [|i insts] eqn:Ha; cbn [length Nat.eqb].
  - destruct (queryReplicated_cases query now s1 Hm) as (s'&r'&->&Hcases&Hq'). exists s'.
    destruct Hcases as [-> | ->]; eexists; (split; [done|]); (split; [cbn [fst] in Hq; congruence|first [by left|by right]]).
  - exists s1. eexists. split; [done|]. split; [done|by right].
Qed.
End queries.
