(* ===== verification/WriteFacts.v ===== *)
(** * What writes do

    Registration, deregistration and heartbeats: the one command they propose, and what the
    registry answers once that command is applied. *)
From Stdlib Require Import Ascii ZArith Sorted.
From stdpp Require Import gmap strings list sorting.
From S2P Require Import Prelude GoStrings Selector RegistryModel ReplicationModel WatchHub Codec Engine StateMachine Pebble RaftNode AddressBook DataNode Dto Http QueryFacts.

Section writes.
Context `{DN : DataNode Nd E} `{GoRange, CaseTable, Json Value, Json ReplicatedValue}.
Context (decode_register : str → option RegisterRequestDTO) (decode_deregister : str → option DeregisterRequestDTO)
  (decode_heartbeat : str → option HeartbeatRequestDTO).

(** ** The monad of the handlers *)
Lemma serve_status (handler : ST Nd Response Response) s s' rsp : serve handler s = (s', rsp) →
  handler s = (s', Ok rsp) ∨ handler s = (s', Err rsp).
Proof. unfold serve. destruct (handler s) as [? []]; intros [= <- <-]; tauto. Qed.
Lemma guard_inv {B} b rsp (k : unit → ST Nd Response B) s s' r :
  (guard_respond b rsp ≫= k) s = (s', r) → b = false ∧ s' = s ∧ r = Err rsp ∨ b = true ∧ k tt s = (s', r).
Proof. unfold guard_respond, mbind, ST_bind. destruct b; [by right|]. intros [= <- <-]. by left. Qed.
Lemma required_inv {A B} (o : option A) rsp (k : A → ST Nd Response B) s s' r :
  (required o rsp ≫= k) s = (s', r) → o = None ∧ s' = s ∧ r = Err rsp ∨ ∃ a, o = Some a ∧ k a s = (s', r).
Proof. unfold required, mbind, ST_bind. destruct o as [a|]; [right; by exists a|]. intros [= <- <-]. by left. Qed.
Lemma writable_inv {B} h (k : unit → ST Nd Response B) s s' r :
  (ensureWritable h ≫= k) s = (s', r) →
    is_leader (nd_Status s) = false ∧ s' = s ∧
      r = Err (writeNotLeader (st_LeaderID (nd_Status s)) (leaderHTTPAddr h (st_NodeID (nd_Status s)) (st_LeaderID (nd_Status s)))) ∨
    is_leader (nd_Status s) = true ∧ k tt s = (s', r).
Proof.
  unfold ensureWritable, mbind, ST_bind, st_get. unfold guard_respond. destruct (is_leader _); [by right|].
  intros [= <- <-]. by left.
Qed.
(** What a proposal hands to raft. *)
Definition handed (s s' : Nd) (cmd : Command) : Prop :=
  ∃ bytes, json_marshal cmd = Some bytes ∧ nd_proposed s' = nd_proposed s ++ [bytes].
Lemma propose_inv {B} cmd (k : unit → ST Nd Response B) s s' r :
  (propose cmd ≫= k) s = (s', r) →
    r = Err (writeError StatusInternalServerError "propose_failed") ∧ (nd_proposed s' = nd_proposed s ∨ handed s s' cmd) ∨
    ∃ s1, handed s s1 cmd ∧ k tt s1 = (s', r).
Proof.
  unfold propose, or_respond, mbind, ST_bind. destruct (nd_ProposeCommand cmd s) as [s1 [[]|e]] eqn:Hp.
  - intros Hk. right. exists s1. split; [|done]. by apply nd_Propose_ok in Hp.
  - intros [= <- <-]. left. split; [done|]. by apply nd_Propose_err in Hp.
Qed.
Lemma get_inv {B} key (k : str → ST Nd Response B) s s' r :
  isMetaKey key = false →
  (or_respond (writeError StatusInternalServerError "read_failed") (nd_Get key) ≫= k) s = (s', r) →
    r = Err (writeError StatusInternalServerError "read_failed") ∧ nd_proposed s' = nd_proposed s ∨
    ∃ s1, nd_proposed s1 = nd_proposed s ∧ k (default [] (nd_contents s1 !! key)) s1 = (s', r).
Proof.
  intros Hmeta. unfold or_respond, mbind, ST_bind. pose proof (nd_Get_quiet s key) as Hq.
  destruct (nd_Get key s) as [s1 [data|e]] eqn:Hg; cbn [fst] in Hq.
  - intros Hk. right. exists s1. split; [done|]. by rewrite <- (nd_Get_ok _ _ _ _ Hmeta Hg).
  - intros [= <- <-]. by left.
Qed.

(** ** The registry after a write *)
Lemma value_key_root v : HasPrefix (value_key v) RootPrefix = true.
Proof. apply HasPrefix_app. Qed.
Lemma Key_meta n s i : isMetaKey (Key n s i) = false.
Proof. rewrite isMetaKey_HasPrefix. done. Qed.
Lemma put_keeps m v data : registry_ok m → keyed v → json_unmarshal data = Some v →
  registry_ok (<[value_key v := data]> m).
Proof.
  intros Hm Hk Hj k d w [[<- <-]|[Hne Hl]]%lookup_insert_Some Hroot Hw; [|by apply (Hm k d w)].
  rewrite Hj in Hw. injection Hw as <-. done.
Qed.
Lemma delete_keeps m k : registry_ok m → registry_ok (delete k m).
Proof. intros Hm k' d w [_ Hl]%lookup_delete_Some. by apply Hm. Qed.
Lemma answer_elem m query now inst : q_Limit query = 0%Z →
  inst ∈ answer m query now ↔ ∃ k data v, m !! k = Some data ∧ HasPrefix k RootPrefix = true ∧
    json_unmarshal data = Some v ∧ selects query now v = true ∧ inst = instance_of v query.
Proof.
  intros Hl. unfold answer, limited. rewrite Hl. cbn [Z.ltb Z.compare]. rewrite list_elem_of_omap. split.
  - intros ([k data]&Hin%sorted_items_elem&Hr). unfold registered in Hr. cbn [fst] in Hr.
    destruct (HasPrefix k RootPrefix) eqn:Hroot; [|done]. unfold pick, decode_local in Hr. cbn [to_kv kv_Value snd] in Hr.
    destruct (json_unmarshal data) as [v|] eqn:Hj; [|done]. cbn [mbind option_bind] in Hr.
    destruct (selects query now v) eqn:Hs; [|done]. injection Hr as <-. by exists k, data, v.
  - intros (k&data&v&Hin&Hroot&Hj&Hs&->). exists (k, data). split; [by apply sorted_items_elem|].
    unfold registered. cbn [fst]. rewrite Hroot. unfold pick, decode_local. cbn [to_kv kv_Value snd]. rewrite Hj.
    cbn [mbind option_bind]. by rewrite Hs.
Qed.
(** An upper part of [answer] whatever the limit. *)
Lemma answer_sound m query now inst : inst ∈ answer m query now →
  ∃ k data v, m !! k = Some data ∧ HasPrefix k RootPrefix = true ∧ json_unmarshal data = Some v ∧ inst = instance_of v query.
Proof.
  unfold answer, limited. intros Hin.
  assert (Hin' : inst ∈ omap (registered query now) (sorted_items m)).
  { destruct (0 <? q_Limit query)%Z; [|done]. by apply elem_of_take in Hin as (?&?%list_elem_of_lookup_2&_). }
  apply list_elem_of_omap in Hin' as ([k data]&Hin'%sorted_items_elem&Hr). unfold registered in Hr. cbn [fst] in Hr.
  destruct (HasPrefix k RootPrefix) eqn:Hroot; [|done]. unfold pick, decode_local in Hr. cbn [to_kv kv_Value snd] in Hr.
  destruct (json_unmarshal data) as [v|] eqn:Hj; [|done]. cbn [mbind option_bind] in Hr.
  destruct (selects query now v); [|done]. injection Hr as <-. by exists k, data, v.
Qed.
Lemma alive_until v now now' : v_LastHeartbeatUnix v = now → (0 < now)%Z → (0 < now')%Z →
  (now' ≤ now + EffectiveLeaseTTLSeconds (v_LeaseTTLSeconds v))%Z → (now + EffectiveLeaseTTLSeconds (v_LeaseTTLSeconds v) < 2 ^ 63)%Z →
  IsAlive v now' = true.
Proof.
  intros Hl Hn Hn' Hle Hov. assert (Hseen : last_seen v = now) by (unfold last_seen; rewrite Hl; by replace (now <=? 0)%Z with false by lia).
  apply IsAlive_spec; rewrite ?Hseen; lia.
Qed.

(** ** Registration *)
Definition registers (input : RegisterInput) (now : Z) (data : str) : Command :=
  MkCommand OperationPut (value_key (NewValue input now)) data [].

(** C13: A registration that is answered with success has handed exactly one command to raft, on the
    leader.  Applied to any well-kept registry, that command keeps it well kept, and from then until
    the lease runs out every query that matches the instance returns it. *)
Theorem Register_visible h now r s s' rsp :
  serve (Register decode_register h now r) s = (s', rsp) → rsp_Status rsp = StatusOK →
  ∃ request input data, decode_register (rq_Body r) = Some request ∧ NormalizeRegisterInput request = Ok input ∧
    json_marshal (NewValue input now) = Some data ∧ is_leader (nd_Status s) = true ∧
    handed s s' (registers input now data) ∧
    (keyed (NewValue input now) → json_faithful (NewValue input now) → ∀ m, registry_ok m →
       registry_ok (spec_apply m (registers input now data)) ∧
       ∀ query now', q_Limit query = 0%Z → MatchQuery (NewValue input now) query = Some true →
         (0 < now)%Z → (0 < now' ≤ now + ri_LeaseTTLSeconds input)%Z → (now + ri_LeaseTTLSeconds input < 2 ^ 63)%Z →
         instance_of (NewValue input now) query ∈ answer (spec_apply m (registers input now data)) query now').
Proof.
  intros Hserve Hstatus. apply serve_status in Hserve. assert (Hrun : ∃ r', Register decode_register h now r s = (s', r') ∧
    match r' with Ok x | Err x => x = rsp end) by (destruct Hserve; by eexists).
  clear Hserve. destruct Hrun as (r'&Hrun&Hr'). unfold Register, allowMethod in Hrun.
  apply guard_inv in Hrun as [(_&->&->)|[_ Hrun]]; [by subst rsp|].
  apply required_inv in Hrun as [(_&->&->)|(request&Hreq&Hrun)]; [by subst rsp|].
  rewrite registryRegisterInputFromDTO_id in Hrun.
  destruct (NormalizeRegisterInput request) as [input|e] eqn:Hnorm; [|injection Hrun as <- <-; by subst rsp].
  apply guard_inv in Hrun as [(_&->&->)|[_ Hrun]]; [by subst rsp|].
  apply writable_inv in Hrun as [(_&->&->)|[Hlead Hrun]]; [by subst rsp|].
  apply required_inv in Hrun as [(_&->&->)|(data&Hdata&Hrun)]; [by subst rsp|].
  apply propose_inv in Hrun as [[-> _]|(s1&Hh&Hrun)]; [by subst rsp|]. injection Hrun as <- _.
  exists request, input, data. split_and!; try done. intros Hk Hf m Hm.
  assert (Hback : json_unmarshal data = Some (NewValue input now)).
  { destruct (json_roundtrip _ Hf) as (data'&Hd&Hu). congruence. }
  split; [by apply put_keeps|]. intros query now' Hlim Hmatch Hn Hn' Hov. apply answer_elem; [done|].
  exists (value_key (NewValue input now)), data, (NewValue input now). split_and!; [|apply value_key_root|done| |done].
  - cbn. by rewrite lookup_insert_eq.
  - unfold selects. rewrite Hmatch, bool_decide_true, andb_true_r by done.
    destruct (NormalizeRegisterInput_ok _ _ Hnorm) as [Hwf _]. pose proof (wf_ttl _ Hwf).
    assert (Httl : EffectiveLeaseTTLSeconds (v_LeaseTTLSeconds (NewValue input now)) = ri_LeaseTTLSeconds input)
      by (cbn [NewValue v_LeaseTTLSeconds]; by rewrite !EffectiveLeaseTTLSeconds_id by (rewrite ?EffectiveLeaseTTLSeconds_id; lia)).
    apply (alive_until _ now); rewrite ?Httl; done || lia.
Qed.

(** ** Deregistration *)
(** The items of a registry without one key. *)
Lemma sorted_items_delete m k : sorted_items (delete k m) = filter (λ p : str * str, p.1 ≠ k) (sorted_items m).
Proof.
  clear decode_register decode_deregister decode_heartbeat.
  apply sorted_unique; [apply sorted_items_sorted|apply StronglySorted_filter, sorted_items_sorted|].
  intros [k' d]. rewrite list_elem_of_filter, !sorted_items_elem, lookup_delete_Some. cbn. naive_solver.
Qed.
Lemma omap_filter_image {A B} (f : A → option B) (P : A → Prop) `{∀ x, Decision (P x)} (q : B → bool) (l : list A) :
  (∀ x y, x ∈ l → f x = Some y → P x ↔ q y = true) → omap f (filter P l) = List.filter q (omap f l).
Proof.
  induction l as [|x l IH]; intros Hf; [done|]. rewrite filter_cons. cbn [omap list_omap].
  assert (Hl : omap f (filter P l) = List.filter q (omap f l)) by (apply IH; intros; apply Hf; [by right|done]).
  specialize (Hf x). change (list_omap A B) with (@omap list _ A B) in *. destruct (f x) as [y|] eqn:Hx.
  - specialize (Hf y ltac:(by left) eq_refl). cbn [List.filter]. destruct (decide (P x)) as [HP|HP]; cbn [omap list_omap].
    + rewrite Hx, (proj1 Hf HP). by f_equal.
    + destruct (q y); [by destruct HP; apply Hf|done].
  - destruct (decide (P x)); [|done]. cbn [omap list_omap]. by rewrite Hx.
Qed.
(** The instance a deregistration names. *)
Definition named_by (namespace service instanceID : str) (inst : RegistryInstanceDTO) : bool :=
  bool_decide ((in_Namespace inst, Service (in_Identity inst), in_InstanceID inst) = (namespace, service, instanceID)).
Lemma answer_delete m query now n s i : registry_ok m → segment n → segment s → q_Limit query = 0%Z →
  answer (delete (Key n s i) m) query now = List.filter (λ inst, negb (named_by n s i inst)) (answer m query now).
Proof.
  clear decode_register decode_deregister decode_heartbeat.
  intros Hm Hn Hs Hl. unfold answer, limited. rewrite Hl. cbn [Z.ltb Z.compare]. rewrite sorted_items_delete.
  apply omap_filter_image. intros [k data] inst Hin%sorted_items_elem Hr. unfold registered in Hr. cbn [fst] in *.
  destruct (HasPrefix k RootPrefix) eqn:Hroot; [|done]. unfold pick, decode_local in Hr. cbn [to_kv kv_Value snd] in Hr.
  destruct (json_unmarshal data) as [v|] eqn:Hj; [|done]. cbn [mbind option_bind] in Hr. destruct (selects query now v); [|done].
  injection Hr as <-. destruct (Hm k data v Hin Hroot Hj) as [(Hvn&Hvs&_) ->]. unfold named_by. rewrite negb_true_iff, bool_decide_eq_false.
  cbn [instance_of in_Namespace in_Identity in_InstanceID]. unfold value_key. split.
  - intros Hne [= E1 E2 E3]. by rewrite E1, E2, E3 in Hne.
  - intros Hne Ekey. apply Hne. apply Key_inj in Ekey as (->&->&->); [done|apply Hvn|apply Hvs|done|done].
Qed.
Definition deregisters (namespace service instanceID : str) : Command :=
  MkCommand OperationDelete (Key namespace service instanceID) [] [].
Lemma early {Q : Prop} (handler : ST Nd Response Response) s s' rsp :
  serve handler s = (s', rsp) →
  (∀ r', handler s = (s', r') → match r' with Ok x | Err x => x = rsp end → Q) → Q.
Proof. intros [Hs|Hs]%serve_status Hk; by eapply Hk. Qed.

(** C19: A deregistration that is answered with success has handed one delete command to raft.  Once
    it is applied no other key has changed, and a well-kept registry is still well kept: no query
    returns an instance of that name, and a query without a limit answers as before without it
    (where namespace and service have no slash: with one the key may be that of another instance). *)
Theorem Deregister_hides h r s s' rsp :
  serve (Deregister decode_deregister h r) s = (s', rsp) → rsp_Status rsp = StatusOK →
  ∃ request identity, decode_deregister (rq_Body r) = Some request ∧
    NormalizeStructuredServiceIdentity (dr_Identity request) = Ok identity ∧ is_leader (nd_Status s) = true ∧
    let namespace := TrimSpace (dr_Namespace request) in
    let instanceID := TrimSpace (dr_InstanceID request) in
    handed s s' (deregisters namespace (Service identity) instanceID) ∧
    ∀ m, let m' := spec_apply m (deregisters namespace (Service identity) instanceID) in
      m' !! Key namespace (Service identity) instanceID = None ∧
      (∀ k, k ≠ Key namespace (Service identity) instanceID → m' !! k = m !! k) ∧
      (registry_ok m → registry_ok m' ∧
        (∀ query now inst, inst ∈ answer m' query now → named_by namespace (Service identity) instanceID inst = false) ∧
        (segment namespace → segment (Service identity) → ∀ query now, q_Limit query = 0%Z →
          answer m' query now = List.filter (λ inst, negb (named_by namespace (Service identity) instanceID inst)) (answer m query now))).
Proof.
  intros Hserve Hstatus. apply (early _ _ _ _ Hserve). clear Hserve. intros r' Hrun Hr'.
  unfold Deregister, allowMethod in Hrun.
  apply guard_inv in Hrun as [(_&->&->)|[_ Hrun]]; [by subst rsp|].
  apply required_inv in Hrun as [(_&->&->)|(request&Hreq&Hrun)]; [by subst rsp|]. cbn zeta in Hrun.
  destruct (NormalizeStructuredServiceIdentity _) as [identity|e] eqn:Hnorm; [|injection Hrun as <- <-; by subst rsp].
  apply guard_inv in Hrun as [(_&->&->)|[_ Hrun]]; [by subst rsp|].
  apply writable_inv in Hrun as [(_&->&->)|[Hlead Hrun]]; [by subst rsp|].
  apply propose_inv in Hrun as [[-> _]|(s1&Hh&Hrun)]; [by subst rsp|]. injection Hrun as <- _.
  exists request, identity. split_and!; try done. cbn zeta. split; [done|]. intros m. cbn [spec_apply deregisters cmd_Operation cmd_Key].
  split; [apply lookup_delete_eq|]. split; [intros k Hk; by apply lookup_delete_ne|]. intros Hm. split; [by apply delete_keeps|].
  split; [|intros; by apply answer_delete].
  intros query now inst (k&data&v&Hl&Hroot&Hj&->)%answer_sound. apply bool_decide_eq_false. intros [= Hns Hsvc Hid].
  apply lookup_delete_Some in Hl as [Hne Hl].
  apply Hne. cbn [instance_of in_Namespace in_Identity in_InstanceID] in *.
  destruct (Hm k data v Hl Hroot Hj) as [_ ->]. unfold value_key. by rewrite Hns, Hsvc, Hid.
Qed.

(** ** Heartbeats *)
Definition refresh_command (key : str) (data : str) : Command := MkCommand OperationPut key data [].
Lemma heartbeat_write_inv key current ttl now s s' r : heartbeat_write key current ttl now s = (s', r) →
  current = [] ∧ s' = s ∧ r = Err (writeError StatusNotFound "not_found") ∨
  current ≠ [] ∧ ((∃ code, r = Err (writeError StatusInternalServerError code)) ∨
  ∃ existing data, json_unmarshal (A:=Value) current = Some existing ∧ json_marshal (refreshed existing ttl now) = Some data ∧
    handed s s' (refresh_command key data) ∧ r = Ok (success "heartbeat accepted")).
Proof.
  unfold heartbeat_write. intros Hrun.
  apply guard_inv in Hrun as [(Hb&->&->)|[Hb Hrun]].
  { left. apply negb_false_iff, bool_decide_eq_true in Hb. done. }
  right. apply negb_true_iff, bool_decide_eq_false in Hb. split; [done|].
  apply required_inv in Hrun as [(_&->&->)|(existing&Hex&Hrun)]; [left; by eexists|].
  apply required_inv in Hrun as [(_&->&->)|(data&Hdata&Hrun)]; [left; by eexists|].
  apply propose_inv in Hrun as [[-> _]|(s2&Hh&Hrun)]; [left; by eexists|]. injection Hrun as <- <-.
  right. by exists existing, data.
Qed.
Lemma refreshed_ttl existing ttl now : (0 ≤ ttl)%Z → (0 < v_LeaseTTLSeconds (refreshed existing ttl now))%Z.
Proof.
  intros Ht. cbn [refreshed v_LeaseTTLSeconds]. destruct (Z.ltb_spec 0 ttl); [done|].
  destruct (Z.leb_spec (v_LeaseTTLSeconds existing) 0); [apply EffectiveLeaseTTLSeconds_pos|done].
Qed.

(** What a heartbeat may change: the lease, when it brings one or none was set, and the sign of life. *)
Definition renews (old : Value) (ttl now : Z) (new : Value) : Prop :=
  (v_Namespace new, v_Identity new, v_InstanceID new, v_Zone new, v_Labels new, v_Metadata new, v_Endpoints new, v_RegisteredAtUnix new) =
    (v_Namespace old, v_Identity old, v_InstanceID old, v_Zone old, v_Labels old, v_Metadata old, v_Endpoints old, v_RegisteredAtUnix old) ∧
  v_LastHeartbeatUnix new = now ∧
  ((0 < ttl)%Z → v_LeaseTTLSeconds new = ttl) ∧
  ((ttl ≤ 0 < v_LeaseTTLSeconds old)%Z → v_LeaseTTLSeconds new = v_LeaseTTLSeconds old) ∧
  ((ttl ≤ 0)%Z → (v_LeaseTTLSeconds old ≤ 0)%Z → v_LeaseTTLSeconds new = DefaultLeaseTTLSeconds).
Lemma refreshed_renews old ttl now : renews old ttl now (refreshed old ttl now).
Proof.
  split; [done|]. split; [done|]. cbn [refreshed v_LeaseTTLSeconds]. unfold EffectiveLeaseTTLSeconds.
  destruct (Z.ltb_spec 0 ttl), (Z.leb_spec (v_LeaseTTLSeconds old) 0), (Z.ltb_spec 0 (v_LeaseTTLSeconds old)); (split; [|split]); intros; done || lia.
Qed.

(** C18: A heartbeat that is answered with success renews the lease of the stored instance and changes
    nothing else of it; the registry stays well kept, and the instance is alive until the lease
    has passed since the heartbeat.  It answers not-found exactly when the read found nothing,
    and then proposes nothing. *)
Theorem Heartbeat_correct h now r s s' rsp namespace service instanceID ttl :
  rq_Method r = lit "POST" → heartbeat_request decode_heartbeat r = Ok (namespace, service, instanceID, ttl) →
  is_leader (nd_Status s) = true → (0 ≤ ttl)%Z →
  serve (Heartbeat decode_heartbeat h now r) s = (s', rsp) →
  rsp_Status rsp = StatusInternalServerError ∨
  ∃ s1, nd_proposed s1 = nd_proposed s ∧
    match default [] (nd_contents s1 !! Key namespace service instanceID) with
    | [] => rsp = writeError StatusNotFound "not_found" ∧ s' = s1
    | current => ∃ existing data, json_unmarshal current = Some existing ∧ rsp = success "heartbeat accepted" ∧
        renews existing ttl now (refreshed existing ttl now) ∧ json_marshal (refreshed existing ttl now) = Some data ∧
        handed s1 s' (refresh_command (Key namespace service instanceID) data) ∧
        (∀ m, registry_ok (nd_contents s1) → registry_ok m → json_faithful (refreshed existing ttl now) →
           registry_ok (spec_apply m (refresh_command (Key namespace service instanceID) data))) ∧
        ∀ now', (0 < now)%Z → (0 < now' ≤ now + v_LeaseTTLSeconds (refreshed existing ttl now))%Z →
          (now + v_LeaseTTLSeconds (refreshed existing ttl now) < 2 ^ 63)%Z → IsAlive (refreshed existing ttl now) now' = true
    end.
Proof.
  intros Hpost Hreq Hlead Httl Hserve. apply (early _ _ _ _ Hserve). clear Hserve. intros r' Hrun Hr'.
  unfold Heartbeat, allowMethod in Hrun. apply guard_inv in Hrun as [(Hb&_&_)|[_ Hrun]].
  { apply bool_decide_eq_false in Hb. done. }
  rewrite Hreq in Hrun. unfold mbind at 1, ST_bind at 1, st_lift in Hrun. cbn [map_err] in Hrun.
  apply writable_inv in Hrun as [(Hb&_&_)|[_ Hrun]]; [congruence|].
  apply get_inv in Hrun as [[-> _]|(s1&Hq&Hrun)]; [by subst rsp; left| |apply Key_meta].
  destruct (default [] _) as [|c cs] eqn:Hcur.
  - apply heartbeat_write_inv in Hrun as [(_&->&->)|[? _]]; [right|done].
    exists s1. rewrite Hcur. by subst rsp.
  - apply heartbeat_write_inv in Hrun as [(?&_)|[_ [[? ->]|(existing&data&Hex&Hdata&Hh&->)]]]; [done|by subst rsp; left|].
    right. exists s1. rewrite Hcur. subst rsp. split; [done|]. exists existing, data.
    split; [done|split; [done|split; [apply refreshed_renews|split; [done|split; [done|split]]]]].
    + intros m Hm1 Hm Hf. destruct (json_roundtrip _ Hf) as (data'&Hd&Hu).
      assert (Hl : nd_contents s1 !! Key namespace service instanceID = Some (c :: cs)).
      { destruct (nd_contents s1 !! _) as [x|]; [|done]. cbn in Hcur. by rewrite Hcur. }
      destruct (Hm1 _ _ _ Hl (HasPrefix_app _ _) Hex) as [Hk Hkey]. rewrite Hkey. cbn [spec_apply refresh_command cmd_Operation cmd_Key cmd_Value].
      change (value_key existing) with (value_key (refreshed existing ttl now)). apply put_keeps; [done|done|rewrite Hd in Hdata; by injection Hdata as <-].
    + intros now' Hn Hn' Hov. pose proof (refreshed_ttl existing ttl now Httl).
      apply (alive_until _ now); rewrite ?EffectiveLeaseTTLSeconds_id by done; done || lia.
Qed.

(** The write of a heartbeat is unconditional: whatever another request had committed to the
    instance since the heartbeat read it - its deregistration, a new registration - is undone
    when the heartbeat's command is applied behind it. *)
Theorem heartbeat_resurrects key current existing ttl now s s' rsp :
  current ≠ [] → json_unmarshal current = Some existing →
  serve (heartbeat_write key current ttl now) s = (s', rsp) → rsp_Status rsp = StatusOK →
  ∃ data, json_marshal (refreshed existing ttl now) = Some data ∧ handed s s' (refresh_command key data) ∧
    ∀ m other, cmd_Key other = key →
      spec_apply (spec_apply m other) (refresh_command key data) !! key = Some data.
Proof.
  intros Hne Hex Hserve Hstatus. apply (early _ _ _ _ Hserve). clear Hserve. intros r' Hrun Hr'.
  apply heartbeat_write_inv in Hrun as [(?&_)|[_ [[? ->]|(existing'&data&Hex'&Hdata&Hh&->)]]]; [done|by subst rsp|].
  assert (existing' = existing) as -> by congruence. exists data. split_and!; [done|done|].
  intros m other _. cbn. by rewrite lookup_insert_eq.
Qed.
End writes.
