(* ===== verification/Samples.v ===== *)
(** * Codecs over a table of samples

    An instance of [Json] for any type with decidable equality: the values of a finite table are
    the faithful ones, each is written as its position.  Witnesses instantiate the serialisation
    interfaces with it. *)
From Stdlib Require Import Ascii ZArith.
From stdpp Require Import gmap strings list.
From S2P Require Import Prelude GoStrings Codec.

Section table.
Context {A : Type} `{EqDecision A}.
Definition quote : ascii := byte 34.
Fixpoint position (a : A) (l : list A) : option nat :=
  match l with
  | [] => None
  | x :: l => if decide (a = x) then Some 0 else S <$> position a l
  end.
Definition table_marshal (l : list A) (a : A) : option str := i ← position a l; Some (quote :: replicate i (byte 120)).
Definition table_unmarshal (l : list A) (s : str) : option A :=
  match line s with
  | c :: t => if bool_decide (c = quote) then l !! length t else None
  | [] => None
  end.
Lemma position_lookup a l i : position a l = Some i → l !! i = Some a.
Proof.
  revert i; induction l as [|x l IH]; intros i; cbn; [done|]. destruct (decide (a = x)) as [->|]; [by intros [= <-]|].
  destruct (position a l) as [j|]; [|done]. intros [= <-]. by apply IH.
Qed.
Lemma position_elem a l : a ∈ l → ∃ i, position a l = Some i.
Proof.
  induction l as [|x l IH]; intros Hin; [by apply elem_of_nil in Hin|]. cbn. destruct (decide (a = x)); [by eexists|].
  destruct IH as [i ->]; [|by eexists]. by apply elem_of_cons in Hin as [|].
Qed.
Lemma line_replicate i : line (replicate i (byte 120)) = replicate i (byte 120).
Proof. induction i as [|i IH]; [done|]. cbn [replicate line]. rewrite bool_decide_false by done. by rewrite IH. Qed.
Lemma table_back l a s : table_marshal l a = Some s → table_unmarshal l s = Some a.
Proof.
  unfold table_marshal. destruct (position a l) as [i|] eqn:Hp; [|done]. intros [= <-]. unfold table_unmarshal.
  cbn [line]. rewrite bool_decide_false by done. rewrite line_replicate, bool_decide_true, length_replicate by done.
  by apply position_lookup.
Qed.
Program Definition table_json (l : list A) : Json A := {|
  json_marshal := table_marshal l; json_unmarshal := table_unmarshal l; json_decode := table_unmarshal l;
  json_faithful a := a ∈ l
|}.
Next Obligation.
  intros l a Hin. destruct (position_elem a l Hin) as [i Hi]. eexists.
  assert (Hm : table_marshal l a = Some (quote :: replicate i (byte 120))) by (unfold table_marshal; by rewrite Hi).
  split; [exact Hm|by apply table_back].
Qed.
Next Obligation. intros l s. unfold table_unmarshal. by rewrite line_newline. Qed.
Next Obligation. intros l a s _ Hm. cbn. unfold table_unmarshal. rewrite line_newline. by apply table_back. Qed.
End table.
