(* ===== verification/WriteSamples.v ===== *)
(** * A registry at work: instances of the data-plane theorems *)
From Stdlib Require Import Ascii ZArith Sorted.
From stdpp Require Import gmap strings list sorting.
From S2P Require Import Prelude GoStrings Selector RegistryModel ReplicationModel WatchHub Codec Engine StateMachine Pebble RaftNode AddressBook DataNode Dto Http QueryFacts WriteFacts Samples.

Definition ns : str := lit "prod".
Definition svc : str := lit "acme.pay.core.api.web".
Definition iid : str := lit "i-1".
#[local] Existing Instances range_by_key identity_case.
Definition sample_v : Value := NewValue sample_normalized 1000.
Definition sample_v' : Value := refreshed sample_v 60 1020.
#[local] Instance value_json : Json Value := table_json [sample_v; sample_v'].
Definition data_v : str := [quote].
Definition data_v' : str := [quote; byte 120].
#[local] Instance command_table : Json Command :=
  table_json [registers sample_normalized 1000 data_v; deregisters ns svc iid; refresh_command (value_key sample_v) data_v'].
#[local] Instance replicated_table : Json ReplicatedValue := table_json [].
#[local] Instance sample_desk_node : DataNode Desk unit := desk_node.
Definition leading : Status := MkStatus 1 1 1 RoleLeader 0 0 true false.
Definition empty_desk : Desk := MkDesk ∅ [] leading.
Definition full_desk : Desk := MkDesk {[ value_key sample_v := data_v ]} [] leading.
Definition sample_api : RegistryAPI := MkRegistryAPI (lit "10.0.0.1:8080") (MkBook ∅ ∅ ∅) (lit "cn-sh") (lit "1") (lit "t") (lit "p").
Definition post : Request := MkRequest (lit "POST") ∅ (lit "{}") (λ _, []).
Definition get_query : Request :=
  MkRequest (lit "GET") {[ lit "namespace" := [ns]; lit "service" := [svc] ]} [] (λ _, []).
Definition after_register : Desk := MkDesk ∅ [[quote]] leading.

Lemma Register_visible_witness :
  ∃ request input data, Some sample_input = Some request ∧ NormalizeRegisterInput request = Ok input ∧
    json_marshal (NewValue input 1000) = Some data ∧ handed empty_desk after_register (registers input 1000 data).
Proof.
  assert (Hserve : serve (Register (λ _, Some sample_input) sample_api 1000 post) empty_desk = (after_register, success "instance registered"))
    by (vm_compute; reflexivity).
  destruct (Register_visible (λ _, Some sample_input) sample_api 1000 post empty_desk after_register _ Hserve eq_refl)
    as (request&input&data&H1&H2&H3&_&H5&_).
  exists request, input, data. repeat split; assumption.
Defined.
Lemma full_registry : registry_ok {[ value_key sample_v := data_v ]}.
Proof.
  intros k data v [<- <-]%lookup_singleton_Some _ Hj. assert (Some v = Some sample_v) as [= ->] by (rewrite <- Hj; vm_compute; reflexivity).
  split; [|done]. apply (bool_decide_unpack _). vm_compute. reflexivity.
Qed.
Lemma Deregister_hides_witness :
  ∃ request identity, Some (MkDeregisterRequest ns (MkIdentity svc empty_dims) iid) = Some request ∧
    NormalizeStructuredServiceIdentity (dr_Identity request) = Ok identity ∧
    let cmd := deregisters (TrimSpace (dr_Namespace request)) (Service identity) (TrimSpace (dr_InstanceID request)) in
    handed full_desk (MkDesk (dk_contents full_desk) [data_v'] leading) cmd ∧
    ∀ query now inst, inst ∈ answer (spec_apply (dk_contents full_desk) cmd) query now →
      named_by (TrimSpace (dr_Namespace request)) (Service identity) (TrimSpace (dr_InstanceID request)) inst = false.
Proof.
  assert (Hserve : serve (Deregister (λ _, Some (MkDeregisterRequest ns (MkIdentity svc empty_dims) iid)) sample_api post) full_desk =
    (MkDesk (dk_contents full_desk) [data_v'] leading, success "instance deregistered")) by (vm_compute; reflexivity).
  destruct (Deregister_hides _ sample_api post full_desk _ _ Hserve eq_refl) as (request&identity&H1&H2&_&H4&Hm).
  exists request, identity. split; [exact H1|]. split; [exact H2|]. split; [exact H4|].
  destruct (Hm (dk_contents full_desk)) as (_&_&Hreg). destruct (Hreg full_registry) as (_&Hq&_). exact Hq.
Defined.
Definition beat : HeartbeatRequest := MkHeartbeatRequest ns (MkIdentity svc empty_dims) iid 60.
Lemma Heartbeat_correct_witness :
  ∃ existing data, json_unmarshal data_v = Some existing ∧ json_marshal (refreshed existing 60 1020) = Some data.
Proof.
  assert (Hserve : serve (Heartbeat (λ _, Some beat) sample_api 1020 post) full_desk =
    (MkDesk (dk_contents full_desk) [[quote; byte 120; byte 120]] leading, success "heartbeat accepted")) by (vm_compute; reflexivity).
  destruct (Heartbeat_correct (λ _, Some beat) sample_api 1020 post full_desk _ _ ns svc iid 60 eq_refl
    ltac:(vm_compute; reflexivity) ltac:(reflexivity) ltac:(lia) Hserve) as [Hbad|(s1&_&Hcase)].
  - discriminate Hbad.
  - exists sample_v, data_v'. split; vm_compute; reflexivity.
Defined.
Lemma heartbeat_resurrects_witness :
  ∃ data, json_marshal (refreshed sample_v 60 1020) = Some data ∧
    handed full_desk (MkDesk (dk_contents full_desk) [[quote; byte 120; byte 120]] leading) (refresh_command (value_key sample_v) data).
Proof.
  destruct (heartbeat_resurrects (value_key sample_v) data_v sample_v 60 1020 full_desk
    (MkDesk (dk_contents full_desk) [[quote; byte 120; byte 120]] leading) (success "heartbeat accepted")) as (data&H1&H2&_).
  - discriminate.
  - vm_compute; reflexivity.
  - vm_compute; reflexivity.
  - reflexivity.
  - exists data. split; assumption.
Defined.

Lemma QueryInstances_correct_witness :
  ∃ s1 s' rsp, serve (QueryInstances 1010 get_query) full_desk = (s', rsp) ∧ nd_proposed s' = nd_proposed full_desk ∧
    (rsp = scan_failed ∨
     rsp = MkResponse StatusOK (BodyInstances
       match answer (nd_contents s1) (MkQuery ns svc [svc] [] [] [] [] 0) 1010 with
       | [] => replicated_answer (nd_contents s') (MkQuery ns svc [svc] [] [] [] [] 0) 1010
       | found => found
       end)).
Proof.
  apply (QueryInstances_correct 1010 get_query full_desk (MkQuery ns svc [svc] [] [] [] [] 0)).
  - intros start end_ limit. exact full_registry.
  - reflexivity.
  - vm_compute; reflexivity.
Defined.
