(* ===== verification/Sse.v ===== *)
(** * Server-sent events ([writeSSEEvent], [writeSSEPing]; the loop of [runReplicationStream])

    The writing side renders a frame as lines; the reading side splits what arrives into lines
    ([bufio.Scanner] with a bounded buffer) and dispatches an event at every blank line whose
    revision is above the last one.  [run_rendered]: reading what was written dispatches exactly
    the events of the frames. *)
From Stdlib Require Import Ascii ZArith.
From stdpp Require Import gmap strings list.
From S2P Require Import Prelude GoStrings Codec.

(** ** Writing *)
Inductive Frame := FEvent (revision : Z) (event data : str) | FPing.
Definition sse_id : str := lit "id: ".
Definition sse_event : str := lit "event: ".
Definition sse_data : str := lit "data: ".
Definition writeSSEEvent (revision : Z) (event data : str) : str :=
  (sse_id ++ FormatUint revision ++ [newline]) ++ (sse_event ++ event ++ [newline]) ++ (sse_data ++ data ++ [newline; newline]).
Definition writeSSEPing : str := lit ": ping" ++ [newline; newline].
Definition frame_bytes (f : Frame) : str :=
  match f with FEvent revision event data => writeSSEEvent revision event data | FPing => writeSSEPing end.

(** ** Reading lines: [bufio.Scanner] with [ScanLines] and a buffer of 10 MiB *)
Definition maxTokenSize : Z := 10 * 1024 * 1024.
Definition dropCR (s : str) : str :=
  match rev s with c :: t => if bool_decide (c = byte 13) then rev t else s | [] => s end.
(** The lines of the parts between newlines, and whether one did not fit the buffer. *)
Fixpoint scan_tokens (parts : list str) : list str * bool :=
  match parts with
  | [] => ([], false)
  | p :: ps =>
      if (maxTokenSize <=? Z.of_nat (length p))%Z then ([], true)
      else let '(ls, long) := scan_tokens ps in
           match ps, p with
           | [], [] => ([], false)
           | _, _ => (dropCR p :: ls, long)
           end
  end.
Definition scan_lines (body : str) : list str * bool := scan_tokens (Split body [newline]).

(** [fmt.Sscanf(strings.TrimSpace(raw), "%d", &revision)]: a prefix of digits. *)
Fixpoint take_digits (s : str) : str :=
  match s with
  | c :: s => match digit_val c with Some _ => c :: take_digits s | None => [] end
  | [] => []
  end.
Definition parseRevision (raw : str) : option Z := ParseUint (take_digits (TrimSpace raw)).

(** ** The loop *)
Record replicationSSEEvent := MkSSE { ev_ID : str; ev_Event : str; ev_Data : str }.
Definition no_event : replicationSSEEvent := MkSSE [] [] [].
Definition dispatches (current : replicationSSEEvent) : bool :=
  negb (bool_decide (ev_Event current = [])) && negb (bool_decide (ev_Data current = [])).
Section reading.
Context {S E : Type} (apply : str → Z → str → ST S E unit) (err_revision err_long : E).
Definition field (line prefix : str) : str := TrimSpace (TrimPrefix line prefix).
Definition stream_line (current : replicationSSEEvent) (currentRevision : Z) (line : str) : ST S E (replicationSSEEvent * Z) :=
  if bool_decide (line = []) then
    if dispatches current then
      match parseRevision (ev_ID current) with
      | None => st_fail err_revision
      | Some revision =>
          if (currentRevision <? revision)%Z then apply (ev_Event current) revision (ev_Data current);; mret (no_event, revision)
          else mret (no_event, currentRevision)
      end
    else mret (no_event, currentRevision)
  else if HasPrefix line (lit ":") then mret (current, currentRevision)
  else if HasPrefix line (lit "id:") then mret (MkSSE (field line (lit "id:")) (ev_Event current) (ev_Data current), currentRevision)
  else if HasPrefix line (lit "event:") then mret (MkSSE (ev_ID current) (field line (lit "event:")) (ev_Data current), currentRevision)
  else if HasPrefix line (lit "data:") then mret (MkSSE (ev_ID current) (ev_Event current) (field line (lit "data:")), currentRevision)
  else mret (current, currentRevision).
Fixpoint stream_lines (lines : list str) (current : replicationSSEEvent) (currentRevision : Z) : ST S E unit :=
  match lines with
  | [] => mret tt
  | line :: lines =>
      r ← stream_line current currentRevision line;
      stream_lines lines r.1 r.2
  end.
(** The loop on the bytes that arrive before the stream ends, and the error of the scanner. *)
Definition read_stream (body : str) : ST S E unit :=
  stream_lines (scan_lines body).1 no_event 0;;
  if (scan_lines body).2 then st_fail err_long else mret tt.
End reading.

(** ** Reading what was written *)
Definition frame_lines (f : Frame) : list str :=
  match f with
  | FEvent revision event data => [sse_id ++ FormatUint revision; sse_event ++ event; sse_data ++ data; []]
  | FPing => [lit ": ping"; []]
  end.
Definition unlines (ls : list str) : str := concat (map (λ l, l ++ [newline]) ls).
Lemma frame_bytes_lines f : frame_bytes f = unlines (frame_lines f).
Proof.
  destruct f as [r e d|]; [|done]. unfold unlines, frame_bytes, writeSSEEvent. cbn [frame_lines map concat].
  by rewrite <- !app_assoc.
Qed.
Lemma unlines_app a b : unlines (a ++ b) = unlines a ++ unlines b.
Proof. unfold unlines. by rewrite map_app, concat_app. Qed.
Lemma unlines_Join ls : unlines ls = Join (ls ++ [[]]) [newline].
Proof.
  induction ls as [|l ls IH]; [done|]. change (unlines (l :: ls)) with ((l ++ [newline]) ++ unlines ls). rewrite IH.
  cbn [app Join]. destruct (ls ++ [[]]) eqn:E; [by destruct ls|]. by rewrite <- app_assoc.
Qed.
Definition line_ok (l : str) : Prop := newline ∉ l ∧ dropCR l = l ∧ (Z.of_nat (length l) < maxTokenSize)%Z.
Lemma scan_unlines ls : Forall line_ok ls → scan_lines (unlines ls) = (ls, false).
Proof.
  intros Hls. unfold scan_lines. rewrite unlines_Join, Split_Join.
  - induction Hls as [|l ls (_&Hcr&Hlen) _ IH]; [done|]. cbn [app scan_tokens].
    destruct (Z.leb_spec maxTokenSize (Z.of_nat (length l))); [lia|]. rewrite IH, Hcr.
    by destruct (ls ++ [[]]) eqn:E; [destruct ls|].
  - by destruct ls.
  - apply Forall_app. split; [|by constructor; [apply not_elem_of_nil|]]. by eapply Forall_impl; [exact Hls|intros l []].
Qed.
(** A text that survives a line of its own. *)
Definition text_ok (s : str) : Prop := s ≠ [] ∧ trimmed s ∧ newline ∉ s ∧ (Z.of_nat (length s) + 7 < maxTokenSize)%Z.
Definition frame_ok (f : Frame) : Prop :=
  match f with FEvent revision event data => is_u64 revision ∧ text_ok event ∧ text_ok data | FPing => True end.
Lemma dropCR_trimmed p s : s ≠ [] → trimmed s → dropCR (p ++ s) = p ++ s.
Proof.
  intros Hne [_ Ht]%trimmed_iff. unfold dropCR. rewrite rev_app_distr.
  destruct (rev s) as [|c t] eqn:Hr; [by destruct Hne; rewrite <- (rev_involutive s), Hr|]. cbn [app].
  case_bool_decide; [|done]. subst c. exfalso. unfold no_trail in Ht. rewrite Hr in Ht.
  assert (Hin : [byte 13] ∈ map (@rev ascii) spaces) by (apply (bool_decide_unpack _); vm_compute; done).
  rewrite strip_rune_None in Ht. by specialize (Ht _ Hin).
Qed.
Lemma take_digits_all s : Forall (λ c, is_Some (digit_val c)) s → take_digits s = s.
Proof. induction 1 as [|c s [z Hz] _ IH]; [done|]. cbn. by rewrite Hz, IH. Qed.
Lemma parseRevision_Format r : is_u64 r → parseRevision (FormatUint r) = Some r.
Proof.
  intros Hr. unfold parseRevision. rewrite (FormatUint_trimmed r), take_digits_all by apply FormatUint_text.
  by apply ParseUint_FormatUint.
Qed.
Lemma dec_len_le f z : dec_len f z ≤ S f.
Proof. revert z; induction f as [|f IH]; intros z; cbn [dec_len]; [lia|]. destruct (z <? 10)%Z; [lia|]. specialize (IH (z / 10)%Z). lia. Qed.
Lemma length_FormatUint r : length (FormatUint r) ≤ 21.
Proof. unfold FormatUint. rewrite length_dec_fixed. apply (dec_len_le 20). Qed.
Lemma text_line p x : newline ∉ p → newline ∉ x → trimmed x → x ≠ [] →
  (Z.of_nat (length p) + Z.of_nat (length x) < maxTokenSize)%Z → line_ok (p ++ x).
Proof.
  intros Hp Hx Ht Hne Hl. split_and!; [by rewrite elem_of_app; intros []|by apply dropCR_trimmed|rewrite length_app; lia].
Qed.
Lemma prefixes_clean : newline ∉ sse_id ∧ newline ∉ sse_event ∧ newline ∉ sse_data ∧ newline ∉ lit ": ping".
Proof. split_and!; apply (bool_decide_unpack _); vm_compute; done. Qed.
Lemma frame_lines_ok f : frame_ok f → Forall line_ok (frame_lines f).
Proof.
  destruct prefixes_clean as (Hi&He&Hd&Hp).
  assert (Hnil : line_ok []) by (split_and!; [apply not_elem_of_nil|done|done]).
  destruct f as [r e d|].
  - intros (Hr&(Hene&Het&Hen&Hel)&(Hdne&Hdt&Hdn&Hdl)). pose proof (length_FormatUint r).
    apply Forall_cons; split; [|apply Forall_cons; split; [|apply Forall_cons; split; [|by constructor]]].
    + apply text_line; [done|by apply FormatUint_no|by apply FormatUint_trimmed|by apply FormatUint_nonempty|].
      change (length sse_id) with 4. unfold maxTokenSize. lia.
    + apply text_line; try done. change (length sse_event) with 7. lia.
    + apply text_line; try done. change (length sse_data) with 6. lia.
  - intros _. apply Forall_cons; split; [|by constructor]. by split.
Qed.

(** The events that come through: those above the last revision. *)
Section deliver.
Context {S E : Type} (apply : str → Z → str → ST S E unit) (err_revision err_long : E).
Fixpoint deliver (fs : list Frame) (currentRevision : Z) : ST S E unit :=
  match fs with
  | [] => mret tt
  | FPing :: fs => deliver fs currentRevision
  | FEvent revision event data :: fs =>
      if (currentRevision <? revision)%Z then apply event revision data;; deliver fs revision
      else deliver fs currentRevision
  end.
Lemma stream_lines_step line lines current cur s :
  stream_lines apply err_revision (line :: lines) current cur s =
    match stream_line apply err_revision current cur line s with
    | (s', Ok r) => stream_lines apply err_revision lines r.1 r.2 s'
    | (s', Err e) => (s', Err e)
    end.
Proof. cbn [stream_lines]. unfold mbind, ST_bind. by destruct (stream_line _ _ _ _ _ _) as [? []]. Qed.
Lemma stream_line_field (prefix : str) (set : str → replicationSSEEvent) current cur x s :
  trimmed x → x ≠ [] →
  (prefix = sse_id ∧ set = (λ x, MkSSE x (ev_Event current) (ev_Data current)) ∨
   prefix = sse_event ∧ set = (λ x, MkSSE (ev_ID current) x (ev_Data current)) ∨
   prefix = sse_data ∧ set = (λ x, MkSSE (ev_ID current) (ev_Event current) x)) →
  stream_line apply err_revision current cur (prefix ++ x) s = (s, Ok (set x, cur)).
Proof.
  intros Ht Hne Hcase. unfold stream_line.
  destruct Hcase as [[-> ->]|[[-> ->]|[-> ->]]]; unfold field;
    match goal with |- context [TrimPrefix (?p ++ x) ?q] =>
      change (p ++ x) with (q ++ byte 32 :: x); rewrite TrimPrefix_app, TrimSpace_space by done end; done.
Qed.
Lemma stream_frame f lines cur s : frame_ok f →
  stream_lines apply err_revision (frame_lines f ++ lines) no_event cur s =
    match f with
    | FEvent revision event data =>
        if (cur <? revision)%Z then
          (apply event revision data;; stream_lines apply err_revision lines no_event revision) s
        else stream_lines apply err_revision lines no_event cur s
    | FPing => stream_lines apply err_revision lines no_event cur s
    end.
Proof.
  destruct f as [r e d|]; [|done]. intros (Hr&(Hene&Het&_)&(Hdne&Hdt&_)). cbn [frame_lines app].
  rewrite stream_lines_step, (stream_line_field sse_id (λ x, MkSSE x [] [])); [|by apply FormatUint_trimmed|by apply FormatUint_nonempty|by left].
  cbn [fst snd]. rewrite stream_lines_step, (stream_line_field sse_event (λ x, MkSSE (FormatUint r) x [])); [|done|done|by right; left].
  cbn [fst snd]. rewrite stream_lines_step, (stream_line_field sse_data (λ x, MkSSE (FormatUint r) e x)); [|done|done|by right; right].
  cbn [fst snd]. rewrite stream_lines_step. unfold stream_line at 1. rewrite bool_decide_true by done.
  unfold dispatches. cbn [ev_Event ev_Data ev_ID]. rewrite !bool_decide_false by done. cbn [negb andb].
  rewrite parseRevision_Format by done. destruct (cur <? r)%Z; [|done]. unfold mbind, ST_bind, mret, ST_ret.
  by destruct (apply e r d s) as [? []].
Qed.
Lemma stream_frames fs cur s : Forall frame_ok fs →
  stream_lines apply err_revision (concat (map frame_lines fs)) no_event cur s = deliver fs cur s.
Proof.
  intros Hfs. revert cur s; induction Hfs as [|f fs Hf _ IH]; intros cur s; [done|]. cbn [map concat].
  rewrite stream_frame by done. destruct f as [r e d|]; cbn [deliver]; [|apply IH].
  destruct (cur <? r)%Z; [|apply IH]. unfold mbind, ST_bind. destruct (apply e r d s) as [s' []]; [apply IH|done].
Qed.

Lemma read_rendered fs s : Forall frame_ok fs →
  read_stream apply err_revision err_long (concat (map frame_bytes fs)) s = deliver fs 0 s.
Proof.
  intros Hfs. assert (Hb : concat (map frame_bytes fs) = unlines (concat (map frame_lines fs))).
  { clear Hfs. induction fs as [|f fs IH]; [done|]. cbn [map concat]. by rewrite unlines_app, frame_bytes_lines, IH. }
  assert (Hlines : Forall line_ok (concat (map frame_lines fs))).
  { clear Hb. induction Hfs; cbn [map concat]; [constructor|]. apply Forall_app. split; [by apply frame_lines_ok|done]. }
  unfold read_stream. rewrite Hb, (scan_unlines _ Hlines). unfold mbind, ST_bind. cbn [fst snd].
  rewrite stream_frames by done. by destruct (deliver fs 0 s) as [? [[]|]].
Qed.
(** C24: What the server writes is what the client handles: reading the bytes of any sequence of
    frames dispatches the events of these frames, in order, leaving out those whose revision is
    not above the last one, and nothing else. *)
Theorem run_rendered fs s : Forall frame_ok fs →
  read_stream apply err_revision err_long (concat (map frame_bytes fs)) s = deliver fs 0 s.
Proof. apply read_rendered. Qed.

(** ** Lines that do not fit *)
Lemma Split_nonempty s : Split s [newline] ≠ [].
Proof. intros He. unfold Split in He. cbn [split_fuel] in He. by destruct (cut s [newline]) as [[]|]. Qed.
Lemma Split_unlines ls rest : Forall (λ l, newline ∉ l) ls → Split (unlines ls ++ rest) [newline] = ls ++ Split rest [newline].
Proof.
  intros Hls. assert (Hj : unlines ls ++ rest = Join (ls ++ Split rest [newline]) [newline]).
  { clear Hls. induction ls as [|l ls IH]; [cbn [app]; by rewrite Join_Split|].
    change (unlines (l :: ls)) with ((l ++ [newline]) ++ unlines ls). rewrite <- app_assoc, IH. cbn [app Join].
    destruct (ls ++ Split rest [newline]) eqn:Heq; [|by rewrite <- app_assoc].
    by apply app_nil in Heq as [_ Heq%Split_nonempty]. }
  rewrite Hj, Split_Join; [done| |].
  - intros [_ Heq%Split_nonempty]%app_nil. done.
  - apply Forall_app. split; [done|apply Split_parts].
Qed.
Lemma scan_tokens_long ls p ps : Forall line_ok ls → (maxTokenSize ≤ Z.of_nat (length p))%Z →
  scan_tokens (ls ++ p :: ps) = (ls, true).
Proof.
  intros Hls Hp. induction Hls as [|l ls (_&Hcr&Hlen) _ IH]; cbn [app scan_tokens].
  - destruct (Z.leb_spec maxTokenSize (Z.of_nat (length p))); [done|lia].
  - destruct (Z.leb_spec maxTokenSize (Z.of_nat (length l))); [lia|]. rewrite IH, Hcr.
    by destruct (ls ++ p :: ps) eqn:Heq; [destruct ls|].
Qed.
(** An event whose data do not fit the scanner's buffer of ten mebibytes ends the stream with an
    error: it is never handled, however often the client reconnects. *)
Theorem oversized_event fs r e d rest s :
  Forall frame_ok fs → is_u64 r → text_ok e → newline ∉ d → (maxTokenSize ≤ Z.of_nat (length d))%Z →
  read_stream apply err_revision err_long (concat (map frame_bytes fs) ++ writeSSEEvent r e d ++ rest) s =
    (deliver fs 0;; st_fail err_long) s.
Proof.
  intros Hfs Hr He Hd Hlen. destruct prefixes_clean as (Hi&Hev&Hda&_).
  set (ls := concat (map frame_lines fs) ++ [sse_id ++ FormatUint r; sse_event ++ e]).
  assert (Hls : Forall line_ok ls).
  { subst ls. apply Forall_app. split.
    - clear -Hfs. induction Hfs; cbn [map concat]; [constructor|]. apply Forall_app. split; [by apply frame_lines_ok|done].
    - destruct He as (Hene&Het&Hen&Hel). pose proof (length_FormatUint r).
      apply Forall_cons; split; [|apply Forall_cons; split; [|done]]; apply text_line; try done.
      + by apply FormatUint_no.
      + by apply FormatUint_trimmed.
      + by apply FormatUint_nonempty.
      + change (length sse_id) with 4. unfold maxTokenSize. lia.
      + change (length sse_event) with 7. lia. }
  assert (Hb : concat (map frame_bytes fs) ++ writeSSEEvent r e d ++ rest = unlines ls ++ (unlines [sse_data ++ d] ++ newline :: rest)).
  { assert (Hfb : concat (map frame_bytes fs) = unlines (concat (map frame_lines fs))).
    { clear. induction fs as [|f fs IH]; [done|]. cbn [map concat]. by rewrite unlines_app, frame_bytes_lines, IH. }
    rewrite Hfb. subst ls. rewrite unlines_app, <- app_assoc. f_equal. unfold writeSSEEvent, unlines. cbn [map concat].
    rewrite !app_nil_r. rewrite <- !app_assoc. done. }
  assert (Hscan : scan_lines (concat (map frame_bytes fs) ++ writeSSEEvent r e d ++ rest) = (ls, true)).
  { rewrite Hb. unfold scan_lines. rewrite Split_unlines by (by eapply Forall_impl; [exact Hls|intros l []]).
    rewrite Split_unlines by (apply Forall_cons; split; [by rewrite elem_of_app; intros []|done]). cbn [app].
    apply scan_tokens_long; [done|]. rewrite length_app. lia. }
  unfold read_stream. rewrite Hscan. cbn [fst snd]. unfold mbind, ST_bind, st_fail.
  assert (Hrun : ∀ cur s, stream_lines apply err_revision ls no_event cur s = deliver fs cur s).
  { subst ls. clear -Hfs He Hr. induction Hfs as [|f fs Hf _ IH]; intros cur s.
    - cbn [map concat app deliver]. destruct He as (Hene&Het&_).
      rewrite stream_lines_step, (stream_line_field sse_id (λ x, MkSSE x [] [])); [|by apply FormatUint_trimmed|by apply FormatUint_nonempty|by left].
      cbn [fst snd]. rewrite stream_lines_step, (stream_line_field sse_event (λ x, MkSSE (FormatUint r) x [])); [|done|done|by right; left]. done.
    - cbn [map concat]. rewrite <- app_assoc, stream_frame by done. destruct f as [r' e' d'|]; cbn [deliver]; [|apply IH].
      destruct (cur <? r')%Z; [|apply IH]. unfold mbind, ST_bind. destruct (apply e' r' d' s) as [s' []]; [apply IH|done]. }
  rewrite Hrun. by destruct (deliver fs 0 s) as [? [[]|]].
Qed.
End deliver.
