(* ===== verification/Replication.v ===== *)
(** * Copying a remote directory ([internal/app/replication.go])

    The leader watches one service of a remote cluster and proposes what it sees: a snapshot
    replaces the copied directory of the service, an upsert or a delete changes one instance,
    and every event ends with a checkpoint of its revision.  The node is the interface of
    [DataNode]; the HTTP response of the watch is a parameter; the clock is a sequence of
    readings. *)
From Stdlib Require Import Ascii ZArith.
From stdpp Require Import gmap strings list.
From S2P Require Import Prelude GoStrings Selector RegistryModel ReplicationModel WatchHub Codec Engine StateMachine Pebble RaftNode DataNode Dto Tracker Sse.

(** ** Targets *)
Record ReplicationService := MkService { rs_Namespace : str; rs_Service : str }.
Record ReplicationTarget := MkTarget {
  rt_SourceRegion : str; rt_SourceClusterID : str; rt_BaseURL : str; rt_Services : list ReplicationService
}.
Inductive TargetError := ErrReadFile | ErrUnmarshalTargets | ErrTargetFields (index : nat) | ErrNoService (index : nat)
  | ErrServiceFields (index serviceIndex : nat).
#[export] Instance ReplicationService_eq_dec : EqDecision ReplicationService.
Proof. solve_decision. Defined.
#[export] Instance ReplicationTarget_eq_dec : EqDecision ReplicationTarget.
Proof. solve_decision. Defined.

Section targets.
Context `{Json (list ReplicationTarget)}.
Fixpoint normalize_services (index serviceIndex : nat) (services : list ReplicationService) : result TargetError (list ReplicationService) :=
  match services with
  | [] => Ok []
  | s :: services =>
      let s := MkService (TrimSpace (rs_Namespace s)) (TrimSpace (rs_Service s)) in
      if bool_decide (rs_Namespace s = []) || bool_decide (rs_Service s = []) then Err (ErrServiceFields index serviceIndex)
      else rest ← normalize_services index (S serviceIndex) services; Ok (s :: rest)
  end.
Definition normalize_target (index : nat) (t : ReplicationTarget) : result TargetError ReplicationTarget :=
  let region := TrimSpace (rt_SourceRegion t) in
  let cluster := TrimSpace (rt_SourceClusterID t) in
  let baseURL := TrimRightByte (TrimSpace (rt_BaseURL t)) ch_slash in
  fail_if (bool_decide (region = []) || bool_decide (cluster = []) || bool_decide (baseURL = [])) (ErrTargetFields index);;
  fail_if (bool_decide (rt_Services t = [])) (ErrNoService index);;
  services ← normalize_services index 0 (rt_Services t);
  Ok (MkTarget region cluster baseURL services).
Fixpoint normalize_targets (index : nat) (targets : list ReplicationTarget) : result TargetError (list ReplicationTarget) :=
  match targets with
  | [] => Ok []
  | t :: targets => t ← normalize_target index t; rest ← normalize_targets (S index) targets; Ok (t :: rest)
  end.
(** [read_file]: the contents of a file, if it can be read. *)
Definition ParseReplicationTargetsFile (read_file : str → option str) (path : str) : result TargetError (list ReplicationTarget) :=
  match read_file path with
  | None => Err ErrReadFile
  | Some data => match json_unmarshal data with
                 | None => Err ErrUnmarshalTargets
                 | Some targets => normalize_targets 0 targets
                 end
  end.
Definition LoadReplicationTargets (read_file : str → option str) (file : str) : result TargetError (list ReplicationTarget) :=
  let file := TrimSpace file in
  if bool_decide (file = []) then Ok [] else ParseReplicationTargetsFile read_file file.
End targets.

(** ** The watch request ([net/url]) *)
Definition unreserved (c : ascii) : bool :=
  let v := bval c in
  bool_decide (97 ≤ v ≤ 122)%N || bool_decide (65 ≤ v ≤ 90)%N || bool_decide (48 ≤ v ≤ 57)%N ||
  bool_decide (v = 45)%N || bool_decide (v = 95)%N || bool_decide (v = 46)%N || bool_decide (v = 126)%N.
Definition hex_digit (n : BinNums.N) : ascii := if bool_decide (n < 10)%N then ascii_of_N (48 + n) else ascii_of_N (55 + n).
Definition escape_byte (c : ascii) : str :=
  if unreserved c then [c]
  else if bool_decide (bval c = 32)%N then [byte 43]
  else [byte 37; hex_digit (bval c / 16); hex_digit (bval c mod 16)].
Definition QueryEscape (s : str) : str := concat (map escape_byte s).
(** [Values.Encode] writes the parameters in the order of their names. *)
Definition buildReplicationWatchURL (baseURL : str) (service : ReplicationService) (sinceRevision : Z) : str :=
  TrimRightByte baseURL ch_slash ++ lit "/internal/v1/replication/watch?" ++
  lit "namespace=" ++ QueryEscape (rs_Namespace service) ++ lit "&service=" ++ QueryEscape (rs_Service service) ++
  if (0 <? sinceRevision)%Z then lit "&sinceRevision=" ++ QueryEscape (FormatUint sinceRevision) else [].

(** ** Applying events *)
Inductive ReplErr (E : Type) :=
  | ENode (e : E) | EMarshal | EUnmarshal | ERevision | ELineTooLong | EWatchStatus (status : Z) | ERequest (context : bool).
Arguments ENode {E}. Arguments EMarshal {E}. Arguments EUnmarshal {E}. Arguments ERevision {E}.
Arguments ELineTooLong {E}. Arguments EWatchStatus {E}. Arguments ERequest {E}.
(** [rp_ticks] counts the readings of the clock. *)
Record ReplState (Nd : Type) := MkRepl { rp_node : Nd; rp_tracker : Tracker; rp_ticks : nat }.
Arguments MkRepl {Nd}. Arguments rp_node {Nd}. Arguments rp_tracker {Nd}. Arguments rp_ticks {Nd}.

Section replication.
Context `{DN : DataNode Nd E} `{GoRange, Json ReplicatedValue, Json ReplicationCheckpoint, Json ReplicationWatchEventDTO}.
(** [node_context]: the error of the node is the context's. *)
Context (clock : nat → Z) (node_context : E → bool).
Abbreviation RM := (ST (ReplState Nd) (ReplErr E)).
Definition unix_now : RM Z := λ s, (MkRepl (rp_node s) (rp_tracker s) (S (rp_ticks s)), Ok (clock (rp_ticks s))).
Definition track_ (f : Tracker → Tracker) : RM unit := λ s, (MkRepl (rp_node s) (f (rp_tracker s)) (rp_ticks s), Ok tt).
Definition on_nd {A} (m : ST Nd E A) : RM A := λ s,
  let '(nd, r) := m (rp_node s) in (MkRepl nd (rp_tracker s) (rp_ticks s), map_err ENode r).
Definition encoded {A} `{Json A} (a : A) : RM str := match json_marshal a with Some d => mret d | None => st_fail EMarshal end.

(** The structured service fields of the instance are not copied. *)
Definition value_of_dto (instance : RegistryInstanceDTO) : Value :=
  MkValue (in_Namespace instance) (MkIdentity (Service (in_Identity instance)) empty_dims) (in_InstanceID instance) (in_Zone instance)
    (CloneStringMap (in_Labels instance)) (CloneStringMap (in_Metadata instance)) (in_Endpoints instance)
    (in_LeaseTTLSeconds instance) (in_RegisteredAtUnix instance) (in_LastHeartbeatUnix instance).
Definition replicatedValueFromDTO (now clock_now : Z) (target : ReplicationTarget) (instance : RegistryInstanceDTO) (revision : Z) : ReplicatedValue :=
  NewReplicatedValue clock_now (rt_SourceRegion target) (rt_SourceClusterID target) revision (value_of_dto instance) now.
Definition putReplicatedValue (value : ReplicatedValue) : RM unit :=
  data ← encoded value;
  on_nd (nd_ProposeCommand (MkCommand OperationPut
    (ReplicatedKey (rv_SourceRegion value) (rv_SourceClusterID value) (v_Namespace (rv_Value value))
       (Service (v_Identity (rv_Value value))) (v_InstanceID (rv_Value value))) data [])).
Definition putReplicationCheckpoint (checkpoint : ReplicationCheckpoint) : RM unit :=
  data ← encoded checkpoint;
  on_nd (nd_ProposeCommand (MkCommand OperationPut
    (ReplicationCheckpointKey (rc_SourceRegion checkpoint) (rc_SourceClusterID checkpoint) (rc_Namespace checkpoint) (rc_Service checkpoint))
    data []));;
  now ← unix_now;
  track_ (λ t, UpdateRevision now t (rc_SourceRegion checkpoint) (rc_SourceClusterID checkpoint) (rc_Namespace checkpoint)
    (rc_Service checkpoint) (rc_LastAppliedRevision checkpoint) (rc_LastSnapshotRevision checkpoint)).
Definition checkpoint_at (target : ReplicationTarget) (service : ReplicationService) (applied snapshot : Z) : RM unit :=
  now ← unix_now;
  putReplicationCheckpoint (MkReplicationCheckpoint (rt_SourceRegion target) (rt_SourceClusterID target)
    (rs_Namespace service) (rs_Service service) applied snapshot now).
(** The clock is read once for the copy; [NewReplicatedValue] reads it again if that was not positive. *)
Definition put_instance (target : ReplicationTarget) (revision : Z) (instance : RegistryInstanceDTO) : RM unit :=
  now ← unix_now;
  clock_now ← (if (now <=? 0)%Z then unix_now else mret now);
  putReplicatedValue (replicatedValueFromDTO now clock_now target instance revision).
Definition service_prefix (target : ReplicationTarget) (service : ReplicationService) : str :=
  ReplicationServicePrefix (rt_SourceRegion target) (rt_SourceClusterID target) (rs_Namespace service) (rs_Service service).
Definition applyReplicationSnapshot (target : ReplicationTarget) (service : ReplicationService) (payload : ReplicationWatchEventDTO) (revision : Z) : RM unit :=
  on_nd (nd_ProposeCommand (MkCommand OperationDeletePrefix [] [] (service_prefix target service)));;
  st_iter (put_instance target revision) (wd_Instances (rd_Event payload));;
  checkpoint_at target service revision revision.
Definition applyReplicationUpsert (target : ReplicationTarget) (service : ReplicationService) (payload : ReplicationWatchEventDTO) (revision : Z) : RM unit :=
  match wd_Instance (rd_Event payload) with
  | None => checkpoint_at target service revision 0
  | Some instance => put_instance target revision instance;; checkpoint_at target service revision 0
  end.
Definition applyReplicationDelete (target : ReplicationTarget) (service : ReplicationService) (payload : ReplicationWatchEventDTO) (revision : Z) : RM unit :=
  (if negb (bool_decide (wd_InstanceID (rd_Event payload) = [])) then
     on_nd (nd_ProposeCommand (MkCommand OperationDelete
       (ReplicatedKey (rt_SourceRegion target) (rt_SourceClusterID target) (rs_Namespace service) (rs_Service service)
          (wd_InstanceID (rd_Event payload))) [] []))
   else mret tt);;
  checkpoint_at target service revision 0.
Definition decoded (data : str) : RM ReplicationWatchEventDTO :=
  match json_unmarshal data with Some payload => mret payload | None => st_fail EUnmarshal end.
Definition applyReplicationEvent (target : ReplicationTarget) (service : ReplicationService) (eventType : str) (revision : Z) (data : str) : RM unit :=
  if bool_decide (eventType = lit "snapshot") then payload ← decoded data; applyReplicationSnapshot target service payload revision
  else if bool_decide (eventType = lit "upsert") then payload ← decoded data; applyReplicationUpsert target service payload revision
  else if bool_decide (eventType = lit "delete") then payload ← decoded data; applyReplicationDelete target service payload revision
  else mret tt.

(** ** The stream *)
Definition no_checkpoint : ReplicationCheckpoint := MkReplicationCheckpoint [] [] [] [] 0 0 0.
Definition readReplicationCheckpoint (sr sc ns svc : str) : RM ReplicationCheckpoint :=
  data ← on_nd (nd_Get (ReplicationCheckpointKey sr sc ns svc));
  if bool_decide (data = []) then mret no_checkpoint
  else match json_unmarshal data with Some c => mret c | None => st_fail EUnmarshal end.
Definition connected_ (target : ReplicationTarget) (service : ReplicationService) (b : bool) : RM unit :=
  now ← (if b then unix_now else mret 0%Z);
  track_ (λ t, SetConnected now t (rt_SourceRegion target) (rt_SourceClusterID target) (rs_Namespace service) (rs_Service service) b).
(** [http_get url]: the status and the bytes of the response that [http.Client.Do] returns, behind any
    redirects, or the error of the request and whether it is the context's. *)
Definition runReplicationStream (http_get : str → Z * str + bool) (target : ReplicationTarget) (service : ReplicationService)
    (context_err : bool) : RM unit :=
  checkpoint ← readReplicationCheckpoint (rt_SourceRegion target) (rt_SourceClusterID target) (rs_Namespace service) (rs_Service service);
  match http_get (buildReplicationWatchURL (rt_BaseURL target) service (rc_LastAppliedRevision checkpoint)) with
  | inr is_context => st_fail (ERequest is_context)
  | inl (status, body) =>
      if negb (status =? 200)%Z then st_fail (EWatchStatus status)
      else
        connected_ target service true;;
        read_stream (applyReplicationEvent target service) ERevision ELineTooLong body;;
        if context_err then st_fail (ERequest true) else mret tt
  end.
Definition errorsIsContext (e : ReplErr E) : bool := match e with ERequest b => b | ENode e => node_context e | _ => false end.
Definition leads (status : RaftNode.Status) : bool :=
  st_Started status && negb (st_Stopped status) && bool_decide (st_Role status = RoleLeader) && (st_LeaderID status =? st_NodeID status)%Z.
(** One iteration of [replicateServiceLoop]; [error_text] is [err.Error()].  Errors stay inside. *)
Definition replicate_once (error_text : ReplErr E → str) (http_get : str → Z * str + bool) (context_err : bool)
    (target : ReplicationTarget) (service : ReplicationService) : RM unit := λ s,
  let record s e :=
    (now ← unix_now;
     track_ (λ t, RecordError now t (rt_SourceRegion target) (rt_SourceClusterID target) (rs_Namespace service) (rs_Service service)
       (error_text e))) s in
  let '(s, _) := connected_ target service false s in
  if leads (nd_Status (rp_node s)) then
    match runReplicationStream http_get target service context_err s with
    | (s, Ok _) => (s, Ok tt)
    | (s, Err e) => if errorsIsContext e then (s, Ok tt) else record s e
    end
  else (s, Ok tt).
End replication.
