(* ===== verification/ReplicationFacts.v ===== *)
(** * The copied directory

    What a stream of events leaves in the store once the proposals are applied: a mirror of the
    remote directory and a checkpoint of the last revision. *)
From Stdlib Require Import Ascii ZArith.
From stdpp Require Import gmap strings list.
From S2P Require Import Prelude GoStrings Selector RegistryModel ReplicationModel WatchHub Codec Engine StateMachine Pebble RaftNode DataNode Dto Tracker Sse Replication.

Section facts.
Context `{DN : DataNode Nd E} `{GoRange, Json ReplicatedValue, Json ReplicationCheckpoint, Json ReplicationWatchEventDTO}.
Context (clock : nat → Z).
(** Commands are records of byte strings, which JSON carries in base64. *)
Hypothesis commands_faithful : ∀ cmd : Command, cmd_Operation cmd ∈ [OperationPut; OperationDelete; OperationDeletePrefix] → json_faithful cmd.

(** ** What was proposed *)
Definition logged (s s' : ReplState Nd) (cmds : list Command) : Prop :=
  ∃ ds, Forall2 (λ c d, json_marshal c = Some d) cmds ds ∧ nd_proposed (rp_node s') = nd_proposed (rp_node s) ++ ds.
Lemma logged_nil s s' : rp_node s' = rp_node s → logged s s' [].
Proof. intros Hn. exists []. split; [constructor|]. by rewrite Hn, app_nil_r. Qed.
Lemma logged_app s s1 s2 a b : logged s s1 a → logged s1 s2 b → logged s s2 (a ++ b).
Proof.
  intros (da&Ha&Hea) (db&Hb&Heb). exists (da ++ db). split; [by apply Forall2_app|]. by rewrite Heb, Hea, app_assoc.
Qed.
(** The contents after the proposals. *)
Definition log_effect (m : gmap str str) (ds : list str) : gmap str str :=
  fold_left (λ m d, match json_unmarshal (A:=Command) d with Some cmd => cmd_effect m cmd | None => m end) ds m.
Lemma log_effect_cmds m cmds ds :
  Forall (λ cmd, cmd_Operation cmd ∈ [OperationPut; OperationDelete; OperationDeletePrefix]) cmds →
  Forall2 (λ c d, json_marshal c = Some d) cmds ds → log_effect m ds = fold_left cmd_effect cmds m.
Proof.
  intros Hops Hd. revert m; induction Hd as [|c d cmds ds Hcd _ IH]; intros m; [done|].
  apply Forall_cons in Hops as [Hc Hops]. cbn [log_effect fold_left].
  destruct (json_roundtrip c (commands_faithful c Hc)) as (d'&Hd'&Hu). assert (d' = d) as -> by congruence. rewrite Hu. by apply IH.
Qed.
Lemma unix_now_inv (s s' : ReplState Nd) z : unix_now (E:=E) clock s = (s', Ok z) → logged s s' [] ∧ rp_tracker s' = rp_tracker s.
Proof. intros [= <- _]. by split; [apply logged_nil|]. Qed.
Lemma propose_logged cmd s s' u : on_nd (nd_ProposeCommand cmd) s = (s', Ok u) → logged s s' [cmd] ∧ rp_tracker s' = rp_tracker s.
Proof.
  unfold on_nd. destruct (nd_ProposeCommand cmd (rp_node s)) as [nd [[]|e]] eqn:Hp; [|done]. intros [= <- _].
  apply nd_Propose_ok in Hp as (d&Hd&Hp). split; [|done]. exists [d]. split; [by repeat constructor|done].
Qed.
Lemma encoded_inv {A} `{Json A} (a : A) (s s' : ReplState Nd) d : encoded (E:=E) a s = (s', Ok d) → s' = s ∧ json_marshal a = Some d.
Proof. unfold encoded. destruct (json_marshal a); by intros [= <- <-]. Qed.

(** ** Shapes of the proposals *)
Definition replica_of (target : ReplicationTarget) (rv : ReplicatedValue) (inst : RegistryInstanceDTO) (revision : Z) : Prop :=
  ∃ now clock_now, rv = replicatedValueFromDTO now clock_now target inst revision.
Definition replica_key (target : ReplicationTarget) (inst : RegistryInstanceDTO) : str :=
  ReplicatedKey (TrimSpace (rt_SourceRegion target)) (TrimSpace (rt_SourceClusterID target)) (in_Namespace inst)
    (Service (in_Identity inst)) (in_InstanceID inst).
Definition is_put (target : ReplicationTarget) (revision : Z) (inst : RegistryInstanceDTO) (cmd : Command) : Prop :=
  ∃ rv data, replica_of target rv inst revision ∧ json_marshal rv = Some data ∧
    cmd = MkCommand OperationPut (replica_key target inst) data [].
Definition service_checkpoint (target : ReplicationTarget) (service : ReplicationService) : str :=
  ReplicationCheckpointKey (rt_SourceRegion target) (rt_SourceClusterID target) (rs_Namespace service) (rs_Service service).
Definition is_checkpoint (target : ReplicationTarget) (service : ReplicationService) (revision snap : Z) (cmd : Command) : Prop :=
  ∃ at_ data, json_marshal (MkReplicationCheckpoint (rt_SourceRegion target) (rt_SourceClusterID target)
      (rs_Namespace service) (rs_Service service) revision snap at_) = Some data ∧
    cmd = MkCommand OperationPut (service_checkpoint target service) data [].
Lemma put_instance_inv target revision inst s s' u : put_instance clock target revision inst s = (s', Ok u) →
  ∃ cmd, logged s s' [cmd] ∧ is_put target revision inst cmd.
Proof.
  intros Hrun. apply st_bind_inv in Hrun as (s1&now&Hnow&Hrun). apply st_bind_inv in Hrun as (s2&cn&Hcn&Hrun).
  apply st_bind_inv in Hrun as (s3&data&Henc&Hrun). apply encoded_inv in Henc as [-> Hdata].
  apply propose_logged in Hrun as [Hlog _]. apply unix_now_inv in Hnow as [Hl1 _].
  assert (Hl2 : logged s1 s2 []).
  { destruct (now <=? 0)%Z; [by apply unix_now_inv in Hcn as [? _]|]. injection Hcn as <- _. by apply logged_nil. }
  eexists. split; [|by eexists _, _; split; [by exists now, cn|split; [exact Hdata|done]]].
  apply (logged_app s s1 s' []); [done|]. by apply (logged_app s1 s2 s' []).
Qed.
Lemma checkpoint_inv target service revision snap s s' u : checkpoint_at clock target service revision snap s = (s', Ok u) →
  ∃ cmd, logged s s' [cmd] ∧ is_checkpoint target service revision snap cmd.
Proof.
  intros Hrun. apply st_bind_inv in Hrun as (s1&at_&Hnow&Hrun). apply st_bind_inv in Hrun as (s2&data&Henc&Hrun).
  apply encoded_inv in Henc as [-> Hdata]. apply st_bind_inv in Hrun as (s3&?&Hprop&Hrun).
  apply st_bind_inv in Hrun as (s4&?&Hnow'&Hrun). injection Hrun as <- _.
  apply unix_now_inv in Hnow as [Hl1 _], Hnow' as [Hl4 _]. apply propose_logged in Hprop as [Hl3 _].
  eexists. split; [|by eexists at_, data; split; [exact Hdata|done]].
  apply (logged_app s s1 _ []); [done|]. apply (logged_app s1 s3 _ [_] []); [exact Hl3|].
  destruct Hl4 as (ds&Hds&Hp). exists ds. split; [done|]. exact Hp.
Qed.
Lemma put_instances_inv target revision insts s s' u : st_iter (put_instance clock target revision) insts s = (s', Ok u) →
  ∃ cmds, logged s s' cmds ∧ Forall2 (is_put target revision) insts cmds.
Proof.
  revert s; induction insts as [|inst insts IH]; intros s Hrun.
  { injection Hrun as <- _. exists []. split; [by apply logged_nil|constructor]. }
  cbn [st_iter] in Hrun. apply st_bind_inv in Hrun as (s1&?&Hput&Hrun). apply put_instance_inv in Hput as (cmd&Hl&Hc).
  destruct (IH _ Hrun) as (cmds&Hls&Hcs). exists (cmd :: cmds). split; [by apply (logged_app s s1 s' [cmd] cmds)|by constructor].
Qed.

(** ** Directories *)
Inductive DirEvent := DSnapshot (insts : list RegistryInstanceDTO) | DUpsert (inst : RegistryInstanceDTO) | DDelete (id : str).
Abbreviation directory := (gmap str RegistryInstanceDTO).
Definition dir_put (dir : directory) (inst : RegistryInstanceDTO) : directory := <[in_InstanceID inst := inst]> dir.
Definition dir_step (dir : directory) (ev : DirEvent) : directory :=
  match ev with
  | DSnapshot insts => fold_left dir_put insts ∅
  | DUpsert inst => dir_put dir inst
  | DDelete id => delete id dir
  end.
Definition type_of (ev : DirEvent) : str :=
  match ev with DSnapshot _ => lit "snapshot" | DUpsert _ => lit "upsert" | DDelete _ => lit "delete" end.
(** The payload says the event. *)
Definition carries (payload : ReplicationWatchEventDTO) (ev : DirEvent) : Prop :=
  match ev with
  | DSnapshot insts => wd_Instances (rd_Event payload) = insts
  | DUpsert inst => wd_Instance (rd_Event payload) = Some inst
  | DDelete id => wd_InstanceID (rd_Event payload) = id
  end.
(** Ids and instances as the registry has them. *)
Definition good_id (id : str) : Prop := trimmed id ∧ id ≠ [] ∧ head id ≠ Some byte_ff.
Definition good_instance (service : ReplicationService) (inst : RegistryInstanceDTO) : Prop :=
  in_Namespace inst = rs_Namespace service ∧ Service (in_Identity inst) = rs_Service service ∧ good_id (in_InstanceID inst).
Definition good_event (service : ReplicationService) (ev : DirEvent) : Prop :=
  match ev with
  | DSnapshot insts => Forall (good_instance service) insts
  | DUpsert inst => good_instance service inst
  | DDelete id => good_id id
  end.

Lemma event_inv target service ev revision data payload s s' u :
  json_unmarshal data = Some payload → carries payload ev → good_event service ev →
  applyReplicationEvent clock target service (type_of ev) revision data s = (s', Ok u) →
  ∃ cmds check snap, logged s s' (cmds ++ [check]) ∧ is_checkpoint target service revision snap check ∧
    match ev with
    | DSnapshot insts => ∃ puts, cmds = MkCommand OperationDeletePrefix [] [] (service_prefix target service) :: puts ∧
                                 Forall2 (is_put target revision) insts puts
    | DUpsert inst => ∃ put, cmds = [put] ∧ is_put target revision inst put
    | DDelete id => cmds = [MkCommand OperationDelete (ReplicatedKey (rt_SourceRegion target) (rt_SourceClusterID target)
                              (rs_Namespace service) (rs_Service service) id) [] []]
    end.
Proof.
  intros Hdata Hcar Hgood Hrun. unfold applyReplicationEvent in Hrun.
  assert (Hdec : ∀ (k : ReplicationWatchEventDTO → ST (ReplState Nd) (ReplErr E) unit), (decoded data ≫= k) s = k payload s)
    by (intros k; unfold decoded; by rewrite Hdata).
  destruct ev as [insts|inst|id]; cbn [type_of] in Hrun.
  - rewrite bool_decide_true in Hrun by done. rewrite Hdec in Hrun. cbn [carries] in Hcar.
    apply st_bind_inv in Hrun as (s1&?&Hdel&Hrun). apply propose_logged in Hdel as [Hl1 _].
    apply st_bind_inv in Hrun as (s2&?&Hputs&Hrun). rewrite Hcar in Hputs. apply put_instances_inv in Hputs as (puts&Hl2&Hp).
    apply checkpoint_inv in Hrun as (check&Hl3&Hc).
    eexists _, check, _. split; [|split; [exact Hc|by exists puts]].
    apply (logged_app s s1 s' [_] (puts ++ [check])); [exact Hl1|]. by apply (logged_app s1 s2 s' puts [check]).
  - rewrite bool_decide_false, bool_decide_true in Hrun by done. rewrite Hdec in Hrun. cbn [carries] in Hcar.
    unfold applyReplicationUpsert in Hrun. rewrite Hcar in Hrun.
    apply st_bind_inv in Hrun as (s1&?&Hput&Hrun). apply put_instance_inv in Hput as (put&Hl1&Hp).
    apply checkpoint_inv in Hrun as (check&Hl2&Hc). eexists _, check, _. split; [|split; [exact Hc|by exists put]].
    by apply (logged_app s s1 s' [put] [check]).
  - rewrite bool_decide_false, bool_decide_false, bool_decide_true in Hrun by done. rewrite Hdec in Hrun. cbn [carries] in Hcar.
    unfold applyReplicationDelete in Hrun. rewrite Hcar, bool_decide_false in Hrun by apply Hgood. cbn [negb] in Hrun.
    apply st_bind_inv in Hrun as (s1&?&Hdel&Hrun). apply propose_logged in Hdel as [Hl1 _].
    apply checkpoint_inv in Hrun as (check&Hl2&Hc). eexists _, check, _. split; [|split; [exact Hc|done]].
    by apply (logged_app s s1 s' [_] [check]).
Qed.

(** ** Keys *)
Lemma replicated_key_prefix target service id : trimmed id →
  ReplicatedKey (rt_SourceRegion target) (rt_SourceClusterID target) (rs_Namespace service) (rs_Service service) id =
    service_prefix target service ++ id.
Proof. intros Ht. unfold service_prefix, ReplicatedKey, ReplicationServicePrefix. rewrite Ht, <- !app_assoc. done. Qed.
Lemma replica_key_prefix target service inst : good_instance service inst →
  replica_key target inst = service_prefix target service ++ in_InstanceID inst.
Proof.
  intros (Hns&Hsvc&Ht&_). rewrite <- replicated_key_prefix by done. unfold replica_key, ReplicatedKey.
  by rewrite !TrimSpace_idemp, Hns, Hsvc.
Qed.
Lemma checkpoint_outside target service : HasPrefix (service_checkpoint target service) (service_prefix target service) = false.
Proof.
  destruct (HasPrefix _ _) eqn:Hp; [|done]. apply HasPrefix_spec in Hp as [t Ht]. exfalso. revert Ht.
  unfold service_checkpoint, ReplicationCheckpointKey, service_prefix, ReplicationServicePrefix.
  unfold ReplicationCheckpointPrefix, ReplicationRegistryPrefix. rewrite <- !app_assoc. intros Ht. discriminate Ht.
Qed.

(** ** Mirrors *)
Definition mirrors (target : ReplicationTarget) (service : ReplicationService) (m : gmap str str) (dir : directory) : Prop :=
  (∀ id inst, dir !! id = Some inst → good_instance service inst ∧ in_InstanceID inst = id ∧
     ∃ data rv revision, m !! (service_prefix target service ++ id) = Some data ∧ json_marshal rv = Some data ∧
       replica_of target rv inst revision) ∧
  (∀ k, HasPrefix k (service_prefix target service) = true → is_Some (m !! k) →
     ∃ id, is_Some (dir !! id) ∧ k = service_prefix target service ++ id).
Lemma mirrors_put target service m dir revision inst cmd :
  mirrors target service m dir → good_instance service inst → is_put target revision inst cmd →
  mirrors target service (cmd_effect m cmd) (dir_put dir inst).
Proof.
  intros [Hin Hout] Hg (rv&data&Hr&Hd&->). unfold cmd_effect. cbn [cmd_op cmd_Operation cmd_Key cmd_Value apply_op].
  rewrite (replica_key_prefix _ service) by done. unfold dir_put. split.
  - intros id i [[<- <-]|[Hne Hl]]%lookup_insert_Some.
    + split_and!; try done. exists data, rv, revision. by rewrite lookup_insert_eq.
    + destruct (Hin id i Hl) as (Hgi&Hid&d&rv'&rev'&Hm&Hd'&Hr'). split_and!; try done. exists d, rv', rev'.
      rewrite lookup_insert_ne; [done|]. intros He%(inj (app _)). done.
  - intros k Hk [d [[<- <-]|[Hne Hl]]%lookup_insert_Some].
    + exists (in_InstanceID inst). split; [|done]. by rewrite lookup_insert_eq; eexists.
    + destruct (Hout k Hk) as (id&Hid&->); [by eexists|]. exists id. split; [|done].
      rewrite lookup_insert_ne; [done|]. intros He. by rewrite He in Hne.
Qed.
Lemma mirrors_delete target service m dir id : mirrors target service m dir →
  mirrors target service (delete (service_prefix target service ++ id) m) (delete id dir).
Proof.
  intros [Hin Hout]. split.
  - intros j i [Hne Hl]%lookup_delete_Some. destruct (Hin j i Hl) as (Hgi&Hid&d&rv&rev&Hm&Hd&Hr). split_and!; try done.
    exists d, rv, rev. rewrite lookup_delete_ne; [done|]. intros He%(inj (app _)). done.
  - intros k Hk [d [Hne Hl]%lookup_delete_Some]. destruct (Hout k Hk) as (j&Hj&->); [by eexists|]. exists j. split; [|done].
    rewrite lookup_delete_ne; [done|]. intros ->. done.
Qed.
Lemma mirrors_clear target service m dir : mirrors target service m dir →
  mirrors target service (cmd_effect m (MkCommand OperationDeletePrefix [] [] (service_prefix target service))) ∅.
Proof.
  intros [Hin Hout]. split; [intros id i Hl; by rewrite lookup_empty in Hl|].
  unfold cmd_effect. cbn [cmd_op cmd_Operation cmd_Prefix apply_op]. intros k Hk [d [Hl Hnot]%map_lookup_filter_Some].
  destruct (Hout k Hk) as (id&[i Hi]&->); [by eexists|]. exfalso. apply Hnot. cbn [fst]. apply prefix_range. split; [done|].
  rewrite drop_app_length. destruct (Hin id i Hi) as ((_&_&Hgi)&Hid&_). rewrite <- Hid in *. destruct Hgi as (_&_&Hff).
  destruct (in_InstanceID i); [done|]. intros ->. by apply Hff.
Qed.
Lemma mirrors_elsewhere target service m dir k v : mirrors target service m dir →
  HasPrefix k (service_prefix target service) = false → mirrors target service (<[k := v]> m) dir.
Proof.
  intros [Hin Hout] Hk. split.
  - intros id i Hl. destruct (Hin id i Hl) as (Hgi&Hid&d&rv&rev&Hm&Hd&Hr). split_and!; try done. exists d, rv, rev.
    rewrite lookup_insert_ne; [done|]. intros ->. by rewrite HasPrefix_app in Hk.
  - intros k' Hk' [d [[<- <-]|[Hne Hl]]%lookup_insert_Some]; [congruence|]. apply Hout; [done|by eexists].
Qed.
Lemma mirrors_puts target service revision insts puts m dir :
  mirrors target service m dir → Forall (good_instance service) insts → Forall2 (is_put target revision) insts puts →
  mirrors target service (fold_left cmd_effect puts m) (fold_left dir_put insts dir).
Proof.
  intros Hm Hg Hp. revert m dir Hm; induction Hp as [|inst cmd insts puts Hcmd _ IH]; intros m dir Hm; [done|].
  apply Forall_cons in Hg as [Hgi Hg]. cbn [fold_left]. apply IH; [done|]. by eapply mirrors_put.
Qed.
Definition checkpointed (target : ReplicationTarget) (service : ReplicationService) (m : gmap str str) (revision : Z) : Prop :=
  ∃ data snap at_, m !! service_checkpoint target service = Some data ∧
    json_marshal (MkReplicationCheckpoint (rt_SourceRegion target) (rt_SourceClusterID target)
      (rs_Namespace service) (rs_Service service) revision snap at_) = Some data.
Lemma checkpoint_effect target service revision snap m dir check :
  mirrors target service m dir → is_checkpoint target service revision snap check →
  mirrors target service (cmd_effect m check) dir ∧ checkpointed target service (cmd_effect m check) revision.
Proof.
  intros Hm (at_&data&Hd&->). unfold cmd_effect. cbn [cmd_op cmd_Operation cmd_Key cmd_Value apply_op]. split.
  - apply mirrors_elsewhere; [done|apply checkpoint_outside].
  - exists data, snap, at_. by rewrite lookup_insert_eq.
Qed.
Definition known_ops (cmds : list Command) : Prop :=
  Forall (λ cmd, cmd_Operation cmd ∈ [OperationPut; OperationDelete; OperationDeletePrefix]) cmds.
Lemma puts_ops target revision insts puts : Forall2 (is_put target revision) insts puts → known_ops puts.
Proof. induction 1 as [|i c insts cs (rv&d&_&_&->) _ IH]; constructor; [by left|done]. Qed.

(** One event. *)
Lemma event_effect target service ev revision data payload s s' u m dir :
  json_unmarshal data = Some payload → carries payload ev → good_event service ev →
  applyReplicationEvent clock target service (type_of ev) revision data s = (s', Ok u) → mirrors target service m dir →
  ∃ ds, nd_proposed (rp_node s') = nd_proposed (rp_node s) ++ ds ∧
    mirrors target service (log_effect m ds) (dir_step dir ev) ∧ checkpointed target service (log_effect m ds) revision.
Proof.
  intros Hdata Hcar Hgood Hrun Hm.
  destruct (event_inv _ _ _ _ _ _ _ _ _ Hdata Hcar Hgood Hrun) as (cmds&check&snap&(ds&Hds&Hp)&Hcheck&Hshape).
  exists ds. split; [done|].
  assert (Hops : known_ops (cmds ++ [check]) ∧ mirrors target service (fold_left cmd_effect cmds m) (dir_step dir ev)).
  { assert (Hck : known_ops [check]) by (destruct Hcheck as (?&?&_&->); constructor; [by left|done]).
    unfold known_ops in *. rewrite Forall_app. destruct ev as [insts|inst|id]; cbn [good_event dir_step] in *.
    - destruct Hshape as (puts&->&Hputs). split.
      + split; [|done]. constructor; [by right; right; left|]. by eapply puts_ops.
      + cbn [fold_left]. eapply mirrors_puts; [by eapply mirrors_clear|done|done].
    - destruct Hshape as (put&->&Hput). split; [|by eapply mirrors_put].
      split; [|done]. destruct Hput as (?&?&_&_&->). constructor; [by left|done].
    - subst cmds. split; [split; [|done]; constructor; [by right; left|done]|]. cbn [fold_left].
      unfold cmd_effect. cbn [cmd_op cmd_Operation cmd_Key apply_op]. rewrite replicated_key_prefix by apply Hgood.
      by apply mirrors_delete. }
  destruct Hops as [Hops Hmir]. rewrite (log_effect_cmds _ _ _ Hops Hds), fold_left_app. cbn [fold_left].
  by eapply checkpoint_effect.
Qed.

(** ** Streams *)
(** Frames that carry events of the service; [None] is a ping. *)
Inductive renders (service : ReplicationService) : list Frame → list (Z * DirEvent) → Prop :=
  | renders_nil : renders service [] []
  | renders_ping fs evs : renders service fs evs → renders service (FPing :: fs) evs
  | renders_event revision ev data payload fs evs :
      json_unmarshal data = Some payload → carries payload ev → good_event service ev → renders service fs evs →
      renders service (FEvent revision (type_of ev) data :: fs) ((revision, ev) :: evs).
(** Those that raise the revision. *)
Fixpoint news (cur : Z) (evs : list (Z * DirEvent)) : list (Z * DirEvent) :=
  match evs with
  | [] => []
  | (r, ev) :: evs => if (cur <? r)%Z then (r, ev) :: news r evs else news cur evs
  end.
Definition mirrored (dir : directory) (evs : list (Z * DirEvent)) : directory := fold_left dir_step evs.*2 dir.

Lemma deliver_effect target service fs evs cur s s' u m dir :
  renders service fs evs → deliver (applyReplicationEvent clock target service) fs cur s = (s', Ok u) →
  mirrors target service m dir →
  ∃ ds, nd_proposed (rp_node s') = nd_proposed (rp_node s) ++ ds ∧
    mirrors target service (log_effect m ds) (mirrored dir (news cur evs)) ∧
    match last (news cur evs) with Some (r, _) => checkpointed target service (log_effect m ds) r | None => ds = [] end.
Proof.
  intros Hr. revert cur s m dir.
  induction Hr as [|fs evs _ IH|revision ev data payload fs evs Hdata Hcar Hgood _ IH]; intros cur s m dir Hrun Hm.
  - injection Hrun as <- _. exists []. by rewrite app_nil_r.
  - cbn [deliver] in Hrun. by apply (IH cur s).
  - cbn [deliver news] in *. destruct (cur <? revision)%Z; [|by apply (IH cur s)].
    apply st_bind_inv in Hrun as (s1&?&Hev&Hrun).
    destruct (event_effect _ _ _ _ _ _ _ _ _ _ _ Hdata Hcar Hgood Hev Hm) as (d1&Hp1&Hm1&Hc1).
    destruct (IH revision s1 (log_effect m d1) (dir_step dir ev) Hrun Hm1) as (d2&Hp2&Hm2&Hc2).
    exists (d1 ++ d2). split; [by rewrite Hp2, Hp1, app_assoc|].
    assert (He : log_effect m (d1 ++ d2) = log_effect (log_effect m d1) d2) by apply fold_left_app.
    rewrite He. split; [exact Hm2|]. rewrite last_cons. destruct (last (news revision evs)) as [[r ?]|]; [done|].
    subst d2. exact Hc1.
Qed.

(** ** Runs that meet no error *)
Definition accepts_all : Prop :=
  (∀ cmd nd, ∃ nd', nd_ProposeCommand (Nd:=Nd) (E:=E) cmd nd = (nd', Ok tt)) ∧
  (∀ rv : ReplicatedValue, is_Some (json_marshal rv)) ∧ (∀ c : ReplicationCheckpoint, is_Some (json_marshal c)).
Lemma st_bind_runs {St Er A B} (m : ST St Er A) (k : A → ST St Er B) s :
  (∃ s1 a, m s = (s1, Ok a)) → (∀ s1 a, ∃ s2 b, k a s1 = (s2, Ok b)) → ∃ s2 b, (m ≫= k) s = (s2, Ok b).
Proof. intros (s1&a&Hm) Hk. unfold mbind, ST_bind. rewrite Hm. apply Hk. Qed.
Lemma propose_runs cmd s : accepts_all → ∃ s1 a, on_nd (nd_ProposeCommand cmd) s = (s1, Ok a).
Proof. intros (Hp&_). unfold on_nd. destruct (Hp cmd (rp_node s)) as [nd ->]. by eexists _, _. Qed.
Lemma checkpoint_runs target service a b s : accepts_all → ∃ s1 u, checkpoint_at clock target service a b s = (s1, Ok u).
Proof.
  intros Hall. apply st_bind_runs; [by eexists _, _|]. intros s1 at_. apply st_bind_runs.
  - unfold encoded. destruct Hall as (_&_&Hc). destruct (Hc (MkReplicationCheckpoint (rt_SourceRegion target) (rt_SourceClusterID target)
      (rs_Namespace service) (rs_Service service) a b at_)) as [d ->]. by eexists _, _.
  - intros s2 d. apply st_bind_runs; [by apply propose_runs|]. intros s3 ?. apply st_bind_runs; [by eexists _, _|].
    intros s4 ?. by eexists _, _.
Qed.
Lemma put_instance_runs target revision inst s : accepts_all → ∃ s1 u, put_instance clock target revision inst s = (s1, Ok u).
Proof.
  intros Hall. apply st_bind_runs; [by eexists _, _|]. intros s1 now. apply st_bind_runs.
  - destruct (now <=? 0)%Z; by eexists _, _.
  - intros s2 cn. apply st_bind_runs; [|intros s3 d; by apply propose_runs]. unfold encoded.
    destruct Hall as (_&Hv&_). destruct (Hv (replicatedValueFromDTO now cn target inst revision)) as [d ->]. by eexists _, _.
Qed.
Lemma event_runs target service ev revision data payload s :
  accepts_all → json_unmarshal data = Some payload → carries payload ev → good_event service ev →
  ∃ s1 u, applyReplicationEvent clock target service (type_of ev) revision data s = (s1, Ok u).
Proof.
  intros Hall Hdata Hcar Hgood. unfold applyReplicationEvent.
  assert (Hdec : ∀ s, decoded (Nd:=Nd) (E:=E) data s = (s, Ok payload)) by (intros ?; unfold decoded; by rewrite Hdata).
  destruct ev as [insts|inst|id]; cbn [type_of carries] in *.
  - rewrite bool_decide_true by done. unfold mbind at 1, ST_bind at 1. rewrite Hdec.
    apply st_bind_runs; [by apply propose_runs|]. intros s1 ?. apply st_bind_runs; [|intros; by apply checkpoint_runs].
    rewrite Hcar. clear -Hall. revert s1; induction insts as [|i insts IH]; intros s1; [by eexists _, _|].
    cbn [st_iter]. apply st_bind_runs; [by apply put_instance_runs|]. intros s2 ?. apply IH.
  - rewrite bool_decide_false, bool_decide_true by done. unfold mbind at 1, ST_bind at 1. rewrite Hdec.
    unfold applyReplicationUpsert. rewrite Hcar. apply st_bind_runs; [by apply put_instance_runs|]. intros; by apply checkpoint_runs.
  - rewrite bool_decide_false, bool_decide_false, bool_decide_true by done. unfold mbind at 1, ST_bind at 1. rewrite Hdec.
    unfold applyReplicationDelete. rewrite Hcar, bool_decide_false by apply Hgood. cbn [negb].
    apply st_bind_runs; [by apply propose_runs|]. intros; by apply checkpoint_runs.
Qed.
Lemma deliver_runs target service fs evs cur s : accepts_all → renders service fs evs →
  ∃ s1 u, deliver (applyReplicationEvent clock target service) fs cur s = (s1, Ok u).
Proof.
  intros Hall Hr. revert cur s; induction Hr as [|fs evs _ IH|revision ev data payload fs evs Hdata Hcar Hgood _ IH]; intros cur s.
  - by eexists _, _.
  - apply IH.
  - cbn [deliver]. destruct (cur <? revision)%Z; [|apply IH]. apply st_bind_runs; [by eapply event_runs|]. intros s1 ?. apply IH.
Qed.

Lemma stream_mirrors target service fs evs s m dir :
  accepts_all → renders service fs evs → Forall frame_ok fs → mirrors target service m dir →
  ∃ s' ds, read_stream (applyReplicationEvent clock target service) ERevision ELineTooLong (concat (map frame_bytes fs)) s = (s', Ok tt) ∧
    nd_proposed (rp_node s') = nd_proposed (rp_node s) ++ ds ∧
    mirrors target service (log_effect m ds) (mirrored dir (news 0 evs)) ∧
    match last (news 0 evs) with Some (r, _) => checkpointed target service (log_effect m ds) r | None => ds = [] end.
Proof.
  intros Hall Hr Hfs Hm. rewrite (read_rendered _ _ _ _ _ Hfs).
  destruct (deliver_runs target service fs evs 0 s Hall Hr) as (s'&[]&Hrun).
  destruct (deliver_effect _ _ _ _ _ _ _ _ _ _ Hr Hrun Hm) as (ds&?&?&?). by exists s', ds.
Qed.
(** C12: A node that accepts its proposals mirrors the remote service: reading the bytes of any stream
    of snapshot, upsert and delete frames ends without an error, and applying what it proposed to a
    store that mirrors a directory leaves a mirror of the directory after these events (those
    that raise the revision), with a checkpoint of the last revision. *)
Theorem replication_mirrors target service fs evs s m dir :
  accepts_all → renders service fs evs → Forall frame_ok fs → mirrors target service m dir →
  ∃ s' ds, read_stream (applyReplicationEvent clock target service) ERevision ELineTooLong (concat (map frame_bytes fs)) s = (s', Ok tt) ∧
    nd_proposed (rp_node s') = nd_proposed (rp_node s) ++ ds ∧
    mirrors target service (log_effect m ds) (mirrored dir (news 0 evs)) ∧
    match last (news 0 evs) with Some (r, _) => checkpointed target service (log_effect m ds) r | None => ds = [] end.
Proof. apply stream_mirrors. Qed.

(** ** A snapshot is not applied at once *)
Lemma clear_keeps_checkpoint target service m r : checkpointed target service m r →
  checkpointed target service (cmd_effect m (MkCommand OperationDeletePrefix [] [] (service_prefix target service))) r.
Proof.
  intros (data&snap&at_&Hl&Hd). exists data, snap, at_. split; [|done]. unfold cmd_effect.
  cbn [cmd_op cmd_Operation cmd_Prefix apply_op]. apply map_lookup_filter_Some. split; [done|]. cbn [fst]. intros [Hp _]%prefix_range.
  by rewrite checkpoint_outside in Hp.
Qed.
(** When the proposals of a snapshot break off after its first one, the copied directory is empty
    but the checkpoint still names the old revision: the next stream resumes there, and if it
    need not send a snapshot again, the copy never gets the instances back that the later
    events do not mention. *)
Theorem interrupted_snapshot target service inst insts revision data payload s nd1 e m dir r0 fs evs s2 s2' :
  json_unmarshal data = Some payload → wd_Instances (rd_Event payload) = inst :: insts →
  nd_ProposeCommand (MkCommand OperationDeletePrefix [] [] (service_prefix target service)) (rp_node s) = (nd1, Ok tt) →
  (∀ cmd, nd_ProposeCommand cmd nd1 = (nd1, Err e)) → (∀ rv : ReplicatedValue, is_Some (json_marshal rv)) →
  mirrors target service m dir → checkpointed target service m r0 →
  renders service fs evs → deliver (applyReplicationEvent clock target service) fs r0 s2 = (s2', Ok tt) →
  ∃ s1 ds ds', applyReplicationEvent clock target service (lit "snapshot") revision data s = (s1, Err (ENode e)) ∧
    nd_proposed (rp_node s1) = nd_proposed (rp_node s) ++ ds ∧
    mirrors target service (log_effect m ds) ∅ ∧ checkpointed target service (log_effect m ds) r0 ∧
    nd_proposed (rp_node s2') = nd_proposed (rp_node s2) ++ ds' ∧
    mirrors target service (log_effect (log_effect m ds) ds') (mirrored ∅ (news r0 evs)).
Proof.
  intros Hdata Hinsts Hdel Hfail Hvals Hm Hc Hr Hrun.
  destruct (nd_Propose_ok _ _ _ Hdel) as (d&Hd&Hp1).
  assert (Heff : log_effect m [d] = cmd_effect m (MkCommand OperationDeletePrefix [] [] (service_prefix target service))).
  { apply (log_effect_cmds m [_]); [|by repeat constructor]. apply Forall_cons. split; [by right; right; left|done]. }
  assert (Hm1 : mirrors target service (log_effect m [d]) ∅) by (rewrite Heff; by eapply mirrors_clear).
  destruct (deliver_effect _ _ _ _ _ _ _ _ _ _ Hr Hrun Hm1) as (ds'&Hp2&Hm2&_).
  assert (Hput : ∀ ticks, ∃ s', put_instance clock target revision inst (MkRepl nd1 (rp_tracker s) ticks) = (s', Err (ENode e)) ∧ rp_node s' = nd1).
  { intros ticks. unfold put_instance, unix_now, mbind, ST_bind. cbn [rp_node rp_tracker rp_ticks].
    destruct (_ <=? 0)%Z; unfold putReplicatedValue, encoded, mbind, ST_bind, mret, ST_ret;
      match goal with |- context [json_marshal ?rv] => destruct (Hvals rv) as [dv ->] end;
      unfold on_nd; cbn [rp_node]; rewrite Hfail; by eexists. }
  destruct (Hput (rp_ticks s)) as (s'&Hs'&Hn'). exists s', [d], ds'.
  split; [|split; [by rewrite Hn'|split; [exact Hm1|split; [rewrite Heff; by apply clear_keeps_checkpoint|by split]]]].
  assert (Hsnap : applyReplicationSnapshot clock target service payload revision s = (s', Err (ENode e))).
  { unfold applyReplicationSnapshot. rewrite Hinsts. cbn [st_iter]. unfold on_nd at 1. unfold mbind, ST_bind.
    rewrite Hdel. cbn [map_err]. by rewrite Hs'. }
  unfold applyReplicationEvent. rewrite bool_decide_true by done. rewrite <- Hsnap.
  unfold decoded. rewrite Hdata. reflexivity.
Qed.
End facts.
