(* ===== verification/Watch.v ===== *)
(** * Watch streams ([WatchInstances], [WatchReplication]; [publishRegistryEvents] of [app.go])

    The application publishes an event for every committed write of the registry.  A watch
    subscribes, sends a snapshot or replays what it missed, and then one frame per event whose
    revision is above the last one, with pings in between.  What arrives on the stream's select
    is a list of inputs; the clock readings come with them. *)
From Stdlib Require Import Ascii ZArith Sorted.
From stdpp Require Import gmap strings list sorting.
From S2P Require Import Prelude GoStrings Selector RegistryModel ReplicationModel WatchHub Codec Wal Engine StateMachine Pebble Raft RaftNode AddressBook DataNode Dto Http Sse.

(** ** Publishing *)
Section publishing.
Context `{Json Command, Json Value}.
Definition event_of_entry (entry : LogEntry) : option WatchEvent :=
  match e_Type (le_Raw entry) with
  | EntryNormal =>
      if bool_decide (le_Data entry = []) then None
      else match json_unmarshal (A:=Command) (le_Data entry) with
      | None => None
      | Some cmd =>
          match ParseKey (cmd_Key cmd) with
          | None => None
          | Some (namespace, service, instanceID) =>
              match cmd_Operation cmd with
              | OperationPut =>
                  match json_unmarshal (A:=Value) (cmd_Value cmd) with
                  | None => None
                  | Some value => Some (MkWatchEvent (le_Index entry) WatchEventUpsert namespace service instanceID (Some value))
                  end
              | OperationDelete => Some (MkWatchEvent (le_Index entry) WatchEventDelete namespace service instanceID None)
              | _ => None
              end
          end
      end
  | _ => None
  end.
Definition publishRegistryEvents (entries : list LogEntry) : list WatchEvent := omap event_of_entry entries.
End publishing.

(** ** The stream *)
Inductive WatchInput := WPing | WEvent (event : WatchEvent) (exportedAt now : Z) | WClosed | WDone.
Section stream.
Context {P : Type} `{Json P} (payload_of : WatchEvent → Z → Z → option (option P)) (payload_type : P → str).
Definition event_frame (revision : Z) (event : str) (payload : P) : option Frame :=
  data ← json_marshal payload; Some (FEvent revision event data).
(** The replayed events; the revision of the last frame; [None] when the stream ends here
    (a panic, or a payload that cannot be marshalled). *)
Fixpoint replay_frames (times : nat → Z * Z) (i : nat) (replay : list WatchEvent) (current : Z) : list Frame * option Z :=
  match replay with
  | [] => ([], Some current)
  | event :: replay =>
      match payload_of event (times i).1 (times i).2 with
      | None => ([], None)
      | Some None => replay_frames times (S i) replay current
      | Some (Some payload) =>
          match event_frame (we_Revision event) (payload_type payload) payload with
          | None => ([], None)
          | Some frame => let '(fs, r) := replay_frames times (S i) replay (we_Revision event) in (frame :: fs, r)
          end
      end
  end.
(** The loop. *)
Fixpoint watch_loop (inputs : list WatchInput) (current : Z) : list Frame :=
  match inputs with
  | [] => []
  | WPing :: inputs => FPing :: watch_loop inputs current
  | WClosed :: _ => []
  | WDone :: _ => []
  | WEvent event exportedAt now :: inputs =>
      if (we_Revision event <=? current)%Z then watch_loop inputs current
      else match payload_of event exportedAt now with
      | None => []
      | Some None => watch_loop inputs current
      | Some (Some payload) =>
          match event_frame (we_Revision event) (payload_type payload) payload with
          | None => []
          | Some frame => frame :: watch_loop inputs (we_Revision event)
          end
      end
  end.
End stream.

Section watch.
Context `{DN : DataNode Nd E} `{GoRange, CaseTable, Json Value, Json RegistryWatchEventDTO, Json ReplicationWatchEventDTO}.
Abbreviation HM := (ST Nd Response).
Definition snapshot_failed : Response := writeError StatusInternalServerError "snapshot_failed".
(** [nanos] is [time.Now().UnixNano()]. *)
Definition registryWatchSnapshot (nanos : Z) (now : Z) (query : Query) : HM (list RegistryInstanceDTO * Z) :=
  or_respond snapshot_failed (nd_LinearizableRead
    (lit "registry-watch-" ++ q_Namespace query ++ lit "-" ++ q_Service query ++ lit "-" ++ FormatUint nanos));;
  s ← st_get;
  let snapshotRevision := st_AppliedIndex (nd_Status s) in
  let '(start, end_) := prefixRange (scan_prefix query) in
  items ← or_respond snapshot_failed (nd_Scan start end_ 0);
  result ← panics (collect decode_local query now items []);
  mret (result, snapshotRevision).

(** [strconv.ParseBool] *)
Definition ParseBool (s : str) : option bool :=
  if existsb (λ t, bool_decide (s = lit t)) ["1"; "t"; "T"; "true"; "TRUE"; "True"]%string then Some true
  else if existsb (λ t, bool_decide (s = lit t)) ["0"; "f"; "F"; "false"; "FALSE"; "False"]%string then Some false
  else None.
Definition isAuthorizedReplicationRequest (h : RegistryAPI) (r : Request) : bool :=
  let token := TrimSpace (h_replicateAuth h) in
  if bool_decide (token = []) then false
  else bool_decide (TrimSpace (rq_Header r (lit "Authorization")) = lit "Bearer " ++ token).
(** The identity of the caller; it must be well formed when it is given at all. *)
Definition callerField (r : Request) (queryKey : string) (headerKeys : list string) : str :=
  let first := TrimSpace (firstQueryValue (rq_Query r) queryKey) in
  if negb (bool_decide (first = [])) then first
  else foldr (λ k rest, let v := TrimSpace (rq_Header r (lit k)) in if bool_decide (v = []) then rest else v) [] headerKeys.
Definition parseRegistryCallerIdentity (r : Request) : option (str * Identity) :=
  let namespace := TrimSpace (callerField r "callerNamespace" ["X-StellMap-Caller-Namespace"; "X-Caller-Namespace"]) in
  let service := TrimSpace (callerField r "callerService" ["X-StellMap-Caller-Service"; "X-Caller-Service"]) in
  let d := map_dims TrimSpace (Dims
    (callerField r "callerOrganization" ["X-StellMap-Caller-Organization"; "X-Caller-Organization"])
    (callerField r "callerBusinessDomain" ["X-StellMap-Caller-Business-Domain"; "X-Caller-Business-Domain"])
    (callerField r "callerCapabilityDomain" ["X-StellMap-Caller-Capability-Domain"; "X-Caller-Capability-Domain"])
    (callerField r "callerApplication" ["X-StellMap-Caller-Application"; "X-Caller-Application"])
    (callerField r "callerRole" ["X-StellMap-Caller-Role"; "X-Caller-Role"])) in
  if bool_decide (namespace = []) && bool_decide (service = []) && bool_decide (d = empty_dims) then Some ([], MkIdentity [] empty_dims)
  else match NormalizeStructuredServiceIdentity (MkIdentity service d) with
       | Ok identity => Some (namespace, identity)
       | Err _ => None
       end.

(** What a stream sends before its loop: the frames, the current revision, or the response that
    ends it.  [subscription] is the result of [SubscribeSince]. *)
Definition snapshot_frame {P} `{Json P} (make : list RegistryInstanceDTO → Z → P) (nanos now : Z) (query : Query) : HM (list Frame * option Z) :=
  r ← registryWatchSnapshot nanos now query;
  mret (match event_frame r.2 (lit "snapshot") (make r.1 r.2) with
        | Some frame => ([frame], Some r.2)
        | None => ([], None)
        end).
Definition or_ping (r : list Frame * option Z) : list Frame * option Z :=
  match r with ([], Some current) => ([FPing], Some current) | _ => r end.

Definition replication_payload (h : RegistryAPI) (query : Query) (event : WatchEvent) (exportedAt now : Z) : option (option ReplicationWatchEventDTO) :=
  replicationWatchEventDTO query (h_sourceRegion h) (h_sourceCluster h) event exportedAt now.
Definition replication_type (p : ReplicationWatchEventDTO) : str := wd_Type (rd_Event p).
Definition replication_snapshot (h : RegistryAPI) (query : Query) (exportedAt : Z) (items : list RegistryInstanceDTO) (revision : Z) : ReplicationWatchEventDTO :=
  MkReplicationDTO (MkWatchDTO revision (lit "snapshot") (q_Namespace query) (MkIdentity (q_Service query) empty_dims) [] None items)
    (h_sourceRegion h) (h_sourceCluster h) exportedAt.
Definition WatchReplication_request (h : RegistryAPI) (r : Request) : result Response (Query * Z) :=
  if negb (bool_decide (rq_Method r = lit "GET")) then Err (MkResponse StatusMethodNotAllowed BodyNone)
  else if negb (isAuthorizedReplicationRequest h r) then Err (writeError StatusUnauthorized "unauthorized")
  else match ParseQuery (rq_Query r) with
  | Err _ => Err bad_request
  | Ok query => match parseSinceRevision (url_Get (rq_Query r) "sinceRevision") with
                | None => Err bad_request
                | Some since => Ok (query, since)
                end
  end.
Definition WatchReplication_open (h : RegistryAPI) (nanos now exportedAt : Z) (times : nat → Z * Z) (query : Query) (since : Z)
    (replay : list WatchEvent) (exact : bool) : HM (list Frame * option Z) :=
  r ← (if (since =? 0)%Z || negb exact then snapshot_frame (replication_snapshot h query exportedAt) nanos now query
       else mret (replay_frames (replication_payload h query) replication_type times 0 replay since));
  mret (or_ping r).
(** All frames of a stream. *)
Definition WatchReplication (h : RegistryAPI) (nanos now exportedAt : Z) (times : nat → Z * Z) (query : Query) (since : Z)
    (replay : list WatchEvent) (exact : bool) (inputs : list WatchInput) : HM (list Frame) :=
  r ← WatchReplication_open h nanos now exportedAt times query since replay exact;
  mret (r.1 ++ match r.2 with
               | Some current => watch_loop (replication_payload h query) replication_type inputs current
               | None => []
               end).

Definition registry_payload (query : Query) (event : WatchEvent) (exportedAt now : Z) : option (option RegistryWatchEventDTO) :=
  registryWatchEventDTO query event now.
Definition registry_snapshot (query : Query) (items : list RegistryInstanceDTO) (revision : Z) : RegistryWatchEventDTO :=
  MkWatchDTO revision (lit "snapshot") (q_Namespace query) (MkIdentity (q_Service query) empty_dims) [] None items.
Definition WatchInstances_request (r : Request) : result Response (Query * Z * bool) :=
  if negb (bool_decide (rq_Method r = lit "GET")) then Err (MkResponse StatusMethodNotAllowed BodyNone)
  else match ParseQuery (rq_Query r) with
  | Err _ => Err bad_request
  | Ok query => match parseRegistryCallerIdentity r with
  | None => Err bad_request
  | Some _ => match parseSinceRevision (url_Get (rq_Query r) "sinceRevision") with
  | None => Err bad_request
  | Some since =>
      let raw := TrimSpace (url_Get (rq_Query r) "includeSnapshot") in
      if bool_decide (raw = []) then Ok (query, since, true)
      else match ParseBool raw with Some b => Ok (query, since, b) | None => Err bad_request end
  end end end.
Definition WatchInstances (nanos now : Z) (times : nat → Z * Z) (query : Query) (since : Z) (includeSnapshot : bool)
    (replay : list WatchEvent) (exact : bool) (inputs : list WatchInput) : HM (list Frame) :=
  guard_respond (negb ((0 <? since)%Z && negb exact && negb includeSnapshot)) (writeError StatusGone "revision_expired");;
  r ← (if (since =? 0)%Z || negb exact then
         if includeSnapshot then snapshot_frame (registry_snapshot query) nanos now query else mret ([], Some since)
       else mret (replay_frames (registry_payload query) wd_Type times 0 replay since));
  let r := or_ping r in
  mret (r.1 ++ match r.2 with
               | Some current => watch_loop (registry_payload query) wd_Type inputs current
               | None => []
               end).
End watch.
