(* ===== verification/Mirror.v ===== *)
(** * From one region to another

    The pieces put together: the committed log of the source, the events published for it, the
    watch stream of a service, the bytes on the wire, the client, and the copied directory in
    the store of the destination. *)
From Stdlib Require Import Ascii ZArith Sorted.
From stdpp Require Import gmap strings countable list sorting.
From S2P Require Import Prelude GoStrings Selector RegistryModel ReplicationModel WatchHub Codec Wal WalLog Engine StateMachine Pebble Raft RaftNode AddressBook DataNode Replay Dto Http QueryFacts Tracker Sse Watch Replication ReplicationFacts.

(** ** One service *)
Definition service_query (service : ReplicationService) : Query :=
  MkQuery (rs_Namespace service) (rs_Service service) [rs_Service service] [] [] [] [] 0.
Definition good_service (service : ReplicationService) : Prop := key_field (rs_Namespace service) ∧ key_field (rs_Service service).
Section service.
Context `{GoRange, Json Value} (service : ReplicationService).
Hypothesis Hservice : good_service service.
Lemma service_parts : rs_Namespace service ≠ [] ∧ rs_Service service ≠ [] ∧ trimmed (rs_Namespace service) ∧ trimmed (rs_Service service).
Proof.
  destruct Hservice as [((_&Hb1)&Ht1&_) ((_&Hb2)&Ht2&_)]. rewrite blank_false in Hb1, Hb2. rewrite Ht1 in Hb1. rewrite Ht2 in Hb2. done.
Qed.
Lemma service_matches svc : MatchServiceQuery svc (service_query service) = bool_decide (TrimSpace svc = rs_Service service).
Proof.
  destruct service_parts as (_&Hne&_). unfold MatchServiceQuery. cbn [service_query q_Service q_Services q_ServicePrefixes].
  rewrite (bool_decide_false (rs_Service service = [])) by done. rewrite (bool_decide_false ([rs_Service service] = [])) by done.
  cbn [negb andb existsb]. destruct (bool_decide_reflect (TrimSpace svc = rs_Service service)) as [He|He]; cbn [negb orb]; [|done].
  by rewrite bool_decide_true by done.
Qed.
Lemma service_query_wf : wf_query (service_query service).
Proof.
  destruct service_parts as (Hn&Hs&Htn&Hts).
  split; cbn; [done|split; [apply NoDup_singleton|by constructor; [|constructor]]|split; constructor|right; by left|constructor|done].
Qed.
Lemma service_MatchQuery v : MatchQuery v (service_query service) =
  Some (bool_decide (v_Namespace v = rs_Namespace service) && bool_decide (TrimSpace (Service (v_Identity v)) = rs_Service service)).
Proof.
  destruct service_parts as (Hn&_). unfold MatchQuery. rewrite service_matches. cbn [service_query q_Namespace q_Zone q_Selector q_Endpoint].
  rewrite (bool_decide_false (rs_Namespace service = [])) by done.
  destruct (bool_decide (v_Namespace v = rs_Namespace service)); cbn [negb andb]; [|done].
  by destruct (bool_decide (TrimSpace _ = _)).
Qed.
(** A value of the service. *)
Definition of_service (v : Value) : Prop := v_Namespace v = rs_Namespace service ∧ Service (v_Identity v) = rs_Service service.
Lemma service_selects now v : of_service v → selects (service_query service) now v = IsAlive v now.
Proof.
  intros [Hn Hs]. destruct service_parts as (_&_&_&Ht). unfold selects. rewrite service_MatchQuery, Hn, Hs, Ht.
  rewrite (bool_decide_true (rs_Namespace service = _)), (bool_decide_true (rs_Service service = _)) by done. cbn [andb].
  rewrite (bool_decide_true (Some true = Some true)) by done.
  by rewrite andb_true_r.
Qed.
Lemma selects_service now v : keyed v → selects (service_query service) now v = true → of_service v.
Proof.
  intros (_&(_&Ht&_)&_). unfold selects. rewrite service_MatchQuery, Ht. rewrite andb_true_iff, bool_decide_eq_true.
  intros [_ [= Hb]]. apply andb_true_iff in Hb. rewrite !bool_decide_eq_true in Hb. done.
Qed.

(** ** The event a published event means for the service *)
Definition dir_event (now : Z) (e : WatchEvent) : DirEvent :=
  match we_Type e, we_Value e with
  | WatchEventUpsert, Some v => if IsAlive v now then DUpsert (instance_of v (service_query service)) else DDelete (we_InstanceID e)
  | _, _ => DDelete (we_InstanceID e)
  end.
Definition concerns (e : WatchEvent) : bool :=
  bool_decide (we_Namespace e = rs_Namespace service) && bool_decide (TrimSpace (we_Service e) = rs_Service service).
(** An event of a well-kept registry. *)
Definition event_ok (e : WatchEvent) : Prop :=
  concerns e = true → good_id (we_InstanceID e) ∧
    match we_Value e with Some v => of_service v ∧ v_InstanceID v = we_InstanceID e | None => True end.
Lemma replication_payload_other h e exportedAt now : concerns e = false →
  replication_payload h (service_query service) e exportedAt now = Some None.
Proof.
  intros Hc. unfold replication_payload, replicationWatchEventDTO, registryWatchEventDTO. rewrite service_matches.
  cbn [service_query q_Namespace]. unfold concerns in Hc.
  destruct (bool_decide (we_Namespace e = _)); [|done]. cbn [andb] in Hc. by rewrite Hc.
Qed.
Lemma replication_payload_event h e exportedAt now : event_ok e → concerns e = true →
  ∃ p, replication_payload h (service_query service) e exportedAt now = Some (Some p) ∧ carries p (dir_event now e) ∧
    replication_type p = type_of (dir_event now e) ∧ good_event service (dir_event now e).
Proof.
  intros He Hc. destruct (He Hc) as [Hid Hv]. unfold replication_payload, replicationWatchEventDTO, registryWatchEventDTO.
  rewrite service_matches. cbn [service_query q_Namespace]. unfold concerns in Hc. apply andb_true_iff in Hc as [-> ->].
  cbn [negb orb]. unfold dir_event.
  destruct (we_Type e), (we_Value e) as [v|]; try (eexists; split; [reflexivity|by split_and!]).
  destruct Hv as [Hof Hvid]. rewrite (registryInstanceDTOFromValue_spec _ _ _ _ (service_MatchQuery v)). cbn [mbind option_bind].
  rewrite service_selects by done. destruct (IsAlive v now); eexists; (split; [reflexivity|split_and!; try done]).
  cbn [good_event]. split; [apply Hof|split; [apply Hof|]]. cbn. by rewrite Hvid.
Qed.

(** ** The frames of a stream *)
Context `{Json ReplicationWatchEventDTO} (h : RegistryAPI).
(** A payload that JSON carries on one line of bounded length. *)
Definition wire_ok (p : ReplicationWatchEventDTO) : Prop :=
  ∃ data, json_marshal p = Some data ∧ json_unmarshal data = Some p ∧ text_ok data.
Definition input_ok (i : WatchInput) : Prop :=
  match i with
  | WEvent e exportedAt now => event_ok e ∧ is_u64 (we_Revision e) ∧
      ∀ p, replication_payload h (service_query service) e exportedAt now = Some (Some p) → wire_ok p
  | _ => True
  end.
Fixpoint loop_events (inputs : list WatchInput) (current : Z) : list (Z * DirEvent) :=
  match inputs with
  | [] => []
  | WPing :: inputs => loop_events inputs current
  | WClosed :: _ => []
  | WDone :: _ => []
  | WEvent e _ now :: inputs =>
      if (we_Revision e <=? current)%Z then loop_events inputs current
      else if concerns e then (we_Revision e, dir_event now e) :: loop_events inputs (we_Revision e)
      else loop_events inputs current
  end.
Lemma type_text ev : text_ok (type_of ev).
Proof. destruct ev; split_and!; try done; apply (bool_decide_unpack _); vm_compute; done. Qed.
Lemma loop_renders inputs current : Forall input_ok inputs →
  renders service (watch_loop (replication_payload h (service_query service)) replication_type inputs current) (loop_events inputs current) ∧
  Forall frame_ok (watch_loop (replication_payload h (service_query service)) replication_type inputs current).
Proof.
  intros Hin. revert current; induction Hin as [|i inputs Hi _ IH]; intros current; [split; constructor|].
  destruct i as [|e x now| |]; cbn [watch_loop loop_events]; [|destruct Hi as (He&Hrev&Hwire)|by split; constructor..].
  - destruct (IH current). by split; constructor.
  - destruct (we_Revision e <=? current)%Z; [apply IH|]. destruct (concerns e) eqn:Hc.
    + destruct (replication_payload_event h e x now He Hc) as (p&Hp&Hcar&Hty&Hgood). rewrite Hp.
      destruct (Hwire p Hp) as (data&Hd&Hu&Htext). unfold event_frame. rewrite Hd. cbn [mbind option_bind].
      destruct (IH (we_Revision e)) as [Hr Hf]. rewrite Hty. split; [by eapply renders_event|].
      constructor; [|done]. split_and!; [apply Hrev..|apply type_text|done].
    + rewrite (replication_payload_other h e x now Hc). apply IH.
Qed.
End service.
