(* ===== verification/Region.v ===== *)
(** * A region's directory in another region

    The committed log of the source determines what its registry holds; the events published
    for it are what a copied directory needs to follow.  [region_mirror] puts the pieces
    together: the log, the watch handler, the bytes on the wire, the replication client and
    the store of the destination. *)
From Stdlib Require Import Ascii ZArith Sorted.
From stdpp Require Import gmap strings countable list sorting.
From S2P Require Import Prelude GoStrings Selector RegistryModel ReplicationModel WatchHub Codec Wal WalLog Engine StateMachine Pebble Raft RaftNode AddressBook DataNode Replay Dto Http QueryFacts Tracker Sse Watch Replication ReplicationFacts Mirror.

(** ** The log of the source *)
Section source.
Context `{Json Command, GoRange, Json Value}.
(** Entries as the program writes them: instances under their own keys, deletions of well-formed
    names, prefix deletions outside the registry. *)
Definition entry_ok (e : Entry) : Prop :=
  match entry_cmd e with
  | None => True
  | Some cmd =>
      match cmd_Operation cmd with
      | OperationPut => HasPrefix (cmd_Key cmd) RootPrefix = true →
          ∃ v, json_unmarshal (cmd_Value cmd) = Some v ∧ keyed v ∧ cmd_Key cmd = value_key v
      | OperationDelete => ∀ n s i, ParseKey (cmd_Key cmd) = Some (n, s, i) → key_field s ∧ key_field i
      | OperationDeletePrefix => ∀ k, HasPrefix k RootPrefix = true →
          ¬ (str_le (cmd_Prefix cmd) k ∧ str_lt k (cmd_Prefix cmd ++ [byte_ff]))
      | OperationOther _ => True
      end
  end.
Definition entry_event (e : Entry) : option WatchEvent := event_of_entry (MkLogEntry (e_Index e) (e_Term e) [] (e_Data e) e).
Lemma publish_convert `{Raft} es : publishRegistryEvents (convertEntries es) = omap entry_event es.
Proof. unfold publishRegistryEvents, convertEntries. rewrite omap_fmap. done. Qed.
Definition cmd_event (index : Z) (cmd : Command) : option WatchEvent :=
  match ParseKey (cmd_Key cmd) with
  | None => None
  | Some (n, s, i) =>
      match cmd_Operation cmd with
      | OperationPut => v ← json_unmarshal (A:=Value) (cmd_Value cmd); Some (MkWatchEvent index WatchEventUpsert n s i (Some v))
      | OperationDelete => Some (MkWatchEvent index WatchEventDelete n s i None)
      | _ => None
      end
  end.
Lemma entry_event_cmd e : entry_event e = entry_cmd e ≫= cmd_event (e_Index e).
Proof.
  unfold entry_event, event_of_entry, entry_cmd, cmd_event. cbn [le_Raw le_Data le_Index].
  destruct (e_Type e); try done. case_bool_decide; [done|]. destruct (json_unmarshal _) as [cmd|]; [|done]. cbn [mbind option_bind].
  destruct (ParseKey _) as [[[n s] i]|]; [|done]. by destruct (cmd_Operation cmd).
Qed.
Lemma Key_root n s i : HasPrefix (Key n s i) RootPrefix = true.
Proof. apply HasPrefix_app. Qed.
Lemma keyed_parse v : keyed v → ParseKey (value_key v) = Some (v_Namespace v, Service (v_Identity v), v_InstanceID v).
Proof. intros (Hn&Hs&Hi). apply ParseKey_complete; [apply Hn|apply Hs|apply Hi]. Qed.
Lemma IsAlive_earlier v now later : (now ≤ later)%Z → IsAlive v later = true → IsAlive v now = true.
Proof.
  intros Hle. unfold IsAlive. destruct (Z.leb_spec now 0); [done|]. destruct (Z.leb_spec later 0); [lia|].
  destruct (_ <=? 0)%Z; [done|]. rewrite !Z.leb_le. lia.
Qed.
(** What an entry does below [RootPrefix]. *)
Inductive registry_step (m : gmap str str) : option WatchEvent → gmap str str → Prop :=
  | reg_none m' : (∀ k, HasPrefix k RootPrefix = true → m' !! k = m !! k) → registry_step m None m'
  | reg_put index v data : json_unmarshal data = Some v → keyed v →
      registry_step m (Some (MkWatchEvent index WatchEventUpsert (v_Namespace v) (Service (v_Identity v)) (v_InstanceID v) (Some v)))
        (<[value_key v := data]> m)
  | reg_delete index n s i : segment n → key_field s → key_field i →
      registry_step m (Some (MkWatchEvent index WatchEventDelete n s i None)) (delete (Key n s i) m)
  | reg_drop k : ParseKey k = None → registry_step m None (delete k m).
Lemma entry_registry m e : entry_ok e → registry_step m (entry_event e) (entry_effect m e).
Proof.
  unfold entry_ok. rewrite entry_event_cmd. unfold entry_effect. destruct (entry_cmd e) as [cmd|]; cbn [mbind option_bind]; [|by constructor].
  unfold cmd_event, cmd_effect, cmd_op. destruct (cmd_Operation cmd); intros Hok; cbn [apply_op].
  - destruct (HasPrefix (cmd_Key cmd) RootPrefix) eqn:Hroot.
    + destruct (Hok eq_refl) as (v&Hv&Hk&->). rewrite keyed_parse by done. rewrite Hv. cbn. by constructor.
    + assert (ParseKey (cmd_Key cmd) = None) as -> by (unfold ParseKey; by rewrite Hroot).
      constructor. intros k Hk. rewrite lookup_insert_ne; [done|congruence].
  - destruct (ParseKey (cmd_Key cmd)) as [[[n s] i]|] eqn:Hp; [|by constructor].
    destruct (Hok _ _ _ eq_refl). apply ParseKey_sound in Hp as (->&?&_). by constructor.
  - match goal with |- registry_step _ ?ev _ => assert (ev = None) as -> by by destruct (ParseKey _) as [[[]]|] end.
    constructor. intros k Hk. rewrite map_lookup_filter. destruct (m !! k); [|done]. cbn [mbind option_bind].
    rewrite option_guard_True; [done|]. by apply Hok.
  - match goal with |- registry_step _ ?ev _ => assert (ev = None) as -> by by destruct (ParseKey _) as [[[]]|] end. by constructor.
Qed.
Lemma registry_ok_step m ev m' : registry_ok m → registry_step m ev m' → registry_ok m'.
Proof.
  intros Hm Hs k data v. destruct Hs as [m' Heq|index w d Hd Hw|index n s i _ _ _|k' _].
  - intros Hl Hk. rewrite Heq in Hl by done. by apply (Hm k data v).
  - intros [[<- <-]|[_ Hl]]%lookup_insert_Some Hk Hu; [|by apply (Hm k data v)]. by replace v with w by congruence.
  - intros [_ Hl]%lookup_delete_Some. by apply Hm.
  - intros [_ Hl]%lookup_delete_Some. by apply Hm.
Qed.
Lemma registry_ok_replay m es : Forall entry_ok es → registry_ok m → registry_ok (replay m es).
Proof.
  intros Hes. revert m; induction Hes as [|e es He _ IH]; intros m Hm; [done|]. apply (IH (entry_effect m e)).
  eapply registry_ok_step; [done|by apply entry_registry].
Qed.
Lemma root_business k : HasPrefix k RootPrefix = true → isMetaKey k = false.
Proof.
  intros [t ->]%HasPrefix_spec. rewrite isMetaKey_HasPrefix. destruct (HasPrefix _ metaPrefix) eqn:Hp; [|done].
  apply HasPrefix_spec in Hp as [x Hx]. discriminate Hx.
Qed.
Lemma registry_ok_business m m' : business m = business m' → registry_ok m → registry_ok m'.
Proof.
  rewrite business_eq. intros He Hm k data v Hl Hk. apply (Hm k data v); [|done]. by rewrite He by by apply root_business.
Qed.
End source.

(** ** Following the log *)
Section tracks.
Context `{Json Command, GoRange, Json Value} (service : ReplicationService).
Hypothesis Hservice : good_service service.
Abbreviation ns := (rs_Namespace service).
Abbreviation svc := (rs_Service service).
Abbreviation directory := (gmap str RegistryInstanceDTO).
Abbreviation shown := (λ v, instance_of v (service_query service)).
(** The copy shows nothing the registry does not hold, and everything that is alive at [T]. *)
Definition tracks (T : Z) (m : gmap str str) (dir : directory) : Prop :=
  (∀ id i, dir !! id = Some i → ∃ d v, m !! Key ns svc id = Some d ∧ json_unmarshal d = Some v ∧ i = shown v) ∧
  (∀ id d v, m !! Key ns svc id = Some d → json_unmarshal d = Some v → IsAlive v T = true → dir !! id = Some (shown v)).
Lemma own_segments : segment ns ∧ segment svc.
Proof. destruct Hservice as [[? _] [? _]]. done. Qed.
Lemma service_key n s i id : segment n → segment s → Key n s i = Key ns svc id → n = ns ∧ s = svc ∧ i = id.
Proof. intros Hn Hs. destruct own_segments. by apply Key_inj. Qed.
Lemma concerns_fields index ty n s i v :
  concerns service (MkWatchEvent index ty n s i v) = bool_decide (n = ns) && bool_decide (TrimSpace s = svc).
Proof. done. Qed.
Lemma tracks_same T m m' dir : (∀ id, m' !! Key ns svc id = m !! Key ns svc id) → tracks T m dir → tracks T m' dir.
Proof. intros Heq [Hin Hout]. split; intros id *; rewrite Heq; [apply Hin|apply Hout]. Qed.
(** One entry and its event. *)
Lemma tracks_step T m m' dir ev now : registry_ok m → registry_step m ev m' → (now ≤ T)%Z → tracks T m dir →
  tracks T m' (match ev with
               | Some e => if concerns service e then dir_step dir (dir_event service now e) else dir
               | None => dir
               end).
Proof.
  intros Hm Hs HT Ht. destruct Hs as [m' Heq|index v data Hu Hk|index n s i Hn Hs Hi|k Hk].
  - apply (tracks_same T m); [|done]. intros id. apply Heq, Key_root.
  - assert (Hseg : segment (v_Namespace v) ∧ segment (Service (v_Identity v))) by (split; apply Hk).
    destruct Hseg as [Hsn Hss]. assert (Htrim : TrimSpace (Service (v_Identity v)) = Service (v_Identity v)) by apply Hk.
    rewrite concerns_fields, Htrim. unfold value_key.
    destruct (bool_decide_reflect (v_Namespace v = ns)) as [Hns|Hns]; cbn [andb].
    2: { apply (tracks_same T m); [|done]. intros id. rewrite lookup_insert_ne; [done|]. by intros (?&?&?)%service_key. }
    destruct (bool_decide_reflect (Service (v_Identity v) = svc)) as [Hsv|Hsv].
    2: { apply (tracks_same T m); [|done]. intros id. rewrite lookup_insert_ne; [done|]. by intros (?&?&?)%service_key. }
    rewrite Hns, Hsv. unfold dir_event. cbn [we_Type we_Value we_InstanceID]. destruct Ht as [Hin Hout].
    destruct (IsAlive v now) eqn:Hal; cbn [dir_step]; unfold dir_put; change (in_InstanceID (shown v)) with (v_InstanceID v); split.
    + intros id j [[<- <-]|[Hne Hl]]%lookup_insert_Some; [exists data, v; by rewrite lookup_insert_eq|].
      rewrite lookup_insert_ne; [by apply Hin|]. intros (_&_&He)%service_key; by try apply own_segments.
    + intros id d w [[He <-]|[Hne Hl]]%lookup_insert_Some Hw Hlive.
      * apply service_key in He as (_&_&<-); [|apply own_segments..]. rewrite lookup_insert_eq. by replace w with v by congruence.
      * rewrite lookup_insert_ne; [by eapply Hout|]. intros <-. by destruct Hne.
    + intros id j [Hne Hl]%lookup_delete_Some. rewrite lookup_insert_ne; [by apply Hin|].
      intros (_&_&He)%service_key; by try apply own_segments.
    + intros id d w [[He <-]|[Hne Hl]]%lookup_insert_Some Hw Hlive.
      * exfalso. assert (w = v) as -> by congruence. by rewrite (IsAlive_earlier v now T) in Hal.
      * rewrite lookup_delete_ne; [by eapply Hout|]. intros <-. by destruct Hne.
  - rewrite concerns_fields. assert (Htrim : TrimSpace s = s) by apply Hs. rewrite Htrim.
    destruct (bool_decide_reflect (n = ns)) as [->|Hns]; cbn [andb].
    2: { apply (tracks_same T m); [|done]. intros id. rewrite lookup_delete_ne; [done|]. intros (?&?&?)%service_key; [done..|apply Hs]. }
    destruct (bool_decide_reflect (s = svc)) as [->|Hsv].
    2: { apply (tracks_same T m); [|done]. intros id. rewrite lookup_delete_ne; [done|]. intros (?&?&?)%service_key; [done..|apply Hs]. }
    destruct Ht as [Hin Hout]. cbn [dir_step dir_event we_Type we_Value we_InstanceID]. split.
    + intros id j [Hne Hl]%lookup_delete_Some. rewrite lookup_delete_ne; [by apply Hin|].
      intros (_&_&He)%service_key; by try apply own_segments.
    + intros id d w [Hne Hl]%lookup_delete_Some Hw Hlive.
      rewrite lookup_delete_ne; [by eapply Hout|]. by intros ->.
  - destruct Ht as [Hin Hout]. split.
    + intros id j Hl. destruct (Hin id j Hl) as (d&v&Hd&Hv&->). exists d, v. rewrite lookup_delete_ne; [done|]. intros ->.
      destruct (Hm _ d v Hd (Key_root _ _ _) Hv) as [Hkey Heq]. by rewrite Heq, keyed_parse in Hk.
    + intros id d v [_ Hl]%lookup_delete_Some. by eapply Hout.
Qed.
(** What arrived on the stream, with the clock readings. *)
Definition arrivals (inputs : list WatchInput) : list (WatchEvent * Z) :=
  omap (λ i, match i with WEvent e _ now => Some (e, now) | _ => None end) inputs.
(** What the loop sends of it: events of the service above the current revision. *)
Definition sent (cur : Z) (a : WatchEvent * Z) : option (Z * DirEvent) :=
  if (we_Revision a.1 <=? cur)%Z then None
  else if concerns service a.1 then Some (we_Revision a.1, dir_event service a.2 a.1) else None.
Definition open_input (i : WatchInput) : Prop := match i with WPing | WEvent _ _ _ => True | _ => False end.
Lemma sent_later cur r l : (cur ≤ r)%Z → Forall (λ a : WatchEvent * Z, (r < we_Revision a.1)%Z) l → omap (sent r) l = omap (sent cur) l.
Proof.
  intros Hle Hl. induction Hl as [|a l Ha _ IH]; [done|]. cbn. rewrite IH. unfold sent.
  destruct (Z.leb_spec (we_Revision a.1) r), (Z.leb_spec (we_Revision a.1) cur); by try lia.
Qed.
Lemma loop_events_sent inputs cur : Forall open_input inputs →
  StronglySorted (λ a b : WatchEvent * Z, (we_Revision a.1 < we_Revision b.1)%Z) (arrivals inputs) →
  loop_events service inputs cur = omap (sent cur) (arrivals inputs).
Proof.
  intros Ho. revert cur; induction Ho as [|i inputs Hi _ IH]; intros cur Hs; [done|].
  destruct i as [|e x now| |]; [by apply IH| |done..]. cbn [loop_events arrivals omap list_omap] in *.
  fold (arrivals inputs) in *. apply StronglySorted_inv in Hs as [Hs Hlater]. unfold sent at 1. cbn [fst snd].
  destruct (Z.leb_spec (we_Revision e) cur); [by apply IH|]. destruct (concerns service e); [|by apply IH].
  rewrite IH by done. f_equal. apply sent_later; [lia|done].
Qed.
(** The news are all of it. *)
Lemma news_increasing cur evs : StronglySorted Z.lt (cur :: evs.*1) → news cur evs = evs.
Proof.
  revert cur; induction evs as [|[r ev] evs IH]; intros cur Hs; [done|]. cbn [news fmap list_fmap fst] in *.
  apply StronglySorted_inv in Hs as [Hs Hcur]. apply Forall_cons in Hcur as [Hr _].
  destruct (Z.ltb_spec cur r); [|lia]. by rewrite IH.
Qed.
Lemma sent_increasing cur l : StronglySorted (λ a b : WatchEvent * Z, (we_Revision a.1 < we_Revision b.1)%Z) l →
  StronglySorted Z.lt (cur :: (omap (sent cur) l).*1).
Proof.
  intros Hs. assert (Hof : ∀ a x, sent cur a = Some x → x.1 = we_Revision a.1 ∧ (cur < we_Revision a.1)%Z).
  { intros a x. unfold sent. destruct (Z.leb_spec (we_Revision a.1) cur); [done|]. destruct (concerns _ _); [|done]. by intros [= <-]. }
  assert (Hin : ∀ l x, x ∈ (omap (sent cur) l).*1 → ∃ a, a ∈ l ∧ x = we_Revision a.1 ∧ (cur < x)%Z).
  { intros l0 x (y&->&(a&Ha&Hy)%list_elem_of_omap)%list_elem_of_fmap. destruct (Hof _ _ Hy) as [-> ?]. by exists a. }
  constructor; [|apply Forall_forall; intros x Hx; by destruct (Hin l x Hx) as (?&?&?&?)].
  induction Hs as [|a l _ IH Hl]; [constructor|]. cbn. destruct (sent cur a) as [x|] eqn:Hx; [|done]. cbn. constructor; [done|].
  apply Forall_forall. intros y Hy. destruct (Hin l y Hy) as (b&Hb&->&_). destruct (Hof _ _ Hx) as [-> _].
  rewrite Forall_forall in Hl. by apply Hl.
Qed.

(** A stretch of the log and its events. *)
Lemma event_revision e ev : entry_event e = Some ev → we_Revision ev = e_Index e.
Proof.
  rewrite entry_event_cmd. destruct (entry_cmd e) as [cmd|]; [|done]. cbn. unfold cmd_event.
  destruct (ParseKey _) as [[[n s] i]|]; [|done]. destruct (cmd_Operation cmd); [|by intros [= <-]|done..].
  destruct (json_unmarshal _); [|done]. by intros [= <-].
Qed.
Lemma tracks_run T m dir cur es arr : registry_ok m → Forall entry_ok es → arr.*1 = omap entry_event es →
  Forall (λ a : WatchEvent * Z, (a.2 ≤ T)%Z) arr → Forall (λ e, (cur < e_Index e)%Z) es → tracks T m dir →
  tracks T (replay m es) (mirrored dir (omap (sent cur) arr)).
Proof.
  intros Hm Hes. revert m dir arr Hm; induction Hes as [|e es He _ IH]; intros m dir arr Hm Harr HT Hcur Ht.
  { cbn in Harr. by apply fmap_nil_inv in Harr as ->. }
  apply Forall_cons in Hcur as [Hce Hcur]. change (replay m (e :: es)) with (replay (entry_effect m e) es).
  pose proof (entry_registry m e He) as Hstep. pose proof (registry_ok_step _ _ _ Hm Hstep) as Hm'.
  cbn [omap list_omap] in Harr. destruct (entry_event e) as [ev|] eqn:Hev.
  - destruct arr as [|[ev' now] arr]; [done|]. injection Harr as -> Harr. apply Forall_cons in HT as [HTn HT].
    pose proof (tracks_step T m _ dir _ now Hm Hstep HTn Ht) as Ht'. cbn in Ht'. cbn [omap list_omap]. unfold sent at 1. cbn [fst snd].
    rewrite (event_revision _ _ Hev). destruct (Z.leb_spec (e_Index e) cur); [lia|].
    destruct (concerns service ev); [|exact (IH _ _ arr Hm' Harr HT Hcur Ht')]. exact (IH _ _ arr Hm' Harr HT Hcur Ht').
  - apply IH; [done..|]. by apply (tracks_step T m _ dir None T Hm Hstep).
Qed.
Lemma old_events cur es arr rest : Forall (λ e, (e_Index e ≤ cur)%Z) es → arr.*1 = omap entry_event (es ++ rest) →
  ∃ arr', arr'.*1 = omap entry_event rest ∧ omap (sent cur) arr = omap (sent cur) arr' ∧ arr' ⊆ arr.
Proof.
  intros Hes. revert arr; induction Hes as [|e es He _ IH]; intros arr Harr; [by exists arr|].
  cbn [app omap list_omap] in Harr. destruct (entry_event e) as [ev|] eqn:Hev; [|by apply IH].
  destruct arr as [|[ev' now] arr]; [done|]. injection Harr as -> Harr. destruct (IH arr Harr) as (arr'&H1'&H2'&H3').
  exists arr'. split; [done|split; [|by intros x Hx; right; apply H3']]. cbn [omap list_omap]. unfold sent at 1. cbn [fst].
  rewrite (event_revision _ _ Hev). by destruct (Z.leb_spec (e_Index e) cur); [|lia].
Qed.

(** ** The snapshot *)
Lemma fold_puts l dir id i : fold_left dir_put l dir !! id = Some i → (i ∈ l ∧ in_InstanceID i = id) ∨ dir !! id = Some i.
Proof.
  revert dir; induction l as [|j l IH]; intros dir; [by right|]. cbn [fold_left].
  intros [[Hi He]|Hl]%IH; [left; split; [by right|done]|]. unfold dir_put in Hl.
  apply lookup_insert_Some in Hl as [[<- <-]|[_ Hl]]; [left; split; [by left|done]|by right].
Qed.
Lemma fold_puts_in l dir id : id ∈ in_InstanceID <$> l → is_Some (fold_left dir_put l dir !! id).
Proof.
  revert dir; induction l as [|j l IH]; intros dir; [by intros ?%not_elem_of_nil|]. cbn [fold_left fmap list_fmap].
  rewrite elem_of_cons. intros [->|Hin]; [|by apply IH].
  destruct (decide (in_InstanceID j ∈ in_InstanceID <$> l)) as [Hin|Hout]; [by apply IH|].
  assert (Hkeep : ∀ d, in_InstanceID j ∉ in_InstanceID <$> l → fold_left dir_put l d !! in_InstanceID j = d !! in_InstanceID j).
  { clear. induction l as [|k l IH]; intros d Hn; [done|]. cbn [fold_left fmap list_fmap] in *. apply not_elem_of_cons in Hn as [Hne Hn].
    rewrite IH by done. unfold dir_put. by rewrite lookup_insert_ne. }
  rewrite Hkeep by done. unfold dir_put. by rewrite lookup_insert_eq.
Qed.
Lemma answer_shows m now i : registry_ok m → i ∈ answer m (service_query service) now ↔
  ∃ d v, m !! Key ns svc (v_InstanceID v) = Some d ∧ json_unmarshal d = Some v ∧ IsAlive v now = true ∧ of_service service v ∧ keyed v ∧ i = shown v.
Proof.
  intros Hm. unfold answer. unfold limited. cbn [service_query q_Limit Z.ltb Z.compare]. rewrite list_elem_of_omap. split.
  - intros ([k d]&Hin%sorted_items_elem&Hr). unfold registered in Hr. cbn [fst] in Hr.
    destruct (HasPrefix k RootPrefix) eqn:Hroot; [|done]. unfold pick, decode_local, to_kv in Hr. cbn [kv_Value snd] in Hr.
    destruct (json_unmarshal d) as [v|] eqn:Hv; [|done]. cbn [mbind option_bind] in Hr.
    destruct (selects _ now v) eqn:Hsel; [|done]. injection Hr as <-. destruct (Hm k d v Hin Hroot Hv) as [Hk ->].
    pose proof (selects_service service Hservice now v Hk Hsel) as Hof. exists d, v.
    rewrite (service_selects service Hservice) in Hsel by done. destruct Hof as [Hn Hs].
    split_and!; [|done..]. unfold value_key in Hin. by rewrite Hn, Hs in Hin.
  - intros (d&v&Hd&Hv&Hal&Hof&Hk&->). exists (value_key v, d). split.
    + apply sorted_items_elem. unfold value_key. destruct Hof as [-> ->]. done.
    + unfold registered. cbn [fst]. unfold value_key at 1. rewrite Key_root. unfold pick, decode_local, to_kv. cbn [kv_Value snd].
      rewrite Hv. cbn [mbind option_bind]. by rewrite (service_selects service Hservice), Hal.
Qed.
Lemma tracks_snapshot m now T : registry_ok m → (now ≤ T)%Z →
  tracks T m (dir_step ∅ (DSnapshot (answer m (service_query service) now))).
Proof.
  intros Hm HT. cbn [dir_step]. split.
  - intros id i [[Hin <-]|?]%fold_puts; [|done]. apply answer_shows in Hin as (d&v&Hd&Hv&_&_&_&->); [|done]. by exists d, v.
  - intros id d v Hd Hv Hal. destruct (Hm _ d v Hd (Key_root _ _ _) Hv) as [Hk Hkey].
    assert (Hof : of_service service v ∧ id = v_InstanceID v).
    { symmetry in Hkey. apply service_key in Hkey as (?&?&?); [done|apply Hk..]. }
    destruct Hof as [Hof ->]. assert (Hin : shown v ∈ answer m (service_query service) now).
    { apply answer_shows; [done|]. exists d, v. split_and!; try done. by eapply IsAlive_earlier. }
    destruct (fold_puts_in (answer m (service_query service) now) ∅ (v_InstanceID v)) as [i Hi].
    { apply list_elem_of_fmap. by exists (shown v). }
    rewrite Hi. f_equal. apply fold_puts in Hi as [[Hi Hid]|?]; [|done].
    apply answer_shows in Hi as (d'&v'&Hd'&Hv'&_&_&_&->); [|done]. cbn in Hid. rewrite Hid in Hd'. by replace v' with v by congruence.
Qed.
Lemma key_field_id id : key_field id → good_id id.
Proof.
  intros ((_&Hb)&Ht&Hff). split; [done|split].
  - intros He. by rewrite He in Hb.
  - destruct id; [done|]. intros [= ->]. apply Hff. by left.
Qed.
Lemma answer_good m now : registry_ok m → Forall (good_instance service) (answer m (service_query service) now).
Proof.
  intros Hm. apply Forall_forall. intros i (d&v&_&_&_&[Hn Hs]&(_&_&Hi)&->)%answer_shows; [|done].
  split; [done|split; [done|by apply key_field_id]].
Qed.
Lemma entry_event_ok m m' ev : registry_step m (Some ev) m' → event_ok service ev.
Proof.
  intros Hs Hc. inversion Hs as [|index v d Hu Hk|index n s i Hn Hs' Hi|]; subst; cbn in *.
  - destruct Hk as (_&(_&Ht&_)&Hid). rewrite concerns_fields, Ht, andb_true_iff, !bool_decide_eq_true in Hc.
    split; [by apply key_field_id|]. by split.
  - by split; [apply key_field_id|].
Qed.
End tracks.

(** ** From the log of the source to the store of the destination *)
Section source_node.
Context `{DN : DataNode Nd E} `{GoRange, CaseTable, Json Value, Json RegistryWatchEventDTO, Json ReplicationWatchEventDTO}.
Context (service : ReplicationService).
Hypothesis Hservice : good_service service.
Lemma snapshot_inv nanos now s s' items revision : registry_ok (nd_contents s') →
  registryWatchSnapshot (DN:=DN) nanos now (service_query service) s = (s', Ok (items, revision)) →
  items = answer (nd_contents s') (service_query service) now ∧
  ∃ ctx s1, nd_LinearizableRead ctx s = (s1, Ok tt) ∧ revision = st_AppliedIndex (nd_Status s1).
Proof.
  intros Hm Hrun. apply st_bind_inv in Hrun as (s1&[]&Hread%or_respond_inv&Hrun).
  apply st_bind_inv in Hrun as (s2&s2'&[= <- <-]&Hrun).
  pose proof (narrowed_scan (nd_contents s') (service_query service) now Hm (service_query_wf service Hservice)) as Hnarrow.
  destruct (prefixRange _) as [start end_]. cbn [fst snd] in Hnarrow.
  apply st_bind_inv in Hrun as (s3&its&Hscan%or_respond_inv&Hrun).
  apply st_bind_inv in Hrun as (s4&res&Hcol&[= <- <- <-]).
  rewrite (collect_spec decode_local (service_query service) now its []) in Hcol; [|intros v; eexists; by apply service_MatchQuery|done].
  injection Hcol as <- <-. split; [|by eexists _, _]. unfold answer. rewrite <- Hnarrow. cbn [app].
  by rewrite (nd_Scan_ok _ _ _ _ _ _ Hscan).
Qed.
(** The frames of a stream that starts with a snapshot. *)
Lemma watch_inv h nanos now exportedAt times since replay exact inputs s s' frames : registry_ok (nd_contents s') →
  since = 0%Z ∨ exact = false →
  WatchReplication (DN:=DN) h nanos now exportedAt times (service_query service) since replay exact inputs s = (s', Ok frames) →
  ∃ ctx s1, nd_LinearizableRead ctx s = (s1, Ok tt) ∧
    let revision := st_AppliedIndex (nd_Status s1) in
    let p := replication_snapshot h (service_query service) exportedAt (answer (nd_contents s') (service_query service) now) revision in
    ∀ data, json_marshal p = Some data →
      frames = FEvent revision (lit "snapshot") data ::
        watch_loop (replication_payload h (service_query service)) replication_type inputs revision.
Proof.
  intros Hm Hsince Hrun. apply st_bind_inv in Hrun as (s1&r&Hopen&[= <- <-]).
  apply st_bind_inv in Hopen as (s2&r2&Hopen&[= <- <-]).
  assert (Hc : (since =? 0)%Z || negb exact = true) by (destruct Hsince as [->| ->]; [done|by rewrite orb_true_r]).
  rewrite Hc in Hopen. apply st_bind_inv in Hopen as (s3&[items revision]&Hsnap&[= <- <-]).
  destruct (snapshot_inv _ _ _ _ _ _ Hm Hsnap) as (->&ctx&s1&Hread&->). exists ctx, s1. split; [done|].
  cbv zeta. intros data Hd. unfold event_frame. cbn [fst snd]. by rewrite Hd.
Qed.
End source_node.

Section region.
Context {NdS ES NdD ED : Type} `{JC : Json Command} {DS : DataNode NdS ES} {DD : DataNode NdD ED}.
Context `{GoRange, CaseTable, Json Value, Json RegistryWatchEventDTO, Json ReplicatedValue, Json ReplicationCheckpoint,
  Json ReplicationWatchEventDTO}.
Context (clock : nat → Z) (service : ReplicationService) (h : RegistryAPI).
Hypothesis commands_faithful : ∀ cmd : Command, cmd_Operation cmd ∈ [OperationPut; OperationDelete; OperationDeletePrefix] → json_faithful cmd.
Hypothesis Hservice : good_service service.
Abbreviation directory := (gmap str RegistryInstanceDTO).
Abbreviation query := (service_query service).
(** A committed log, entry [i] at index [i + 1], written by the program. *)
Definition good_log (log : list Entry) : Prop :=
  Forall entry_ok log ∧ ∀ i e, log !! i = Some e → e_Index e = Z.of_nat (S i).
(** An input of the stream that JSON and the line buffer carry, no later than [T]. *)
Definition input_wire (T : Z) (i : WatchInput) : Prop :=
  match i with
  | WPing => True
  | WEvent e exportedAt now => is_u64 (we_Revision e) ∧ (now ≤ T)%Z ∧
      ∀ p, replication_payload h query e exportedAt now = Some (Some p) → wire_ok p
  | _ => False
  end.
Lemma stretch_elem a c (log : list Entry) e : (∀ i e, log !! i = Some e → e_Index e = Z.of_nat (S i)) → e ∈ stretch a c log →
  e ∈ log ∧ (Z.of_nat a < e_Index e)%Z ∧ (e_Index e ≤ Z.of_nat c)%Z.
Proof.
  intros Hidx [i Hi]%list_elem_of_lookup. unfold stretch in Hi. rewrite lookup_drop in Hi.
  pose proof (lookup_lt_Some _ _ _ Hi) as Hlt. rewrite length_take in Hlt. rewrite lookup_take_lt in Hi by lia.
  rewrite (Hidx _ _ Hi). split; [by eapply list_elem_of_lookup_2|lia].
Qed.
Lemma indexed_sorted b (l : list Entry) : (∀ i e, l !! i = Some e → e_Index e = Z.of_nat (b + i)) →
  StronglySorted (λ x y, (e_Index x < e_Index y)%Z) l.
Proof.
  revert b; induction l as [|e l IH]; intros b Hidx; constructor.
  - apply (IH (S b)). intros i x Hx. rewrite (Hidx (S i) x Hx). f_equal. lia.
  - apply Forall_forall. intros x [i Hx]%list_elem_of_lookup. rewrite (Hidx 0 e eq_refl), (Hidx (S i) x Hx). lia.
Qed.
Lemma stretch_sorted a c (log : list Entry) : (∀ i e, log !! i = Some e → e_Index e = Z.of_nat (S i)) →
  StronglySorted (λ x y, (e_Index x < e_Index y)%Z) (stretch a c log).
Proof.
  intros Hidx. apply (indexed_sorted (S a)). intros i e Hi. unfold stretch in Hi. rewrite lookup_drop in Hi.
  pose proof (lookup_lt_Some _ _ _ Hi) as Hlt. rewrite length_take in Hlt. rewrite lookup_take_lt in Hi by lia.
  rewrite (Hidx _ _ Hi). f_equal; lia.
Qed.
Lemma arrival_entry (arr : list (WatchEvent * Z)) es a : arr.*1 = omap entry_event es → a ∈ arr → ∃ e, e ∈ es ∧ entry_event e = Some a.1.
Proof. intros Harr Ha. apply list_elem_of_omap. rewrite <- Harr. apply list_elem_of_fmap. by exists a. Qed.
Lemma arrivals_sorted (arr : list (WatchEvent * Z)) es : StronglySorted (λ x y, (e_Index x < e_Index y)%Z) es →
  arr.*1 = omap entry_event es → StronglySorted (λ a b : WatchEvent * Z, (we_Revision a.1 < we_Revision b.1)%Z) arr.
Proof.
  intros Hs. revert arr; induction Hs as [|e es _ IH Hle]; intros arr Harr.
  { apply fmap_nil_inv in Harr as ->. constructor. }
  cbn [omap list_omap] in Harr. destruct (entry_event e) as [ev|] eqn:Hev; [|by apply IH].
  destruct arr as [|[ev' now] arr]; [done|]. injection Harr as -> Harr. constructor; [by apply IH|].
  apply Forall_forall. intros a Ha. destruct (arrival_entry arr es a Harr Ha) as (e'&He'&Hev').
  cbn [fst]. rewrite (event_revision _ _ Hev), (event_revision _ _ Hev'). rewrite Forall_forall in Hle. by apply Hle.
Qed.
Lemma arrivals_ok T es inputs : Forall entry_ok es → (arrivals inputs).*1 = omap entry_event es → Forall (input_wire T) inputs →
  Forall (input_ok service h) inputs ∧ Forall open_input inputs ∧ Forall (λ a : WatchEvent * Z, (a.2 ≤ T)%Z) (arrivals inputs).
Proof.
  intros Hes Harr Hw.
  assert (Hok : ∀ e x now, WEvent e x now ∈ inputs → event_ok service e).
  { intros e x now Hin. destruct (arrival_entry (arrivals inputs) es (e, now) Harr) as (e'&He'&Hev').
    - unfold arrivals. apply list_elem_of_omap. by exists (WEvent e x now).
    - rewrite Forall_forall in Hes. pose proof (entry_registry ∅ e' (Hes e' He')) as Hstep. rewrite Hev' in Hstep.
      by eapply entry_event_ok. }
  rewrite !Forall_forall in *. split; [|split].
  - intros [|e x now| |] Hin; try exact I. specialize (Hw _ Hin) as (?&?&?). split; [by eapply Hok|done].
  - intros [|e x now| |] Hin; try exact I; by specialize (Hw _ Hin).
  - intros a ([|e x now| |]&Hin&Ha)%list_elem_of_omap; try done. injection Ha as <-. by specialize (Hw _ Hin) as (?&?&?).
Qed.

Lemma replayed m log r j n : r ≤ j → j ≤ n → business m = state_after (take j log) →
  business (replay m (stretch r n log)) = business (state_after (take n log)).
Proof.
  intros Hr Hj Hm%converges_done. unfold state_after at 1. rewrite business_idem. apply (converges_earlier m log r j n); [done..|]. by apply (converges_later m log j j n).
Qed.
Lemma tracks_business T m m' dir : business m = business m' → tracks service T m dir → tracks service T m' dir.
Proof.
  rewrite business_eq. intros He. apply tracks_same. intros id. symmetry. apply He, root_business, Key_root.
Qed.
Lemma registry_ok_state log n : Forall entry_ok log → registry_ok (state_after (take n log)).
Proof.
  intros Hlog. unfold state_after. apply (registry_ok_business (replay ∅ (take n log))); [by rewrite business_idem|].
  apply registry_ok_replay; [by apply Forall_take|]. by intros k data v ?%lookup_empty_Some.
Qed.

(** C2: a service crosses from one region to another.  The source has committed a log and holds what
    [j] of its commands leave; the watch handler takes a snapshot and then forwards the events of
    the log up to [n]; the destination reads the bytes and applies its proposals to a store that mirrors any
    old copy.  It then mirrors a directory that agrees with the registry of the source after
    [n] commands: nothing in it that is not registered, and every instance that is alive. *)
Theorem region_mirror target log s r j n T nanos now exportedAt times since replay exact inputs src src' frames m dir d :
  good_log log → since = 0%Z ∨ exact = false →
  WatchReplication (DN:=DS) h nanos now exportedAt times query since replay exact inputs src = (src', Ok frames) →
  (∀ ctx s1, nd_LinearizableRead ctx src = (s1, Ok tt) → st_AppliedIndex (nd_Status s1) = Z.of_nat r) →
  s ≤ r → 0 < r → r ≤ j → j ≤ n → is_u64 (Z.of_nat r) → business (nd_contents src') = state_after (take j log) →
  (arrivals inputs).*1 = omap entry_event (stretch s n log) → Forall (input_wire T) inputs → (now ≤ T)%Z →
  wire_ok (replication_snapshot h query exportedAt (answer (nd_contents src') query now) (Z.of_nat r)) →
  accepts_all (DN:=DD) → mirrors target service m dir →
  ∃ d' ds copy, read_stream (applyReplicationEvent (DN:=DD) clock target service) ERevision ELineTooLong (concat (map frame_bytes frames)) d = (d', Ok tt) ∧
    nd_proposed (rp_node d') = nd_proposed (rp_node d) ++ ds ∧ mirrors target service (log_effect m ds) copy ∧
    tracks service T (state_after (take n log)) copy.
Proof.
  intros [Hlog Hidx] Hsince Hwatch Hr Hs0 Hr0 Hrj Hjn Hu Hcont Harr Hw HT (data&Hd&Hun&Htext) Hall Hmir.
  assert (Hreg : registry_ok (nd_contents src')).
  { apply (registry_ok_business (state_after (take j log))); [by rewrite <- Hcont, business_idem|by apply registry_ok_state]. }
  destruct (watch_inv service Hservice _ _ _ _ _ _ _ _ _ _ _ _ Hreg Hsince Hwatch) as (ctx&s1&Hread&Hframes).
  rewrite (Hr _ _ Hread) in Hframes. specialize (Hframes _ Hd). subst frames.
  assert (Hes : Forall entry_ok (stretch s n log)) by by apply Forall_drop, Forall_take.
  destruct (arrivals_ok T _ _ Hes Harr Hw) as (Hin&Hopen&Htimes).
  pose proof (arrivals_sorted _ _ (stretch_sorted s n log Hidx) Harr) as Hsorted.
  destruct (loop_renders service Hservice h inputs (Z.of_nat r) Hin) as [Hrend Hok].
  set (snap := DSnapshot (answer (nd_contents src') query now)).
  destruct (stream_mirrors clock commands_faithful target service
    (FEvent (Z.of_nat r) (lit "snapshot") data :: watch_loop (replication_payload h query) replication_type inputs (Z.of_nat r))
    ((Z.of_nat r, snap) :: loop_events service inputs (Z.of_nat r)) d m dir) as (d'&ds&Hrun&Hprop&Hm'&_); [done| | |done|].
  - apply (renders_event service (Z.of_nat r) snap data _ _ _ Hun); [done|by apply answer_good|done].
  - constructor; [|done]. split; [done|split; [apply (type_text snap)|done]].
  - exists d', ds. eexists. split; [exact Hrun|split; [done|split; [exact Hm'|]]].
    rewrite (loop_events_sent service inputs _ Hopen Hsorted). cbn [news].
    destruct (Z.ltb_spec 0 (Z.of_nat r)); [|lia]. rewrite news_increasing by by apply sent_increasing.
    destruct (old_events service (Z.of_nat r) (stretch s r log) (arrivals inputs) (stretch r n log)) as (arr'&Harr'&->&Hsub).
    + apply Forall_forall. intros e He. by destruct (stretch_elem s r log e Hidx He) as (_&_&?).
    + by rewrite <- stretch_split by lia.
    + apply (tracks_business T _ _ _ (replayed (nd_contents src') log r j n Hrj Hjn Hcont)).
      change (mirrored dir ((Z.of_nat r, snap) :: ?l)) with (mirrored (dir_step dir snap) l).
      apply tracks_run; [done|done|by apply Forall_drop, Forall_take|done| | |by apply tracks_snapshot].
      * rewrite Forall_forall in *. intros a Ha. by apply Htimes, Hsub.
      * apply Forall_forall. intros e He. by destruct (stretch_elem r n log e Hidx He) as (_&?&_).
Qed.
End region.
