(* ===== verification/RegionSamples.v ===== *)
(** * One service in two regions: instances of the theorems on copied directories *)
From Stdlib Require Import Ascii ZArith Sorted.
From stdpp Require Import gmap strings countable list sorting.
From S2P Require Import Prelude GoStrings Selector RegistryModel ReplicationModel WatchHub Codec Wal WalLog Engine StateMachine Pebble Raft RaftNode Restart Tracker AddressBook Dto DataNode Http Replay QueryFacts WriteFacts Samples WriteSamples Sse Watch Replication ReplicationFacts Mirror Region.

#[local] Existing Instances range_by_key identity_case command_json value_json.
#[export] Instance Endpoint_countable : Countable Endpoint.
Proof.
  refine (inj_countable' (λ e, (ep_Name e, ep_Protocol e, ep_Host e, ep_Port e, ep_Path e, ep_Weight e)) (λ '(a, b, c, d, e, f), MkEndpoint a b c d e f) _).
  by intros [].
Defined.
#[export] Instance Identity_countable : Countable Identity.
Proof.
  refine (inj_countable' (λ i, (Service i, Organization (dims i), BusinessDomain (dims i), CapabilityDomain (dims i), Application (dims i),
    RegistryModel.Role (dims i))) (λ '(a, b, c, d, e, f), MkIdentity a (Dims b c d e f)) _).
  by intros [? []].
Defined.
#[export] Instance Value_countable : Countable Value.
Proof.
  refine (inj_countable' (λ v, (v_Namespace v, v_Identity v, v_InstanceID v, v_Zone v, v_Labels v, v_Metadata v, v_Endpoints v,
    v_LeaseTTLSeconds v, v_RegisteredAtUnix v, v_LastHeartbeatUnix v)) (λ '(a, b, c, d, e, f, g, h, i, j), MkValue a b c d e f g h i j) _).
  by intros [].
Defined.
#[export] Instance ReplicatedValue_countable : Countable ReplicatedValue.
Proof.
  refine (inj_countable' (λ v, (rv_Value v, rv_SourceRegion v, rv_SourceClusterID v, rv_SourceRevision v, rv_ReplicatedAtUnix v, rv_Origin v))
    (λ '(a, b, c, d, e, f), MkReplicatedValue a b c d e f) _).
  by intros [].
Defined.
#[export] Instance ReplicationCheckpoint_countable : Countable ReplicationCheckpoint.
Proof.
  refine (inj_countable' (λ v, (rc_SourceRegion v, rc_SourceClusterID v, rc_Namespace v, rc_Service v, rc_LastAppliedRevision v,
    rc_LastSnapshotRevision v, rc_UpdatedAtUnix v)) (λ '(a, b, c, d, e, f, g), MkReplicationCheckpoint a b c d e f g) _).
  by intros [].
Defined.
Definition replicated_json : Json ReplicatedValue := bits_json (byte 123) brace_tag.
Definition checkpoint_json : Json ReplicationCheckpoint := bits_json (byte 123) brace_tag.
#[local] Existing Instances replicated_json checkpoint_json.
#[local] Instance watch_dto_json : Json RegistryWatchEventDTO := table_json [].
#[local] Instance desks : DataNode Desk unit := desk_node.
Lemma desks_accept : accepts_all (DN:=desks).
Proof. split; [|split]; [intros cmd nd; by eexists|by eexists..]. Qed.
Lemma all_commands cmd : cmd_Operation cmd ∈ [OperationPut; OperationDelete; OperationDeletePrefix] → json_faithful cmd.
Proof. done. Qed.
Lemma desk_writes cmd (nd : Desk) : ∃ nd', nd_ProposeCommand cmd nd = (nd', Ok tt).
Proof. by eexists. Qed.

Definition orders : ReplicationService := MkService ns svc.
Definition sample_target : ReplicationTarget := MkTarget (lit "cn-bj") (lit "2") (lit "http://10.1.0.1:8080") [orders].
Definition orders_query : Query := service_query orders.
Definition copied : RegistryInstanceDTO := instance_of sample_v orders_query.
Definition snapshot_payload : ReplicationWatchEventDTO := replication_snapshot sample_api orders_query 1010 [copied] 1.
Definition refreshed_event : WatchEvent := MkWatchEvent 2 WatchEventUpsert ns svc iid (Some sample_v').
Definition upsert_payload : ReplicationWatchEventDTO :=
  match replication_payload sample_api orders_query refreshed_event 1020 1020 with Some (Some p) => p | _ => snapshot_payload end.
#[local] Instance payload_table : Json ReplicationWatchEventDTO := table_json [snapshot_payload; upsert_payload].
Lemma orders_good : good_service orders.
Proof. split; apply (bool_decide_unpack _); vm_compute; reflexivity. Qed.

(** ** Streams *)
Lemma text_checked s : bool_decide (s ≠ [] ∧ trimmed s ∧ newline ∉ s) = true → (length s < 1000)%nat → text_ok s.
Proof. intros (?&?&?)%bool_decide_eq_true Hlen. split_and!; try done. unfold maxTokenSize. lia. Qed.
Definition two_frames : list Frame := [FEvent 1 (lit "snapshot") (lit "{}"); FPing].
Lemma two_frames_ok : Forall frame_ok two_frames.
Proof.
  repeat constructor; try done; try (apply (bool_decide_unpack _); vm_compute; reflexivity); vm_compute; try done; lia.
Qed.
Definition note (event : str) (revision : Z) (data : str) : ST (list (str * Z * str)) bool unit := λ s, (s ++ [(event, revision, data)], Ok tt).
Lemma run_rendered_witness :
  read_stream note false true (concat (map frame_bytes two_frames)) [] = ([(lit "snapshot", 1%Z, lit "{}")], Ok tt).
Proof. rewrite (run_rendered note false true two_frames []); [reflexivity|exact two_frames_ok]. Defined.
Definition long_data : str := replicate (Z.to_nat maxTokenSize) (byte 120).
Lemma oversized_event_witness :
  read_stream note false true (concat (map frame_bytes two_frames) ++ writeSSEEvent 2 (lit "snapshot") long_data ++ lit "more") [] =
    ([(lit "snapshot", 1%Z, lit "{}")], Err true).
Proof.
  rewrite (oversized_event note false true two_frames 2 (lit "snapshot") long_data (lit "more") []); [reflexivity|exact two_frames_ok|..].
  - split; [lia|reflexivity].
  - apply text_checked; [vm_compute; reflexivity|apply Nat.ltb_lt; vm_compute; reflexivity].
  - unfold long_data. intros [Hc _]%elem_of_replicate. discriminate Hc.
  - unfold long_data. rewrite length_replicate, Z2Nat.id; [apply Z.le_refl|discriminate].
Defined.

(** ** Applying a stream *)
Definition destination : ReplState Desk := MkRepl (MkDesk ∅ [] leading) NewTracker 0.
Lemma nothing_copied m : m = ∅ → mirrors sample_target orders m ∅.
Proof. intros ->. split; [by intros id i ?%lookup_empty_Some|]. by intros k _ [d ?%lookup_empty_Some]. Qed.
Definition snapshot_data : str := [quote].
Lemma copied_good : good_instance orders copied.
Proof. split; [reflexivity|split; [reflexivity|apply (bool_decide_unpack _); vm_compute; reflexivity]]. Qed.
Lemma one_snapshot : renders orders [FPing; FEvent 1 (lit "snapshot") snapshot_data] [(1%Z, DSnapshot [copied])].
Proof.
  apply renders_ping, (renders_event orders 1 (DSnapshot [copied]) snapshot_data snapshot_payload); [vm_compute; reflexivity|reflexivity|..].
  - constructor; [exact copied_good|constructor].
  - constructor.
Qed.
Lemma replication_mirrors_witness : ∃ s' ds,
  read_stream (applyReplicationEvent (λ _, 1700%Z) sample_target orders) ERevision ELineTooLong
    (concat (map frame_bytes [FPing; FEvent 1 (lit "snapshot") snapshot_data])) destination = (s', Ok tt) ∧
  nd_proposed (rp_node s') = ds ∧ mirrors sample_target orders (log_effect ∅ ds) {[ iid := copied ]} ∧
  checkpointed sample_target orders (log_effect ∅ ds) 1.
Proof.
  destruct (replication_mirrors (λ _, 1700%Z) all_commands sample_target orders _ _ destination ∅ ∅ desks_accept one_snapshot)
    as (s'&ds&H1&H2&H3&H4).
  - repeat constructor; try done; try (apply (bool_decide_unpack _); vm_compute; reflexivity); vm_compute; try done; lia.
  - by apply nothing_copied.
  - exists s', ds. split; [exact H1|split; [exact H2|split; [exact H3|exact H4]]].
Defined.

(** ** Regions *)
Definition register_entry : Entry := MkEntry 1 1 EntryNormal (bits_marshal (byte 123) (registers sample_normalized 1000 data_v)).
Definition refresh_entry : Entry := MkEntry 2 1 EntryNormal (bits_marshal (byte 123) (refresh_command (value_key sample_v) data_v')).
Definition committed : list Entry := [register_entry; refresh_entry].
Lemma keyed_sample : keyed sample_v ∧ keyed sample_v'.
Proof. split; apply (bool_decide_unpack _); vm_compute; reflexivity. Qed.
Lemma committed_good : good_log committed.
Proof.
  split.
  - constructor; [|constructor; [|constructor]]; unfold entry_ok.
    + assert (entry_cmd register_entry = Some (registers sample_normalized 1000 data_v)) as -> by (vm_compute; reflexivity).
      intros _. exists sample_v. split; [vm_compute; reflexivity|split; [apply keyed_sample|reflexivity]].
    + assert (entry_cmd refresh_entry = Some (refresh_command (value_key sample_v) data_v')) as -> by (vm_compute; reflexivity).
      intros _. exists sample_v'. split; [vm_compute; reflexivity|split; [apply keyed_sample|vm_compute; reflexivity]].
  - intros [|[|i]] e; [by intros [= <-]..|done].
Qed.
Definition source_desk : Desk := MkDesk {[ value_key sample_v := data_v ]} [] (RaftNode.MkStatus 1 1 1 RoleLeader 1 2 true false).
Definition sample_inputs : list WatchInput := [WPing; WEvent refreshed_event 1020 1020].
Definition sample_frames : list Frame := [FEvent 1 (lit "snapshot") [quote]; FPing; FEvent 2 (lit "upsert") [quote; byte 120]].
Lemma sample_watch : WatchReplication (DN:=desks) sample_api 5 1010 1010 (λ _, (0, 0)%Z) orders_query 0 [] false sample_inputs source_desk
  = (source_desk, Ok sample_frames).
Proof. vm_compute. reflexivity. Qed.
Lemma sample_contents : business (nd_contents source_desk) = state_after (take 1 committed).
Proof. apply (bool_decide_unpack _). vm_compute. reflexivity. Qed.
Lemma sample_arrivals : (arrivals sample_inputs).*1 = omap entry_event (stretch 1 2 committed).
Proof. vm_compute. reflexivity. Qed.
Lemma upsert_sent : replication_payload sample_api (service_query orders) refreshed_event 1020 1020 = Some (Some upsert_payload).
Proof. vm_compute. reflexivity. Qed.
Lemma region_mirror_witness : ∃ d' ds copy,
  read_stream (applyReplicationEvent (λ _, 1700%Z) sample_target orders) ERevision ELineTooLong (concat (map frame_bytes sample_frames)) destination
    = (d', Ok tt) ∧
  nd_proposed (rp_node d') = ds ∧ mirrors sample_target orders (log_effect ∅ ds) copy ∧
  tracks orders 1030 (state_after committed) copy.
Proof.
  apply (region_mirror (DS:=desks) (DD:=desks) (λ _, 1700%Z) orders sample_api all_commands orders_good sample_target committed
    1 1 1 2 1030 5 1010 1010 (λ _, (0, 0)%Z) 0 [] false sample_inputs source_desk source_desk sample_frames ∅ ∅ destination committed_good).
  - by right.
  - exact sample_watch.
  - intros ctx s1 [= <-]. reflexivity.
  - lia.
  - lia.
  - lia.
  - lia.
  - split; [lia|reflexivity].
  - exact sample_contents.
  - exact sample_arrivals.
  - constructor; [exact I|constructor; [|constructor]]. split; [split; [cbn; lia|reflexivity]|split; [cbn; lia|]].
    intros p Hp. rewrite upsert_sent in Hp. assert (upsert_payload = p) as <- by congruence. exists [quote; byte 120]. split; [vm_compute; reflexivity|split; [vm_compute; reflexivity|]].
    apply text_checked; [vm_compute; reflexivity|cbn; lia].
  - lia.
  - exists [quote]. split; [vm_compute; reflexivity|split; [vm_compute; reflexivity|]].
    apply text_checked; [vm_compute; reflexivity|cbn; lia].
  - exact desks_accept.
  - by apply nothing_copied.
Defined.

(** ** A leader that loses its quorum: a node that takes as many proposals as its commit index says *)
#[refine] Definition flaky_node : DataNode Desk unit := {|
  nd_ProposeCommand cmd := λ s, if (Z.of_nat (length (dk_proposed s)) <? st_CommitIndex (dk_status s))%Z
    then (MkDesk (dk_contents s) (dk_proposed s ++ [bits_marshal (byte 123) cmd]) (dk_status s), Ok tt) else (s, Err tt);
  nd_LinearizableRead _ := mret tt;
  nd_Get key := λ s, (s, Ok (default [] (dk_contents s !! key)));
  nd_Scan start end_ limit := λ s, (s, Ok (spec_scan (dk_contents s) start end_ limit));
  nd_Status := dk_status; nd_contents := dk_contents; nd_proposed := dk_proposed
|}.
Proof.
  - cbn; intros s cmd s' He. destruct (_ <? _)%Z; [|done]. injection He as <-. by eexists.
  - cbn; intros s cmd s' e He. destruct (_ <? _)%Z; [done|]. injection He as <-. by left.
  - done.
  - done.
  - done.
  - by intros s key s' data _ [= <- <-].
  - by intros s start end_ limit s' items [= <- <-].
Defined.
Definition budget (n : Z) : ReplState Desk := MkRepl (MkDesk ∅ [] (RaftNode.MkStatus 1 1 1 RoleLeader 0 n true false)) NewTracker 0.
Definition copy_put : Command := MkCommand OperationPut (replica_key sample_target copied)
  (bits_marshal (byte 123) (replicatedValueFromDTO 1700 1700 sample_target copied 1)) [].
Definition copy_check : Command := MkCommand OperationPut (service_checkpoint sample_target orders)
  (bits_marshal (byte 123) (MkReplicationCheckpoint (lit "cn-bj") (lit "2") ns svc 1 0 1700)) [].
Lemma copied_once : let m := cmd_effect (cmd_effect ∅ copy_put) copy_check in
  mirrors sample_target orders m (dir_put ∅ copied) ∧ checkpointed sample_target orders m 1.
Proof.
  apply (checkpoint_effect sample_target orders 1 0).
  - apply (mirrors_put sample_target orders ∅ ∅ 1 copied copy_put); [by apply nothing_copied|exact copied_good|].
    eexists _, _. split; [by eexists 1700%Z, 1700%Z|split; reflexivity].
  - eexists 1700%Z, _. split; reflexivity.
Qed.
Lemma interrupted_snapshot_witness :
  let m := cmd_effect (cmd_effect ∅ copy_put) copy_check in
  ∃ s1 ds ds' s2', applyReplicationEvent (DN:=flaky_node) (λ _, 1700%Z) sample_target orders (lit "snapshot") 3 snapshot_data (budget 1) = (s1, Err (ENode tt)) ∧
    nd_proposed (DataNode:=flaky_node) (rp_node s1) = ds ∧
    mirrors sample_target orders (log_effect m ds) ∅ ∧ checkpointed sample_target orders (log_effect m ds) 1 ∧
    nd_proposed (DataNode:=flaky_node) (rp_node s2') = ds' ∧ mirrors sample_target orders (log_effect (log_effect m ds) ds') ∅.
Proof.
  assert (Hrun : deliver (applyReplicationEvent (DN:=flaky_node) (λ _, 1700%Z) sample_target orders) [FPing] 1 (budget 9) = (budget 9, Ok tt))
    by reflexivity.
  destruct copied_once as [Hm Hc].
  destruct (interrupted_snapshot (DN:=flaky_node) (λ _, 1700%Z) all_commands sample_target orders copied [] 3 snapshot_data snapshot_payload (budget 1)
    (MkDesk ∅ [bits_marshal (byte 123) (MkCommand OperationDeletePrefix [] [] (service_prefix sample_target orders))]
       (RaftNode.MkStatus 1 1 1 RoleLeader 0 1 true false)) tt (cmd_effect (cmd_effect ∅ copy_put) copy_check) (dir_put ∅ copied) 1 [FPing] [] (budget 9) (budget 9)) as (s1&ds&ds'&H1&H2&H3&H4&H5&H6).
  - vm_compute. reflexivity.
  - reflexivity.
  - reflexivity.
  - intros cmd. reflexivity.
  - intros rv. by eexists.
  - exact Hm.
  - exact Hc.
  - apply renders_ping, renders_nil.
  - exact Hrun.
  - exists s1, ds, ds', (budget 9). split; [exact H1|split; [exact H2|split; [exact H3|split; [exact H4|split; [exact H5|exact H6]]]]].
Defined.
