(* ===== verification/Membership.v ===== *)
(** * Addresses of the members ([internal/app/app.go])

    The address book in memory and the records in the store: committed membership changes
    update both, the start of the application fills the gaps of the configured book from the
    records and then writes the book back.  The store of records is an interface,
    [MemberStore]; [pebble_members] discharges its laws for the raft node. *)
From Stdlib Require Import Ascii ZArith.
From stdpp Require Import gmap strings list.
From S2P Require Import Prelude GoStrings Codec Wal Engine StateMachine Pebble Raft RaftNode AddressBook Transport Dto WatchHub RegistryModel Watch.

(** ** Records of addresses *)
Class MemberStore (Nd E : Type) := {
  mb_SetMemberAddress : Z → str → str → str → ST Nd E unit;
  mb_DeleteMemberAddress : Z → ST Nd E unit;
  mb_ListMemberAddresses : ST Nd E (list MemberAddress);
  (** The records a node holds, and those it can hold. *)
  mb_table : Nd → gmap Z MemberAddress → Prop;
  mb_storable : MemberAddress → Prop;
  mb_Set_ok s t s' id http grpc admin :
    mb_table s t → mb_storable (MkMember id http grpc admin) → mb_SetMemberAddress id http grpc admin s = (s', Ok tt) →
    id ≠ 0%Z ∧ mb_table s' (<[id := MkMember id http grpc admin]> t);
  mb_Delete_ok s t s' id : mb_table s t → is_u64 id → mb_DeleteMemberAddress id s = (s', Ok tt) → mb_table s' (delete id t);
  mb_List_ok s t s' l : mb_table s t → mb_ListMemberAddresses s = (s', Ok l) →
    s' = s ∧ ∀ a, a ∈ l ↔ t !! ma_NodeID a = Some a;
  mb_table_id s t id a : mb_table s t → t !! id = Some a → ma_NodeID a = id ∧ id ≠ 0%Z ∧ is_u64 id
}.

(** ** The application *)
Record Members (Nd : Type) := MkMembers { am_node : Nd; am_peers : PeerTransport }.
Arguments MkMembers {Nd}. Arguments am_node {Nd}. Arguments am_peers {Nd}.
Section members.
Context `{MB : MemberStore Nd E} `{Raft, GoRange} {C : Type}.
(** [left_in data]: what [json.Unmarshal] leaves in the request, with or without an error.
    [close]: the error of closing a client. *)
Context (left_in : str → MemberChangeRequestDTO) (close : str → option C).
Abbreviation MM := (ST (Members Nd) E).
Definition on_store {A} (m : ST Nd E A) : MM A := λ s,
  let '(nd, r) := m (am_node s) in (MkMembers nd (am_peers s), r).
(** Calls whose error is only logged. *)
Definition logged_peers (m : ST PeerTransport (ForwardErr C) unit) (s : Members Nd) : Members Nd :=
  MkMembers (am_node s) (m (am_peers s)).1.
Definition logged_store (m : ST Nd E unit) (s : Members Nd) : Members Nd := MkMembers (m (am_node s)).1 (am_peers s).
Definition book (s : Members Nd) : AddressBook := pt_book (am_peers s).

Definition apply_change (request : MemberChangeRequestDTO) (s : Members Nd) (change : ConfChangeSingle) : Members Nd :=
  match ccs_Type change with
  | ConfChangeAddLearnerNode | ConfChangeAddNode =>
      logged_store (mb_SetMemberAddress (mc_NodeID request) (mc_HTTPAddr request) (mc_GRPCAddr request) (mc_AdminAddr request))
        (logged_peers (UpsertPeer close (mc_NodeID request) (mc_HTTPAddr request) (mc_GRPCAddr request) (mc_AdminAddr request)) s)
  | ConfChangeRemoveNode =>
      logged_store (mb_DeleteMemberAddress (mc_NodeID request)) (logged_peers (RemovePeer close (mc_NodeID request)) s)
  | ConfChangeUpdateNode => s
  end.
Definition change_request (first : Z) (contextData : str) : MemberChangeRequestDTO :=
  let request := if bool_decide (contextData = []) then MkMemberChange 0 [] [] [] else left_in contextData in
  if (mc_NodeID request =? 0)%Z then MkMemberChange first (mc_HTTPAddr request) (mc_GRPCAddr request) (mc_AdminAddr request) else request.
Definition applyConfChangeContext (changes : list ConfChangeSingle) (contextData : str) (s : Members Nd) : Members Nd :=
  match changes with
  | [] => s
  | first :: _ => fold_left (apply_change (change_request (ccs_NodeID first) contextData)) changes s
  end.
Definition apply_control_entry (s : Members Nd) (entry : LogEntry) : Members Nd :=
  match e_Type (le_Raw entry) with
  | EntryConfChangeV2 =>
      match cc2_Unmarshal (e_Data (le_Raw entry)) with
      | Some change => applyConfChangeContext (cc2_Changes change) (cc2_Context change) s
      | None => s
      end
  | EntryConfChange =>
      match cc_Unmarshal (e_Data (le_Raw entry)) with
      | Some change => applyConfChangeContext [MkSingle (cc_Type change) (cc_NodeID change)] (cc_Context change) s
      | None => s
      end
  | _ => s
  end.
Definition applyCommittedControlEntries (entries : list LogEntry) (s : Members Nd) : Members Nd :=
  fold_left apply_control_entry entries s.

(** ** The start: configured addresses first, recorded ones where there is a gap *)
Definition or_recorded (current recorded : str) : str := if bool_decide (current = []) then recorded else current.
Definition restore_member (b : AddressBook) (member : MemberAddress) : AddressBook :=
  let id := ma_NodeID member in
  if (id =? 0)%Z then b
  else Set_ b id (or_recorded (HTTPAddr b id) (ma_HTTPAddr member)) (or_recorded (GRPCAddr b id) (ma_GRPCAddr member))
         (or_recorded (AdminAddr b id) (ma_AdminAddr member)).
Definition restorePersistedMemberAddresses : MM unit :=
  members ← on_store mb_ListMemberAddresses;
  st_modify (λ s, MkMembers (am_node s) (set_book (fold_left restore_member members (book s)) (am_peers s))).

(** One of the three loops: [seen] are the ids written before. *)
Definition persist_entry (httpAddrs grpcAddrs adminAddrs : gmap Z str) (seen : gset Z) (entry : Z * str) : MM (gset Z) :=
  let id := entry.1 in
  if bool_decide (id ∈ seen) then mret seen
  else on_store (mb_SetMemberAddress id (addr_of httpAddrs id) (addr_of grpcAddrs id) (addr_of adminAddrs id));; mret ({[id]} ∪ seen).
Definition drop_entry (seen : gset Z) (member : MemberAddress) : MM unit :=
  if bool_decide (ma_NodeID member ∈ seen) then mret tt else on_store (mb_DeleteMemberAddress (ma_NodeID member)).
Definition persistCurrentAddressBook : MM unit :=
  s ← st_get;
  let httpAddrs := SnapshotHTTP (book s) in
  let grpcAddrs := SnapshotGRPC (book s) in
  let adminAddrs := SnapshotAdmin (book s) in
  persisted ← on_store mb_ListMemberAddresses;
  seen ← st_fold (persist_entry httpAddrs grpcAddrs adminAddrs) ∅ (range httpAddrs);
  seen ← st_fold (persist_entry httpAddrs grpcAddrs adminAddrs) seen (range grpcAddrs);
  seen ← st_fold (persist_entry httpAddrs grpcAddrs adminAddrs) seen (range adminAddrs);
  st_iter (drop_entry seen) persisted.
(** The two steps at the start of the application, behind the start of the node. *)
Definition start_addresses : MM unit := restorePersistedMemberAddresses;; persistCurrentAddressBook.
End members.
