(* ===== verification/MembershipFacts.v ===== *)
(** * No address is lost

    Filling the book from the records and writing the book back: afterwards the book and the
    records agree, and a later start, with whatever configuration, still knows every
    address. *)
From Stdlib Require Import Ascii ZArith.
From stdpp Require Import gmap strings list.
From S2P Require Import Prelude GoStrings Codec Wal Engine StateMachine Pebble Raft RaftNode AddressBook Transport Dto WatchHub RegistryModel Watch ReplicationFacts Membership.

(** ** Filling the book, one of its maps at a time *)
Definition restore_map (f : MemberAddress → str) (m : addr_map) (member : MemberAddress) : addr_map :=
  if (ma_NodeID member =? 0)%Z then m else set_addr (ma_NodeID member) (or_recorded (addr_of m (ma_NodeID member)) (f member)) m.
Lemma restore_member_maps b member : restore_member b member =
  MkBook (restore_map ma_HTTPAddr (httpByID b) member) (restore_map ma_GRPCAddr (grpcByID b) member) (restore_map ma_AdminAddr (adminByID b) member).
Proof. unfold restore_member, restore_map. destruct (_ =? 0)%Z; by destruct b. Qed.
Lemma restore_book_maps l b : fold_left restore_member l b =
  MkBook (fold_left (restore_map ma_HTTPAddr) l (httpByID b)) (fold_left (restore_map ma_GRPCAddr) l (grpcByID b))
    (fold_left (restore_map ma_AdminAddr) l (adminByID b)).
Proof. revert b; induction l as [|a l IH]; intros b; [by destruct b|]. cbn [fold_left]. by rewrite IH, restore_member_maps. Qed.
Lemma or_recorded_twice a b : or_recorded (or_recorded a b) b = or_recorded a b.
Proof. unfold or_recorded. by repeat case_bool_decide. Qed.
Lemma or_recorded_nil a : or_recorded a [] = a.
Proof. unfold or_recorded. by case_bool_decide. Qed.
Lemma or_recorded_assoc a b c : or_recorded a (or_recorded b c) = or_recorded (or_recorded a b) c.
Proof. unfold or_recorded. repeat case_bool_decide; congruence. Qed.
(** What the table has for a node. *)
Definition recorded (f : MemberAddress → str) (t : gmap Z MemberAddress) (id : Z) : str := from_option f [] (t !! id).
Lemma restore_map_addr f m member id : ma_NodeID member ≠ 0%Z →
  addr_of (restore_map f m member) id =
    if bool_decide (id = ma_NodeID member) then or_recorded (addr_of m id) (f member) else addr_of m id.
Proof.
  intros Hne. unfold restore_map. destruct (Z.eqb_spec (ma_NodeID member) 0); [done|]. rewrite addr_of_set.
  destruct (bool_decide_reflect (id = ma_NodeID member)) as [->|Hid]; [|by rewrite bool_decide_false by tauto].
  case_bool_decide as Hb; [done|]. unfold or_recorded in *. case_bool_decide as Ha; [|done].
  destruct (bool_decide_reflect (f member = [])) as [Hf|Hf]; [by rewrite Ha, Hf|]. by destruct Hb.
Qed.
Lemma restore_maps_addr f t l m id : (∀ a, a ∈ l → t !! ma_NodeID a = Some a ∧ ma_NodeID a ≠ 0%Z) →
  addr_of (fold_left (restore_map f) l m) id =
    if bool_decide (id ∈ ma_NodeID <$> l) then or_recorded (addr_of m id) (recorded f t id) else addr_of m id.
Proof.
  revert m; induction l as [|a l IH]; intros m Hl; [done|]. cbn [fold_left fmap list_fmap].
  destruct (Hl a) as [Ha Hne]; [by left|]. rewrite IH by (intros x Hx; apply Hl; by right). rewrite restore_map_addr by done.
  destruct (bool_decide_reflect (id = ma_NodeID a)) as [->|Hid].
  - rewrite (bool_decide_true (ma_NodeID a ∈ _ :: _)) by by left. assert (recorded f t (ma_NodeID a) = f a) as ->
      by (unfold recorded; by rewrite Ha). case_bool_decide; [apply or_recorded_twice|done].
  - case_bool_decide as Hin; [by rewrite bool_decide_true by by right|].
    rewrite bool_decide_false; [done|]. by intros [?|?]%elem_of_cons.
Qed.
(** The filled book, against the table it is filled from. *)
Lemma filled f t l m id : (∀ a, a ∈ l ↔ t !! ma_NodeID a = Some a) → (∀ i a, t !! i = Some a → ma_NodeID a = i ∧ i ≠ 0%Z) →
  addr_of (fold_left (restore_map f) l m) id = or_recorded (addr_of m id) (recorded f t id).
Proof.
  intros Hl Ht. rewrite (restore_maps_addr f t).
  2: { intros a Ha. split; [by apply Hl|]. apply Hl, Ht in Ha. tauto. }
  case_bool_decide as Hin; [done|]. unfold recorded. destruct (t !! id) as [a|] eqn:Ha; [|by rewrite or_recorded_nil].
  exfalso. apply Hin, list_elem_of_fmap. exists a. destruct (Ht _ _ Ha) as [<- _]. split; [done|]. by apply Hl.
Qed.

(** ** Writing the book back *)
Section facts.
Context `{MB : MemberStore Nd E} `{Raft, GoRange}.
Abbreviation table := (mb_table (Nd:=Nd) (E:=E)).
(** Every well-numbered record can be stored. *)
Hypothesis storable : ∀ id http grpc admin, is_u64 id → mb_storable (Nd:=Nd) (E:=E) (MkMember id http grpc admin).
Lemma on_store_inv {A} (m : ST Nd E A) (s s' : Members Nd) a : on_store m s = (s', Ok a) →
  m (am_node s) = (am_node s', Ok a) ∧ am_peers s' = am_peers s.
Proof. unfold on_store. destruct (m (am_node s)) as [nd r]. by intros [= <- ->]. Qed.
(** The record of a node as the book has it. *)
Definition record_of (hs gs ads : addr_map) (id : Z) : MemberAddress := MkMember id (addr_of hs id) (addr_of gs id) (addr_of ads id).
Lemma persist_entries hs gs ads l seen s s' seen' t : table (am_node s) t → Forall (λ p : Z * str, is_u64 p.1) l →
  (∀ id, id ∈ seen → t !! id = Some (record_of hs gs ads id)) →
  st_fold (persist_entry hs gs ads) seen l s = (s', Ok seen') →
  am_peers s' = am_peers s ∧ seen' = seen ∪ list_to_set l.*1 ∧
  ∃ t', table (am_node s') t' ∧ ∀ id, t' !! id = if bool_decide (id ∈ seen') then Some (record_of hs gs ads id) else t !! id.
Proof.
  intros Ht Hl. revert seen s t Ht; induction Hl as [|[id addr] l Hid _ IH]; intros seen s t Ht Hseen Hrun.
  - injection Hrun as <- <-. split; [done|split; [set_solver|]]. exists t. split; [done|]. intros id. case_bool_decide; auto.
  - cbn [st_fold] in Hrun. apply st_bind_inv in Hrun as (s1&seen1&Hone&Hrun). unfold persist_entry in Hone. cbn [fst] in Hone, Hid.
    destruct (bool_decide_reflect (id ∈ seen)) as [Hin|Hout].
    + injection Hone as <- <-. destruct (IH _ _ _ Ht Hseen Hrun) as (?&->&Hrest). split; [done|split; [set_solver|done]].
    + apply st_bind_inv in Hone as (s2&[]&Hset&[= <- <-]). apply on_store_inv in Hset as [Hset Hpeers].
      destruct (mb_Set_ok _ _ _ _ _ _ _ Ht (storable _ _ _ _ Hid) Hset) as [_ Ht1].
      destruct (IH ({[id]} ∪ seen) _ _ Ht1) as (Hp&Hs&t'&Ht'&Hlook); [|exact Hrun|].
      { intros j [->%elem_of_singleton|Hj]%elem_of_union; [by rewrite lookup_insert_eq|].
        rewrite lookup_insert_ne; [by apply Hseen|]. by intros ->. }
      split; [by rewrite Hp|split; [set_solver|]]. exists t'. split; [done|]. intros j. rewrite Hlook.
      case_bool_decide as Hj; [done|]. rewrite lookup_insert_ne; [done|]. intros <-. apply Hj. set_solver.
Qed.
Lemma drop_entries seen l s s' u t : table (am_node s) t → st_iter (drop_entry seen) l s = (s', Ok u) →
  (∀ a, a ∈ l → is_u64 (ma_NodeID a)) →
  am_peers s' = am_peers s ∧
  ∃ t', table (am_node s') t' ∧ ∀ id, t' !! id = if bool_decide (id ∉ seen ∧ id ∈ ma_NodeID <$> l) then None else t !! id.
Proof.
  revert s t; induction l as [|a l IH]; intros s t Ht Hrun Hl.
  - injection Hrun as <- _. split; [done|]. exists t. split; [done|]. intros id. rewrite bool_decide_false; [done|]. by intros [_ ?%elem_of_nil].
  - cbn [st_iter] in Hrun. apply st_bind_inv in Hrun as (s1&[]&Hone&Hrun). unfold drop_entry in Hone.
    assert (Hl' : ∀ x, x ∈ l → is_u64 (ma_NodeID x)) by (intros x Hx; apply Hl; by right).
    destruct (bool_decide_reflect (ma_NodeID a ∈ seen)) as [Hin|Hout].
    + injection Hone as <-. destruct (IH _ _ Ht Hrun Hl') as (Hp&t'&Ht'&Hlook). split; [done|]. exists t'. split; [done|].
      intros id. rewrite Hlook. do 2 case_bool_decide; try done; set_solver.
    + apply on_store_inv in Hone as [Hdel Hpeers]. pose proof (mb_Delete_ok _ _ _ _ Ht (Hl a ltac:(by left)) Hdel) as Ht1.
      destruct (IH _ _ Ht1 Hrun Hl') as (Hp&t'&Ht'&Hlook). split; [by rewrite Hp|]. exists t'. split; [done|].
      intros id. rewrite Hlook. destruct (decide (id = ma_NodeID a)) as [->|Hne].
      * rewrite lookup_delete_eq. do 2 case_bool_decide; try done; set_solver.
      * rewrite lookup_delete_ne by done. do 2 case_bool_decide; try done; set_solver.
Qed.
(** The ids the book names. *)
Definition book_ids (b : AddressBook) : gset Z := dom (httpByID b) ∪ dom (grpcByID b) ∪ dom (adminByID b).
Lemma range_u64 (m : addr_map) : (∀ id, id ∈ dom m → is_u64 id) → Forall (λ p : Z * str, is_u64 p.1) (range m).
Proof.
  intros Hm. apply Forall_forall. intros [id a] Hin. rewrite range_perm in Hin. apply elem_of_map_to_list in Hin.
  apply Hm. by apply elem_of_dom_2 in Hin.
Qed.
Lemma range_dom (m : addr_map) : list_to_set (range m).*1 = (dom m : gset Z).
Proof.
  apply set_eq. intros id. rewrite elem_of_list_to_set, list_elem_of_fmap, elem_of_dom. split.
  - intros ([j a]&->&Hin). rewrite range_perm in Hin. apply elem_of_map_to_list in Hin. by exists a.
  - intros [a Ha]. exists (id, a). split; [done|]. rewrite range_perm. by apply elem_of_map_to_list.
Qed.
Lemma persist_ok s s' u t : table (am_node s) t → (∀ id, id ∈ book_ids (book s) → is_u64 id) →
  persistCurrentAddressBook s = (s', Ok u) →
  am_peers s' = am_peers s ∧
  ∃ t', table (am_node s') t' ∧ ∀ id, t' !! id = if bool_decide (id ∈ book_ids (book s)) then
    Some (MkMember id (HTTPAddr (book s) id) (GRPCAddr (book s) id) (AdminAddr (book s) id)) else None.
Proof.
  intros Ht Hids Hrun. unfold persistCurrentAddressBook in Hrun. apply st_bind_inv in Hrun as (s0&s0'&[= <- <-]&Hrun).
  unfold SnapshotHTTP, SnapshotGRPC, SnapshotAdmin in Hrun. rewrite !copy_addrs_id in Hrun.
  apply st_bind_inv in Hrun as (s1&l&Hlist&Hrun). apply on_store_inv in Hlist as [Hlist Hp1].
  destruct (mb_List_ok _ _ _ _ Ht Hlist) as [Hs1 Hl]. rewrite <- Hs1 in Ht.
  assert (Hu : ∀ m, dom m ⊆ book_ids (book s) → Forall (λ p : Z * str, is_u64 p.1) (range m)) by (intros m Hm; apply range_u64; set_solver).
  apply st_bind_inv in Hrun as (s2&seen1&H1r&Hrun). apply st_bind_inv in Hrun as (s3&seen2&H2r&Hrun).
  apply st_bind_inv in Hrun as (s4&seen3&H3r&Hrun).
  destruct (persist_entries _ _ _ _ _ _ _ _ _ Ht (Hu (httpByID (book s)) ltac:(set_solver)) (λ id Hin, False_ind _ (not_elem_of_empty id Hin)) H1r) as (Hp2&Hs2&t2&Ht2&Hlook2).
  destruct (persist_entries (httpByID (book s)) (grpcByID (book s)) (adminByID (book s)) _ seen1 s2 s3 seen2 t2 Ht2 (Hu (grpcByID (book s)) ltac:(set_solver))) as (Hp3&Hs3&t3&Ht3&Hlook3); [|exact H2r|].
  { intros id Hin. rewrite Hlook2. by rewrite bool_decide_true. }
  destruct (persist_entries (httpByID (book s)) (grpcByID (book s)) (adminByID (book s)) _ seen2 s3 s4 seen3 t3 Ht3 (Hu (adminByID (book s)) ltac:(set_solver))) as (Hp4&Hs4&t4&Ht4&Hlook4); [|exact H3r|].
  { intros id Hin. rewrite Hlook3. by rewrite bool_decide_true. }
  assert (Hseen : seen3 = book_ids (book s)) by (rewrite Hs4, Hs3, Hs2, !range_dom; unfold book_ids; set_solver).
  destruct (drop_entries _ _ _ _ _ _ Ht4 Hrun) as (Hp5&t5&Ht5&Hlook5).
  { intros a Ha%Hl. rewrite Hs1 in Ht. by destruct (mb_table_id _ _ _ _ Ht Ha) as (_&_&?). }
  split; [congruence|]. exists t5. split; [done|]. intros id. rewrite Hlook5, Hlook4, Hseen. clear Hlook5 Hlook4.
  destruct (bool_decide_reflect (id ∈ book_ids (book s))) as [Hin|Hout]; [by rewrite bool_decide_false by tauto|].
  case_bool_decide as Hd; [done|]. rewrite Hlook3, Hlook2.
  rewrite !bool_decide_false by (rewrite ?Hs3, ?Hs2, ?range_dom; unfold book_ids in Hout; set_solver).
  destruct (t !! id) as [a|] eqn:Ha; [|done]. destruct Hd. split; [done|]. rewrite Hs1 in Ht.
  destruct (mb_table_id _ _ _ _ Ht Ha) as (Hida&_). apply list_elem_of_fmap. exists a. split; [done|]. apply Hl. by rewrite Hida.
Qed.

(** ** The start *)
(** Addresses of a node: the first ones, with gaps filled from the second ones. *)
Definition filled_from (a r : str * str * str) : str * str * str :=
  (or_recorded a.1.1 r.1.1, or_recorded a.1.2 r.1.2, or_recorded a.2 r.2).
Definition addrs_of (b : AddressBook) (id : Z) : str * str * str := (HTTPAddr b id, GRPCAddr b id, AdminAddr b id).
Definition recorded_addrs (t : gmap Z MemberAddress) (id : Z) : str * str * str :=
  (recorded ma_HTTPAddr t id, recorded ma_GRPCAddr t id, recorded ma_AdminAddr t id).
Definition numbered (b : AddressBook) : Prop := ∀ id, id ∈ book_ids b → is_u64 id.
Lemma restore_map_dom f l m : dom (fold_left (restore_map f) l m) ⊆ dom m ∪ list_to_set (ma_NodeID <$> l).
Proof.
  revert m; induction l as [|a l IH]; intros m; [set_solver|]. cbn [fold_left fmap list_fmap].
  specialize (IH (restore_map f m a)). assert (dom (restore_map f m a) ⊆ {[ma_NodeID a]} ∪ dom m); [|set_solver].
  unfold restore_map, set_addr. destruct (_ =? 0)%Z; [set_solver|]. case_bool_decide; [set_solver|]. by rewrite dom_insert.
Qed.
Lemma start_ok s s' u t : table (am_node s) t → numbered (book s) → start_addresses s = (s', Ok u) →
  (∀ id, addrs_of (book s') id = filled_from (addrs_of (book s) id) (recorded_addrs t id)) ∧
  ∃ t', table (am_node s') t' ∧ (∀ id, recorded_addrs t' id = addrs_of (book s') id) ∧ dom t' = book_ids (book s').
Proof.
  intros Ht Hnum Hrun. apply st_bind_inv in Hrun as (s1&[]&Hres&Hper).
  apply st_bind_inv in Hres as (s0&l&Hlist&[= <-]). apply on_store_inv in Hlist as [Hlist Hp0].
  destruct (mb_List_ok _ _ _ _ Ht Hlist) as [Hn0 Hl]. set (s1 := MkMembers _ _) in Hper.
  assert (Hb1 : book s1 = fold_left restore_member l (book s)) by (subst s1; unfold book; cbn; by rewrite Hp0).
  assert (Hid : ∀ i a, t !! i = Some a → ma_NodeID a = i ∧ i ≠ 0%Z).
  { intros i a Ha. destruct (mb_table_id _ _ _ _ Ht Ha) as (?&?&_). done. }
  assert (Hnum1 : numbered (book s1)).
  { intros id. rewrite Hb1, restore_book_maps. unfold book_ids. cbn [httpByID grpcByID adminByID].
    intros Hin. assert (id ∈ book_ids (book s) ∨ id ∈ ma_NodeID <$> l) as [?|Hj].
    { pose proof (restore_map_dom ma_HTTPAddr l (httpByID (book s))). pose proof (restore_map_dom ma_GRPCAddr l (grpcByID (book s))).
      pose proof (restore_map_dom ma_AdminAddr l (adminByID (book s))). unfold book_ids. set_solver. }
    - by apply Hnum.
    - apply list_elem_of_fmap in Hj as (a&->&Ha%Hl). by destruct (mb_table_id _ _ _ _ Ht Ha) as (_&_&?). }
  assert (Ht1 : table (am_node s1) t) by (subst s1; cbn; by rewrite Hn0).
  destruct (persist_ok _ _ _ _ Ht1 Hnum1 Hper) as (Hpeers&t'&Ht'&Hlook).
  assert (Hbook : book s' = book s1) by (unfold book; by rewrite Hpeers). rewrite Hbook. split.
  - intros id. unfold addrs_of, filled_from, recorded_addrs, HTTPAddr, GRPCAddr, AdminAddr. rewrite Hb1, restore_book_maps.
    cbn [httpByID grpcByID adminByID fst snd]. by rewrite !(filled _ t l) by done.
  - exists t'. split; [done|]. split.
    + intros id. unfold recorded_addrs, recorded, addrs_of. rewrite Hlook. case_bool_decide as Hin; [done|].
      unfold HTTPAddr, GRPCAddr, AdminAddr, addr_of. unfold book_ids in Hin. rewrite !not_elem_of_union, !not_elem_of_dom in Hin.
      by destruct Hin as [[-> ->] ->].
    + apply set_eq. intros id. rewrite elem_of_dom, Hlook. case_bool_decide as Hin; [by split; [|eexists]|]. by split; [intros []|].
Qed.
(** C31: No address is lost.  When the two steps at the start succeed, the book holds the configured
    addresses with the gaps filled from the records, the records say what the book says, and
    the next start - of a node with these records, behind a crash, with any other configuration -
    knows every address again that it does not configure itself. *)
Theorem addresses_survive s s' u t s2 s2' u2 :
  table (am_node s) t → numbered (book s) → start_addresses s = (s', Ok u) →
  am_node s2 = am_node s' → numbered (book s2) → start_addresses s2 = (s2', Ok u2) →
  ∀ id, addrs_of (book s') id = filled_from (addrs_of (book s) id) (recorded_addrs t id) ∧
    addrs_of (book s2') id = filled_from (addrs_of (book s2) id) (addrs_of (book s') id).
Proof.
  intros Ht Hnum Hrun Hnode Hnum2 Hrun2 id. destruct (start_ok _ _ _ _ Ht Hnum Hrun) as (Hb&t'&Ht'&Hrec&_).
  split; [apply Hb|]. rewrite <- Hnode in Ht'. destruct (start_ok _ _ _ _ Ht' Hnum2 Hrun2) as (Hb2&_). by rewrite Hb2, Hrec.
Qed.

(** ** Committed changes *)
Context {C : Type} (left_in : str → MemberChangeRequestDTO) (close : str → option C).
Lemma upsert_book t id h g a : pt_book (UpsertPeer close id h g a t).1 = Set_ (pt_book t) id h g a.
Proof.
  unfold UpsertPeer, mbind, ST_bind, st_modify, drop_client. cbn. destruct (pt_clients t !! id) as [c|]; [|done]. by destruct (close c).
Qed.
(** A promotion names the node only, as [stellmapctl] sends it: the committed change blanks the
    record of its addresses, while the book in memory keeps them.  After a crash the node's
    addresses are gone, unless they are configured. *)
Theorem promotion_forgets s t id data s2 s3 u : table (am_node s) t → is_u64 id →
  left_in data = MkMemberChange id [] [] [] → data ≠ [] →
  (mb_SetMemberAddress (Nd:=Nd) (E:=E) id [] [] [] (am_node s)).2 = Ok tt →
  let s1 := applyConfChangeContext left_in close [MkSingle ConfChangeAddNode id] data s in
  am_node s2 = am_node s1 → numbered (book s2) → addrs_of (book s2) id = ([], [], []) → start_addresses s2 = (s3, Ok u) →
  addrs_of (book s1) id = addrs_of (book s) id ∧ addrs_of (book s3) id = ([], [], []).
Proof.
  intros Ht Hid Hleft Hdata Hset s1 Hnode Hnum Hblank Hrun.
  assert (Hs1 : s1 = apply_change close (MkMemberChange id [] [] []) s (MkSingle ConfChangeAddNode id)).
  { subst s1. unfold applyConfChangeContext, change_request. cbn [fold_left]. rewrite bool_decide_false, Hleft by done.
    cbn [mc_NodeID]. by destruct (Z.eqb_spec id 0) as [->|]. }
  unfold apply_change in Hs1. cbn [ccs_Type mc_NodeID mc_HTTPAddr mc_GRPCAddr mc_AdminAddr] in Hs1.
  unfold logged_store, logged_peers in Hs1. cbn [am_node] in Hs1.
  destruct (mb_SetMemberAddress id [] [] [] (am_node s)) as [nd r] eqn:Hrun1. cbn [snd] in Hset. subst r.
  destruct (mb_Set_ok _ _ _ _ _ _ _ Ht (storable _ _ _ _ Hid) Hrun1) as [_ Ht1]. split.
  - rewrite Hs1. unfold book. cbn [am_peers]. rewrite upsert_book. unfold Set_. cbn. by destruct (pt_book (am_peers s)).
  - rewrite Hs1 in Hnode. cbn [am_node fst] in Hnode. rewrite <- Hnode in Ht1.
    destruct (start_ok _ _ _ _ Ht1 Hnum Hrun) as (Hb&_). rewrite Hb, Hblank. unfold recorded_addrs, recorded.
    by rewrite lookup_insert_eq.
Qed.
End facts.
