(* ===== verification/MembershipSamples.v ===== *)
(** * The records of the store, and a promotion

    The pebble store and the raft node implement [MemberStore]; the theorems about addresses
    applied to a store with one record. *)
From Stdlib Require Import Ascii ZArith.
From stdpp Require Import gmap strings list sorting.
From S2P Require Import Prelude GoStrings Codec Wal WalLog Engine StateMachine Pebble Snapshot RaftConfig Raft RaftNode AddressBook Transport Dto WatchHub RegistryModel Watch ReplicationFacts Membership MembershipFacts.

(** ** The pebble store *)
Section store.
Context `{PebbleEngine, Json MemberAddress, Json snapshotPayload, Json (list KV)}.
(** What JSON keeps, under a node id. *)
Definition record_faithful (a : MemberAddress) : Prop := is_u64 (ma_NodeID a) ∧ json_faithful a.
(** The bindings of the member range are the records of the table; the store never writes one
    for the node 0. *)
Definition records (s : PebbleStore) (t : gmap Z MemberAddress) : Prop :=
  members_wf (store_map s) ∧ store_map s !! memberAddressKey 0 = None ∧
  ∀ id a, t !! id = Some a ↔ ma_NodeID a = id ∧ record_faithful a ∧ store_map s !! memberAddressKey id = Some (mustJSON a).
Lemma records_nonzero s t id a : records s t → t !! id = Some a → ma_NodeID a = id ∧ id ≠ 0%Z ∧ is_u64 id.
Proof.
  intros (_&Hz&Ht) (<-&[Hu _]&Hk)%Ht. split; [done|split; [|done]]. intros E. by rewrite E, Hz in Hk.
Qed.
Lemma mustJSON_inj a b : record_faithful a → record_faithful b → mustJSON a = mustJSON b → a = b.
Proof.
  intros [_ Ha] [_ Hb] E. apply (f_equal (json_unmarshal (A:=MemberAddress))) in E. rewrite !mustJSON_decode in E by done. congruence.
Qed.
(** The effect of a write on the table, and no effect. *)
Lemma records_same s t s' : records s t → store_map s' = store_map s → records s' t.
Proof. intros (Hwf&Hz&Ht) E. unfold records. by rewrite E. Qed.
Lemma records_insert s t s' id http grpc admin : records s t → record_faithful (MkMember id http grpc admin) → id ≠ 0%Z →
  store_map s' = <[memberAddressKey id := mustJSON (MkMember id http grpc admin)]> (store_map s) →
  records s' (<[id := MkMember id http grpc admin]> t).
Proof.
  intros (Hwf&Hz&Ht) Hf Hid Hs. destruct Hf as [Hu Hj]. cbn [ma_NodeID] in Hu.
  assert (Hkeys : ∀ j, is_u64 j → memberAddressKey id = memberAddressKey j → id = j) by (intros j Hj' E; by apply memberAddressKey_inj in E).
  split; [|split].
  - rewrite Hs. intros k v. rewrite lookup_insert_Some. intros [[<- <-]|[_ Hk]] Hr; [|by eapply Hwf].
    exists (MkMember id http grpc admin). done.
  - rewrite Hs, lookup_insert_ne; [done|]. intros E%Hkeys; [done|]. unfold is_u64. lia.
  - intros j rec. rewrite Hs. destruct (decide (j = id)) as [->|Hne].
    + rewrite !lookup_insert_eq. split; [by intros [= <-]|]. intros (_&Ha&[= E]). f_equal. by apply mustJSON_inj.
    + rewrite lookup_insert_ne by done. rewrite Ht. split; intros (Hida&Ha&Hk); (split; [done|split; [done|]]).
      * rewrite lookup_insert_ne; [done|]. intros E%Hkeys; [congruence|]. by destruct Ha as [? _]; subst.
      * rewrite lookup_insert_ne in Hk; [done|]. intros E%Hkeys; [congruence|]. by destruct Ha as [? _]; subst.
Qed.
Lemma records_remove s t s' id : records s t → is_u64 id → store_map s' = delete (memberAddressKey id) (store_map s) →
  records s' (delete id t).
Proof.
  intros (Hwf&Hz&Ht) Hu Hs. split; [|split].
  - rewrite Hs. intros k v [_ Hk]%lookup_delete_Some Hr. by eapply Hwf.
  - rewrite Hs. by apply lookup_delete_None; right.
  - intros j a. rewrite Hs, !lookup_delete_Some, Ht. split.
    + intros (Hne&Hida&Ha&Hk). split; [done|split; [done|split; [|done]]]. intros E. apply Hne.
      by destruct Ha as [Hua _]; apply memberAddressKey_inj in E; [|done|congruence].
    + intros (Hida&Ha&Hne&Hk). split; [by intros ->|done].
Qed.
(** A write that succeeds has its effect; one that fails, its effect or none. *)
Lemma db_write_cases s op : store_map (db_write s op).1 = store_map s ∨ store_map (db_write s op).1 = apply_op (store_map s) op.
Proof.
  unfold db_write, with_db, getDB. destruct (ps_open s); [|by left].
  destruct (commit (ps_db s) [op] tt) as [d [a|e]] eqn:E.
  - right. by apply commit_ok in E as [? _].
  - by apply commit_err in E.
Qed.
Lemma records_set_any s t id http grpc admin : records s t → record_faithful (MkMember id http grpc admin) →
  ∃ t', records (Pebble.SetMemberAddress s id http grpc admin).1 t'.
Proof.
  intros Ht Hf. unfold Pebble.SetMemberAddress. destruct (getDB s) as [db|]; [|by exists t]. destruct (Z.eqb_spec id 0); [by exists t|].
  destruct (db_write_cases s (BSet (memberAddressKey id) (mustJSON (MkMember id http grpc admin)))) as [E|E].
  - exists t. by eapply records_same.
  - eexists. by eapply records_insert.
Qed.
Lemma records_delete_any s t id : records s t → is_u64 id → ∃ t', records (Pebble.DeleteMemberAddress s id).1 t'.
Proof.
  intros Ht Hu. unfold Pebble.DeleteMemberAddress. destruct (getDB s) as [db|]; [|by exists t]. destruct (Z.eqb_spec id 0); [by exists t|].
  destruct (db_write_cases s (BDelete (memberAddressKey id))) as [E|E].
  - exists t. by eapply records_same.
  - eexists. by eapply records_remove.
Qed.
Lemma records_set s t s' id http grpc admin : records s t → record_faithful (MkMember id http grpc admin) →
  Pebble.SetMemberAddress s id http grpc admin = (s', Ok tt) →
  id ≠ 0%Z ∧ records s' (<[id := MkMember id http grpc admin]> t).
Proof. intros Ht Hf [Hid Hs]%SetMemberAddress_ok. split; [done|]. by eapply records_insert. Qed.
Lemma records_delete s t s' id : records s t → is_u64 id → Pebble.DeleteMemberAddress s id = (s', Ok tt) →
  records s' (delete id t).
Proof.
  intros Ht Hu. unfold Pebble.DeleteMemberAddress. destruct (getDB s) as [db|]; [|done]. destruct (Z.eqb_spec id 0); [done|].
  intros [Hs _]%db_write_ok. by eapply records_remove.
Qed.
Lemma records_list s t l : records s t → Pebble.ListMemberAddresses s = Ok l → ∀ a, a ∈ l ↔ t !! ma_NodeID a = Some a.
Proof.
  intros (Hwf&Hz&Ht) Hl a. destruct (ListMemberAddresses_spec _ _ Hwf Hl) as (_&_&Hms). rewrite Hms, Ht. split.
  - intros (k&Hk&->&_&Hu&Hj). done.
  - intros (_&[Hu Hj]&Hk). by exists (memberAddressKey (ma_NodeID a)).
Qed.
#[export] Instance pebble_members : MemberStore PebbleStore StoreErr.
Proof.
  refine {| mb_SetMemberAddress id http grpc admin s := Pebble.SetMemberAddress s id http grpc admin;
    mb_DeleteMemberAddress id s := Pebble.DeleteMemberAddress s id;
    mb_ListMemberAddresses s := (s, Pebble.ListMemberAddresses s);
    mb_table := records; mb_storable := record_faithful |}.
  - apply records_set.
  - apply records_delete.
  - intros s t s' l Ht [= <- Hl]. split; [done|]. by eapply records_list.
  - apply records_nonzero.
Defined.
End store.

(** ** The raft node passes the calls to its store *)
Section raft_node.
Context `{Raftpb, !Raft, !RaftBehaviour, PebbleEngine}.
Context `{Json MemberAddress, Json snapshotPayload, Json (list KV), Json Command, Json Snapshot.Metadata}.
Lemma on_kv_returned {A} (f : PebbleStore → PebbleStore * result StoreErr A) n n' a : on_kv f n = (n', Ok a) → f (rn_kv n) = (rn_kv n', Ok a).
Proof. unfold on_kv. destruct (f (rn_kv n)) as [kv r]. intros [= <- Hr]. by apply map_err_ok in Hr as ->. Qed.
#[export] Instance node_members : MemberStore RaftNode NodeErr.
Proof.
  refine {| mb_SetMemberAddress := node_SetMemberAddress; mb_DeleteMemberAddress := node_DeleteMemberAddress;
    mb_ListMemberAddresses := node_ListMemberAddresses; mb_table n := records (rn_kv n); mb_storable := record_faithful |};
    unfold node_SetMemberAddress, node_DeleteMemberAddress, node_ListMemberAddresses, on_kv_read.
  - intros n t n' id http grpc admin Ht Hf Hrun%on_kv_returned. by apply (records_set (rn_kv n)).
  - intros n t n' id Ht Hu Hrun%on_kv_returned. by apply (records_delete (rn_kv n)).
  - intros n t n' l Ht [= <- Hl%map_err_ok]. split; [done|]. by eapply records_list.
  - intros n. apply records_nonzero.
Defined.
End raft_node.

(** ** A cluster of two: the node 3 is recorded, the node 1 is configured *)
#[local] Existing Instances memory_engine member_json payload_json items_json memory_raft range_by_key.
Definition record3 : MemberAddress := MkMember 3 (lit "h:1") (lit "g:1") [].
Definition table3 : gmap Z MemberAddress := {[ 3%Z := record3 ]}.
Lemma records3 : records member_store table3.
Proof.
  apply (records_set source_store ∅); [|split; [by vm_compute|exact I]|apply run_unpack; by vm_compute].
  split; [|split; [by apply (bool_decide_unpack _); vm_compute|]].
  - apply no_members_wf. intros k Hr. apply lookup_singleton_ne. intros <-. by apply members_range_meta in Hr.
  - intros id a. rewrite lookup_empty. split; [done|]. intros (_&_&Hk). exfalso. unfold source_store in Hk.
    change (store_map _) with ({[ lit "k" := lit "v" ]} : gmap str str) in Hk.
    apply lookup_singleton_Some in Hk as [E _]. pose proof (memberAddressKey_meta id) as Hm. by rewrite <- E in Hm.
Qed.
Lemma all_storable id http grpc admin : is_u64 id → mb_storable (Nd:=PebbleStore) (E:=StoreErr) (MkMember id http grpc admin).
Proof. by split. Qed.
Definition configured (h : addr_map) : PeerTransport := NewPeerTransport 1 (MkBook h ∅ ∅) 0.
Definition first_start : Members PebbleStore := MkMembers member_store (configured {[ 1%Z := lit "h:0" ]}).
Definition started : Members PebbleStore := (start_addresses (E:=StoreErr) first_start).1.
(** The next start has another address for the node 1 and none for the node 3. *)
Definition second_start : Members PebbleStore := MkMembers (am_node started) (configured {[ 1%Z := lit "h:9" ]}).
Lemma one_numbered (nd : PebbleStore) addr : numbered (book (MkMembers nd (configured {[ 1%Z := addr ]}))).
Proof. intros id. unfold book_ids. cbn. rewrite dom_singleton, !dom_empty. intros Hid. assert (id = 1%Z) as -> by set_solver. by vm_compute. Qed.
Lemma addresses_survive_witness :
  ∃ t, records (am_node first_start) t ∧ addrs_of (book started) 3 = (lit "h:1", lit "g:1", []) ∧
    addrs_of (book (start_addresses (E:=StoreErr) second_start).1) 1 =
      filled_from (addrs_of (book second_start) 1) (addrs_of (book started) 1).
Proof.
  exists table3. split; [exact records3|]. split; [apply (bool_decide_unpack _); vm_compute; reflexivity|].
  apply (addresses_survive all_storable first_start started tt table3 second_start (start_addresses (E:=StoreErr) second_start).1 tt).
  - exact records3.
  - apply one_numbered.
  - apply run_unpack. vm_compute. reflexivity.
  - reflexivity.
  - apply one_numbered.
  - apply run_unpack. vm_compute. reflexivity.
Defined.

(** The node 3 is promoted by a request that names it only. *)
Definition named_only (data : str) : MemberChangeRequestDTO := MkMemberChange 3 [] [] [].
Definition no_close (addr : str) : option unit := None.
Definition filled_node : Members PebbleStore := (restorePersistedMemberAddresses (E:=StoreErr) first_start).1.
Definition promoted : Members PebbleStore :=
  applyConfChangeContext (E:=StoreErr) named_only no_close [MkSingle ConfChangeAddNode 3] (lit "{}") filled_node.
Definition after_crash : Members PebbleStore := MkMembers (am_node promoted) (configured {[ 1%Z := lit "h:0" ]}).
Lemma promotion_forgets_witness :
  addrs_of (book filled_node) 3 = (lit "h:1", lit "g:1", []) ∧
  addrs_of (book promoted) 3 = addrs_of (book filled_node) 3 ∧
  addrs_of (book (start_addresses (E:=StoreErr) after_crash).1) 3 = ([], [], []).
Proof.
  split; [apply (bool_decide_unpack _); vm_compute; reflexivity|].
  apply (promotion_forgets all_storable named_only no_close filled_node table3 3 (lit "{}") after_crash (start_addresses (E:=StoreErr) after_crash).1 tt).
  - exact records3.
  - by vm_compute.
  - reflexivity.
  - done.
  - apply ok_unpack. vm_compute. reflexivity.
  - reflexivity.
  - apply one_numbered.
  - by vm_compute.
  - apply run_unpack. vm_compute. reflexivity.
Defined.
