(* ===== verification/NetAddr.v ===== *)
(** * Host and port ([net.SplitHostPort], [net.JoinHostPort]) and booleans ([strconv.ParseBool])

    The functions of Go's standard library that the program's addresses and flags go through. *)
From Stdlib Require Import Ascii ZArith.
From stdpp Require Import gmap strings list.
From S2P Require Import Prelude GoStrings.

(** [bytealg.IndexByteString], [LastIndexByteString]. *)
Definition IndexByte (s : str) (c : ascii) : option nat := fst <$> list_find (λ x, x = c) s.
Definition LastIndexByte (s : str) (c : ascii) : option nat := (λ p : nat * ascii, length s - S p.1) <$> list_find (λ x, x = c) (rev s).
Definition ch_colon : ascii := byte 58.
Definition ch_open : ascii := byte 91.
Definition ch_close : ascii := byte 93.

Inductive AddrError := missingPort | tooManyColons | missingClose | unexpectedOpen | unexpectedClose.
#[export] Instance AddrError_eq_dec : EqDecision AddrError.
Proof. solve_decision. Defined.
(** The host between brackets, or in front of the last colon; [j] and [k] are the offsets of the
    searches for a stray bracket. *)
Definition split_host (hostport : str) (i : nat) : result AddrError (str * nat * nat) :=
  if bool_decide (head hostport = Some ch_open) then
    match IndexByte hostport ch_close with
    | None => Err missingClose
    | Some end_ =>
        if (end_ + 1 =? length hostport)%nat then Err missingPort
        else if (end_ + 1 =? i)%nat then Ok (take (end_ - 1) (drop 1 hostport), 1, (end_ + 1)%nat)
        else if bool_decide (hostport !! (end_ + 1)%nat = Some ch_colon) then Err tooManyColons
        else Err missingPort
    end
  else
    let host := take i hostport in
    if bool_decide (is_Some (IndexByte host ch_colon)) then Err tooManyColons else Ok (host, 0, 0).
Definition SplitHostPort (hostport : str) : result AddrError (str * str) :=
  match LastIndexByte hostport ch_colon with
  | None => Err missingPort
  | Some i =>
      p ← split_host hostport i;
      let '(host, j, k) := p in
      fail_if (bool_decide (is_Some (IndexByte (drop j hostport) ch_open))) unexpectedOpen;;
      fail_if (bool_decide (is_Some (IndexByte (drop k hostport) ch_close))) unexpectedClose;;
      Ok (host, drop (i + 1) hostport)
  end.
Definition JoinHostPort (host port : str) : str :=
  if bool_decide (is_Some (IndexByte host ch_colon)) then ch_open :: host ++ ch_close :: ch_colon :: port
  else host ++ ch_colon :: port.

Definition ParseBool (s : str) : option bool :=
  if bool_decide (s ∈ lit <$> ["1"; "t"; "T"; "true"; "TRUE"; "True"]%string) then Some true
  else if bool_decide (s ∈ lit <$> ["0"; "f"; "F"; "false"; "FALSE"; "False"]%string) then Some false
  else None.

(** ** Lemmas *)
Lemma list_find_none {A} `{EqDecision A} (c : A) s : c ∉ s → list_find (λ x, x = c) s = None.
Proof. intros Hc. apply list_find_None, Forall_forall. intros x Hx ->. done. Qed.
Lemma list_find_first {A} `{EqDecision A} (c : A) a b : c ∉ a → list_find (λ x, x = c) (a ++ c :: b) = Some (length a, c).
Proof.
  intros Hc. apply list_find_Some. split; [by rewrite lookup_app_r, Nat.sub_diag|split; [done|]].
  intros j y Hj Hlt ->. apply Hc. rewrite lookup_app_l in Hj by done. by eapply list_elem_of_lookup_2.
Qed.
Lemma IndexByte_None s c : c ∉ s → IndexByte s c = None.
Proof. intros Hc. unfold IndexByte. by rewrite list_find_none. Qed.
Lemma IndexByte_first a c b : c ∉ a → IndexByte (a ++ c :: b) c = Some (length a).
Proof. intros Hc. unfold IndexByte. by rewrite list_find_first. Qed.
Lemma IndexByte_Some s c : c ∈ s → is_Some (IndexByte s c).
Proof.
  intros (a&b&->&Hc)%list_elem_of_split_l. rewrite IndexByte_first by done. by eexists.
Qed.
Lemma LastIndexByte_last a c b : c ∉ b → LastIndexByte (a ++ c :: b) c = Some (length a).
Proof.
  intros Hc. unfold LastIndexByte. rewrite rev_app_distr. cbn [rev]. rewrite <- app_assoc. cbn [app].
  rewrite list_find_first by by rewrite list_elem_of_In, <- in_rev, <- list_elem_of_In. cbn. rewrite length_app, length_rev. cbn [length]. f_equal. lia.
Qed.
Definition plain_host (host : str) : Prop := ch_open ∉ host ∧ ch_close ∉ host.
Definition plain_port (port : str) : Prop := ch_colon ∉ port ∧ ch_open ∉ port ∧ ch_close ∉ port.
(** A byte that is in none of the parts. *)
Ltac absent := rewrite ?not_elem_of_app, ?not_elem_of_cons; 
  split_and?; solve [assumption | intros E; vm_compute in E; discriminate E].
(** Splitting a joined address, IPv6 or not. *)
Lemma SplitHostPort_Join host port : plain_host host → plain_port port → SplitHostPort (JoinHostPort host port) = Ok (host, port).
Proof.
  intros [Ho Hc] (Pp&Po&Pc). unfold JoinHostPort. destruct (decide (ch_colon ∈ host)) as [Hin|Hout].
  - rewrite bool_decide_true by by apply IndexByte_Some. unfold SplitHostPort.
    change (ch_open :: host ++ ch_close :: ch_colon :: port) with ((ch_open :: host) ++ [ch_close] ++ ch_colon :: port).
    rewrite app_assoc, LastIndexByte_last by done. rewrite length_app. cbn [length]. unfold split_host.
    rewrite bool_decide_true, <- app_assoc by done. cbn [app].
    change (ch_open :: host ++ ch_close :: ch_colon :: port) with ((ch_open :: host) ++ ch_close :: ch_colon :: port).
    rewrite IndexByte_first by by intros [|]%elem_of_cons. cbn [length]. rewrite length_app. cbn [length].
    rewrite (proj2 (Nat.eqb_neq _ _)) by lia. rewrite (proj2 (Nat.eqb_eq _ _)) by lia. cbn [mbind result_bind].
    assert (Hopen : IndexByte (drop 1 (ch_open :: host ++ ch_close :: ch_colon :: port)) ch_open = None)
      by (apply IndexByte_None; cbn [drop]; rewrite drop_0; absent).
    assert (Hclose : IndexByte (drop (S (length host) + 1) (ch_open :: host ++ ch_close :: ch_colon :: port)) ch_close = None).
    { replace (S (length host) + 1) with (length ((ch_open :: host) ++ [ch_close])) by (rewrite length_app; cbn; lia).
      change (ch_open :: host ++ ch_close :: ch_colon :: port) with ((ch_open :: host) ++ [ch_close] ++ ch_colon :: port).
      rewrite app_assoc, drop_app_length. apply IndexByte_None. absent. }
    cbn [app]. rewrite Hopen, Hclose, !bool_decide_false by by intros []. cbn [fail_if mbind result_bind drop].
    rewrite drop_0. replace (S (length host) - 1) with (length host) by lia. rewrite take_app_length.
    replace (S (length host) + 1 + 1) with (length (ch_open :: host ++ [ch_close; ch_colon])) by (cbn; rewrite length_app; cbn; lia).
    assert (E : ch_open :: host ++ ch_close :: ch_colon :: port = (ch_open :: host ++ [ch_close; ch_colon]) ++ port)
      by (cbn; by rewrite <- app_assoc).
    by rewrite E, drop_app_length.
  - rewrite bool_decide_false by by rewrite IndexByte_None; [intros []|]. unfold SplitHostPort.
    rewrite LastIndexByte_last by done. unfold split_host. rewrite bool_decide_false.
    2: { intros Hh. apply Ho. destruct host as [|c host]; [by injection Hh|]. injection Hh as ->. by left. }
    rewrite take_app_length, bool_decide_false by by rewrite IndexByte_None; [intros []|]. cbn [mbind result_bind drop].
    assert (Hn : ∀ c, c ∉ host → c ≠ ch_colon → c ∉ port → IndexByte (host ++ ch_colon :: port) c = None).
    { intros c H1 H2 H3. apply IndexByte_None. absent. }
    rewrite !Hn by done. rewrite !bool_decide_false by by intros []. cbn [fail_if mbind result_bind].
    repeat f_equal. replace (length host + 1) with (length (host ++ [ch_colon])) by (rewrite length_app; cbn; lia).
    change (ch_colon :: port) with ([ch_colon] ++ port). by rewrite app_assoc, drop_app_length.
Qed.
