(* ===== verification/Prometheus.v ===== *)
(** * Prometheus service discovery ([RegistryAPI.PrometheusSD] of [handlers_impl.go])

    The scrape targets of the live instances, the copied instances and the nodes themselves, as
    target groups with labels.  [now] and [now'] are the two readings of the clock. *)
From Stdlib Require Import Ascii ZArith Sorted.
From stdpp Require Import gmap strings list sorting.
From S2P Require Import Prelude GoStrings NetAddr Selector RegistryModel ReplicationModel Codec Engine StateMachine RaftNode AddressBook DataNode Dto Http.

(** ** The query *)
Record prometheusSDQuery := MkSDQuery {
  sd_Namespace : str; sd_Service : str; sd_Zone : str; sd_Endpoint : str; sd_Scope : str; sd_IncludeSelf : bool; sd_Selector : Selector
}.
Inductive SDError := ErrNamespaceRequired | ErrScope | ErrIncludeSelf (raw : str) | ErrSDSelector (e : SelectorError).
Definition or_default (s : str) (d : string) : str := if bool_decide (s = []) then lit d else s.
Definition include_self (raw : str) : result SDError bool :=
  if bool_decide (raw = []) then Ok false
  else match ParseBool raw with Some b => Ok b | None => Err (ErrIncludeSelf raw) end.
Definition parsePrometheusSDQuery `{CaseTable} (values : url_Values) : result SDError prometheusSDQuery :=
  let field key := TrimSpace (firstQueryValue values key) in
  let namespace := field "namespace" in
  let service := field "service" in
  let scope := or_default (field "scope") "local" in
  fail_if (negb (bool_decide (service = [])) && bool_decide (namespace = [])) ErrNamespaceRequired;;
  fail_if (negb (bool_decide (scope ∈ [lit "local"; lit "merged"]))) ErrScope;;
  includeSelf ← include_self (field "includeSelf");
  selector ← map_err ErrSDSelector (ParseLabelSelectorFilters (url_all values "selector") (url_all values "label"));
  Ok (MkSDQuery namespace service (field "zone") (or_default (field "endpoint") "metrics") scope includeSelf selector).
Definition matchPrometheusSDQuery (value : Value) (query : prometheusSDQuery) : option bool :=
  MatchQuery value (MkQuery (sd_Namespace query) (sd_Service query) [] [] (sd_Zone query) [] (sd_Selector query) 0).

(** ** Labels *)
Definition letter (r : BinNums.N) : bool := ((97 <=? r) && (r <=? 122) || (65 <=? r) && (r <=? 90) || (r =? 95))%N.
Definition label_rune (index : nat) (r : BinNums.N) : ascii :=
  if letter r || ((48 <=? r) && (r <=? 57))%N && (0 <? index)%nat then nbyte r else byte 95.
Definition starts_well (s : str) : bool := match s with c :: _ => letter (bval c) | [] => false end.
Definition sanitizePrometheusLabelName (raw : str) : str :=
  let raw := TrimSpace raw in
  if bool_decide (raw = []) then []
  else
    let sanitized := imap label_rune (runes raw) in
    if bool_decide (sanitized = []) then []
    else if negb (starts_well sanitized) then byte 95 :: sanitized else sanitized.
Definition add_label (prefix : str) (target : gmap str str) (item : str * str) : gmap str str :=
  let sanitizedKey := sanitizePrometheusLabelName (prefix ++ item.1) in
  if bool_decide (sanitizedKey = []) then target else <[sanitizedKey := TrimSpace item.2]> target.
Definition addPrefixedPrometheusLabels `{GoRange} (target : gmap str str) (prefix : str) (items : gmap str str) : gmap str str :=
  fold_left (add_label prefix) (range items) target.
Definition deleteEmptyLabels (labels : gmap str str) : gmap str str := filter (λ p : str * str, TrimSpace p.2 ≠ []) labels.

(** ** Targets *)
Section targets.
Context `{CaseTable, GoRange}.
Definition normalizePrometheusScheme (protocol : str) : str :=
  if bool_decide (ToLower (TrimSpace protocol) = lit "https") then lit "https" else lit "http".
Definition normalizePrometheusPath (path : str) : str :=
  let path := TrimSpace path in
  if bool_decide (path = []) then lit "/metrics" else if HasPrefix path (lit "/") then path else lit "/" ++ path.
Definition scrapes (scheme : str) : bool := bool_decide (scheme = lit "http") || bool_decide (scheme = lit "https").
Fixpoint findPrometheusEndpoint (endpoints : list Endpoint) (expected : str) : option Endpoint :=
  match endpoints with
  | [] => None
  | endpoint :: endpoints =>
      if (bool_decide (ep_Name endpoint = expected) || bool_decide (ep_Protocol endpoint = expected)) &&
         scrapes (normalizePrometheusScheme (ep_Protocol endpoint))
      then Some endpoint else findPrometheusEndpoint endpoints expected
  end.
Definition unspecified (host : str) : bool := bool_decide (host ∈ lit <$> ["0.0.0.0"; "::"; "[::]"]%string).
Definition joinPrometheusTargetAddress (host : str) (port : Z) : option str :=
  let host := TrimSpace host in
  if bool_decide (host = []) || (port <=? 0)%Z then None
  else if unspecified host then None
  else Some (JoinHostPort host (FormatUint port)).
Definition instance_labels (value : Value) (endpoint : Endpoint) (origin sourceRegion sourceCluster : str) : gmap str str :=
  list_to_map [
    (lit "namespace", v_Namespace value); (lit "service", Service (v_Identity value)); (lit "instance_id", v_InstanceID value);
    (lit "region", sourceRegion); (lit "zone", v_Zone value); (lit "cluster_id", sourceCluster);
    (lit "target_origin", origin); (lit "target_kind", lit "service_instance");
    (lit "endpoint_name", ep_Name endpoint); (lit "endpoint_proto", ep_Protocol endpoint);
    (lit "__scheme__", normalizePrometheusScheme (ep_Protocol endpoint)); (lit "__metrics_path__", normalizePrometheusPath (ep_Path endpoint)) ].
Definition prometheusSDTargetGroupFromValue (value : Value) (endpointName origin sourceRegion sourceCluster : str) : option PrometheusSDTargetGroupDTO :=
  endpoint ← findPrometheusEndpoint (v_Endpoints value) endpointName;
  address ← joinPrometheusTargetAddress (ep_Host endpoint) (ep_Port endpoint);
  let labels := instance_labels value endpoint origin sourceRegion sourceCluster in
  let labels := addPrefixedPrometheusLabels labels (lit "stellmap_label_") (v_Labels value) in
  let labels := addPrefixedPrometheusLabels labels (lit "stellmap_meta_") (v_Metadata value) in
  Some (MkTargetGroup [address] (deleteEmptyLabels labels)).

(** The loop over the scanned items, local or copied: [decode] yields the value and the region and
    cluster of its labels; [None] is the panic of the label matcher. *)
Fixpoint collect_targets (decode : KV → option (Value * str * str)) (origin : str) (query : prometheusSDQuery) (now : Z)
    (items : list KV) (acc : list PrometheusSDTargetGroupDTO) : option (list PrometheusSDTargetGroupDTO) :=
  match items with
  | [] => Some acc
  | item :: items =>
      match decode item with
      | None => collect_targets decode origin query now items acc
      | Some (value, region, cluster) =>
          if negb (IsAlive value now) then collect_targets decode origin query now items acc
          else match matchPrometheusSDQuery value query with
          | None => None
          | Some false => collect_targets decode origin query now items acc
          | Some true =>
              match prometheusSDTargetGroupFromValue value (sd_Endpoint query) origin region cluster with
              | None => collect_targets decode origin query now items acc
              | Some group => collect_targets decode origin query now items (acc ++ [group])
              end
          end
      end
  end.
Definition normalizePrometheusDiscoveryAddress (addr : str) : option str :=
  let addr := TrimSpace addr in
  if bool_decide (addr = []) then None
  else match SplitHostPort addr with
  | Err _ => None
  | Ok (host, port) =>
      let host := TrimSpace host in
      if bool_decide (host = []) || unspecified host then None else Some (JoinHostPort host port)
  end.
End targets.

(** ** The handler *)
Section handler.
Context `{DN : DataNode Nd E} `{GoRange, CaseTable, Json Value, Json ReplicatedValue}.
Abbreviation HM := (ST Nd Response).
Definition decode_here (h : RegistryAPI) (item : KV) : option (Value * str * str) :=
  value ← json_unmarshal (kv_Value item); Some (value, h_sourceRegion h, h_sourceCluster h).
Definition decode_copied (item : KV) : option (Value * str * str) :=
  replicated ← json_unmarshal (kv_Value item); Some (ToValue replicated, rv_SourceRegion replicated, rv_SourceClusterID replicated).
Definition localPrometheusSDTargetGroups (h : RegistryAPI) (query : prometheusSDQuery) (now : Z) : HM (list PrometheusSDTargetGroupDTO) :=
  items ← or_respond scan_failed (nd_Scan RootPrefix (prefixUpperBound RootPrefix) 0);
  panics (collect_targets (decode_here h) (lit "local") query now items []).
Definition replicatedPrometheusSDTargetGroups (query : prometheusSDQuery) (now : Z) : HM (list PrometheusSDTargetGroupDTO) :=
  items ← or_respond scan_failed (nd_Scan ReplicationRootPrefix (prefixUpperBound ReplicationRootPrefix) 0);
  panics (collect_targets decode_copied (lit "replicated") query now items []).
(** The book with the own address where it has none. *)
Definition self_addrs (h : RegistryAPI) (status : Status) : gmap Z str :=
  let httpAddrs := SnapshotHTTP (h_book h) in
  let currentAddr := TrimSpace (h_httpAddr h) in
  if negb (bool_decide (currentAddr = [])) && bool_decide (TrimSpace (addr_of httpAddrs (st_NodeID status)) = [])
  then <[st_NodeID status := currentAddr]> httpAddrs else httpAddrs.
Definition self_group (h : RegistryAPI) (entry : Z * str) : option PrometheusSDTargetGroupDTO :=
  target ← normalizePrometheusDiscoveryAddress entry.2;
  Some (MkTargetGroup [target] (list_to_map [
    (lit "namespace", lit "system"); (lit "service", lit "stellmapd"); (lit "instance_id", lit "node-" ++ FormatUint entry.1);
    (lit "node_id", FormatUint entry.1); (lit "region", h_sourceRegion h); (lit "cluster_id", h_sourceCluster h);
    (lit "target_origin", lit "self"); (lit "target_kind", lit "stellmapd"); (lit "component", lit "stellmapd");
    (lit "__scheme__", lit "http"); (lit "__metrics_path__", lit "/metrics") ])).
Definition selfPrometheusSDTargetGroups (h : RegistryAPI) (status : Status) : list PrometheusSDTargetGroupDTO :=
  omap (self_group h) (range (self_addrs h status)).
Definition prometheusSDTargetGroups (h : RegistryAPI) (query : prometheusSDQuery) (now now' : Z) : HM (list PrometheusSDTargetGroupDTO) :=
  localItems ← localPrometheusSDTargetGroups h query now;
  replicatedItems ← (if bool_decide (sd_Scope query = lit "merged") then replicatedPrometheusSDTargetGroups query now' else mret []);
  s ← st_get;
  mret (localItems ++ replicatedItems ++ (if sd_IncludeSelf query then selfPrometheusSDTargetGroups h (nd_Status s) else [])).
Definition isAuthorizedPrometheusSDRequest (h : RegistryAPI) (r : Request) : bool :=
  let token := TrimSpace (h_promSDAuth h) in
  negb (bool_decide (token = [])) && bool_decide (TrimSpace (rq_Header r (lit "Authorization")) = lit "Bearer " ++ token).
Definition PrometheusSD (h : RegistryAPI) (now now' : Z) (r : Request) : HM Response :=
  allowMethod r "GET";;
  guard_respond (isAuthorizedPrometheusSDRequest h r) (writeError StatusUnauthorized "unauthorized");;
  match parsePrometheusSDQuery (rq_Query r) with
  | Err _ => st_fail bad_request
  | Ok query =>
      items ← prometheusSDTargetGroups h query now now';
      mret (MkResponse StatusOK (BodyTargets items))
  end.
End handler.
