(* ===== verification/PrometheusFacts.v ===== *)
(** * Scrape targets are well formed and complete

    No label of an instance can override a label of the target or make an invalid name; the
    answer is exactly the live instances that match. *)
From Stdlib Require Import Ascii ZArith Sorted.
From stdpp Require Import gmap strings list sorting.
From S2P Require Import Prelude GoStrings NetAddr Selector RegistryModel ReplicationModel Codec Engine StateMachine RaftNode AddressBook DataNode Dto Http QueryFacts Samples WriteSamples Prometheus.

(** ** Trimming behind a graphic byte *)
Lemma strip_rune_cons r rs s : strip_rune (r :: rs) s = if HasPrefix s r then Some (drop (length r) s) else strip_rune rs s.
Proof.
  unfold strip_rune. destruct (HasPrefix s r) eqn:E; [by rewrite filter_cons_True|].
  rewrite filter_cons_False; [done|]. by rewrite E.
Qed.
Lemma strip_rune_app rs a d q : Forall (λ r : str, Forall (λ c, ¬ graphic c) r) rs → graphic d →
  strip_rune rs (a ++ d :: q) = (λ t, t ++ d :: q) <$> strip_rune rs a.
Proof.
  intros Hrs Hd. induction Hrs as [|r rs Hr _ IH]; [done|]. rewrite !strip_rune_cons, IH.
  assert (Heq : HasPrefix (a ++ d :: q) r = HasPrefix a r).
  { apply eq_true_iff_eq. split; [by apply HasPrefix_stop|]. intros [t ->]%HasPrefix_spec. by rewrite <- app_assoc, HasPrefix_app. }
  rewrite Heq. destruct (HasPrefix a r) eqn:Hp; [|done]. apply HasPrefix_length in Hp. cbn. by rewrite drop_app_le.
Qed.
Lemma trim_front_app n rs a d q : Forall (λ r : str, Forall (λ c, ¬ graphic c) r) rs → graphic d →
  trim_front n rs (a ++ d :: q) = trim_front n rs a ++ d :: q.
Proof.
  intros Hrs Hd. revert a; induction n as [|n IH]; intros a; [done|]. cbn [trim_front]. rewrite strip_rune_app by done.
  destruct (strip_rune rs a) as [t|]; cbn; [apply IH|done].
Qed.
Lemma TrimSpace_behind c m d key : graphic c → graphic d → ∃ t, TrimSpace (c :: m ++ d :: key) = c :: m ++ d :: t.
Proof.
  intros Hc Hd. unfold TrimSpace, TrimLeftSpace. rewrite trim_front_id by by apply no_lead_graphic.
  unfold TrimRightSpace. rewrite app_comm_cons, rev_app_distr. cbn [rev]. rewrite <- app_assoc. cbn [app].
  rewrite trim_front_app by (apply rev_spaces_no_graphic || done). rewrite rev_app_distr. cbn [rev].
  rewrite rev_app_distr, rev_involutive. cbn [rev app]. rewrite <- app_assoc. cbn [app]. by eexists.
Qed.

(** ** Names of labels *)
Definition label_char (c : ascii) : Prop := letter (bval c) = true ∨ (48 ≤ bval c ≤ 57)%N.
#[export] Instance label_char_dec c : Decision (label_char c) := _.
(** [[a-zA-Z_][a-zA-Z0-9_]*] *)
Definition label_name (s : str) : Prop := starts_well s = true ∧ Forall label_char s.
#[export] Instance label_name_dec s : Decision (label_name s) := _.
Lemma letter_bound r : letter r = true → (r < 123)%N.
Proof. unfold letter. rewrite !orb_true_iff, !andb_true_iff, !N.leb_le, N.eqb_eq. lia. Qed.
Lemma bval_nbyte r : (r < 256)%N → bval (nbyte r) = r.
Proof. apply N_ascii_embedding. Qed.
Lemma label_rune_char i r : label_char (label_rune i r).
Proof.
  unfold label_rune, label_char. destruct (letter r) eqn:Hl; cbn [orb].
  - left. by rewrite bval_nbyte by (apply letter_bound in Hl; lia).
  - destruct ((48 <=? r)%N && (r <=? 57)%N && (0 <? i)%nat) eqn:Hd; [|by left].
    rewrite !andb_true_iff, !N.leb_le in Hd. right. rewrite bval_nbyte; lia.
Qed.
Lemma label_rune_first r : letter (bval (label_rune 0 r)) = true.
Proof.
  unfold label_rune. rewrite andb_false_r, orb_false_r. destruct (letter r) eqn:Hl; [|done].
  by rewrite bval_nbyte by (apply letter_bound in Hl; lia).
Qed.
Lemma imap_Forall {A B} (f : nat → A → B) (P : B → Prop) l : (∀ i x, P (f i x)) → Forall P (imap f l).
Proof. intros Hf. revert f Hf; induction l as [|x l IH]; intros f Hf; constructor; [apply Hf|]. apply IH. intros i y. apply Hf. Qed.
Lemma sanitize_name raw : sanitizePrometheusLabelName raw = [] ∨ label_name (sanitizePrometheusLabelName raw).
Proof.
  unfold sanitizePrometheusLabelName. case_bool_decide; [by left|]. destruct (runes (TrimSpace raw)) as [|r rs]; [by left|].
  rewrite bool_decide_false by done. right. cbn [imap starts_well]. rewrite label_rune_first. cbn [negb].
  split; [apply label_rune_first|]. apply (imap_Forall _ _ (r :: rs)), label_rune_char.
Qed.
Lemma runes_ascii_app p s : ascii_only p → runes (p ++ s) = (bval <$> p) ++ runes s.
Proof.
  induction 1 as [|c p Hc _ IH]; [done|]. cbn [app fmap list_fmap]. rewrite <- IH. unfold runes at 1. cbn [length runes_fuel].
  unfold DecodeRune. destruct (N.ltb_spec (bval c) 0x80); [|lia]. by cbn [Nat.sub drop].
Qed.
(** A name with one of the two prefixes keeps it. *)
Lemma sanitize_prefixed prefix key : prefix ∈ lit <$> ["stellmap_label_"; "stellmap_meta_"]%string →
  HasPrefix (sanitizePrometheusLabelName (prefix ++ key)) (lit "stellmap_") = true.
Proof.
  intros Hp. assert (∃ m, prefix = byte 115 :: m ++ [byte 95] ∧ ascii_only prefix ∧ imap label_rune (bval <$> prefix) = prefix ∧
    starts_well prefix = true ∧ HasPrefix prefix (lit "stellmap_") = true) as (m&Hm&Ha&Hi&Hs&Hpre).
  { apply list_elem_of_fmap in Hp as (s&->&Hin). apply list_elem_of_In in Hin as [<-|[<-|[]]].
    - exists (lit "tellmap_label"). split; [done|]. split; [by apply (bool_decide_unpack _); vm_compute|done].
    - exists (lit "tellmap_meta"). split; [done|]. split; [by apply (bool_decide_unpack _); vm_compute|done]. }
  assert (∃ t, TrimSpace (prefix ++ key) = prefix ++ t) as [t Ht].
  { rewrite Hm. cbn [app]. rewrite <- !app_assoc. cbn [app].
    destruct (TrimSpace_behind (byte 115) m (byte 95) key) as [t Ht]; [done|done|]. exists t. rewrite Ht. by rewrite <- app_assoc. }
  unfold sanitizePrometheusLabelName. rewrite Ht, runes_ascii_app, imap_app, Hi by done.
  destruct prefix as [|c prefix]; [done|]. cbn [app]. rewrite !bool_decide_false by done. cbn [starts_well] in Hs |- *. rewrite Hs. cbn [negb].
  apply HasPrefix_spec in Hpre as [u Hu]. change (c :: prefix ++ ?x) with ((c :: prefix) ++ x). by rewrite Hu, <- app_assoc, HasPrefix_app.
Qed.

(** ** Labels of an instance *)
Section labels.
Context `{GoRange, CaseTable}.
Abbreviation own := (lit "stellmap_").
Lemma add_labels_kept prefix items target k : prefix ∈ lit <$> ["stellmap_label_"; "stellmap_meta_"]%string →
  HasPrefix k own = false → addPrefixedPrometheusLabels target prefix items !! k = target !! k.
Proof.
  intros Hp Hk. unfold addPrefixedPrometheusLabels. generalize (range items). intros l. revert target; induction l as [|[key v] l IH]; intros target; [done|].
  cbn [fold_left]. rewrite IH. unfold add_label. case_bool_decide; [done|]. apply lookup_insert_ne. intros E.
  pose proof (sanitize_prefixed prefix key Hp) as Hs. cbn [fst] in E. by rewrite E, Hk in Hs.
Qed.
Definition named_well (m : gmap str str) : Prop := map_Forall (λ k _, label_name k) m.
Lemma add_labels_named prefix items target : named_well target → named_well (addPrefixedPrometheusLabels target prefix items).
Proof.
  unfold addPrefixedPrometheusLabels. generalize (range items). intros l. revert target; induction l as [|[key v] l IH]; intros target Ht; [done|].
  cbn [fold_left]. apply IH. unfold add_label. case_bool_decide as Hne; [done|]. apply map_Forall_insert_2; [|done].
  by destruct (sanitize_name (prefix ++ (key, v).1)).
Qed.
Lemma list_to_map_named (l : list (str * str)) : Forall label_name l.*1 → named_well (list_to_map l).
Proof.
  induction l as [|[k v] l IH]; intros Hl; [apply map_Forall_empty|]. apply Forall_cons in Hl as [Hk Hl].
  by apply map_Forall_insert_2; [|apply IH].
Qed.
Lemma instance_labels_named value e origin region cluster : named_well (instance_labels value e origin region cluster).
Proof. apply list_to_map_named. apply (bool_decide_unpack _). vm_compute. reflexivity. Qed.
Lemma scheme_scrapes protocol : scrapes (normalizePrometheusScheme protocol) = true.
Proof. unfold normalizePrometheusScheme. by case_bool_decide. Qed.
(** The filter by scheme never refuses an endpoint. *)
Lemma find_first endpoints expected : findPrometheusEndpoint endpoints expected =
  head (List.filter (λ e, bool_decide (ep_Name e = expected) || bool_decide (ep_Protocol e = expected)) endpoints).
Proof.
  induction endpoints as [|e endpoints IH]; [done|]. cbn [findPrometheusEndpoint List.filter]. rewrite scheme_scrapes, andb_true_r.
  by destruct (bool_decide _ || bool_decide _).
Qed.
Definition digits (s : str) : Prop := Forall (λ c, (48 ≤ bval c ≤ 57)%N) s.
Lemma FormatUint_plain z : plain_port (FormatUint z).
Proof. split; [|split]; by apply FormatUint_no. Qed.
(** The target of an instance.  Its labels have names that Prometheus accepts and no blank
    values; whatever labels and metadata the instance was registered with, the labels of the
    target itself - scheme, path, namespace, service, region and so on - are those of its first
    endpoint with the wanted name or protocol, and no other reserved name is set.  The address
    splits into the endpoint's host and port. *)
Theorem target_labels value expected origin region cluster g :
  prometheusSDTargetGroupFromValue value expected origin region cluster = Some g →
  ∃ e address, head (List.filter (λ e, bool_decide (ep_Name e = expected) || bool_decide (ep_Protocol e = expected)) (v_Endpoints value)) = Some e ∧
    tg_Targets g = [address] ∧ (0 < ep_Port e)%Z ∧
    (plain_host (TrimSpace (ep_Host e)) → SplitHostPort address = Ok (TrimSpace (ep_Host e), FormatUint (ep_Port e))) ∧
    (∀ k v, tg_Labels g !! k = Some v → label_name k ∧ TrimSpace v ≠ []) ∧
    ∀ k, HasPrefix k (lit "stellmap_") = false →
      tg_Labels g !! k = deleteEmptyLabels (instance_labels value e origin region cluster) !! k.
Proof.
  unfold prometheusSDTargetGroupFromValue. rewrite find_first. intros Hg.
  destruct (head _) as [e|] eqn:He; [|done]. cbn [mbind option_bind] in Hg.
  destruct (joinPrometheusTargetAddress (ep_Host e) (ep_Port e)) as [address|] eqn:Haddr; [|done]. injection Hg as <-.
  cbn [tg_Targets tg_Labels]. exists e, address. unfold joinPrometheusTargetAddress in Haddr.
  destruct (bool_decide _ || _) eqn:Hb in Haddr; [done|]. destruct (unspecified _); [done|]. injection Haddr as <-.
  apply orb_false_iff in Hb as [_ Hport%Z.leb_gt].
  split; [done|]. split; [done|]. split; [done|]. split; [|split].
  - intros Hplain. apply SplitHostPort_Join; [done|apply FormatUint_plain].
  - intros k v [Hk Hv]%map_lookup_filter_Some. split; [|done]. revert k v Hk Hv.
    enough (Hn : named_well (addPrefixedPrometheusLabels (addPrefixedPrometheusLabels (instance_labels value e origin region cluster)
      (lit "stellmap_label_") (v_Labels value)) (lit "stellmap_meta_") (v_Metadata value))) by (intros k v Hk _; by apply (Hn k v)).
    by do 2 apply add_labels_named; apply instance_labels_named.
  - intros k Hk. unfold deleteEmptyLabels. rewrite !map_lookup_filter. rewrite !add_labels_kept; [done|by left|done|by right; left|done].
Qed.
End labels.

(** ** What goes wrong *)
Definition range_backwards : GoRange.
Proof. refine {| range := λ K V _ _ m, rev (map_to_list m) |}. intros. by rewrite <- Permutation_rev. Defined.
(** Keys that differ in a character that no name may have collide; which value is kept depends on
    the iteration order of the map. *)
Definition colliding : gmap str str := {[ lit "a-b" := lit "1"; lit "a.b" := lit "2" ]}.
Lemma colliding_labels : addPrefixedPrometheusLabels (H:=range_by_key) ∅ (lit "stellmap_label_") colliding ≠
  addPrefixedPrometheusLabels (H:=range_backwards) ∅ (lit "stellmap_label_") colliding.
Proof. apply (bool_decide_unpack _). vm_compute. exact I. Qed.
(** A host that is registered in brackets gets a second pair of them. *)
Lemma bracketed_host : ∃ target, joinPrometheusTargetAddress (lit "[::1]") 8080 = Some target ∧ SplitHostPort target = Err missingPort.
Proof. eexists. split; by vm_compute. Qed.
(** An endpoint of another protocol is a target over http. *)
Lemma grpc_scraped : let e := MkEndpoint (lit "metrics") (lit "grpc") (lit "10.0.0.1") 9000 [] 1 in
  findPrometheusEndpoint (H:=identity_case) [e] (lit "metrics") = Some e ∧ normalizePrometheusScheme (H:=identity_case) (ep_Protocol e) = lit "http".
Proof. split; by vm_compute. Qed.

(** ** The answer *)
Section answer.
Context `{DN : DataNode Nd E} `{GoRange, CaseTable, Json Value, Json ReplicatedValue}.
(** The group of one scanned item: an instance that is alive, matches and can be scraped. *)
Definition target_of (decode : KV → option (Value * str * str)) (origin : str) (query : prometheusSDQuery) (now : Z) (item : KV) : option PrometheusSDTargetGroupDTO :=
  '(value, region, cluster) ← decode item;
  if IsAlive value now && bool_decide (matchPrometheusSDQuery value query = Some true)
  then prometheusSDTargetGroupFromValue value (sd_Endpoint query) origin region cluster else None.
Definition targets_under (prefix : str) (decode : KV → option (Value * str * str)) (origin : str) (query : prometheusSDQuery) (now : Z)
    (m : gmap str str) : list PrometheusSDTargetGroupDTO :=
  omap (target_of decode origin query now) (spec_scan m prefix (prefixUpperBound prefix) 0).
Lemma collect_targets_spec decode origin query now items acc : (∀ v, ∃ b, matchPrometheusSDQuery v query = Some b) →
  collect_targets decode origin query now items acc = Some (acc ++ omap (target_of decode origin query now) items).
Proof.
  intros Hm. revert acc; induction items as [|item items IH]; intros acc; [by rewrite app_nil_r|].
  cbn [collect_targets omap list_omap]. unfold target_of at 1. destruct (decode item) as [[[v region] cluster]|]; cbn [mbind option_bind]; [|apply IH].
  destruct (IsAlive v now); cbn [negb andb]; [|apply IH]. destruct (Hm v) as [b Hb]. rewrite Hb.
  destruct b; [|by rewrite bool_decide_false]. rewrite bool_decide_true by done.
  destruct (prometheusSDTargetGroupFromValue _ _ _ _ _) as [g|]; [|apply IH]. rewrite IH. by rewrite <- app_assoc.
Qed.
Lemma parsed_matches values query v : parsePrometheusSDQuery values = Ok query → ∃ b, matchPrometheusSDQuery v query = Some b.
Proof.
  unfold parsePrometheusSDQuery. rewrite result_bind_ok. intros (?&_&Hq). rewrite result_bind_ok in Hq. destruct Hq as (?&_&Hq).
  rewrite result_bind_ok in Hq. destruct Hq as (b&_&Hq). rewrite result_bind_ok in Hq. destruct Hq as (sel&Hsel%map_err_ok&[= <-]).
  unfold matchPrometheusSDQuery, MatchQuery. cbn [q_Namespace q_Zone q_Selector q_Endpoint sd_Namespace sd_Zone sd_Selector].
  repeat (case_match; [by eexists|]). destruct (MatchesLabelSelector_spec (v_Labels v) sel) as (b'&->&_); [by eapply ParseLabelSelectorFilters_wf|].
  destruct b'; by eexists.
Qed.
Definition failed_scan (r : result Response (list PrometheusSDTargetGroupDTO)) : Prop := r = Err scan_failed.
Lemma scan_targets decode origin prefix query now s : (∀ v, ∃ b, matchPrometheusSDQuery v query = Some b) →
  ∃ s' r, (items ← or_respond scan_failed (nd_Scan prefix (prefixUpperBound prefix) 0);
           panics (collect_targets decode origin query now items [])) s = (s', r) ∧ nd_proposed s' = nd_proposed s ∧
    (failed_scan r ∨ r = Ok (targets_under prefix decode origin query now (nd_contents s'))).
Proof.
  intros Hm. unfold mbind, ST_bind. pose proof (nd_Scan_quiet s prefix (prefixUpperBound prefix) 0) as Hq.
  destruct (or_respond_cases scan_failed (nd_Scan prefix (prefixUpperBound prefix) 0) s) as (s'&[items|x]&->&Hr).
  - rewrite Hr in Hq. rewrite collect_targets_spec by done. eexists s', _. split; [done|]. split; [done|right].
    unfold targets_under. by rewrite <- (nd_Scan_ok _ _ _ _ _ _ Hr).
  - destruct Hr as [-> [e He]]. rewrite He in Hq. eexists s', _. split; [done|]. by split; [|left].
Qed.
(** C32: An authorized request with a query that parses is answered with the targets of exactly the
    live instances that match - first the registered ones, then, in the merged scope, the copied
    ones under their source region and cluster, then on demand the nodes of the cluster - or with a
    failed scan.  It proposes nothing, and never panics on a parsed selector. *)
Theorem PrometheusSD_correct h now now' r s query :
  rq_Method r = lit "GET" → isAuthorizedPrometheusSDRequest h r = true → parsePrometheusSDQuery (rq_Query r) = Ok query →
  ∃ s1 s' rsp, serve (PrometheusSD h now now' r) s = (s', rsp) ∧ nd_proposed s' = nd_proposed s ∧
    (rsp = scan_failed ∨
     rsp = MkResponse StatusOK (BodyTargets
       (targets_under RootPrefix (decode_here h) (lit "local") query now (nd_contents s1) ++
        (if bool_decide (sd_Scope query = lit "merged")
         then targets_under ReplicationRootPrefix decode_copied (lit "replicated") query now' (nd_contents s') else []) ++
        (if sd_IncludeSelf query then selfPrometheusSDTargetGroups h (nd_Status s') else [])))).
Proof.
  intros Hget Hauth Hparse. assert (Hm : ∀ v, ∃ b, matchPrometheusSDQuery v query = Some b) by (intros v; by eapply parsed_matches).
  unfold serve, PrometheusSD, allowMethod, guard_respond. rewrite bool_decide_true, Hauth, Hparse by done.
  unfold prometheusSDTargetGroups, localPrometheusSDTargetGroups, replicatedPrometheusSDTargetGroups.
  destruct (scan_targets (decode_here h) (lit "local") RootPrefix query now s Hm) as (s1&r1&Hscan&Hq1&Hr1).
  unfold mbind, ST_bind, mret, ST_ret in Hscan |- *. rewrite Hscan. destruct Hr1 as [-> | ->].
  { exists s1, s1, scan_failed. by split; [|split; [|left]]. }
  exists s1. destruct (bool_decide (sd_Scope query = _)).
  - destruct (scan_targets decode_copied (lit "replicated") ReplicationRootPrefix query now' s1 Hm) as (s2&r2&Hscan2&Hq2&Hr2).
    unfold mbind, ST_bind in Hscan2. rewrite Hscan2. exists s2. destruct Hr2 as [-> | ->]; eexists; (split; [done|]); (split; [congruence|]); [by left|by right].
  - exists s1. eexists. split; [done|]. split; [done|by right].
Qed.
End answer.

(** ** One instance, scraped *)
#[local] Existing Instances range_by_key identity_case.
Definition scraped : Value := MkValue (v_Namespace sample_v) (v_Identity sample_v) (v_InstanceID sample_v) (v_Zone sample_v)
  {[ lit "9-x" := lit "y"; lit "__scheme__" := lit "ftp" ]} {[ lit "note" := lit " " ]}
  [MkEndpoint (lit "metrics") (lit "HTTPS") (lit "fe80::1") 9100 (lit "m") 1] 60 1000 1000.
Definition scraped_group : PrometheusSDTargetGroupDTO :=
  match prometheusSDTargetGroupFromValue scraped (lit "metrics") (lit "local") (lit "cn-sh") (lit "1") with Some g => g | None => MkTargetGroup [] ∅ end.
Lemma target_labels_witness : ∃ e address,
  head (List.filter (λ e, bool_decide (ep_Name e = lit "metrics") || bool_decide (ep_Protocol e = lit "metrics")) (v_Endpoints scraped)) = Some e ∧
  tg_Targets scraped_group = [address] ∧ (0 < ep_Port e)%Z ∧
  (plain_host (TrimSpace (ep_Host e)) → SplitHostPort address = Ok (TrimSpace (ep_Host e), FormatUint (ep_Port e))) ∧
  (∀ k v, tg_Labels scraped_group !! k = Some v → label_name k ∧ TrimSpace v ≠ []) ∧
  ∀ k, HasPrefix k (lit "stellmap_") = false →
    tg_Labels scraped_group !! k = deleteEmptyLabels (instance_labels scraped e (lit "local") (lit "cn-sh") (lit "1")) !! k.
Proof. apply (target_labels scraped (lit "metrics") (lit "local") (lit "cn-sh") (lit "1") scraped_group). vm_compute. reflexivity. Defined.
#[local] Existing Instances value_json command_table replicated_table sample_desk_node.
Definition scrape : Request := MkRequest (lit "GET") {[ lit "scope" := [lit "merged"]; lit "includeSelf" := [lit "true"]; lit "endpoint" := [lit "http"] ]}
  [] (λ _, lit "Bearer p").
Definition scrape_query : prometheusSDQuery := MkSDQuery [] [] [] (lit "http") (lit "merged") true [].
Lemma PrometheusSD_correct_witness :
  ∃ s1 s' rsp, serve (PrometheusSD sample_api 1010 1010 scrape) full_desk = (s', rsp) ∧ nd_proposed s' = nd_proposed full_desk ∧
    (rsp = scan_failed ∨
     rsp = MkResponse StatusOK (BodyTargets
       (targets_under RootPrefix (decode_here sample_api) (lit "local") scrape_query 1010 (nd_contents s1) ++
        (if bool_decide (sd_Scope scrape_query = lit "merged")
         then targets_under ReplicationRootPrefix decode_copied (lit "replicated") scrape_query 1010 (nd_contents s') else []) ++
        (if sd_IncludeSelf scrape_query then selfPrometheusSDTargetGroups sample_api (nd_Status s') else [])))).
Proof.
  apply (PrometheusSD_correct sample_api 1010 1010 scrape full_desk scrape_query).
  - reflexivity.
  - vm_compute. reflexivity.
  - vm_compute. reflexivity.
Defined.
Example two_targets :
  match rsp_Body (serve (PrometheusSD sample_api 1010 1010 scrape) full_desk).2 with BodyTargets groups => tg_Targets <$> groups | _ => [] end =
  [[lit "10.0.0.1:8080"]; [lit "10.0.0.1:8080"]].
Proof. vm_compute. reflexivity. Qed.
