(* ===== verification/Control.v ===== *)
(** * Control plane and health ([ControlAPI] and [HealthAPI] of [handlers_impl.go])

    The handlers of the administrators against the raft node and the peer transport of
    [Membership], and the health checks, which only read the status of the node. *)
From Stdlib Require Import Ascii ZArith.
From stdpp Require Import gmap strings list.
From S2P Require Import Prelude GoStrings Codec Wal Engine StateMachine Pebble Snapshot RaftConfig Raft RaftNode Tracker AddressBook Transport Dto DataNode Http Membership.

Record HealthAPI := MkHealthAPI { hl_httpAddr : str; hl_book : AddressBook; hl_metricsHandler : option (Request → Response) }.
Record ControlAPI := MkControlAPI { ct_clusterID : Z; ct_adminAddr : str; ct_replicationTracker : option Tracker }.

(** ** Health: functions of the node's status *)
Definition health_leaderHTTPAddr (h : HealthAPI) (self leaderID : Z) : str :=
  if (leaderID =? 0)%Z then []
  else if (leaderID =? self)%Z then
    let addr := TrimSpace (HTTPAddr (hl_book h) leaderID) in
    if bool_decide (addr = []) then hl_httpAddr h else addr
  else HTTPAddr (hl_book h) leaderID.
Definition health_body (h : HealthAPI) (status : RaftNode.Status) (text : string) : Response :=
  MkResponse StatusOK (BodyHealth (MkHealth (lit text) (st_LeaderID status) (st_NodeID status)
    (health_leaderHTTPAddr h (st_NodeID status) (st_LeaderID status)))).
Definition Healthz (h : HealthAPI) (status : RaftNode.Status) : Response := health_body h status "ok".
Definition Readyz (h : HealthAPI) (status : RaftNode.Status) : Response :=
  if negb (st_Started status) || st_Stopped status ||
     ((st_LeaderID status =? 0)%Z && negb (bool_decide (st_Role status = RoleLeader)))
  then writeError StatusServiceUnavailable "not_ready"
  else health_body h status "ready".
Definition Metrics (h : HealthAPI) (r : Request) : Response :=
  if negb (bool_decide (rq_Method r = lit "GET")) then MkResponse StatusMethodNotAllowed BodyNone
  else match hl_metricsHandler h with
  | Some handler => handler r
  | None => MkResponse StatusOK BodyNone
  end.

(** ** Control *)
Definition replicationStatusDTO (item : Tracker.Status) : ReplicationStatusDTO :=
  MkReplicationStatus (SourceRegion item) (SourceClusterID item) (Namespace item) (ServiceName item) (Connected item)
    (LastAppliedRevision item) (LastSnapshotRevision item) (LastSyncUnix item) (ErrorCount item) (LastError item).
Section control.
Context `{Raftpb, !Raft, !RaftBehaviour, PebbleEngine, Json MemberChangeRequestDTO} {C : Type}.
Context (close : str → option C) (decode_member : str → option MemberChangeRequestDTO) (decode_transfer : str → option LeaderTransferRequestDTO).
Abbreviation CM := (ST (Members RaftNode) Response).
Definition on_peers {A} (m : ST PeerTransport (ForwardErr C) A) : ST (Members RaftNode) (ForwardErr C) A := λ s,
  let '(p, r) := m (am_peers s) in (MkMembers (am_node s) p, r).
Definition status_of (s : Members RaftNode) : RaftNode.Status := node_Status (am_node s).
Definition leaderAdminAddr (h : ControlAPI) (s : Members RaftNode) (leaderID : Z) : str :=
  if (leaderID =? 0)%Z then []
  else if (leaderID =? st_NodeID (status_of s))%Z then ct_adminAddr h
  else AdminAddr (book s) leaderID.
Definition ensureLeader (h : ControlAPI) : CM unit :=
  s ← st_get;
  guard_respond (is_leader (status_of s)) (writeNotLeader (st_LeaderID (status_of s)) (leaderAdminAddr h s (st_LeaderID (status_of s)))).
Definition Status (h : ControlAPI) (r : Request) : CM Response :=
  allowMethod r "GET";;
  s ← st_get;
  let status := status_of s in
  let hardState := node_HardState (am_node s) in
  let confState := node_ConfState (am_node s) in
  mret (MkResponse StatusOK (BodyCluster (MkClusterStatus (ct_clusterID h) (st_NodeID status) (st_LeaderID status) (st_Role status)
    (hs_Term hardState) (hs_Vote hardState) (st_CommitIndex status) (st_AppliedIndex status) (st_Started status) (st_Stopped status)
    (cs_Voters confState) (cs_VotersOutgoing confState) (cs_Learners confState) (cs_LearnersNext confState) (cs_AutoLeave confState)
    (SnapshotHTTP (book s)) (SnapshotGRPC (book s)) (SnapshotAdmin (book s))))).
Definition ReplicationStatus (h : ControlAPI) (r : Request) : CM Response :=
  allowMethod r "GET";;
  mret (MkResponse StatusOK (BodyReplication (replicationStatusDTO <$> match ct_replicationTracker h with Some t => Tracker.List t | None => [] end))).
Definition mustMarshalJSON (request : MemberChangeRequestDTO) : str := default [] (json_marshal request).
(** The part the three member changes share behind the guards. *)
Definition member_request (h : ControlAPI) (r : Request) : CM MemberChangeRequestDTO :=
  allowMethod r "POST";;
  ensureLeader h;;
  request ← required (decode_member (rq_Body r)) bad_request;
  guard_respond (negb (mc_NodeID request =? 0)%Z) bad_request;;
  mret request.
Definition conf_change (type : str) (request : MemberChangeRequestDTO) : CM unit :=
  or_respond (writeError StatusInternalServerError "conf_change_failed")
    (on_store (ApplyConfChange (MkConfRequest type (mc_NodeID request) (mustMarshalJSON request)))).
Definition AddLearner (h : ControlAPI) (r : Request) : CM Response :=
  request ← member_request h r;
  or_respond (writeError StatusInternalServerError "peer_update_failed")
    (on_peers (UpsertPeer close (mc_NodeID request) (mc_HTTPAddr request) (mc_GRPCAddr request) (mc_AdminAddr request)));;
  conf_change ConfChangeAddLearner request;;
  mret (success "learner add requested").
Definition PromoteLearner (h : ControlAPI) (r : Request) : CM Response :=
  request ← member_request h r;
  conf_change ConfChangePromoteLearner request;;
  mret (success "learner promote requested").
Definition RemoveMember (h : ControlAPI) (r : Request) : CM Response :=
  request ← member_request h r;
  conf_change ConfChangeRemove request;;
  mret (success "member remove requested").
Definition TransferLeader (h : ControlAPI) (r : Request) : CM Response :=
  allowMethod r "POST";;
  ensureLeader h;;
  request ← required (decode_transfer (rq_Body r)) bad_request;
  guard_respond (negb (lt_TargetNodeID request =? 0)%Z) bad_request;;
  or_respond (writeError StatusInternalServerError "transfer_leader_failed") (on_store (TransferLeadership (lt_TargetNodeID request)));;
  mret (success "leader transfer requested").
End control.
