(* ===== verification/Server.v ===== *)
(** * The two HTTP servers ([server.go], [handler_*.go], [metrics/transport.go], [cmd/stellmapd/main.go])

    Routing of the public and the admin server over the handler interfaces, the counters every
    request goes through, and the guard of the admin listener.  [http.ServeMux] with patterns
    that end in no slash matches exact paths; its redirects of uncleaned paths are left out.
    Status 0 stands for a handler that panicked. *)
From Stdlib Require Import Ascii ZArith.
From stdpp Require Import gmap strings list.
From S2P Require Import Prelude GoStrings NetAddr Http.

Definition StatusForbidden : Z := 403.
(** A request with the path and the remote address that the connection adds. *)
Record HTTPRequest := MkHTTPRequest { hr_Path : str; hr_RemoteAddr : str; hr_Request : Request }.

(** ** Routes *)
Definition routeRegistryRegister : str := lit "/api/v1/registry/register".
Definition routeRegistryDeregister : str := lit "/api/v1/registry/deregister".
Definition routeRegistryHeartbeat : str := lit "/api/v1/registry/heartbeat".
Definition routeRegistryInstances : str := lit "/api/v1/registry/instances".
Definition routeRegistryWatch : str := lit "/api/v1/registry/watch".
Definition routeReplicationWatch : str := lit "/internal/v1/replication/watch".
Definition routePrometheusServiceDiscover : str := lit "/internal/v1/prometheus/sd".
Definition routeHealthz : str := lit "/healthz".
Definition routeReadyz : str := lit "/readyz".
Definition routeMetrics : str := lit "/metrics".
Definition routeAdminStatus : str := lit "/admin/v1/status".
Definition routeAdminReplicationStatus : str := lit "/admin/v1/replication/status".
Definition routeAdminAddLearner : str := lit "/admin/v1/members/add-learner".
Definition routeAdminPromoteLearner : str := lit "/admin/v1/members/promote".
Definition routeAdminRemoveMember : str := lit "/admin/v1/members/remove".
Definition routeAdminTransferLeader : str := lit "/admin/v1/leader/transfer".
Definition publicRegistryRoutes : list str := [
  routeRegistryRegister; routeRegistryDeregister; routeRegistryHeartbeat; routeRegistryInstances; routeRegistryWatch;
  routeReplicationWatch; routePrometheusServiceDiscover ].
Definition publicHealthRoutes : list str := [ routeHealthz; routeReadyz; routeMetrics ].
Definition adminControlRoutes : list str := [
  routeAdminStatus; routeAdminReplicationStatus; routeAdminAddLearner; routeAdminPromoteLearner; routeAdminRemoveMember;
  routeAdminTransferLeader ].

(** ** Counters of a server *)
Record HTTPServerMetrics := MkHTTPMetrics {
  hm_inflight : gmap str Z; hm_requests : gmap (str * str * str) Z; hm_latency : gmap (str * str * str) Z
}.
Definition newHTTPServerMetrics : HTTPServerMetrics := MkHTTPMetrics ∅ ∅ ∅.
(** [WithLabelValues(labels).Add(d)]: the first use of a label creates its counter. *)
Definition add_to {K} `{Countable K} (labels : K) (d : Z) (counters : gmap K Z) : gmap K Z :=
  <[labels := (default 0 (counters !! labels) + d)%Z]> counters.
Definition IncInflight (route : str) (m : HTTPServerMetrics) : HTTPServerMetrics :=
  MkHTTPMetrics (add_to route 1 (hm_inflight m)) (hm_requests m) (hm_latency m).
Definition DecInflight (route : str) (m : HTTPServerMetrics) : HTTPServerMetrics :=
  MkHTTPMetrics (add_to route (-1) (hm_inflight m)) (hm_requests m) (hm_latency m).
(** The latency histogram by its number of observations. *)
Definition ObserveRequest (route method : str) (statusCode : Z) (m : HTTPServerMetrics) : HTTPServerMetrics :=
  let labels := (route, method, FormatUint statusCode) in
  MkHTTPMetrics (hm_inflight m) (add_to labels 1 (hm_requests m)) (add_to labels 1 (hm_latency m)).

(** ** The writer that captures the status ([middleware_metrics.go])

    The calls that the inner writer of [net/http] gets.  It may or may not be a [ReaderFrom], a
    [Flusher], a [Hijacker] and a [Pusher]; without [ReadFrom] the data are copied by writes. *)
Inductive WriterCall := WWriteHeader (statusCode : Z) | WWrite (data : str) | WReadFrom (data : str) | WFlush | WHijack | WPush (target : str).
Record InnerWriter := MkInner { iw_ReadFrom : bool; iw_Flush : bool; iw_Hijack : bool; iw_Push : bool }.
Record statusCapturingResponseWriter := MkCapturing { cw_inner : list WriterCall; cw_status : Z; cw_wroteHeader : bool }.
Definition newStatusCapturingResponseWriter : statusCapturingResponseWriter := MkCapturing [] 200 false.
Definition pass_on (call : WriterCall) (w : statusCapturingResponseWriter) : statusCapturingResponseWriter :=
  MkCapturing (cw_inner w ++ [call]) (cw_status w) (cw_wroteHeader w).
Definition cw_WriteHeader (statusCode : Z) (w : statusCapturingResponseWriter) : statusCapturingResponseWriter :=
  pass_on (WWriteHeader statusCode) (if cw_wroteHeader w then w else MkCapturing (cw_inner w) statusCode true).
Definition header_first (w : statusCapturingResponseWriter) : statusCapturingResponseWriter := if cw_wroteHeader w then w else cw_WriteHeader 200 w.
Definition cw_Write (data : str) (w : statusCapturingResponseWriter) : statusCapturingResponseWriter := pass_on (WWrite data) (header_first w).
Definition cw_ReadFrom (inner : InnerWriter) (data : str) (w : statusCapturingResponseWriter) : statusCapturingResponseWriter :=
  if iw_ReadFrom inner then pass_on (WReadFrom data) (header_first w) else pass_on (WWrite data) w.
Definition cw_Flush (inner : InnerWriter) (w : statusCapturingResponseWriter) : statusCapturingResponseWriter := if iw_Flush inner then pass_on WFlush w else w.
Definition cw_Hijack (inner : InnerWriter) (w : statusCapturingResponseWriter) : statusCapturingResponseWriter := if iw_Hijack inner then pass_on WHijack w else w.
Definition cw_Push (inner : InnerWriter) (target : str) (w : statusCapturingResponseWriter) : statusCapturingResponseWriter :=
  if iw_Push inner then pass_on (WPush target) w else w.
Definition cw_call (inner : InnerWriter) (w : statusCapturingResponseWriter) (call : WriterCall) : statusCapturingResponseWriter :=
  match call with
  | WWriteHeader statusCode => cw_WriteHeader statusCode w
  | WWrite data => cw_Write data w
  | WReadFrom data => cw_ReadFrom inner data w
  | WFlush => cw_Flush inner w
  | WHijack => cw_Hijack inner w
  | WPush target => cw_Push inner target w
  end.

(** ** Servers *)
Section server.
Context {S : Type}.
Abbreviation EndpointHandler := (Request → ST S Response Response).
Abbreviation Handler St := (HTTPRequest → St → St * Response).
Record RegistryHandler := MkRegistryHandler {
  rh_Register : EndpointHandler; rh_Deregister : EndpointHandler; rh_Heartbeat : EndpointHandler; rh_QueryInstances : EndpointHandler;
  rh_WatchInstances : EndpointHandler; rh_WatchReplication : EndpointHandler; rh_PrometheusSD : EndpointHandler
}.
Record HealthHandler := MkHealthHandler { hh_Healthz : EndpointHandler; hh_Readyz : EndpointHandler; hh_Metrics : EndpointHandler }.
Record ControlHandler := MkControlHandler {
  ch_Status : EndpointHandler; ch_ReplicationStatus : EndpointHandler; ch_AddLearner : EndpointHandler; ch_PromoteLearner : EndpointHandler;
  ch_RemoveMember : EndpointHandler; ch_TransferLeader : EndpointHandler
}.
Definition registerRegistryRoutes (handler : RegistryHandler) : list (str * EndpointHandler) := [
  (routeRegistryRegister, rh_Register handler); (routeRegistryDeregister, rh_Deregister handler);
  (routeRegistryHeartbeat, rh_Heartbeat handler); (routeRegistryInstances, rh_QueryInstances handler);
  (routeRegistryWatch, rh_WatchInstances handler); (routeReplicationWatch, rh_WatchReplication handler);
  (routePrometheusServiceDiscover, rh_PrometheusSD handler) ].
Definition registerHealthRoutes (handler : HealthHandler) : list (str * EndpointHandler) := [
  (routeHealthz, hh_Healthz handler); (routeReadyz, hh_Readyz handler); (routeMetrics, hh_Metrics handler) ].
Definition registerControlRoutes (handler : ControlHandler) : list (str * EndpointHandler) := [
  (routeAdminStatus, ch_Status handler); (routeAdminReplicationStatus, ch_ReplicationStatus handler);
  (routeAdminAddLearner, ch_AddLearner handler); (routeAdminPromoteLearner, ch_PromoteLearner handler);
  (routeAdminRemoveMember, ch_RemoveMember handler); (routeAdminTransferLeader, ch_TransferLeader handler) ].
Record Server := MkServer { srv_mux : list (str * EndpointHandler); srv_routes : list str; srv_metrics : bool }.
Definition NewPublicServer (registry : option RegistryHandler) (health : option HealthHandler) : Server :=
  MkServer (from_option registerRegistryRoutes [] registry ++ from_option registerHealthRoutes [] health)
    (from_option (λ _, publicRegistryRoutes) [] registry ++ from_option (λ _, publicHealthRoutes) [] health) false.
Definition NewAdminServer (control : option ControlHandler) : Server :=
  MkServer (from_option registerControlRoutes [] control) (from_option (λ _, adminControlRoutes) [] control) false.
Definition WithMetrics (s : Server) : Server := MkServer (srv_mux s) (srv_routes s) true.
Definition ServeMux (routes : list (str * EndpointHandler)) : Handler S := λ r s,
  match list_find (λ route, route.1 = hr_Path r) routes with
  | Some (_, (_, handler)) => serve (handler (hr_Request r)) s
  | None => (s, MkResponse StatusNotFound BodyNone)
  end.
Definition route_label (routes : list str) (r : HTTPRequest) : str :=
  if bool_decide (hr_Path r ∈ routes) then hr_Path r else lit "unknown".
Definition newInstrumentedMux (next : Handler S) (routes : list str) : Handler (S * HTTPServerMetrics) := λ r '(s, m),
  let route := route_label routes r in
  let m := IncInflight route m in
  let '(s, rsp) := next r s in
  let m := if (rsp_Status rsp =? 0)%Z then m else ObserveRequest route (rq_Method (hr_Request r)) (rsp_Status rsp) m in
  ((s, DecInflight route m), rsp).
Definition server_Handler (srv : Server) : Handler (S * HTTPServerMetrics) :=
  if srv_metrics srv then newInstrumentedMux (ServeMux (srv_mux srv)) (srv_routes srv)
  else λ r '(s, m), let '(s, rsp) := ServeMux (srv_mux srv) r s in ((s, m), rsp).
End server.

(** ** The admin listener *)
Section admin.
Context {S : Type}.
Definition isLocalAdminRequest (remoteAddr : str) : bool :=
  let remoteAddr := TrimSpace remoteAddr in
  if bool_decide (remoteAddr = []) then false
  else
    let host := match SplitHostPort remoteAddr with Ok (host, _) => host | Err _ => remoteAddr end in
    bool_decide (host = lit "127.0.0.1").
Definition isAuthorizedAdminRequest (r : Request) (token : str) : bool :=
  if bool_decide (TrimSpace token = []) then false
  else bool_decide (TrimSpace (rq_Header r (lit "Authorization")) = lit "Bearer " ++ token).
Definition adminAuthMiddleware (token : str) (next : HTTPRequest → S → S * Response) : HTTPRequest → S → S * Response := λ r s,
  if negb (isLocalAdminRequest (hr_RemoteAddr r)) then (s, writeError StatusForbidden "forbidden")
  else if negb (isAuthorizedAdminRequest (hr_Request r) token) then (s, writeError StatusUnauthorized "unauthorized")
  else next r s.
End admin.
