(* ===== verification/ControlFacts.v ===== *)
(** * Who may change the cluster, and what a change leaves behind

    The public server has no way to the control plane, the admin server serves nobody but the
    local administrator, and the counters of both settle.  A learner that was added is known to
    every node that applies the committed change. *)
From Stdlib Require Import Ascii ZArith.
From stdpp Require Import gmap strings list.
From S2P Require Import Prelude GoStrings NetAddr Codec Wal Engine StateMachine Pebble Snapshot RaftConfig Raft RaftNode Tracker AddressBook Transport Dto DataNode Http Membership MembershipFacts Control Server.

(** ** Routing *)
(** ** The status that is counted is the status that is sent

    The client gets the status of the first call that needs a header, 200 if that is not
    [WriteHeader]; a flush needs one as well. *)
Fixpoint sent_status (calls : list WriterCall) : option Z :=
  match calls with
  | [] => None
  | WWriteHeader statusCode :: _ => Some statusCode
  | (WWrite _ | WReadFrom _ | WFlush) :: _ => Some 200%Z
  | _ :: calls => sent_status calls
  end.
Lemma sent_app a b : sent_status (a ++ b) = match sent_status a with Some status => Some status | None => sent_status b end.
Proof. induction a as [|[] a IH]; cbn; done. Qed.
(** With a reader and behind no flush, the captured status is the sent one, 200 before anything is sent. *)
Lemma status_captured inner calls : iw_ReadFrom inner = true → WFlush ∉ calls →
  let w := fold_left (cw_call inner) calls newStatusCapturingResponseWriter in
  cw_status w = default 200%Z (sent_status (cw_inner w)) ∧ cw_wroteHeader w = bool_decide (is_Some (sent_status (cw_inner w))).
Proof.
  intros Hread. induction calls as [|call calls IH] using rev_ind; [done|]. intros [Hcalls Hcall]%not_elem_of_app.
  rewrite fold_left_app. cbn [fold_left]. destruct (IH Hcalls) as [Hs Hw]. set (w := fold_left _ calls _) in *.
  unfold cw_call, cw_Write, cw_ReadFrom, cw_Flush, cw_Hijack, cw_Push, header_first, cw_WriteHeader, pass_on. rewrite Hread.
  destruct call; repeat case_match; cbn [cw_inner cw_status cw_wroteHeader]; rewrite ?sent_app, ?Hs, ?Hw;
    destruct (sent_status (cw_inner w)) as [status|]; cbn in *; try done; set_solver.
Qed.

Section routing.
Context {S : Type}.
Lemma ServeMux_none (routes : list (str * (Request → ST S Response Response))) r s :
  hr_Path r ∉ routes.*1 → ServeMux routes r s = (s, MkResponse StatusNotFound BodyNone).
Proof.
  intros Hr. unfold ServeMux. destruct (list_find _ routes) as [[i [p h]]|] eqn:E; [|done].
  apply list_find_Some in E as (Hi&Hp&_). destruct Hr. cbn in Hp. rewrite <- Hp. apply list_elem_of_fmap. exists (p, h).
  split; [done|]. by eapply list_elem_of_lookup_2.
Qed.
(** The two counters of a request cancel. *)
Lemma add_to_at {K} `{Countable K} (k j : K) d m : default 0%Z (add_to k d m !! j) = (default 0 (m !! j) + if bool_decide (k = j) then d else 0)%Z.
Proof.
  unfold add_to. case_bool_decide as Hk; [subst; by rewrite lookup_insert_eq|]. rewrite lookup_insert_ne by done. lia.
Qed.
Lemma add_to_labels {K} `{Countable K} (k : K) d m (P : K → Prop) : P k → map_Forall (λ j _, P j) m → map_Forall (λ j _, P j) (add_to k d m).
Proof. intros Hk Hm. by apply map_Forall_insert_2. Qed.
End routing.

(** What the counters say between requests: nothing is in flight, and the only labels are the
    routes of the server and one label for all other paths. *)
Definition known_label (routes : list str) (l : str) : Prop := l ∈ lit "unknown" :: routes.
Record settled (routes : list str) (m : HTTPServerMetrics) : Prop := {
  settled_inflight : ∀ l, default 0%Z (hm_inflight m !! l) = 0%Z;
  settled_routes : map_Forall (λ l _, known_label routes l) (hm_inflight m);
  settled_requests : map_Forall (λ k _, known_label routes k.1.1) (hm_requests m);
  settled_latency : hm_latency m = hm_requests m
}.
Lemma settled_new routes : settled routes newHTTPServerMetrics.
Proof. split; [done|apply map_Forall_empty|apply map_Forall_empty|done]. Qed.
Lemma route_label_known routes r : known_label routes (route_label routes r).
Proof. unfold route_label, known_label. case_bool_decide; [by right|by left]. Qed.

Section servers.
Context {S : Type}.
Definition serve_all (handler : HTTPRequest → S * HTTPServerMetrics → (S * HTTPServerMetrics) * Response) (rs : list HTTPRequest)
    (st : S * HTTPServerMetrics) : S * HTTPServerMetrics := fold_left (λ st r, (handler r st).1) rs st.
Lemma instrumented_settled (next : HTTPRequest → S → S * Response) routes r s m :
  settled routes m → settled routes (newInstrumentedMux next routes r (s, m)).1.2.
Proof.
  intros [Hi Hr Hq Hl]. unfold newInstrumentedMux. destruct (next r s) as [s' rsp]. pose proof (route_label_known routes r) as Hk.
  set (l := route_label routes r) in *. cbn [fst snd].
  assert (Hin : ∀ j, default 0%Z (add_to l (-1) (add_to l 1 (hm_inflight m)) !! j) = 0%Z).
  { intros j. rewrite !add_to_at, Hi. case_bool_decide; lia. }
  assert (Hlab : map_Forall (λ j _, known_label routes j) (add_to l (-1) (add_to l 1 (hm_inflight m)))) 
    by (do 2 (apply (add_to_labels _ _ _ (known_label routes)); [done|]); done).
  destruct (rsp_Status rsp =? 0)%Z; (split; [done|done| |]); cbn; try done.
  - by apply (add_to_labels _ _ _ (λ k, known_label routes k.1.1)).
  - by rewrite Hl.
Qed.
(** Whatever is requested from a server, in whatever order and however its handlers end:
    between requests nothing is counted as in flight, and the paths of the clients add no label
    to the counters beyond the routes of the server and one for everything else. *)
Theorem metrics_settle (srv : Server (S:=S)) rs s : settled (srv_routes srv) (serve_all (server_Handler srv) rs (s, newHTTPServerMetrics)).2.
Proof.
  enough (Hall : ∀ s m, settled (srv_routes srv) m → settled (srv_routes srv) (serve_all (server_Handler srv) rs (s, m)).2) by apply Hall, settled_new.
  clear s. induction rs as [|r rs IH]; intros s m Hm; [done|]. cbn [serve_all fold_left].
  assert (Hone : settled (srv_routes srv) (server_Handler srv r (s, m)).1.2).
  { unfold server_Handler. destruct (srv_metrics srv); [by apply instrumented_settled|]. by destruct (ServeMux _ r s). }
  destruct (server_Handler srv r (s, m)) as [[s' m'] rsp]. cbn [fst snd] in Hone |- *. by apply IH.
Qed.

(** ** The admin listener *)
(** The connection comes from the loopback address. *)
Definition local_peer (remoteAddr : str) : Prop :=
  TrimSpace remoteAddr = lit "127.0.0.1" ∨ ∃ port, SplitHostPort (TrimSpace remoteAddr) = Ok (lit "127.0.0.1", port).
Lemma isLocal_peer remoteAddr : isLocalAdminRequest remoteAddr = true → local_peer remoteAddr.
Proof.
  unfold isLocalAdminRequest, local_peer. case_bool_decide; [done|]. destruct (SplitHostPort _) as [[host port]|e]; rewrite bool_decide_eq_true.
  - intros ->. right. by eexists.
  - intros ->. by left.
Qed.
Definition holds_token (token : str) (r : Request) : Prop :=
  TrimSpace token ≠ [] ∧ TrimSpace (rq_Header r (lit "Authorization")) = lit "Bearer " ++ token.
Lemma isAuthorized_holds token r : isAuthorizedAdminRequest r token = true ↔ holds_token token r.
Proof. unfold isAuthorizedAdminRequest, holds_token. repeat case_bool_decide; naive_solver. Qed.
(** C34: The control plane is reached through the admin listener only, and there only by a local
    administrator: the public server answers every admin route with not found and changes nothing;
    the admin server refuses, and changes nothing, unless the connection comes from 127.0.0.1 with
    the token. *)
Theorem control_isolated token (registry : option (RegistryHandler (S:=S))) health control (r : HTTPRequest) s m :
  (hr_Path r ∈ adminControlRoutes →
     (server_Handler (WithMetrics (NewPublicServer registry health)) r (s, m)).1.1 = s ∧
     (server_Handler (WithMetrics (NewPublicServer registry health)) r (s, m)).2 = MkResponse StatusNotFound BodyNone) ∧
  let '(st, rsp) := adminAuthMiddleware token (server_Handler (WithMetrics (NewAdminServer control))) r (s, m) in
  st = (s, m) ∧ rsp_Status rsp ∈ [StatusForbidden; StatusUnauthorized] ∨
  local_peer (hr_RemoteAddr r) ∧ holds_token token (hr_Request r).
Proof.
  split.
  - intros Hadmin. unfold server_Handler, newInstrumentedMux. cbn [srv_metrics WithMetrics srv_mux srv_routes].
    rewrite ServeMux_none; [done|]. cbn [NewPublicServer srv_mux]. rewrite fmap_app, elem_of_app. intros Hpub.
    assert (Hr : hr_Path r ∈ publicRegistryRoutes ++ publicHealthRoutes).
    { apply elem_of_app. destruct Hpub as [Hp|Hp]; [left; destruct registry|right; destruct health]; (exact Hp || by apply elem_of_nil in Hp). }
    revert Hadmin Hr. generalize (hr_Path r). intros path Ha Hp.
    assert (Hdis : Forall (λ p, p ∉ publicRegistryRoutes ++ publicHealthRoutes) adminControlRoutes) by (apply (bool_decide_unpack _); vm_compute; exact I).
    rewrite Forall_forall in Hdis. by destruct (Hdis path Ha).
  - unfold adminAuthMiddleware. destruct (isLocalAdminRequest _) eqn:Hl; cbn [negb].
    2: { left. split; [done|]. by left. }
    destruct (isAuthorizedAdminRequest _ _) eqn:Ha; cbn [negb].
    2: { left. split; [done|]. by right; left. }
    destruct (server_Handler _ r (s, m)) as [st rsp]. right. split; [by apply isLocal_peer|by apply isAuthorized_holds].
Qed.
End servers.
(** ** Member changes *)
Section changes.
Context `{Raftpb, !Raft, !RaftBehaviour, PebbleEngine, Json MemberChangeRequestDTO} {C : Type}.
Context (close : str → option C) (decode_member : str → option MemberChangeRequestDTO).
Abbreviation calls s := (default [] (rn_node (am_node s))).
Implicit Types s : Members RaftNode.
Lemma guard_respond_inv {Nd} b rsp (s s' : Nd) u : guard_respond b rsp s = (s', Ok u) → s' = s ∧ b = true.
Proof. unfold guard_respond. destruct b; [|done]. by intros [= <- _]. Qed.
Lemma member_request_inv h r s s' request : member_request decode_member h r s = (s', Ok request) →
  s' = s ∧ is_leader (status_of s) = true ∧ decode_member (rq_Body r) = Some request ∧ mc_NodeID request ≠ 0%Z.
Proof.
  unfold member_request. intros Hrun. apply st_bind_inv in Hrun as (s1&[]&[-> _]%guard_respond_inv&Hrun).
  apply st_bind_inv in Hrun as (s1&[]&Hlead&Hrun). unfold ensureLeader in Hlead.
  apply st_bind_inv in Hlead as (s2&s2'&[= <- <-]&[-> Hlead]%guard_respond_inv).
  apply st_bind_inv in Hrun as (s2&req&Hdec&Hrun). unfold required in Hdec. destruct (decode_member (rq_Body r)) as [q|]; [|done].
  injection Hdec as <- <-. apply st_bind_inv in Hrun as (s3&[]&[-> Hid]%guard_respond_inv&Hrun). injection Hrun as <- <-.
  split; [done|split; [done|split; [done|]]]. intros E. by rewrite E in Hid.
Qed.
(** A conf change that is answered with success was handed to raft, once. *)
Lemma conf_change_inv type request s s' u : conf_change type request s = (s', Ok u) →
  calls s' = calls s ++ [CProposeConfChange (toConfChange (MkConfRequest type (mc_NodeID request) (mustMarshalJSON request)))] ∧
  am_peers s' = am_peers s ∧ rn_kv (am_node s') = rn_kv (am_node s).
Proof.
  intros [Hrun Hp]%or_respond_inv%on_store_inv. unfold ApplyConfChange in Hrun.
  apply st_bind_inv in Hrun as (n1&[]&Hrunning&Hrun).
  assert (n1 = am_node s) as ->.
  { unfold ensureRunning in Hrunning. apply st_bind_inv in Hrunning as (n2&n2'&[= <- <-]&Hrunning).
    destruct (negb _); [done|]. destruct (rn_stopped _); [done|]. by injection Hrunning. }
  case_bool_decide; [done|]. destruct (_ =? 0)%Z; [done|]. unfold node_call in Hrun.
  destruct (rn_node (am_node s)) as [l|] eqn:Hn; [|done]. destruct (call_result _ _); [done|]. injection Hrun as <-. done.
Qed.
Lemma on_peers_inv {A} (m : ST PeerTransport (ForwardErr C) A) s s' a : on_peers m s = (s', Ok a) →
  am_node s' = am_node s ∧ am_peers s' = (m (am_peers s)).1.
Proof. unfold on_peers. destruct (m (am_peers s)) as [p r]. by intros [= <- ->]. Qed.
Lemma addrs_of_set b id h g a : addrs_of (Set_ b id h g a) id = filled_from (h, g, a) (addrs_of b id).
Proof.
  unfold addrs_of, filled_from, or_recorded, HTTPAddr, GRPCAddr, AdminAddr, Set_. cbn [httpByID grpcByID adminByID fst snd].
  rewrite !addr_of_set. repeat (case_bool_decide; try naive_solver).
Qed.

(** The committed change at any member, whatever store keeps its records. *)
Context `{MB : MemberStore Nd E} (left_in : str → MemberChangeRequestDTO).
Hypothesis left_in_ok : ∀ data request, json_unmarshal data = Some request → left_in data = request.
Hypothesis empty_input : json_unmarshal (A:=MemberChangeRequestDTO) [] = None.
Lemma learner_applied request (m : Members Nd) t (entry : LogEntry) :
  json_faithful request → mc_NodeID request ≠ 0%Z → e_Type (le_Raw entry) = EntryConfChangeV2 →
  cc2_Unmarshal (e_Data (le_Raw entry)) =
    Some (toConfChange (MkConfRequest ConfChangeAddLearner (mc_NodeID request) (mustMarshalJSON request))) →
  let record := MkMember (mc_NodeID request) (mc_HTTPAddr request) (mc_GRPCAddr request) (mc_AdminAddr request) in
  mb_table (E:=E) (am_node m) t → mb_storable (Nd:=Nd) (E:=E) record →
  (mb_SetMemberAddress (Nd:=Nd) (E:=E) (ma_NodeID record) (ma_HTTPAddr record) (ma_GRPCAddr record) (ma_AdminAddr record) (am_node m)).2 = Ok tt →
  let m' := apply_control_entry (E:=E) left_in close m entry in
  mb_table (E:=E) (am_node m') (<[mc_NodeID request := record]> t) ∧
  addrs_of (book m') (mc_NodeID request) =
    filled_from (mc_HTTPAddr request, mc_GRPCAddr request, mc_AdminAddr request) (addrs_of (book m) (mc_NodeID request)).
Proof.
  intros Hf Hid Htype Hcc record Ht Hst Hset m'. subst m'. unfold apply_control_entry. rewrite Htype, Hcc.
  unfold toConfChange. cbn [cr_Type cr_NodeID cr_Context]. rewrite bool_decide_true by done. cbn [cc2_Changes cc2_Context].
  destruct (json_roundtrip request Hf) as (data&Hdata&Hback). unfold mustMarshalJSON. rewrite Hdata. cbn [default from_option id].
  unfold applyConfChangeContext, change_request. cbn [fold_left]. rewrite bool_decide_false.
  2: { intros ->. by rewrite empty_input in Hback. }
  rewrite (left_in_ok _ _ Hback). destruct (Z.eqb_spec (mc_NodeID request) 0); [done|].
  unfold apply_change. cbn [ccs_Type]. unfold logged_store, logged_peers. cbn [am_node am_peers book].
  subst record. cbn [ma_NodeID ma_HTTPAddr ma_GRPCAddr ma_AdminAddr] in Hset.
  destruct (mb_SetMemberAddress _ _ _ _ (am_node m)) as [nd r] eqn:Hrun. cbn [snd] in Hset. subst r. split.
  - by eapply mb_Set_ok.
  - unfold book. cbn [am_peers]. by rewrite upsert_book, addrs_of_set.
Qed.
(** C33: A learner that was added is known everywhere.  A request that is answered with success came
    to the leader; it has updated the leader's book and handed exactly one conf change to raft,
    with the request as its context; and every member that applies the committed change knows the
    addresses of the learner, in its book and in its records. *)
Theorem AddLearner_recorded h r s s' rsp : AddLearner close decode_member h r s = (s', Ok rsp) →
  ∃ request, decode_member (rq_Body r) = Some request ∧ is_leader (status_of s) = true ∧
    let id := mc_NodeID request in
    let change := toConfChange (MkConfRequest ConfChangeAddLearner id (mustMarshalJSON request)) in
    let record := MkMember id (mc_HTTPAddr request) (mc_GRPCAddr request) (mc_AdminAddr request) in
    calls s' = calls s ++ [CProposeConfChange change] ∧
    addrs_of (book s') id = filled_from (mc_HTTPAddr request, mc_GRPCAddr request, mc_AdminAddr request) (addrs_of (book s) id) ∧
    ∀ (m : Members Nd) t entry, json_faithful request → e_Type (le_Raw entry) = EntryConfChangeV2 →
      cc2_Unmarshal (e_Data (le_Raw entry)) = Some change → mb_table (E:=E) (am_node m) t → mb_storable (Nd:=Nd) (E:=E) record →
      (mb_SetMemberAddress (Nd:=Nd) (E:=E) id (mc_HTTPAddr request) (mc_GRPCAddr request) (mc_AdminAddr request) (am_node m)).2 = Ok tt →
      let m' := apply_control_entry (E:=E) left_in close m entry in
      mb_table (E:=E) (am_node m') (<[id := record]> t) ∧
      addrs_of (book m') id = filled_from (mc_HTTPAddr request, mc_GRPCAddr request, mc_AdminAddr request) (addrs_of (book m) id).
Proof.
  unfold AddLearner. intros Hrun. apply st_bind_inv in Hrun as (s1&request&(->&Hlead&Hdec&Hid)%member_request_inv&Hrun).
  apply st_bind_inv in Hrun as (s2&[]&[Hn Hp]%or_respond_inv%on_peers_inv&Hrun).
  apply st_bind_inv in Hrun as (s3&[]&(Hcalls&Hp3&_)%conf_change_inv&[= <- _]).
  exists request. split; [done|split; [done|]]. cbn zeta. split; [by rewrite Hcalls, Hn|]. split.
  - unfold book. rewrite Hp3, Hp, upsert_book. by rewrite addrs_of_set.
  - intros m t entry Hf Ht Hc Htab Hst Hset. by apply learner_applied.
Qed.
End changes.
