(* ===== verification/ControlSamples.v ===== *)
(** * A learner joins: instances of the theorems on the control plane *)
From Stdlib Require Import Ascii ZArith.
From stdpp Require Import gmap strings countable list.
From S2P Require Import Prelude GoStrings Codec Wal WalLog Engine StateMachine Pebble Snapshot RaftConfig Raft RaftNode RaftReads AddressBook Transport Dto Http Membership MembershipFacts MembershipSamples Control Server ControlFacts.

#[local] Existing Instances bits_raftpb memory_raft quiet_node memory_engine member_json payload_json items_json.
#[export] Instance MemberChangeRequestDTO_countable : Countable MemberChangeRequestDTO.
Proof.
  refine (inj_countable' (λ m, (mc_NodeID m, mc_HTTPAddr m, mc_GRPCAddr m, mc_AdminAddr m)) (λ '(a, b, c, d), MkMemberChange a b c d) _).
  by intros [].
Defined.
#[local] Instance change_json : Json MemberChangeRequestDTO := bits_json (byte 123) brace_tag.
Definition decode_body (body : str) : option MemberChangeRequestDTO := json_decode body.
Definition left_over (data : str) : MemberChangeRequestDTO := default (MkMemberChange 0 [] [] []) (json_unmarshal data).
Definition learner : MemberChangeRequestDTO := MkMemberChange 4 (lit "h:4") (lit "g:4") [].
Definition learner_change : ConfChangeV2 := toConfChange (MkConfRequest ConfChangeAddLearner 4 (mustMarshalJSON learner)).
Definition add_request : Request := MkRequest (lit "POST") ∅ (mustMarshalJSON learner) (λ _, []).
Definition admin_api : ControlAPI := MkControlAPI 1 (lit "127.0.0.1:18080") None.
Definition leading_member : Members RaftNode := MkMembers idle_node (configured {[ 1%Z := lit "h:0" ]}).
Definition asked_member : Members RaftNode := (AddLearner no_close decode_body admin_api add_request leading_member).1.
(** The committed entry, and the member that applies it. *)
Definition learner_entry : LogEntry := MkLogEntry 7 1 [] [] (MkEntry 7 1 EntryConfChangeV2 (cc2_bits learner_change)).
Definition applying_member : Members PebbleStore := MkMembers member_store (configured ∅).
Lemma AddLearner_recorded_witness : ∃ request, decode_body (rq_Body add_request) = Some request ∧
  default [] (rn_node (am_node asked_member)) =
    default [] (rn_node (am_node leading_member)) ++ [CProposeConfChange (toConfChange (MkConfRequest ConfChangeAddLearner (mc_NodeID request) (mustMarshalJSON request)))] ∧
  (mc_NodeID request = 4%Z → records (am_node (apply_control_entry (E:=StoreErr) left_over no_close applying_member learner_entry))
    (<[4%Z := MkMember 4 (mc_HTTPAddr request) (mc_GRPCAddr request) (mc_AdminAddr request)]> table3)).
Proof.
  destruct (AddLearner_recorded (MB:=pebble_members) no_close decode_body left_over) with (h:=admin_api) (r:=add_request) (s:=leading_member)
    (s':=asked_member) (rsp:=success "learner add requested") as (request&Hdec&_&Hcalls&_&Happly).
  - intros data request Hd. unfold left_over. by rewrite Hd.
  - reflexivity.
  - apply run_unpack. vm_compute. reflexivity.
  - assert (request = learner) as -> by (assert (Hl : decode_body (rq_Body add_request) = Some learner) by (apply bits_roundtrip); congruence).
    exists learner. split; [done|]. split; [exact Hcalls|]. intros _.
    apply (Happly applying_member table3 learner_entry).
    + exact I.
    + reflexivity.
    + apply cc2_of_bits_back. apply (bool_decide_unpack _). vm_compute. exact I.
    + exact records3.
    + by split.
    + apply ok_unpack. vm_compute. reflexivity.
Defined.
