(* ===== verification/Ctl.v ===== *)
(** * The administrator's client ([cmd/stellmapctl/main.go])

    Choice of the command, its request, and the exchanges with the servers: one, and one more at
    the leader's address when the first server says that it is not the leader.  An exchange is
    what [http.Client.Do] of Go 1.25 makes of a request: it follows the redirects of a server
    itself, up to ten requests.  The servers are a function of the requests sent so far.
    [net/url], the parsing of flags and the JSON of the replies are parameters; printing and exit
    codes are left out. *)
From Stdlib Require Import Ascii ZArith.
From stdpp Require Import gmap strings list.
From S2P Require Import Prelude GoStrings RegistryModel Codec Dto.

(** ** [net/url] as the client uses it *)
Record URL := MkURL { u_Scheme : str; u_Host : str; u_Path : str; u_RawPath : str }.
(** [url_ResolveReference u ref]: [u.Parse(ref)].  [url_ASCIIHost]: the host name of a URL with
    its international part in ASCII ([idnaASCIIFromURL]). *)
Class UrlLib := {
  url_Parse : str → option URL; url_String : URL → str; url_Hostname : URL → str;
  url_ResolveReference : URL → str → option URL; url_ASCIIHost : URL → str
}.

(** What a server wrote: [ErrorResponse], and [successEnvelope] with its data still encoded. *)
Record ErrorResponse := MkErrorResponse { er_Code : str; er_Message : str; er_RequestID : str; er_LeaderID : Z; er_LeaderAddr : str }.
Record successEnvelope := MkSuccessEnvelope { se_Code : str; se_Message : str; se_Data : str }.
Record controlClient := MkClient { cc_baseURL : str; cc_token : str }.
(** [cr_Authorization] is the header that the client has set, empty where it was taken off. *)
Record CtlRequest := MkCtlRequest { cr_Method : str; cr_URL : str; cr_Payload : option str; cr_Authorization : str }.
(** A reply: its status, its [Location] header (empty when there is none) and its body. *)
Record CtlReply := MkCtlReply { rp_Status : Z; rp_Location : str; rp_Body : str }.
Inductive CtlErr :=
  | ErrServerRequired | ErrInvalidURL | ErrInvalidServer (server : str) | ErrLeaderEmpty | ErrInvalidAddress (address : str) | ErrPort
  | ErrTokenRequired | ErrCtlMarshal | ErrNetwork | ErrHTTPStatus (status : Z) (body : str) | ErrFailure (code message : str) | ErrCtlDecode
  | ErrLocation | ErrTooManyRedirects | ErrUnknownCommand | ErrIDRequired | ErrFlags | OutOfFuel.

Section client.
Context `{UrlLib, Json ErrorResponse, Json successEnvelope}.
Definition scheme_sep : str := lit "://".
Definition normalizeBaseURL (server : str) : result CtlErr str :=
  let server := TrimSpace server in
  if bool_decide (server = []) then Err ErrServerRequired
  else
    let server := if negb (Contains server scheme_sep) then lit "http://" ++ server else server in
    match url_Parse server with
    | None => Err ErrInvalidURL
    | Some parsed =>
        if bool_decide (u_Host parsed = []) then Err (ErrInvalidServer server)
        else
          let path := TrimRightByte (u_Path parsed) ch_slash in
          Ok (TrimRightByte (url_String (MkURL (u_Scheme parsed) (u_Host parsed) path path)) ch_slash)
    end.
Definition netSplitHostPort (address : str) : result CtlErr (str * Z) :=
  let parts := Split address (lit ":") in
  if (length parts <? 2)%nat then Err (ErrInvalidAddress address)
  else
    match Atoi (default [] (last parts)) with
    | None => Err ErrPort
    | Some port =>
        let host := Join (take (length parts - 1) parts) (lit ":") in
        Ok (if bool_decide (host = []) then lit "127.0.0.1" else host, port)
    end.
Definition resolveLeaderBaseURL (currentBaseURL leaderAddr : str) : result CtlErr str :=
  match url_Parse currentBaseURL with
  | None => Err ErrInvalidURL
  | Some current =>
      let leaderAddr := TrimSpace leaderAddr in
      if bool_decide (leaderAddr = []) then Err ErrLeaderEmpty
      else if Contains leaderAddr scheme_sep then normalizeBaseURL leaderAddr
      else
        let leaderAddr :=
          if HasPrefix leaderAddr (lit ":") then
            let host := url_Hostname current in
            (if bool_decide (host = []) then lit "127.0.0.1" else host) ++ leaderAddr
          else leaderAddr in
        netSplitHostPort leaderAddr ≫= λ _, normalizeBaseURL (u_Scheme current ++ scheme_sep ++ leaderAddr)
  end.
Definition resolveAdminToken (getenv : str → str) (flagToken : str) : str :=
  let flagToken := TrimSpace flagToken in
  if bool_decide (flagToken = []) then TrimSpace (getenv (lit "STELLMAP_ADMIN_TOKEN")) else flagToken.
Definition newControlClient (server token : str) : result CtlErr controlClient :=
  baseURL ← normalizeBaseURL server;
  fail_if (bool_decide (TrimSpace token = [])) ErrTokenRequired;;
  Ok (MkClient baseURL token).

(** ** The exchange

    [reply sent]: what comes back for the last of the requests [sent], or nothing when the
    request or the reading of its reply fails. *)
Context (reply : list CtlRequest → option CtlReply).
Abbreviation XM := (ST (list CtlRequest) CtlErr).
Definition http_send (request : CtlRequest) : XM CtlReply := λ sent,
  let sent := sent ++ [request] in
  (sent, match reply sent with Some response => Ok response | None => Err ErrNetwork end).
(** The method of the next request, and whether the body goes with it. *)
Definition redirectBehavior (method : str) (status : Z) : option (str * bool) :=
  if bool_decide (status ∈ [301; 302; 303]%Z)
  then Some (if bool_decide (method = lit "GET") || bool_decide (method = lit "HEAD") then method else lit "GET", false)
  else if bool_decide (status ∈ [307; 308]%Z) then Some (method, true)
  else None.
Definition isDomainOrSubdomain (sub parent : str) : bool :=
  if bool_decide (sub = parent) then true
  else if Contains sub (lit ":") || Contains sub (lit "%") then false
  else HasSuffix sub (lit "." ++ parent).
(** The administrator's token goes to the host it was meant for, and to its subdomains. *)
Definition same_site (first u : URL) : bool :=
  bool_decide (u_Host first = u_Host u) || isDomainOrSubdomain (url_ASCIIHost u) (url_ASCIIHost first).
(** [first], [ireq]: the first request, with its URL.  [current], [request]: the next one to be sent,
    with its URL; [n] more may follow.  Once the body or the token is off it stays off. *)
Fixpoint http_follow (n : nat) (first : URL) (ireq : CtlRequest) (current : URL) (request : CtlRequest) (includeBody strip : bool) : XM CtlReply :=
  response ← http_send request;
  match redirectBehavior (cr_Method request) (rp_Status response) with
  | None => mret response
  | Some (method, includeBodyOnHop) =>
      if bool_decide (rp_Location response = []) then mret response
      else
        match url_ResolveReference current (rp_Location response) with
        | None => st_fail ErrLocation
        | Some next =>
            let includeBody := includeBody && includeBodyOnHop in
            let strip := strip || negb (same_site first next) in
            match n with
            | O => st_fail ErrTooManyRedirects
            | S n =>
                http_follow n first ireq next
                  (MkCtlRequest method (url_String next) (if includeBody then cr_Payload ireq else None)
                     (if strip then [] else cr_Authorization ireq)) includeBody strip
            end
        end
  end.
(** [http.NewRequest] and [http.Client.Do]. *)
Definition send (request : CtlRequest) : XM CtlReply :=
  match url_Parse (cr_URL request) with
  | None => st_fail ErrInvalidURL
  | Some u => http_follow 9 u request u request true false
  end.
Definition redirects (allowRedirect : bool) (failure : ErrorResponse) : bool :=
  allowRedirect && bool_decide (er_Code failure = lit "not_leader") && negb (bool_decide (er_LeaderAddr failure = [])).
(** The data of a successful reply, [None] when there is none to decode. *)
Definition reply_data (data : str) : result CtlErr (option str) :=
  if bool_decide (data = []) then Ok None
  else match json_unmarshal (A:=successEnvelope) data with
  | None => Err ErrCtlDecode
  | Some success =>
      Ok (if bool_decide (se_Data success = []) || bool_decide (se_Data success = lit "null") then None else Some (se_Data success))
  end.
Definition client_request (c : controlClient) (method path : str) (payload : option str) : CtlRequest :=
  MkCtlRequest method (cc_baseURL c ++ path) payload (lit "Bearer " ++ cc_token c).
Fixpoint client_do (fuel : nat) (c : controlClient) (method path : str) (payload : option str) (allowRedirect : bool) : XM (option str) :=
  match fuel with
  | O => st_fail OutOfFuel
  | S fuel =>
      response ← send (client_request c method path payload);
      let status := rp_Status response in
      let data := rp_Body response in
      if (400 <=? status)%Z then
        match json_unmarshal (A:=ErrorResponse) data with
        | None => st_fail (ErrHTTPStatus status data)
        | Some failure =>
            if redirects allowRedirect failure then
              nextBaseURL ← st_lift (resolveLeaderBaseURL (cc_baseURL c) (er_LeaderAddr failure));
              client_do fuel (MkClient nextBaseURL (cc_token c)) method path payload false
            else st_fail (ErrFailure (er_Code failure) (er_Message failure))
        end
      else st_lift (reply_data data)
  end.
(** [Get] and [Post]; a body that is given is encoded first. *)
Definition Get (fuel : nat) (c : controlClient) (path : str) : XM (option str) := client_do fuel c (lit "GET") path None true.
Definition Post {B} `{Json B} (fuel : nat) (c : controlClient) (path : str) (body : B) : XM (option str) :=
  match json_marshal body with
  | None => st_fail ErrCtlMarshal
  | Some payload => client_do fuel c (lit "POST") path (Some payload) true
  end.
End client.

(** ** Commands *)
Record CtlFlags := MkCtlFlags { fl_server : str; fl_token : str; fl_nodeID : Z; fl_httpAddr : str; fl_grpcAddr : str; fl_adminAddr : str; fl_targetNodeID : Z }.
Inductive CtlCommand := CmdStatus | CmdAddLearner | CmdPromote | CmdRemove | CmdTransfer.
Definition runMember (args : list str) : result CtlErr (CtlCommand * list str) :=
  match args with
  | [] => Err ErrUnknownCommand
  | sub :: args =>
      if bool_decide (sub = lit "add-learner") then Ok (CmdAddLearner, args)
      else if bool_decide (sub = lit "promote") then Ok (CmdPromote, args)
      else if bool_decide (sub = lit "remove") then Ok (CmdRemove, args)
      else Err ErrUnknownCommand
  end.
Definition runLeader (args : list str) : result CtlErr (CtlCommand * list str) :=
  match args with
  | [] => Err ErrUnknownCommand
  | sub :: args => if bool_decide (sub = lit "transfer") then Ok (CmdTransfer, args) else Err ErrUnknownCommand
  end.
(** The arguments behind the name of the program. *)
Definition ctl_command (args : list str) : result CtlErr (CtlCommand * list str) :=
  match args with
  | [] => Err ErrUnknownCommand
  | cmd :: args =>
      if bool_decide (cmd = lit "member") then runMember args
      else if bool_decide (cmd = lit "leader") then runLeader args
      else if bool_decide (cmd = lit "status") then Ok (CmdStatus, args)
      else Err ErrUnknownCommand
  end.
Section commands.
Context `{UrlLib, Json ErrorResponse, Json successEnvelope, Json MemberChangeRequestDTO, Json LeaderTransferRequestDTO, Json ClusterStatusDTO}.
Context (reply : list CtlRequest → option CtlReply) (getenv : str → str) (parse_flags : CtlCommand → list str → option CtlFlags).
Abbreviation XM := (ST (list CtlRequest) CtlErr).
Definition ctl_client (f : CtlFlags) : XM controlClient := st_lift (newControlClient (fl_server f) (resolveAdminToken getenv (fl_token f))).
Definition id_required (id : Z) : XM unit := if (id =? 0)%Z then st_fail ErrIDRequired else mret tt.
Definition decode_out (data : option str) : result CtlErr (option ClusterStatusDTO) :=
  match data with
  | None => Ok None
  | Some data => match json_unmarshal data with Some status => Ok (Some status) | None => Err ErrCtlDecode end
  end.
Definition runStatus (fuel : nat) (f : CtlFlags) : XM (option ClusterStatusDTO) :=
  client ← ctl_client f; data ← Get reply fuel client (lit "/admin/v1/status"); st_lift (decode_out data).
Definition runAddLearner (fuel : nat) (f : CtlFlags) : XM (option str) :=
  id_required (fl_nodeID f);; client ← ctl_client f;
  Post reply fuel client (lit "/admin/v1/members/add-learner") (MkMemberChange (fl_nodeID f) (fl_httpAddr f) (fl_grpcAddr f) (fl_adminAddr f)).
Definition runPromoteLearner (fuel : nat) (f : CtlFlags) : XM (option str) :=
  id_required (fl_nodeID f);; client ← ctl_client f;
  Post reply fuel client (lit "/admin/v1/members/promote") (MkMemberChange (fl_nodeID f) [] [] []).
Definition runRemoveMember (fuel : nat) (f : CtlFlags) : XM (option str) :=
  id_required (fl_nodeID f);; client ← ctl_client f;
  Post reply fuel client (lit "/admin/v1/members/remove") (MkMemberChange (fl_nodeID f) [] [] []).
Definition runTransferLeader (fuel : nat) (f : CtlFlags) : XM (option str) :=
  id_required (fl_targetNodeID f);; client ← ctl_client f;
  Post reply fuel client (lit "/admin/v1/leader/transfer") (MkLeaderTransfer (fl_targetNodeID f)).
(** A status to print, or a change that was requested. *)
Definition run_command (fuel : nat) (cmd : CtlCommand) (f : CtlFlags) : XM (option ClusterStatusDTO) :=
  match cmd with
  | CmdStatus => runStatus fuel f
  | CmdAddLearner => runAddLearner fuel f;; mret None
  | CmdPromote => runPromoteLearner fuel f;; mret None
  | CmdRemove => runRemoveMember fuel f;; mret None
  | CmdTransfer => runTransferLeader fuel f;; mret None
  end.
Definition ctl_main (fuel : nat) (args : list str) : XM (option ClusterStatusDTO) :=
  command ← st_lift (ctl_command args);
  flags ← match parse_flags command.1 command.2 with Some f => mret f | None => st_fail ErrFlags end;
  run_command fuel command.1 flags.
End commands.
