(* ===== verification/CtlFacts.v ===== *)
(** * A command ends

    Whatever the servers answer, a command of the administrator's client ends after at most two
    exchanges, the second one with the leader the first one named; each starts with exactly the
    request of the command, and every further request is one that a server redirected to. *)
From Stdlib Require Import Ascii ZArith.
From stdpp Require Import gmap strings list.
From S2P Require Import Prelude GoStrings RegistryModel Codec Dto Ctl.

Section facts.
Context `{UrlLib, Json ErrorResponse, Json successEnvelope, Json MemberChangeRequestDTO, Json LeaderTransferRequestDTO, Json ClusterStatusDTO}.
Context (reply : list CtlRequest → option CtlReply) (getenv : str → str) (parse_flags : CtlCommand → list str → option CtlFlags).
Implicit Types sent : list CtlRequest.

(** ** The specification *)
(** An outcome other than the model's own error. *)
Definition ends {A} (r : result CtlErr A) : Prop := r ≠ Err OutOfFuel.
(** A reply that sends the client elsewhere. *)
Definition moved (r : option CtlReply) : Prop :=
  ∃ x, r = Some x ∧ rp_Status x ∈ [301; 302; 303; 307; 308]%Z ∧ rp_Location x ≠ [].
(** What a redirect may make of a request: the same one, without its body or not, or a [GET]
    without a body; the token only for the site it was meant for. *)
Definition follow_up (first : URL) (request b : CtlRequest) : Prop :=
  (cr_Method b = cr_Method request ∧ (cr_Payload b = cr_Payload request ∨ cr_Payload b = None) ∨
   cr_Method b = lit "GET" ∧ cr_Payload b = None) ∧
  (cr_Authorization b = [] ∨
   cr_Authorization b = cr_Authorization request ∧ ∃ u, cr_URL b = url_String u ∧ same_site first u = true).
(** One exchange: the requests [l], sent behind [sent] for the sake of [request]. *)
Definition exchange sent (request : CtlRequest) (l : list CtlRequest) : Prop := ∃ first rest,
  url_Parse (cr_URL request) = Some first ∧ l = request :: rest ∧ length l ≤ 10 ∧
  Forall (follow_up first request) rest ∧
  ∀ i, S i < length l → moved (reply (sent ++ take (S i) l)).
(** The last reply says that the leader is at [addr]. *)
Definition told sent (addr : str) : Prop := ∃ x failure,
  reply sent = Some x ∧ (400 ≤ rp_Status x)%Z ∧ json_unmarshal (rp_Body x) = Some failure ∧
  er_Code failure = lit "not_leader" ∧ er_LeaderAddr failure = addr ∧ addr ≠ [].
(** An exchange with the server of the client and, if that one names a leader, one with the leader. *)
Definition commanded (c : controlClient) (method path : str) (payload : option str) sent sent' : Prop := ∃ l,
  exchange sent (client_request c method path payload) l ∧
  (sent' = sent ++ l ∧
     (∀ addr next, told (sent ++ l) addr → resolveLeaderBaseURL (cc_baseURL c) addr = Ok next → url_Parse (next ++ path) = None) ∨
   ∃ addr next l', told (sent ++ l) addr ∧ resolveLeaderBaseURL (cc_baseURL c) addr = Ok next ∧
     exchange (sent ++ l) (client_request (MkClient next (cc_token c)) method path payload) l' ∧ sent' = sent ++ l ++ l').
Definition accepted sent : Prop := ∃ x, reply sent = Some x ∧ (rp_Status x < 400)%Z.
(** The request a command stands for: method, path and body; none without the id it needs. *)
Definition member_command (path : str) (change : MemberChangeRequestDTO) : option (str * str * option str) :=
  if (mc_NodeID change =? 0)%Z then None
  else payload ← json_marshal change; Some (lit "POST", lit "/admin/v1/members/" ++ path, Some payload).
Definition command_request (cmd : CtlCommand) (f : CtlFlags) : option (str * str * option str) :=
  match cmd with
  | CmdStatus => Some (lit "GET", lit "/admin/v1/status", None)
  | CmdAddLearner => member_command (lit "add-learner") (MkMemberChange (fl_nodeID f) (fl_httpAddr f) (fl_grpcAddr f) (fl_adminAddr f))
  | CmdPromote => member_command (lit "promote") (MkMemberChange (fl_nodeID f) [] [] [])
  | CmdRemove => member_command (lit "remove") (MkMemberChange (fl_nodeID f) [] [] [])
  | CmdTransfer =>
      if (fl_targetNodeID f =? 0)%Z then None
      else payload ← json_marshal (MkLeaderTransfer (fl_targetNodeID f)); Some (lit "POST", lit "/admin/v1/leader/transfer", Some payload)
  end.
(** A run that ends, whatever it is given beyond two rounds: nothing was sent and it failed, or
    what was sent is as [P] says, and it succeeded only on a reply without an error. *)
Definition settles {A} (P : list CtlRequest → list CtlRequest → Prop) (m : nat → ST (list CtlRequest) CtlErr A) : Prop := ∀ sent,
  ends (m 2 sent).2 ∧ (∀ fuel, 2 ≤ fuel → m fuel sent = m 2 sent) ∧
  ((m 2 sent).1 = sent ∧ ¬ is_ok (m 2 sent).2 ∨
   P sent (m 2 sent).1 ∧ (is_ok (m 2 sent).2 → accepted (m 2 sent).1)).

(** ** Pure steps end *)
Lemma ends_bind {A B} (r : result CtlErr A) (f : A → result CtlErr B) : ends r → (∀ a, ends (f a)) → ends (r ≫= f).
Proof. destruct r; cbn; [auto|]. by intros He _ [= ->]. Qed.
Lemma normalize_ends server : ends (normalizeBaseURL server).
Proof. unfold normalizeBaseURL. repeat (case_match; try done). Qed.
Lemma resolve_ends base addr : ends (resolveLeaderBaseURL base addr).
Proof.
  unfold resolveLeaderBaseURL. destruct (url_Parse base) as [current|]; [|done]. case_bool_decide; [done|].
  destruct (Contains _ _); [apply normalize_ends|]. apply ends_bind; [|intros; apply normalize_ends].
  unfold netSplitHostPort. destruct (_ <? 2)%nat; [done|]. by destruct (Atoi _).
Qed.
Lemma client_ends server token : ends (newControlClient server token).
Proof. unfold newControlClient. apply ends_bind; [apply normalize_ends|]. intros base. by case_bool_decide. Qed.
Lemma data_ends data : ends (reply_data data).
Proof. unfold reply_data. case_bool_decide; [done|]. by destruct (json_unmarshal data). Qed.

(** ** One exchange *)
Lemma redirect_method method status method' keep : redirectBehavior method status = Some (method', keep) →
  status ∈ [301; 302; 303; 307; 308]%Z ∧ (method' = method ∨ method' = lit "GET" ∧ keep = false).
Proof.
  unfold redirectBehavior. repeat case_bool_decide; intros Hr; simplify_eq; (split; [set_solver|]); repeat case_bool_decide; cbn; auto.
Qed.
(** What the sending of [request] and the requests [l] after it leaves. *)
Definition followed (first : URL) (ireq request : CtlRequest) (n : nat) sent (out : list CtlRequest * result CtlErr CtlReply) : Prop := ∃ l,
  out.1 = sent ++ request :: l ∧ length l ≤ n ∧ Forall (follow_up first ireq) l ∧ ends out.2 ∧
  (∀ i, S i < length (request :: l) → moved (reply (sent ++ take (S i) (request :: l)))) ∧
  match out.2 with
  | Ok x => reply out.1 = Some x
  | Err _ => ∀ x, reply out.1 = Some x → (rp_Status x < 400)%Z
  end.
Lemma followed_last first ireq request n sent r :
  ends r → match r with Ok x => reply (sent ++ [request]) = Some x | Err _ => ∀ x, reply (sent ++ [request]) = Some x → (rp_Status x < 400)%Z end →
  followed first ireq request n sent (sent ++ [request], r).
Proof. intros He Hr. exists []. split_and!; [done|cbn; lia|constructor|done| |done]. cbn. lia. Qed.
Lemma follow_spec n first ireq current request body strip sent :
  cr_Method request = cr_Method ireq ∨ cr_Method request = lit "GET" ∧ body = false →
  followed first ireq request n sent (http_follow reply n first ireq current request body strip sent).
Proof.
  revert current request body strip sent; induction n as [|n IH]; intros current request body strip sent Hm;
    cbn [http_follow]; unfold mbind, ST_bind, http_send.
  all: destruct (reply (sent ++ [request])) as [x|] eqn:Hr; [|by apply followed_last; [|congruence]].
  all: destruct (redirectBehavior _ _) as [[method keep]|] eqn:Hb; [|by apply followed_last].
  all: case_bool_decide as Hl; [by apply followed_last|].
  all: apply redirect_method in Hb as [Hst Hmeth].
  all: assert (Hlow : ∀ y, Some x = Some y → (rp_Status y < 400)%Z) by (intros y [= <-]; set_unfold; lia).
  all: destruct (url_ResolveReference _ _) as [next|]; [|by apply followed_last; [|rewrite Hr]].
  { by apply followed_last; [|rewrite Hr]. }
  set (request' := MkCtlRequest _ _ _ _). destruct (IH next request' (body && keep) (strip || negb (same_site first next)) (sent ++ [request]))
    as (l&Hs&Hn&Hf&He&Hmv&Hout).
  { cbn. destruct Hmeth as [->|[-> ->]]; [destruct Hm as [?|[? ->]]; [by left|by right]|right; by rewrite andb_false_r]. }
  rewrite <- app_assoc in Hs. exists (request' :: l). split_and!; [done|cbn; lia| |done| |done].
  - constructor; [|done]. split; cbn.
    + destruct Hmeth as [->|[-> ->]]; [|rewrite andb_false_r; by right]. destruct Hm as [?|[? ->]]; [left|by right].
      split; [done|]. destruct (body && keep); auto.
    + destruct strip, (same_site first next) eqn:Hsite; cbn; [by left..| |by left]. right. split; [done|]. by exists next.
  - intros [|i] Hi; [exists x; cbn; by rewrite Hr|].
    specialize (Hmv i ltac:(cbn in *; lia)). by rewrite <- app_assoc in Hmv.
Qed.
Lemma send_spec request sent :
  match url_Parse (cr_URL request) with
  | None => send reply request sent = (sent, Err ErrInvalidURL)
  | Some _ => ∃ l r, send reply request sent = (sent ++ l, r) ∧ exchange sent request l ∧ ends r ∧
      match r with
      | Ok x => reply (sent ++ l) = Some x
      | Err _ => ∀ x, reply (sent ++ l) = Some x → (rp_Status x < 400)%Z
      end
  end.
Proof.
  unfold send. destruct (url_Parse (cr_URL request)) as [u|] eqn:Hu; [|done].
  destruct (follow_spec 9 u request u request true false sent) as (l&Hs&Hn&Hf&He&Hmv&Hout); [by left|].
  destruct (http_follow _ _ _ _ _ _ _ _ sent) as [sent' r]. cbn [fst snd] in *. subst sent'.
  exists (request :: l), r. split_and!; [done| |done|done]. exists u, l. split_and!; [done|done|cbn; lia|done|done].
Qed.

(** ** The client *)
(** What one exchange leads to: on to the leader, or an end. *)
Definition leader_of (allowRedirect : bool) (r : result CtlErr CtlReply) : option str :=
  match r with
  | Ok x => if (400 <=? rp_Status x)%Z
            then failure ← json_unmarshal (A:=ErrorResponse) (rp_Body x);
                 if redirects allowRedirect failure then Some (er_LeaderAddr failure) else None
            else None
  | Err _ => None
  end.
Definition final (r : result CtlErr CtlReply) : result CtlErr (option str) :=
  x ← r;
  if (400 <=? rp_Status x)%Z
  then match json_unmarshal (A:=ErrorResponse) (rp_Body x) with
       | None => Err (ErrHTTPStatus (rp_Status x) (rp_Body x))
       | Some failure => Err (ErrFailure (er_Code failure) (er_Message failure))
       end
  else reply_data (rp_Body x).
Lemma do_step fuel c method path payload allow sent :
  client_do reply (S fuel) c method path payload allow sent =
    let '(sent', r) := send reply (client_request c method path payload) sent in
    match leader_of allow r with
    | None => (sent', final r)
    | Some addr =>
        match resolveLeaderBaseURL (cc_baseURL c) addr with
        | Err e => (sent', Err e)
        | Ok next => client_do reply fuel (MkClient next (cc_token c)) method path payload false sent'
        end
    end.
Proof.
  cbn [client_do]. unfold mbind, ST_bind. destruct (send _ _ _) as [sent' [x|e]]; [|done]. cbn.
  destruct (400 <=? rp_Status x)%Z; [|done]. destruct (json_unmarshal _) as [failure|]; [|done]. cbn.
  destruct (redirects allow failure); [|done]. unfold st_lift. by destruct (resolveLeaderBaseURL _ _).
Qed.
Lemma leader_false r : leader_of false r = None.
Proof. destruct r as [x|]; [|done]. cbn. destruct (_ <=? _)%Z; [|done]. by destruct (json_unmarshal _). Qed.
Lemma final_ends r : ends r → ends (final r).
Proof.
  intros Hr. apply ends_bind; [done|]. intros x. destruct (_ <=? _)%Z; [by destruct (json_unmarshal _)|apply data_ends].
Qed.
Lemma final_ok r : is_ok (final r) → ∃ x, r = Ok x ∧ (rp_Status x < 400)%Z.
Proof.
  destruct r as [x|]; [|by intros []]. cbn. intros Hok. exists x. split; [done|]. destruct (Z.leb_spec 400 (rp_Status x)); [|lia].
  destruct (json_unmarshal _); by destruct Hok.
Qed.
Lemma leader_told sent r addr : match r with Ok x => reply sent = Some x | Err _ => ∀ x, reply sent = Some x → (rp_Status x < 400)%Z end →
  leader_of true r = Some addr ↔ told sent addr.
Proof.
  intros Hr. split.
  - destruct r as [x|]; [|done]. cbn. destruct (Z.leb_spec 400 (rp_Status x)); [|done].
    destruct (json_unmarshal (rp_Body x)) as [failure|] eqn:Hj; [|done]. cbn. unfold redirects. cbn [andb].
    do 2 case_bool_decide; [done| |done|done]. cbn. intros [= <-]. by exists x, failure.
  - intros (x&failure&Hx&Hs&Hj&Hc&<-&Hne). destruct r as [y|]; [|specialize (Hr _ Hx); lia]. assert (y = x) as -> by congruence.
    cbn. rewrite (proj2 (Z.leb_le _ _)), Hj by done. cbn. unfold redirects. by rewrite bool_decide_true, bool_decide_false.
Qed.
(** The end of a command that is not sent on. *)
Lemma do_once fuel c method path payload sent : let request := client_request c method path payload in
  client_do reply (S fuel) c method path payload false sent = ((send reply request sent).1, final (send reply request sent).2).
Proof. intros request. subst request. rewrite do_step. destruct (send _ _ _) as [sent' r]. by rewrite leader_false. Qed.
Lemma do_settles c method path payload : settles (commanded c method path payload) (λ fuel, client_do reply fuel c method path payload true).
Proof.
  intros sent. assert (Hfuel : ∀ fuel, 2 ≤ fuel → client_do reply fuel c method path payload true sent = client_do reply 2 c method path payload true sent).
  { intros [|[|fuel]] Hf; [lia..|]. rewrite !do_step. destruct (send _ _ _) as [sent' r]. destruct (leader_of _ _); [|done].
    destruct (resolveLeaderBaseURL _ _); [|done]. by rewrite !do_once. }
  split; [|split; [done|]]; clear Hfuel; rewrite do_step; pose proof (send_spec (client_request c method path payload) sent) as Hs.
  all: cbn [client_request cr_URL] in Hs; destruct (url_Parse _) as [u|] eqn:Hu; [destruct Hs as (l&r&->&Hex&He&Hr)|rewrite Hs; cbn [leader_of final]].
  all: try (by cbn); try (left; split; [done|by intros []]).
  all: pose proof (λ addr, leader_told _ r addr Hr) as Htold; destruct (leader_of true r) as [addr|] eqn:Hl.
  1, 3: destruct (proj1 (Htold addr) eq_refl) as (x0&failure&Hx0&Hs0&_); pose proof (resolve_ends (cc_baseURL c) addr) as Hre;
    destruct (resolveLeaderBaseURL _ addr) as [next|e] eqn:Hnext.
  - rewrite do_once. apply final_ends. pose proof (send_spec (client_request (MkClient next (cc_token c)) method path payload) (sent ++ l)) as Hs'.
    destruct (url_Parse (cr_URL _)); [by destruct Hs' as (?&?&->&_&?&_)|by rewrite Hs'].
  - intros [= ->]. done.
  - right. rewrite do_once. pose proof (send_spec (client_request (MkClient next (cc_token c)) method path payload) (sent ++ l)) as Hs'.
    cbn [client_request cr_URL cc_baseURL] in Hs'. destruct (url_Parse (next ++ path)) as [u'|] eqn:Hu'.
    + destruct Hs' as (l'&r'&->&Hex'&_&Hr'). cbn [fst snd]. split; [|intros (x&->&?)%final_ok; by exists x].
      exists l. split; [done|]. right. exists addr, next, l'. rewrite app_assoc. by split_and!; [apply Htold| | |].
    + rewrite Hs'. cbn [fst snd]. split; [|intros Hok; by destruct (final_ok _ Hok) as (?&?&_)]. exists l. split; [done|]. left. split; [done|].
      intros addr' next' [= <-]%Htold ?. congruence.
  - right. cbn [fst snd]. split; [|by intros []]. exists l. split; [done|]. left. split; [done|]. intros addr' next' [= <-]%Htold ?. congruence.
  - by apply final_ends.
  - right. cbn [fst snd]. split; [|intros (x&->&?)%final_ok; by exists x]. exists l. split; [done|]. left. split; [done|].
    by intros addr' next' ?%Htold.
Qed.

(** ** Steps before the exchange, and what is made of its outcome *)
Lemma settles_weaken {A} (P Q : list CtlRequest → list CtlRequest → Prop) (m : nat → ST (list CtlRequest) CtlErr A) :
  (∀ sent sent', P sent sent' → Q sent sent') → settles P m → settles Q m.
Proof. intros HPQ Hm sent. destruct (Hm sent) as (?&?&[?|[? ?]]); split_and!; auto. Qed.
Lemma settles_lift {A B} P (r : result CtlErr A) (m : A → nat → ST (list CtlRequest) CtlErr B) :
  ends r → (∀ a, r = Ok a → settles P (m a)) → settles P (λ fuel, a ← st_lift r; m a fuel).
Proof.
  intros Hr Hm sent. unfold mbind, ST_bind, st_lift. destruct r as [a|e]; [by apply Hm|].
  split; [by intros [= ->]|]. split; [done|]. left. split; [done|]. by intros [].
Qed.
Lemma settles_map {A B} P (m : nat → ST (list CtlRequest) CtlErr A) (f : A → result CtlErr B) :
  settles P m → (∀ a, ends (f a)) → settles P (λ fuel, a ← m fuel; st_lift (f a)).
Proof.
  intros Hm Hf sent. destruct (Hm sent) as (He&Hfuel&Hs). unfold mbind, ST_bind, st_lift. split; [|split].
  - destruct (m 2 sent) as [sent' [a|e]]; [apply Hf|by intros [= ->]].
  - intros fuel Hle. by rewrite Hfuel.
  - destruct (m 2 sent) as [sent' [a|e]]; cbn [fst snd] in *.
    + right. destruct Hs as [[_ []]|[HP Hok]]; [by eexists|]. split; [done|]. intros _. apply Hok. by eexists.
    + destruct Hs as [[-> _]|[HP _]]; [left|right]; (split; [done|]); by intros [].
Qed.
Lemma settles_fail {A} P e : e ≠ OutOfFuel → settles (A:=A) P (λ _, st_fail e).
Proof. intros He sent. split; [by intros [= ?]|]. split; [done|]. left. split; [done|]. by intros []. Qed.

(** What the flags of a command stand for. *)
Definition obeys (cmd : CtlCommand) (f : CtlFlags) sent sent' : Prop := ∃ c method path payload,
  newControlClient (fl_server f) (resolveAdminToken getenv (fl_token f)) = Ok c ∧
  command_request cmd f = Some (method, path, payload) ∧ commanded c method path payload sent sent'.
Lemma change_settles {B} `{Json B} cmd id f path (body : B) :
  ((id =? 0)%Z = false → command_request cmd f = payload ← json_marshal body; Some (lit "POST", path, Some payload)) →
  settles (obeys cmd f)
    (λ fuel, (id_required id;; client ← ctl_client getenv f; Post reply fuel client path body);; mret (@None ClusterStatusDTO)).
Proof.
  intros Hreq. apply (settles_map _ _ (λ _, Ok None)); [|done]. unfold id_required.
  destruct (id =? 0)%Z; [by apply (settles_fail _ ErrIDRequired)|].
  apply (settles_lift _ (Ok tt) (λ _ fuel, client ← ctl_client getenv f; Post reply fuel client path body)); [done|]. intros _ _.
  apply (settles_lift _ _ (λ client fuel, Post reply fuel client path body)); [apply client_ends|]. intros c Hc. unfold Post.
  destruct (json_marshal body) as [payload|]; [|by apply settles_fail]. eapply settles_weaken; [|apply do_settles].
  intros sent sent' Hcmd. exists c, (lit "POST"), path, (Some payload). split; [done|]. split; [by rewrite Hreq|done].
Qed.
(** C35: A command ends, and does what it says.  Whatever the arguments and whatever the servers answer,
    two rounds are enough, and the outcome is the same with more.  Either nothing was sent and the
    command failed, or there was one exchange with the given server, and a second one exactly when its
    last reply names a leader and that address can be used: at that address.  Each exchange begins
    with the method, the path, the body and the token of this command and sends at most ten requests;
    a further one is sent only where a server redirects (3xx with a [Location]), is that request, that request
    without its body or a [GET] without a body, and carries the token only to the same site.  The command
    succeeds only if the last reply of all is not an error. *)
Theorem command_ends args : settles
  (λ sent sent', ∃ cmd rest f, ctl_command args = Ok (cmd, rest) ∧ parse_flags cmd rest = Some f ∧ obeys cmd f sent sent')
  (λ fuel, ctl_main reply getenv parse_flags fuel args).
Proof.
  apply (settles_lift _ (ctl_command args) (λ command fuel,
    flags ← match parse_flags command.1 command.2 with Some f => mret f | None => st_fail ErrFlags end;
    run_command reply getenv fuel command.1 flags)).
  { unfold ctl_command, runMember, runLeader. repeat (case_match; try done). }
  intros [cmd rest] Hcmd. cbn [fst snd].
  destruct (parse_flags cmd rest) as [f|] eqn:Hf; [|exact (settles_fail _ ErrFlags ltac:(done))].
  apply (settles_lift _ (Ok f) (λ flags fuel, run_command reply getenv fuel cmd flags)); [done|]. intros _ [= <-].
  apply (settles_weaken (obeys cmd f)); [intros sent sent' Ho; by exists cmd, rest, f|]. clear Hcmd Hf rest args.
  destruct cmd; cbn [run_command].
  2-5: apply change_settles; intros Hid; cbn [command_request]; unfold member_command; cbn [mc_NodeID]; by rewrite Hid.
  apply (settles_lift _ _ (λ client fuel, data ← Get reply fuel client (lit "/admin/v1/status"); st_lift (decode_out data))); [apply client_ends|].
  intros c Hc. apply settles_map; [|intros [data|]; cbn; [by destruct (json_unmarshal data)|done]].
  eapply settles_weaken; [|apply do_settles]. intros sent sent' Ho. by exists c, (lit "GET"), (lit "/admin/v1/status"), None.
Qed.
End facts.
