(* ===== verification/CtlSamples.v ===== *)
(** * A promotion that is sent on

    A follower names the leader, whose front redirects to another host: the promotion arrives there
    as a promotion, without the token of the administrator. *)
From Stdlib Require Import Ascii ZArith.
From stdpp Require Import gmap strings list.
From S2P Require Import Prelude GoStrings Codec Dto Samples Ctl CtlFacts.

(** URLs [scheme://host/path] without user, query and fragment. *)
Definition parse_url (s : str) : option URL :=
  '(scheme, rest) ← cut s scheme_sep;
  Some (match cut rest (lit "/") with
        | Some (host, path) => MkURL scheme host (lit "/" ++ path) []
        | None => MkURL scheme rest [] []
        end).
Definition host_name (u : URL) : str := match cut (u_Host u) (lit ":") with Some (host, _) => host | None => u_Host u end.
#[local] Instance simple_urls : UrlLib := {|
  url_Parse := parse_url;
  url_String u := u_Scheme u ++ scheme_sep ++ u_Host u ++ u_Path u;
  url_Hostname := host_name;
  url_ResolveReference u ref := if Contains ref scheme_sep then parse_url ref else Some (MkURL (u_Scheme u) (u_Host u) ref []);
  url_ASCIIHost := host_name
|}.
#[local] Instance error_eq_dec : EqDecision ErrorResponse.
Proof. solve_decision. Defined.
#[local] Instance envelope_eq_dec : EqDecision successEnvelope.
Proof. solve_decision. Defined.
#[local] Instance transfer_eq_dec : EqDecision LeaderTransferRequestDTO.
Proof. solve_decision. Defined.
Definition not_leader : ErrorResponse := MkErrorResponse (lit "not_leader") [] [] 2 (lit ":18081").
Definition promotion : MemberChangeRequestDTO := MkMemberChange 3 [] [] [].
#[local] Instance error_json : Json ErrorResponse := table_json [not_leader].
#[local] Instance envelope_json : Json successEnvelope := table_json [].
#[local] Instance promotion_json : Json MemberChangeRequestDTO := table_json [promotion].
#[local] Instance transfer_json : Json LeaderTransferRequestDTO := table_json [].
#[local] Instance status_json : Json ClusterStatusDTO := table_json [].

Definition promote_args : list str := [lit "member"; lit "promote"].
Definition promote_flags : CtlFlags := MkCtlFlags (lit "10.0.0.1:18080/") (lit " secret ") 3 [] [] [] 0.
Definition given (cmd : CtlCommand) (args : list str) : option CtlFlags := Some promote_flags.
Definition servers (sent : list CtlRequest) : option CtlReply :=
  match length sent with
  | 1 => Some (MkCtlReply 409 [] [quote])
  | 2 => Some (MkCtlReply 307 (lit "http://10.9.9.9:80/admin/v1/members/promote") [])
  | _ => Some (MkCtlReply 200 [] [])
  end.
Definition promote_to (base token : str) : CtlRequest :=
  MkCtlRequest (lit "POST") (base ++ lit "/admin/v1/members/promote") (Some [quote]) token.
Definition promoted : list CtlRequest :=
  [promote_to (lit "http://10.0.0.1:18080") (lit "Bearer secret"); promote_to (lit "http://10.0.0.1:18081") (lit "Bearer secret");
   promote_to (lit "http://10.9.9.9:80") []].
Lemma command_ends_witness :
  ctl_main servers (λ _, []) given 2 promote_args [] = (promoted, Ok None) ∧
  obeys servers (λ _, []) CmdPromote promote_flags [] promoted ∧ accepted servers promoted.
Proof.
  assert (ctl_main servers (λ _, []) given 2 promote_args [] = (promoted, Ok None)) as Hrun by (vm_compute; reflexivity).
  split; [exact Hrun|]. destruct (command_ends servers (λ _, []) given promote_args []) as (_&_&Hs).
  rewrite Hrun in Hs. cbn [fst snd] in Hs. destruct Hs as [[Hbad _]|[(cmd&rest&f&Hc&Hf&Ho) Hok]]; [discriminate Hbad|].
  vm_compute in Hc. injection Hc as <- <-. unfold given in Hf. injection Hf as <-. split; [exact Ho|].
  apply Hok. by exists None.
Defined.
