(* ===== verification/Daemon.v ===== *)
(** * The configuration of the daemon ([cmd/stellmapd], [internal/app/config_file.go], [ValidateConfig])

    Flags over the configuration file, the checks, the lists of peers and addresses, and the
    parts [newServerApp] makes of them.  The flag and TOML parsers, [time.ParseDuration] and the
    file system are parameters; durations are nanoseconds. *)
From Stdlib Require Import Ascii ZArith.
From stdpp Require Import gmap strings list.
From S2P Require Import Prelude GoStrings Codec Wal Engine StateMachine Pebble Snapshot RaftConfig Raft RaftNode Tracker WatchHub AddressBook Transport Dto DataNode Http Replication Membership Control Server.

Record DaemonConfig := MkDaemonConfig {
  dc_NodeID : Z; dc_ClusterID : Z; dc_Region : str; dc_DataDir : str; dc_HTTPAddr : str; dc_AdminAddr : str; dc_AdminToken : str;
  dc_ReplicationToken : str; dc_PrometheusSDToken : str; dc_ReplicationTargetsFile : str; dc_GRPCAddr : str; dc_PeerIDs : str;
  dc_PeerGRPCAddrs : str; dc_PeerHTTPAddrs : str; dc_PeerAdminAddrs : str; dc_RequestTimeout : Z; dc_ShutdownTimeout : Z;
  dc_RegistryCleanupInterval : Z; dc_RegistryCleanupDeleteLimit : Z
}.
Definition no_config : DaemonConfig := MkDaemonConfig 0 0 [] [] [] [] [] [] [] [] [] [] [] [] [] 0 0 0 0.
Inductive DaemonErr :=
  | ErrNodeID | ErrClusterID | ErrRequired (field : string) | ErrPositive (field : string) | ErrMkdir | ErrTargets (e : TargetError)
  | ErrPeerID (item : str) | ErrMapping (item : str) | ErrMappingID (id : str)
  | ErrConfigPath | ErrDecodeFile | ErrDuration (field : string) | ErrFlagParse | ErrMissing (component : string) | ErrRaftNode.

(** ** The configuration file *)
(** The tables of the file, [configFile]. *)
Record configFile := MkConfigFile {
  cf_ID : Z; cf_ClusterID : Z; cf_Region : str; cf_DataDir : str; cf_HTTPAddr : str; cf_AdminAddr : str; cf_GRPCAddr : str;
  cf_AdminToken : str; cf_ReplicationToken : str; cf_PrometheusSDToken : str; cf_PeerIDs : str; cf_PeerGRPCAddrs : str;
  cf_PeerHTTPAddrs : str; cf_PeerAdminAddrs : str; cf_CleanupInterval : str; cf_CleanupDeleteLimit : Z; cf_RequestTimeout : str;
  cf_ShutdownTimeout : str; cf_TargetsFile : str
}.
Section config.
Context (toml_DecodeFile : str → option configFile) (ParseDuration : str → option Z).
Definition duration (field : string) (raw : str) : result DaemonErr Z :=
  if bool_decide (TrimSpace raw = []) then Ok 0%Z
  else match ParseDuration (TrimSpace raw) with Some d => Ok d | None => Err (ErrDuration field) end.
Definition LoadConfigFile (path : str) : result DaemonErr DaemonConfig :=
  let path := TrimSpace path in
  if bool_decide (path = []) then Err ErrConfigPath
  else match toml_DecodeFile path with
  | None => Err ErrDecodeFile
  | Some raw =>
      interval ← duration "registry cleanup interval" (cf_CleanupInterval raw);
      request ← duration "request timeout" (cf_RequestTimeout raw);
      shutdown ← duration "shutdown timeout" (cf_ShutdownTimeout raw);
      Ok (MkDaemonConfig (cf_ID raw) (cf_ClusterID raw) (TrimSpace (cf_Region raw)) (TrimSpace (cf_DataDir raw)) (TrimSpace (cf_HTTPAddr raw))
        (TrimSpace (cf_AdminAddr raw)) (TrimSpace (cf_AdminToken raw)) (TrimSpace (cf_ReplicationToken raw)) (TrimSpace (cf_PrometheusSDToken raw))
        (TrimSpace (cf_TargetsFile raw)) (TrimSpace (cf_GRPCAddr raw)) (TrimSpace (cf_PeerIDs raw)) (TrimSpace (cf_PeerGRPCAddrs raw))
        (TrimSpace (cf_PeerHTTPAddrs raw)) (TrimSpace (cf_PeerAdminAddrs raw)) request shutdown interval (cf_CleanupDeleteLimit raw))
  end.

(** ** Flags

    [fs_Parse args]: the value of [--config], the other values, and the names of the flags that
    were given. *)
Context (fs_Parse : list str → option (str * DaemonConfig * list string)).
(** [fs.Visit]: a flag that was given overwrites its field. *)
Definition override (given : list string) (cli cfg : DaemonConfig) : DaemonConfig :=
  let pick {A} (name : string) (field : DaemonConfig → A) : A := if bool_decide (name ∈ given) then field cli else field cfg in
  MkDaemonConfig (pick "node-id" dc_NodeID) (pick "cluster-id" dc_ClusterID) (pick "region" dc_Region) (pick "data-dir" dc_DataDir)
    (pick "http-addr" dc_HTTPAddr) (pick "admin-addr" dc_AdminAddr) (pick "admin-token" dc_AdminToken)
    (pick "replication-token" dc_ReplicationToken) (pick "prometheus-sd-token" dc_PrometheusSDToken)
    (pick "replication-targets-file" dc_ReplicationTargetsFile) (pick "grpc-addr" dc_GRPCAddr) (pick "peer-ids" dc_PeerIDs)
    (pick "peer-grpc-addrs" dc_PeerGRPCAddrs) (pick "peer-http-addrs" dc_PeerHTTPAddrs) (pick "peer-admin-addrs" dc_PeerAdminAddrs)
    (pick "request-timeout" dc_RequestTimeout) (pick "shutdown-timeout" dc_ShutdownTimeout)
    (pick "registry-cleanup-interval" dc_RegistryCleanupInterval) (pick "registry-cleanup-delete-limit" dc_RegistryCleanupDeleteLimit).
Definition parseFlags (args : list str) : result DaemonErr DaemonConfig :=
  match fs_Parse args with
  | None => Err ErrFlagParse
  | Some (configPath, cli, given) =>
      cfg ← (if bool_decide (TrimSpace configPath = []) then Ok no_config else LoadConfigFile configPath);
      Ok (override given cli cfg)
  end.
End config.

(** ** Peers and addresses *)
Fixpoint add_peers (items : list str) (seen : list Z) : result DaemonErr (list Z) :=
  match items with
  | [] => Ok seen
  | item :: items =>
      let item := TrimSpace item in
      if bool_decide (item = []) then add_peers items seen
      else match ParseUint item with
      | None => Err (ErrPeerID item)
      | Some id => add_peers items (if bool_decide (id ∈ seen) then seen else seen ++ [id])
      end
  end.
Definition ch_comma : ascii := byte 44.
Definition ch_equals : ascii := byte 61.
Definition parsePeerIDs (selfID : Z) (raw : str) : result DaemonErr (list Z) :=
  peers ← add_peers (Split raw [ch_comma]) [];
  Ok (if bool_decide (selfID ∈ peers) then peers else peers ++ [selfID]).
Fixpoint add_addrs (items : list str) (addrs : addr_map) : result DaemonErr addr_map :=
  match items with
  | [] => Ok addrs
  | item :: items =>
      let item := TrimSpace item in
      if bool_decide (item = []) then add_addrs items addrs
      else match SplitN2 item [ch_equals] with
      | [key; addr] =>
          match ParseUint (TrimSpace key) with
          | None => Err (ErrMappingID key)
          | Some id => add_addrs items (<[id := TrimSpace addr]> addrs)
          end
      | _ => Err (ErrMapping item)
      end
  end.
Definition parseAddressMap (raw : str) : result DaemonErr addr_map :=
  if bool_decide (TrimSpace raw = []) then Ok ∅ else add_addrs (Split raw [ch_comma]) ∅.
Definition preferAdvertiseAddr (addrs : addr_map) (nodeID : Z) (fallback : str) : str :=
  match addrs !! nodeID with
  | Some addr => if bool_decide (TrimSpace addr = []) then TrimSpace fallback else TrimSpace addr
  | None => TrimSpace fallback
  end.

(** ** The checks *)
Section assembly.
Context `{Json (list ReplicationTarget)}.
Context (mkdir : str → bool) (read_file : str → option str).
Definition needed (field : string) (s : str) : result DaemonErr unit := fail_if (bool_decide (TrimSpace s = [])) (ErrRequired field).
Definition positive (field : string) (z : Z) : result DaemonErr unit := fail_if (z <=? 0)%Z (ErrPositive field).
Definition trim_config (cfg : DaemonConfig) : DaemonConfig :=
  MkDaemonConfig (dc_NodeID cfg) (dc_ClusterID cfg) (TrimSpace (dc_Region cfg)) (TrimSpace (dc_DataDir cfg)) (TrimSpace (dc_HTTPAddr cfg))
    (TrimSpace (dc_AdminAddr cfg)) (TrimSpace (dc_AdminToken cfg)) (TrimSpace (dc_ReplicationToken cfg)) (TrimSpace (dc_PrometheusSDToken cfg))
    (TrimSpace (dc_ReplicationTargetsFile cfg)) (TrimSpace (dc_GRPCAddr cfg)) (TrimSpace (dc_PeerIDs cfg)) (TrimSpace (dc_PeerGRPCAddrs cfg))
    (TrimSpace (dc_PeerHTTPAddrs cfg)) (TrimSpace (dc_PeerAdminAddrs cfg)) (dc_RequestTimeout cfg) (dc_ShutdownTimeout cfg)
    (dc_RegistryCleanupInterval cfg) (dc_RegistryCleanupDeleteLimit cfg).
Definition ValidateConfig (cfg : DaemonConfig) : result DaemonErr DaemonConfig :=
  fail_if (dc_NodeID cfg =? 0)%Z ErrNodeID;;
  fail_if (dc_ClusterID cfg =? 0)%Z ErrClusterID;;
  needed "region" (dc_Region cfg);; needed "data-dir" (dc_DataDir cfg);; needed "http-addr" (dc_HTTPAddr cfg);;
  needed "admin-addr" (dc_AdminAddr cfg);; needed "grpc-addr" (dc_GRPCAddr cfg);; needed "admin-token" (dc_AdminToken cfg);;
  needed "replication-token" (dc_ReplicationToken cfg);; needed "prometheus-sd-token" (dc_PrometheusSDToken cfg);;
  positive "request-timeout" (dc_RequestTimeout cfg);; positive "shutdown-timeout" (dc_ShutdownTimeout cfg);;
  positive "registry-cleanup-interval" (dc_RegistryCleanupInterval cfg);;
  positive "registry-cleanup-delete-limit" (dc_RegistryCleanupDeleteLimit cfg);;
  let cfg := trim_config cfg in
  fail_if (negb (mkdir (dc_DataDir cfg))) ErrMkdir;;
  map_err ErrTargets (LoadReplicationTargets read_file (dc_ReplicationTargetsFile cfg));;
  Ok cfg.

(** ** The parts *)
Context `{Raftpb, !Raft, !RaftBehaviour, PebbleEngine, Json MemberAddress, Json MemberChangeRequestDTO} {C : Type}.
(** [Components]; [None] is nil.  A server is given by the handlers behind it. *)
Record Components := MkComponents {
  co_Node : option RaftNode; co_HTTPServer : option (RegistryAPI * HealthAPI); co_AdminServer : option ControlAPI;
  co_GRPCServer : option unit; co_AddressBook : option AddressBook; co_PeerTransport : option PeerTransport;
  co_TransportService : option (InternalTransportService RaftNode); co_RegistryWatchHub : option Hub; co_ReplicationTracker : option Tracker
}.
(** The address book is the one the peer transport holds. *)
Record App := MkApp {
  ap_cfg : DaemonConfig; ap_members : Members RaftNode; ap_http : RegistryAPI * HealthAPI; ap_admin : ControlAPI;
  ap_registryWatchHub : Hub; ap_replicationTracker : Tracker; ap_replicationTargets : list ReplicationTarget
}.
Definition present {A} (o : option A) (component : string) : result DaemonErr A :=
  match o with Some a => Ok a | None => Err (ErrMissing component) end.
Definition NewApp (cfg : DaemonConfig) (components : Components) : result DaemonErr App :=
  validated ← ValidateConfig cfg;
  node ← present (co_Node components) "node";
  http ← present (co_HTTPServer components) "http server";
  admin ← present (co_AdminServer components) "admin server";
  present (co_GRPCServer components) "grpc server";;
  present (co_AddressBook components) "address book";;
  peers ← present (co_PeerTransport components) "peer transport";
  present (co_TransportService components) "transport service";;
  let hub := default NewWatchHub (co_RegistryWatchHub components) in
  let tracker := default NewTracker (co_ReplicationTracker components) in
  targets ← map_err ErrTargets (LoadReplicationTargets read_file (dc_ReplicationTargetsFile validated));
  Ok (MkApp validated (MkMembers node peers) http admin hub tracker targets).
Definition raft_config (cfg : DaemonConfig) (peers : list Z) : Config :=
  MkConfig (dc_NodeID cfg) (dc_ClusterID cfg) (dc_DataDir cfg) peers 0 0 0 0 0 0 0 0 0 0 0 0.
Definition initial_book (cfg : DaemonConfig) (httpAddrs grpcAddrs adminAddrs : addr_map) : AddressBook :=
  Set_ (NewAddressBook httpAddrs grpcAddrs adminAddrs) (dc_NodeID cfg)
    (preferAdvertiseAddr httpAddrs (dc_NodeID cfg) (dc_HTTPAddr cfg))
    (preferAdvertiseAddr grpcAddrs (dc_NodeID cfg) (dc_GRPCAddr cfg))
    (preferAdvertiseAddr adminAddrs (dc_NodeID cfg) (dc_AdminAddr cfg)).
(** The handlers; the node, the hub and the transport are the state that they run on. *)
Definition NewRegistryHandler (httpAddr : str) (book : AddressBook) (sourceRegion sourceCluster replicationToken prometheusSDToken : str) : RegistryAPI :=
  MkRegistryAPI httpAddr book sourceRegion sourceCluster replicationToken prometheusSDToken.
Definition NewHealthHandler (httpAddr : str) (book : AddressBook) (metricsHandler : Request → Response) : HealthAPI :=
  MkHealthAPI httpAddr book (Some metricsHandler).
Definition NewControlHandler (clusterID : Z) (adminAddr : str) (replicationTracker : Tracker) : ControlAPI :=
  MkControlAPI clusterID adminAddr (Some replicationTracker).
Context (metricsHandler : Request → Response).
Definition newServerApp (disk : Disk) (cfg : DaemonConfig) : result DaemonErr App :=
  validated ← ValidateConfig cfg;
  peers ← parsePeerIDs (dc_NodeID validated) (dc_PeerIDs validated);
  httpAddrByID ← parseAddressMap (dc_PeerHTTPAddrs validated);
  grpcAddrByID ← parseAddressMap (dc_PeerGRPCAddrs validated);
  adminAddrByID ← parseAddressMap (dc_PeerAdminAddrs validated);
  let book := initial_book validated httpAddrByID grpcAddrByID adminAddrByID in
  node ← map_err (λ _, ErrRaftNode) (RaftNode.New (raft_config validated peers) disk);
  let peerTransport := NewPeerTransport (dc_NodeID validated) book DefaultSnapshotChunk in
  let registry := NewRegistryHandler (dc_HTTPAddr validated) book (dc_Region validated) (FormatUint (dc_ClusterID validated))
                    (dc_ReplicationToken validated) (dc_PrometheusSDToken validated) in
  let health := NewHealthHandler (dc_HTTPAddr validated) book metricsHandler in
  let control := NewControlHandler (dc_ClusterID validated) (dc_AdminAddr validated) NewTracker in
  NewApp validated (MkComponents (Some node) (Some (registry, health)) (Some control) (Some tt) (Some book) (Some peerTransport)
    (Some (NewInternalTransportService node)) (Some NewWatchHub) (Some NewTracker)).
(** The handler of the admin listener. *)
Context (close : str → option C) (decode_member : str → option MemberChangeRequestDTO) (decode_transfer : str → option LeaderTransferRequestDTO).
Definition control_handler (h : ControlAPI) : ControlHandler (S:=Members RaftNode) :=
  MkControlHandler (Status h) (ReplicationStatus h) (AddLearner close decode_member h) (PromoteLearner decode_member h)
    (RemoveMember decode_member h) (TransferLeader decode_transfer h).
Definition admin_handler (app : App) : HTTPRequest → Members RaftNode * HTTPServerMetrics → (Members RaftNode * HTTPServerMetrics) * Response :=
  adminAuthMiddleware (dc_AdminToken (ap_cfg app)) (server_Handler (WithMetrics (NewAdminServer (Some (control_handler (ap_admin app)))))).
End assembly.
