(* ===== verification/DaemonFacts.v ===== *)
(** * A configured cluster

    Lists of peers and address maps survive being written and parsed, and what [newServerApp]
    accepts has a token on every guarded surface and knows its own addresses. *)
From Stdlib Require Import Ascii ZArith.
From stdpp Require Import gmap strings list.
From S2P Require Import Prelude GoStrings Codec Wal Engine StateMachine Pebble Snapshot RaftConfig Raft RaftNode Tracker AddressBook Transport Dto DataNode Http Watch Prometheus Replication Membership MembershipFacts Control Server ControlFacts Daemon.

(** ** Decimal items *)

(** ** Peers *)
Lemma add_peers_written ids seen : Forall is_u64 ids → NoDup (seen ++ ids) → add_peers (FormatUint <$> ids) seen = Ok (seen ++ ids).
Proof.
  intros Hu. revert seen; induction Hu as [|id ids Hid _ IH]; intros seen Hnd; cbn [fmap list_fmap add_peers]; [by rewrite app_nil_r|].
  rewrite (FormatUint_trimmed id), bool_decide_false, ParseUint_FormatUint by (done || by apply FormatUint_nonempty).
  rewrite bool_decide_false.
  - rewrite IH; rewrite <- app_assoc; done.
  - intros Hin. apply NoDup_app in Hnd as (_&Hd&_). apply (Hd id Hin). by left.
Qed.
Lemma add_peers_spec items seen peers : add_peers items seen = Ok peers → NoDup seen →
  NoDup peers ∧ ∀ id, id ∈ peers ↔ id ∈ seen ∨ ∃ item, item ∈ items ∧ ParseUint (TrimSpace item) = Some id.
Proof.
  revert seen; induction items as [|item items IH]; intros seen Hp Hnd; cbn [add_peers] in Hp.
  - injection Hp as <-. split; [done|]. intros id. split; [by left|]. intros [?|(?&?%elem_of_nil&_)]; done.
  - destruct (bool_decide_reflect (TrimSpace item = [])) as [Hb|Hb].
    + destruct (IH _ Hp Hnd) as [H1 H2]. split; [done|]. intros id. rewrite H2. split.
      * intros [?|(i&?&?)]; [by left|right]. exists i. split; [by right|done].
      * intros [?|(i&[->|?]%elem_of_cons&Hpi)]; [by left| |right; by exists i]. by rewrite Hb in Hpi.
    + destruct (ParseUint (TrimSpace item)) as [z|] eqn:Hz; [|done].
      assert (Hnd' : NoDup (if bool_decide (z ∈ seen) then seen else seen ++ [z])).
      { case_bool_decide as Hin; [done|]. apply NoDup_app. split; [done|]. split; [|apply NoDup_singleton].
        intros x Hx ->%list_elem_of_singleton. done. }
      destruct (IH _ Hp Hnd') as [H1 H2]. split; [done|]. intros id. rewrite H2.
      assert (Hseen : id ∈ (if bool_decide (z ∈ seen) then seen else seen ++ [z]) ↔ id ∈ seen ∨ id = z).
      { case_bool_decide; [|by rewrite elem_of_app, list_elem_of_singleton]. split; [by left|]. by intros [?| ->]. }
      rewrite Hseen. split.
      * intros [[?| ->]|(i&?&?)]; [by left|right; exists item; split; [by left|done]|right; exists i; split; [by right|done]].
      * intros [?|(i&[->|?]%elem_of_cons&Hpi)]; [by left; left| |right; by exists i]. rewrite Hz in Hpi. injection Hpi as ->. by left; right.
Qed.

Lemma parsePeerIDs_ok self raw peers : parsePeerIDs self raw = Ok peers → NoDup peers ∧ self ∈ peers.
Proof.
  intros (ids&Hids&[= <-])%result_bind_ok. destruct (add_peers_spec _ _ _ Hids) as [Hnd _]; [constructor|].
  case_bool_decide as Hin; [done|]. split; [|apply elem_of_app; right; by left].
  apply NoDup_app. split; [done|]. split; [|apply NoDup_singleton]. by intros x Hx ->%list_elem_of_singleton.
Qed.

(** ** Addresses *)
Definition written_addr (p : Z * str) : str := FormatUint p.1 ++ ch_equals :: p.2.
Definition good_addr (a : str) : Prop := trimmed a ∧ ch_comma ∉ a.
Lemma written_trimmed p : is_u64 p.1 → good_addr p.2 → trimmed (written_addr p).
Proof.
  intros Hu [[_ Ht]%trimmed_iff _]. apply trimmed_iff. unfold written_addr. split.
  - destruct (FormatUint p.1) as [|c s] eqn:E; [by apply FormatUint_nonempty in E|]. apply no_lead_graphic.
    pose proof (FormatUint_graphic p.1) as Hg. rewrite E in Hg. by apply Forall_cons in Hg as [? _].
  - by apply no_trail_app_graphic.
Qed.
Lemma add_addrs_written l m : Forall (λ p : Z * str, is_u64 p.1 ∧ good_addr p.2) l → add_addrs (written_addr <$> l) m = Ok (fold_left (λ m p, <[p.1 := p.2]> m) l m).
Proof.
  intros Hl. revert m; induction Hl as [|[id a] l [Hid Ha] _ IH]; intros m; [done|]. cbn [fmap list_fmap add_addrs fold_left].
  rewrite (written_trimmed (id, a) Hid Ha). rewrite bool_decide_false.
  2: { unfold written_addr. cbn. destruct (FormatUint id) eqn:E; [by apply FormatUint_nonempty in E|done]. }
  unfold SplitN2. unfold written_addr at 1. cbn [fst snd].
  change (FormatUint id ++ ch_equals :: a) with (FormatUint id ++ [ch_equals] ++ a).
  rewrite (cut_head ch_equals [] (FormatUint id) a) by by apply FormatUint_no.
  rewrite (FormatUint_trimmed id), ParseUint_FormatUint by done. destruct Ha as [Ha _]. rewrite Ha. apply IH.
Qed.

(** Inserting all bindings of a map, in any order. *)
Lemma insert_all_lookup (l : list (Z * str)) (m : addr_map) k : NoDup l.*1 →
  fold_left (λ m p, <[p.1 := p.2]> m) l m !! k = match (list_to_map l : addr_map) !! k with Some a => Some a | None => m !! k end.
Proof.
  revert m; induction l as [|[id a] l IH]; intros m Hnd; [done|]. apply NoDup_cons in Hnd as [Hid Hnd]. cbn [fold_left list_to_map foldr fst snd].
  rewrite IH by done. destruct (decide (k = id)) as [->|Hne].
  - rewrite lookup_insert_eq, lookup_insert_eq. by rewrite (not_elem_of_list_to_map_1 l id Hid).
  - by rewrite !lookup_insert_ne.
Qed.
Lemma range_fold `{GoRange} (m : addr_map) : fold_left (λ m p, <[p.1 := p.2]> m) (range m) ∅ = m.
Proof.
  apply map_eq. intros k. assert (Hnd : NoDup (range m).*1) by (rewrite range_perm; apply NoDup_fst_map_to_list).
  rewrite insert_all_lookup by done. rewrite (list_to_map_proper _ (map_to_list m)) by (done || apply range_perm).
  rewrite list_to_map_to_list, lookup_empty. by destruct (m !! k).
Qed.
(** What an operator writes is what the cluster runs with: a list of distinct node ids, and any
    map from node ids to addresses that are trimmed and have no comma, written in any order, are
    parsed back; the node itself is added to the peers when it is missing. *)
Theorem cluster_roundtrip `{GoRange} self ids (addrs : addr_map) :
  Forall is_u64 ids → NoDup ids → ids ≠ [] → map_Forall (λ id a, is_u64 id ∧ good_addr a) addrs →
  parsePeerIDs self (Join (FormatUint <$> ids) [ch_comma]) = Ok (if bool_decide (self ∈ ids) then ids else ids ++ [self]) ∧
  parseAddressMap (Join (written_addr <$> range addrs) [ch_comma]) = Ok addrs.
Proof.
  intros Hu Hnd Hne Haddrs. split.
  - unfold parsePeerIDs. rewrite Split_Join.
    + by rewrite add_peers_written.
    + by destruct ids.
    + apply Forall_fmap, Forall_forall. intros id _. by apply FormatUint_no.
  - assert (Hall : Forall (λ p : Z * str, is_u64 p.1 ∧ good_addr p.2) (range addrs)).
    { apply Forall_forall. intros [id a] Hin. rewrite range_perm in Hin. apply elem_of_map_to_list in Hin. by apply Haddrs. }
    unfold parseAddressMap. destruct (decide (range addrs = [])) as [Hr|Hr].
    { rewrite Hr. assert (addrs = ∅) as ->; [|done]. apply map_to_list_empty_iff. pose proof (range_perm addrs) as Hp. rewrite Hr in Hp.
      by apply Permutation_nil in Hp. }
    rewrite bool_decide_false.
    + rewrite Split_Join.
      * rewrite add_addrs_written by done. f_equal. rewrite range_fold. done.
      * by destruct (range addrs).
      * apply Forall_fmap. eapply Forall_impl; [exact Hall|]. intros [id a] [_ [_ Hc]]. cbn. unfold written_addr. cbn.
        rewrite not_elem_of_app, not_elem_of_cons. split; [by apply FormatUint_no|]. by split.
    + rewrite Join_trimmed; [|apply Forall_fmap; eapply Forall_impl; [exact Hall|]; intros p [??]; by apply written_trimmed|done].
      destruct (range addrs) as [|p l] eqn:E; [done|]. intros Hj. cbn in Hj. assert (Hpu : is_u64 p.1) by (apply Forall_cons in Hall; tauto).
      destruct l; cbn in Hj; unfold written_addr in Hj; destruct (FormatUint p.1) eqn:Hf; try done; by apply FormatUint_nonempty in Hf.
Qed.

(** ** What [newServerApp] accepts *)
Section assembly.
Context `{Json (list ReplicationTarget)}.
Context (mkdir : str → bool) (read_file : str → option str).
Lemma needed_ok field s u : needed field s = Ok u → TrimSpace s ≠ [].
Proof. unfold needed. intros Hn%fail_if_ok. by apply bool_decide_eq_false in Hn. Qed.
(** A validated configuration: its addresses and tokens are trimmed and not blank. *)
Definition solid_field (s : str) : Prop := trimmed s ∧ s ≠ [].
Record validated (c : DaemonConfig) : Prop := {
  val_NodeID : dc_NodeID c ≠ 0%Z;
  val_HTTP : solid_field (dc_HTTPAddr c); val_GRPC : solid_field (dc_GRPCAddr c); val_Admin : solid_field (dc_AdminAddr c);
  val_AdminToken : solid_field (dc_AdminToken c); val_ReplicationToken : solid_field (dc_ReplicationToken c);
  val_SDToken : solid_field (dc_PrometheusSDToken c)
}.
Lemma solid_trim s : TrimSpace s ≠ [] → solid_field (TrimSpace s).
Proof. split; [apply TrimSpace_trimmed|done]. Qed.
Lemma ValidateConfig_ok cfg c : ValidateConfig mkdir read_file cfg = Ok c → validated c ∧ c = trim_config cfg.
Proof.
  unfold ValidateConfig. intros Hv. do 16 (rewrite result_bind_ok in Hv; destruct Hv as (?&?&Hv)). injection Hv as <-.
  repeat match goal with Hn : needed _ _ = Ok _ |- _ => apply needed_ok in Hn end.
  split; [|done]. split; cbn; try by apply solid_trim.
  match goal with Hn : fail_if (dc_NodeID cfg =? 0)%Z _ = Ok _ |- _ => apply fail_if_ok in Hn; by apply Z.eqb_neq in Hn end.
Qed.
Lemma trim_config_twice cfg : trim_config (trim_config cfg) = trim_config cfg.
Proof. unfold trim_config. cbn. by rewrite !TrimSpace_idemp. Qed.
Lemma prefer_nonempty addrs id fallback : solid_field fallback → preferAdvertiseAddr addrs id fallback ≠ [].
Proof. intros [Ht Hf]. unfold preferAdvertiseAddr. case_match; [case_bool_decide|]; try done; by rewrite Ht. Qed.
Lemma addr_of_set_self id addr m : addr ≠ [] → addr_of (set_addr id addr m) id = addr.
Proof. intros Ha. rewrite addr_of_set. by rewrite bool_decide_true. Qed.
(** A guard with a real token: it wants exactly that token. *)
Definition guards (token : str) (authorized : Request → bool) : Prop :=
  solid_field token ∧ ∀ r, authorized r = true ↔ TrimSpace (rq_Header r (lit "Authorization")) = lit "Bearer " ++ token.

Context `{Raftpb, !Raft, !RaftBehaviour, PebbleEngine, Json MemberAddress, Json MemberChangeRequestDTO}.
Context (metricsHandler : Request → Response).
(** C36: What the daemon starts with.  When [newServerApp] accepts a configuration, raft gets a list
    of distinct peers that has the node itself; the book has all three addresses of the node; and
    the replication stream, the service discovery and the control plane are each guarded by a
    token that is not blank. *)
Theorem newServerApp_sound disk cfg app : newServerApp mkdir read_file metricsHandler disk cfg = Ok app →
  let c := ap_cfg app in
  let members := ap_members app in
  let self := dc_NodeID c in
  self ≠ 0%Z ∧ NoDup (cfg_Peers (rn_cfg (am_node members))) ∧ self ∈ cfg_Peers (rn_cfg (am_node members)) ∧
  (let '(http, grpc, admin) := addrs_of (book members) self in http ≠ [] ∧ grpc ≠ [] ∧ admin ≠ []) ∧
  guards (dc_AdminToken c) (λ r, isAuthorizedAdminRequest r (dc_AdminToken c)) ∧
  guards (dc_ReplicationToken c) (isAuthorizedReplicationRequest ((ap_http app).1)) ∧
  guards (dc_PrometheusSDToken c) (isAuthorizedPrometheusSDRequest ((ap_http app).1)).
Proof.
  unfold newServerApp. intros Hn.
  apply result_bind_ok in Hn as (c&[Hc Htrim]%ValidateConfig_ok&Hn).
  assert (Hcc : trim_config c = c) by (rewrite Htrim; apply trim_config_twice). clear Htrim. apply result_bind_ok in Hn as (peers&Hpeers&Hn).
  apply result_bind_ok in Hn as (hs&_&Hn). apply result_bind_ok in Hn as (gs&_&Hn). apply result_bind_ok in Hn as (ads&_&Hn).
  apply result_bind_ok in Hn as (node&Hnode%map_err_ok&Hn). unfold NewApp in Hn.
  apply result_bind_ok in Hn as (c2&[_ ->]%ValidateConfig_ok&Hn). rewrite Hcc in Hn. cbn [present mbind result_bind co_Node co_HTTPServer co_AdminServer co_GRPCServer co_AddressBook co_PeerTransport co_TransportService] in Hn.
  apply result_bind_ok in Hn as (targets&_&[= <-]). cbn [ap_cfg ap_members ap_http am_node fst].
  apply parsePeerIDs_ok in Hpeers as [Hnd Hself]. destruct Hc as [Hid Hh Hg Ha Hat Hrt Hst].
  assert (Hcfg : cfg_Peers (rn_cfg node) = peers).
  { unfold RaftNode.New in Hnode. destruct (Validate _); [|done]. injection Hnode as <-. cbn. destruct peers; [by apply elem_of_nil in Hself|done]. }
  rewrite Hcfg. split; [done|split; [done|split; [done|]]]. split; [|split; [|split]].
  - unfold addrs_of, book. cbn [am_peers]. unfold NewPeerTransport, initial_book, HTTPAddr, GRPCAddr, AdminAddr, Set_.
    cbn [pt_book httpByID grpcByID adminByID]. rewrite !addr_of_set_self by by apply prefer_nonempty.
    split; [by apply prefer_nonempty|]. split; by apply prefer_nonempty.
  - split; [done|]. intros r. rewrite isAuthorized_holds. unfold holds_token. destruct Hat as [-> Hne]. tauto.
  - split; [done|]. intros r. unfold isAuthorizedReplicationRequest, NewRegistryHandler. cbn [h_replicateAuth]. destruct Hrt as [-> Hne].
    rewrite bool_decide_false by done. by rewrite bool_decide_eq_true.
  - split; [done|]. intros r. unfold isAuthorizedPrometheusSDRequest, NewRegistryHandler. cbn [h_promSDAuth]. destruct Hst as [-> Hne].
    rewrite bool_decide_false by done. cbn [negb andb]. by rewrite bool_decide_eq_true.
Qed.
End assembly.
