(* ===== verification/DaemonSamples.v ===== *)
(** * One configured node: instances of the theorems on the configuration *)
From Stdlib Require Import Ascii ZArith.
From stdpp Require Import gmap strings countable list.
From S2P Require Import Prelude GoStrings Codec Wal WalLog Engine StateMachine Pebble Snapshot RaftConfig Raft RaftNode WatchHub Tracker AddressBook Transport Dto Http Watch Prometheus Samples Replication Membership MembershipFacts Control Server Daemon DaemonFacts.

#[local] Existing Instances bits_raftpb memory_raft quiet_node memory_engine range_by_key.
Definition two_nodes : addr_map := {[ 1%Z := lit "10.0.0.1:8080"; 2%Z := lit "[fe80::1]:8080" ]}.
Lemma cluster_roundtrip_witness :
  parsePeerIDs 3 (lit "1,2") = Ok [1; 2; 3]%Z ∧
  parseAddressMap (Join (written_addr <$> range two_nodes) [ch_comma]) = Ok two_nodes.
Proof.
  apply (cluster_roundtrip 3 [1; 2]%Z two_nodes).
  - apply (bool_decide_unpack _). vm_compute. exact I.
  - apply (bool_decide_unpack _). vm_compute. exact I.
  - done.
  - apply map_Forall_insert_2; [|apply map_Forall_singleton]; (split; [by vm_compute|]); split; apply (bool_decide_unpack _); vm_compute; exact I.
Defined.

#[local] Instance service_eq_dec : EqDecision ReplicationService.
Proof. solve_decision. Defined.
#[local] Instance target_eq_dec : EqDecision ReplicationTarget.
Proof. solve_decision. Defined.
#[local] Instance targets_json : Json (list ReplicationTarget) := table_json [].
Definition node_config : DaemonConfig := MkDaemonConfig 1 7 (lit "cn-sh") (lit "/data") (lit " 10.0.0.1:8080") (lit "127.0.0.1:18080") (lit "admin ")
  (lit "repl") (lit "prom") [] (lit "10.0.0.1:19090") (lit "1,2") [] (lit "2=10.0.0.2:8080") [] 5 10 1 100.
Definition empty_disk : Disk := @MkDisk memory_engine ∅ ∅ (∅ : gmap str str).
Definition no_metrics (r : Request) : Response := MkResponse StatusOK BodyNone.
Definition node_app : result DaemonErr App := newServerApp (λ _, true) (λ _, None) no_metrics empty_disk node_config.
Definition fallback_app : App := MkApp no_config (MkMembers RaftReads.idle_node (NewPeerTransport 1 (MkBook ∅ ∅ ∅) 0))
  (MkRegistryAPI [] (MkBook ∅ ∅ ∅) [] [] [] [], MkHealthAPI [] (MkBook ∅ ∅ ∅) None) (MkControlAPI 0 [] None) NewWatchHub NewTracker [].
Definition started_app : App := match node_app with Ok app => app | Err _ => fallback_app end.
Lemma newServerApp_sound_witness :
  let c := ap_cfg started_app in
  let members := ap_members started_app in
  let self := dc_NodeID c in
  self ≠ 0%Z ∧ NoDup (cfg_Peers (rn_cfg (am_node members))) ∧ self ∈ cfg_Peers (rn_cfg (am_node members)) ∧
  (let '(http, grpc, admin) := addrs_of (book members) self in http ≠ [] ∧ grpc ≠ [] ∧ admin ≠ []) ∧
  guards (dc_AdminToken c) (λ r, isAuthorizedAdminRequest r (dc_AdminToken c)) ∧
  guards (dc_ReplicationToken c) (isAuthorizedReplicationRequest ((ap_http started_app).1)) ∧
  guards (dc_PrometheusSDToken c) (isAuthorizedPrometheusSDRequest ((ap_http started_app).1)).
Proof. apply (newServerApp_sound (λ _, true) (λ _, None) no_metrics empty_disk node_config started_app). reflexivity. Defined.
