(* ===== verification/AppLife.v ===== *)
(** * The life of the application ([internal/app/app.go])

    Start, the iterations of the background loops, and the ordered stop.  The loops run as
    goroutines; an iteration is one step here, in any order.  Listening, serving and shutting
    down a server are parameters of the steps. *)
From Stdlib Require Import Ascii ZArith.
From stdpp Require Import gmap strings list.
From S2P Require Import Prelude GoStrings Codec Wal Engine StateMachine Pebble Snapshot RaftConfig Raft RaftNode RegistryModel WatchHub Cleanup AddressBook Transport Dto DataNode Http Watch Replication Membership MembershipSamples.

Section app.
Context `{Raftpb, !Raft, !RaftBehaviour, PebbleEngine, GoRange}.
Context `{Json MemberAddress, Json snapshotPayload, Json (list KV), Json Command, Json Snapshot.Metadata, Json Value}.
Context {C : Type} (is_MsgSnap : Message → bool) (msg_Snapshot : Message → RaftSnapshot).
Context (dial : str → option C) (rpc : list Rpc → Rpc → option C) (close : str → option C) (left_in : str → MemberChangeRequestDTO).
Inductive Service := ServiceGRPC | ServiceHTTP | ServiceAdmin.
Inductive AppErr := EAppNode (e : NodeErr) | EListen | EServe (service : Service) | EShutdown (service : Service) | EPeers (e : ForwardErr C).
Record AppState := MkAppState {
  as_members : Members RaftNode; as_listening : bool; as_running : bool; as_shutdown : bool;
  as_errCh : list AppErr; as_published : list WatchEvent; as_cursor : CleanupCursor
}.
Abbreviation AM := (ST AppState AppErr).
Definition set_members (m : Members RaftNode) (s : AppState) : AppState :=
  MkAppState m (as_listening s) (as_running s) (as_shutdown s) (as_errCh s) (as_published s) (as_cursor s).
Definition set_life (listening running shutdown : bool) (s : AppState) : AppState :=
  MkAppState (as_members s) listening running shutdown (as_errCh s) (as_published s) (as_cursor s).
Definition set_events (errCh : list AppErr) (published : list WatchEvent) (cursor : CleanupCursor) (s : AppState) : AppState :=
  MkAppState (as_members s) (as_listening s) (as_running s) (as_shutdown s) errCh published cursor.
Definition on_members {A} (m : ST (Members RaftNode) NodeErr A) : AM A := λ s,
  let '(ms, r) := m (as_members s) in (set_members ms s, map_err EAppNode r).

(** ** Start *)
(** On an error the node is stopped, whatever that says. *)
Definition stop_node : AM unit := on_members (on_store RaftNode.Stop).
Definition or_stop {A} (m : AM A) : AM A := λ s,
  match m s with
  | (s, Ok a) => (s, Ok a)
  | (s, Err e) => ((stop_node s).1, Err e)
  end.
(** [listens]: the gRPC address can be bound. *)
Definition app_Start (listens : bool) : AM unit :=
  on_members (on_store RaftNode.Start);;
  or_stop (on_members restorePersistedMemberAddresses);;
  or_stop (on_members persistCurrentAddressBook);;
  or_stop (if listens then mret tt else st_fail EListen);;
  st_modify (λ s, set_life true true (as_shutdown s) s).

(** ** The loops *)
(** The channel of errors holds four; what does not fit is dropped. *)
Definition errCh_capacity : nat := 4.
Definition pushErr (e : AppErr) (s : AppState) : AppState :=
  set_events (if (length (as_errCh s) <? errCh_capacity)%nat then as_errCh s ++ [e] else as_errCh s) (as_published s) (as_cursor s) s.
(** A server that ended with an error, unless it was closed. *)
Definition serve_end (service : Service) (failed : bool) (s : AppState) : AppState := if failed then pushErr (EServe service) s else s.
Definition forward_ready (ready : Ready) (s : AppState) : AppState :=
  let m := applyCommittedControlEntries (E:=NodeErr) left_in close (r_CommittedEntries ready) (as_members s) in
  let published := as_published s ++ publishRegistryEvents (r_CommittedEntries ready) in
  let '(peers, _) := Forward is_MsgSnap msg_Snapshot dial rpc ready (am_peers m) in
  set_events (as_errCh s) published (as_cursor s) (set_members (MkMembers (am_node m) peers) s).
(** The scan and the proposals of a round, and the leadership before each item. *)
Definition cleanup_tick (limit now : Z) (scan : str → str → Z → result NodeErr (list KV)) (propose : Command → option NodeErr)
    (leader : nat → bool) (s : AppState) : AppState * list Command :=
  if leads (node_Status (am_node (as_members s))) then
    let '(cursor, cmds, _) := CleanupExpiredRegistry scan propose leader limit now (as_cursor s) in
    (set_events (as_errCh s) (as_published s) cursor s, cmds)
  else (s, []).
(** [ANode]: the goroutine of the node has run and left it as [nd]. *)
Inductive AppEvent :=
  | AReady (ready : Ready)
  | ACleanup (limit now : Z) (scan : str → str → Z → result NodeErr (list KV)) (propose : Command → option NodeErr) (leader : nat → bool)
  | AServe (service : Service) (failed : bool)
  | ANode (nd : RaftNode).
Definition app_step (s : AppState) (event : AppEvent) : AppState :=
  match event with
  | AReady ready => forward_ready ready s
  | ACleanup limit now scan propose leader => (cleanup_tick limit now scan propose leader s).1
  | AServe service failed => serve_end service failed s
  | ANode nd => set_members (MkMembers nd (am_peers (as_members s))) s
  end.

(** ** Stop *)
(** The errors of the steps are collected; none keeps the next step from running. *)
Definition joining {A} (m : AM A) (errs : list AppErr) : ST AppState Empty_set (list AppErr) := λ s,
  match m s with (s, Ok _) => (s, Ok errs) | (s, Err e) => (s, Ok (errs ++ [e])) end.
Definition shutdown_server (service : Service) (fails : bool) : AM unit := if fails then st_fail (EShutdown service) else mret tt.
Definition close_peers (errs : list AppErr) : ST AppState Empty_set (list AppErr) := λ s,
  let '(peers, closed) := Transport.Close close (am_peers (as_members s)) in
  (set_members (MkMembers (am_node (as_members s)) peers) s, Ok (errs ++ (EPeers <$> closed))).
(** Only the first call does anything.  [fails]: the shutdown of a server fails; for gRPC, the
    graceful stop does not end in time. *)
Definition app_Stop (fails : Service → bool) : ST AppState Empty_set (list AppErr) :=
  s ← st_get;
  if as_shutdown s then mret []
  else
    st_modify (λ s, set_life (as_listening s) false true s);;
    errs ← joining (on_members persistCurrentAddressBook) [];
    errs ← joining (shutdown_server ServiceHTTP (fails ServiceHTTP)) errs;
    errs ← joining (shutdown_server ServiceAdmin (fails ServiceAdmin)) errs;
    errs ← joining (shutdown_server ServiceGRPC (fails ServiceGRPC)) errs;
    errs ← close_peers errs;
    joining stop_node errs.

(** ** The process ([cmd/stellmapd/main.go])

    The goroutine that the start of the node leaves behind: when the context of [main] ends it stops
    the node, whose loop ends and closes the stores. *)
Definition ctx_done (nd : RaftNode) : RaftNode := ((RaftNode.Stop;; run_exit) nd).1.
(** What wakes [main]: a signal, which ends that context, so that the node may be done before
    [app_Stop] writes; or an error of a server.  The exit code is that of [log.Fatalf] or of a return. *)
Inductive Wake := WSignal (node_first : bool) | WError (e : AppErr).
Definition main_ends (fails : Service → bool) (wake : Wake) (s : AppState) : AppState * Z :=
  let s := match wake with
           | WSignal true => set_members (MkMembers (ctx_done (am_node (as_members s))) (am_peers (as_members s))) s
           | _ => s
           end in
  match app_Stop fails s with
  | (s, Ok []) => (s, 0%Z)
  | (s, _) => (s, 1%Z)
  end.
End app.
