(* ===== verification/AppLifeFacts.v ===== *)
(** * A clean stop loses no address

    Whatever was committed while the application ran, its stop writes the book back; the next
    start, with any configuration, knows every address again. *)
From Stdlib Require Import Ascii ZArith.
From stdpp Require Import gmap strings list.
From S2P Require Import Prelude GoStrings Codec Wal Engine StateMachine Pebble Snapshot RaftConfig Raft RaftNode RegistryModel WatchHub Cleanup AddressBook Transport Dto DataNode Http Watch Replication Membership MembershipFacts MembershipSamples AppLife.

Section facts.
Context `{Raftpb, !Raft, !RaftBehaviour, PebbleEngine, GoRange}.
Context `{Json MemberAddress, Json snapshotPayload, Json (list KV), Json Command, Json Snapshot.Metadata, Json Value}.
Context {C : Type} (is_MsgSnap : Message → bool) (msg_Snapshot : Message → RaftSnapshot).
Context (dial : str → option C) (rpc : list Rpc → Rpc → option C) (close : str → option C) (left_in : str → MemberChangeRequestDTO).
Hypothesis all_faithful : ∀ a : MemberAddress, json_faithful a.
Abbreviation table s t := (records (rn_kv (am_node (as_members s))) t).
Abbreviation the_book s := (book (as_members s)).
Implicit Types s : AppState (C:=C).
Lemma storable_all id http grpc admin : is_u64 id → mb_storable (Nd:=RaftNode) (E:=NodeErr) (MkMember id http grpc admin).
Proof. by split. Qed.
(** Stopping the node, closing the clients and shutting servers down touch neither records nor book. *)
Lemma stop_node_keeps s : rn_kv (am_node (as_members (stop_node s).1)) = rn_kv (am_node (as_members s)) ∧ the_book (stop_node s).1 = the_book s.
Proof.
  unfold stop_node, on_members, on_store, RaftNode.Stop, mbind, ST_bind, st_get.
  destruct (rn_started _); cbn [negb]; [|done]. by destruct (rn_stopped _).
Qed.
Lemma joining_inv {A} (m : ST AppState AppErr A) errs s s' errs' : joining m errs s = (s', Ok errs') → s' = (m s).1 ∧
  (errs' = errs ∧ is_ok (m s).2 ∨ ∃ e, errs' = errs ++ [e]).
Proof.
  unfold joining. destruct (m s) as [s1 [a|e]]; intros [= <- <-]; (split; [done|]); [left|right; by eexists]. split; [done|]. by eexists.
Qed.
Lemma on_members_run {A} (m : ST (Members RaftNode) NodeErr A) s :
  as_members (on_members m s).1 = (m (as_members s)).1 ∧ (on_members (C:=C) m s).2 = map_err EAppNode (m (as_members s)).2.
Proof. unfold on_members. by destruct (m (as_members s)). Qed.
(** What a stop without an error has done: every step succeeded, in this order. *)
Lemma Stop_clean fails s s' : as_shutdown s = false → app_Stop close fails s = (s', Ok []) →
  ∃ m2 u, persistCurrentAddressBook (E:=NodeErr) (as_members s) = (m2, Ok u) ∧
    let s2 := set_members (MkMembers (am_node m2) (Transport.Close close (am_peers m2)).1) (set_life (as_listening s) false true s) in
    s' = (stop_node s2).1 ∧ is_ok (stop_node s2).2.
Proof.
  intros Hdown Hrun. unfold app_Stop in Hrun. run Hrun as s0 s0' Hget. injection Hget as <- <-. rewrite Hdown in Hrun.
  run Hrun as s1 u1 Hmod. injection Hmod as <- _. run Hrun as s2 e2 Hj2. run Hrun as s3 e3 Hj3. run Hrun as s4 e4 Hj4.
  run Hrun as s5 e5 Hj5. run Hrun as s6 e6 Hclose.
  apply joining_inv in Hrun as [-> Hrun]. destruct Hrun as [[<- Hnode]|(e&Hbad)]; [|by destruct e6].
  unfold close_peers in Hclose. destruct (Transport.Close close (am_peers (as_members s5))) as [peers closed] eqn:Hc.
  injection Hclose as <- He5. apply app_eq_nil in He5 as [-> _].
  apply joining_inv in Hj5 as [-> [[<- _]|(e&Hbad)]]; [|by destruct e4].
  apply joining_inv in Hj4 as [-> [[<- _]|(e&Hbad)]]; [|by destruct e3].
  apply joining_inv in Hj3 as [-> [[<- _]|(e&Hbad)]]; [|by destruct e2].
  apply joining_inv in Hj2 as [-> [[_ Hok]|(e&Hbad)]]; [|done].
  set (s1 := set_life _ _ _ s) in *. assert (Hserve : ∀ service b st, (shutdown_server (C:=C) service b st).1 = st) by (by intros ? []).
  rewrite !Hserve in Hc, Hnode |- *. unfold on_members in *. change (as_members s1) with (as_members s) in *.
  destruct (persistCurrentAddressBook (as_members s)) as [m2 [u|e]]; [|by destruct Hok]. exists m2, u. split; [done|].
  cbn [fst set_members as_members] in Hc. cbn zeta. rewrite Hc. split; [done|exact Hnode].
Qed.
Lemma Stop_writes fails s s' t : table s t → numbered (the_book s) → as_shutdown s = false →
  app_Stop close fails s = (s', Ok []) →
  ∃ t', table s' t' ∧ dom t' = book_ids (the_book s) ∧ (∀ id, recorded_addrs t' id = addrs_of (the_book s) id) ∧ the_book s' = the_book s.
Proof.
  intros Ht Hnum Hdown Hrun. destruct (Stop_clean _ _ _ Hdown Hrun) as (m2&u&Hp&->&_).
  destruct (persist_ok (MB:=node_members) storable_all (as_members s) m2 u t) as (Hpeers&t'&Ht'&Hlook); [exact Ht|exact Hnum|exact Hp|].
  assert (Hb2 : book m2 = the_book s) by (unfold book; by rewrite Hpeers).
  exists t'. set (s2 := set_members _ _). destruct (stop_node_keeps s2) as [Hkv Hbook]. rewrite Hkv, Hbook.
  split; [exact Ht'|]. split; [|split; [|exact Hb2]].
  - apply set_eq. intros id. rewrite elem_of_dom, Hlook. case_bool_decide as Hin; [by split; [|eexists]|]. by split; [intros []|].
  - intros id. unfold recorded_addrs, recorded. rewrite Hlook. case_bool_decide as Hin; [done|].
    unfold addrs_of, HTTPAddr, GRPCAddr, AdminAddr, addr_of. unfold book_ids in Hin. rewrite !not_elem_of_union, !not_elem_of_dom in Hin.
    by destruct Hin as [[-> ->] ->].
Qed.
(** An application that is down: shut down once, no loop running, no client open, the node stopped. *)
Definition app_stopped s : Prop :=
  as_shutdown s = true ∧ as_running s = false ∧ pt_clients (am_peers (as_members s)) = ∅ ∧ rn_stopped (am_node (as_members s)) = true.
Lemma Stop_stops fails s s' : as_shutdown s = false → app_Stop close fails s = (s', Ok []) → app_stopped s'.
Proof.
  intros Hdown Hrun. destruct (Stop_clean _ _ _ Hdown Hrun) as (m2&u&_&->&Hok). revert Hok.
  unfold stop_node, on_members, on_store, RaftNode.Stop, mbind, ST_bind, st_get. cbn.
  destruct (rn_started _); cbn; [|by intros []]. destruct (rn_stopped (am_node m2)) eqn:Hst; cbn; intros _; by split_and!.
Qed.
(** ** The loops keep the records readable and the book well numbered

    Node ids are 64-bit fields of the messages. *)
Hypothesis left_in_u64 : ∀ data, is_u64 (mc_NodeID (left_in data)).
Hypothesis cc_u64 : ∀ data c, cc_Unmarshal data = Some c → is_u64 (cc_NodeID c).
Hypothesis cc2_u64 : ∀ data c, cc2_Unmarshal data = Some c → Forall (λ x, is_u64 (ccs_NodeID x)) (cc2_Changes c).
Definition sound (m : Members RaftNode) : Prop := (∃ t, records (rn_kv (am_node m)) t) ∧ numbered (book m).
Lemma set_numbered b id h g a : numbered b → is_u64 id → numbered (Set_ b id h g a).
Proof.
  intros Hb Hid j. unfold book_ids, Set_. cbn [httpByID grpcByID adminByID]. intros Hj.
  assert (Hset : ∀ addr (m : addr_map), dom (set_addr id addr m) ⊆ {[id]} ∪ dom m) by (intros addr m; unfold set_addr; case_bool_decide; set_solver).
  destruct (decide (j = id)) as [->|Hne]; [done|]. apply Hb. unfold book_ids.
  pose proof (Hset h (httpByID b)). pose proof (Hset g (grpcByID b)). pose proof (Hset a (adminByID b)). set_solver.
Qed.
Lemma delete_numbered b id : numbered b → numbered (Delete b id).
Proof. intros Hb j Hj. apply Hb. revert Hj. unfold book_ids, Delete. cbn [httpByID grpcByID adminByID]. rewrite !dom_delete. set_solver. Qed.
Lemma remove_book t id : pt_book (RemovePeer close id t).1 = Delete (pt_book t) id.
Proof. unfold RemovePeer, mbind, ST_bind, st_modify, drop_client. cbn. destruct (pt_clients t !! id) as [c|]; [|done]. by destruct (close c). Qed.
Lemma upsert_sound id http grpc admin m : is_u64 id → sound m →
  sound (logged_store (mb_SetMemberAddress (E:=NodeErr) id http grpc admin) (logged_peers (UpsertPeer close id http grpc admin) m)).
Proof.
  intros Hid [[t Ht] Hnum]. unfold logged_store, logged_peers. split; cbn [am_node am_peers].
  - cbn [mb_SetMemberAddress node_members]. unfold node_SetMemberAddress, on_kv.
    destruct (records_set_any (rn_kv (am_node m)) t id http grpc admin) as [t' Ht']; [done|by split|].
    destruct (Pebble.SetMemberAddress _ _ _ _ _) as [kv r]. by exists t'.
  - unfold book. cbn [am_peers]. rewrite upsert_book. by apply set_numbered.
Qed.
Lemma remove_sound id m : is_u64 id → sound m →
  sound (logged_store (mb_DeleteMemberAddress (E:=NodeErr) id) (logged_peers (RemovePeer close id) m)).
Proof.
  intros Hid [[t Ht] Hnum]. unfold logged_store, logged_peers. split; cbn [am_node am_peers].
  - cbn [mb_DeleteMemberAddress node_members]. unfold node_DeleteMemberAddress, on_kv.
    destruct (records_delete_any (rn_kv (am_node m)) t id) as [t' Ht']; [done|done|].
    destruct (Pebble.DeleteMemberAddress _ _) as [kv r]. by exists t'.
  - unfold book. cbn [am_peers]. rewrite remove_book. by apply delete_numbered.
Qed.
Lemma change_sound request change m : is_u64 (mc_NodeID request) → sound m → sound (apply_change (E:=NodeErr) close request m change).
Proof.
  intros Hid Hm. unfold apply_change. destruct (ccs_Type change); [by apply upsert_sound|by apply remove_sound|done|by apply upsert_sound].
Qed.
Lemma fold_sound {A} (g : Members RaftNode → A → Members RaftNode) l m : (∀ m a, a ∈ l → sound m → sound (g m a)) → sound m → sound (fold_left g l m).
Proof.
  revert m; induction l as [|a l IH]; intros m Hg Hm; [done|]. cbn [fold_left]. apply IH; [|apply Hg; [by left|done]].
  intros m' a' Ha'. apply Hg. by right.
Qed.
Lemma context_sound changes data m : Forall (λ x, is_u64 (ccs_NodeID x)) changes → sound m →
  sound (applyConfChangeContext (E:=NodeErr) left_in close changes data m).
Proof.
  intros Hids Hm. unfold applyConfChangeContext. destruct changes as [|first rest]; [done|].
  apply fold_sound; [|done]. intros m' c _ Hm'. apply change_sound; [|done].
  apply Forall_cons in Hids as [Hfirst _]. unfold change_request. destruct (_ =? 0)%Z; [done|]. case_bool_decide; [done|apply left_in_u64].
Qed.
Lemma entries_sound entries m : sound m → sound (applyCommittedControlEntries (E:=NodeErr) left_in close entries m).
Proof.
  intros Hm. apply fold_sound; [|done]. intros m' e _ Hm'. unfold apply_control_entry. destruct (e_Type (le_Raw e)); try done.
  - destruct (cc_Unmarshal _) as [c|] eqn:Hc; [|done]. apply context_sound; [|done]. constructor; [by apply (cc_u64 _ _ Hc)|constructor].
  - destruct (cc2_Unmarshal _) as [c|] eqn:Hc; [|done]. apply context_sound; [|done]. by apply (cc2_u64 _ _ Hc).
Qed.
Lemma Forward_book ready : keeps pt_book (Forward is_MsgSnap msg_Snapshot dial rpc ready).
Proof.
  assert (Hclient : ∀ id, keeps pt_book (client dial id)) by (intros id t; unfold client; repeat (case_match; try done)).
  assert (Hrpc : ∀ call, keeps pt_book (call_rpc rpc call)) by done.
  assert (Hsnap : ∀ m, keeps pt_book (sendSnapshot msg_Snapshot dial rpc m)).
  { intros m. unfold sendSnapshot. apply (keeps_bind pt_book); [done|]. intros t. destruct (_ || _); [done|].
    apply (keeps_bind pt_book); [apply Hclient|]. intros c. case_bool_decide; [done|apply Hrpc]. }
  assert (Hjoin : ∀ (m : ST PeerTransport (ForwardErr C) unit) errs, keeps pt_book m → keeps pt_book (joined m errs)).
  { intros m errs Hm t. specialize (Hm t). unfold joined. by destruct (m t). }
  unfold Forward. apply (keeps_bind pt_book); [done|]. intros t. apply (keeps_bind pt_book).
  - apply keeps_fold. intros errs m. destruct (_ || _); [done|]. destruct (is_MsgSnap _); [|done]. apply Hjoin, Hsnap.
  - intros errs. apply keeps_fold. intros errs' g. unfold send_group. apply Hjoin. apply (keeps_bind pt_book); [apply Hclient|]. intros c. apply Hrpc.
Qed.
(** What the node leaves is readable: it writes member records with [SetMemberAddress] only, and
    restores those of another node. *)
Definition readable (event : AppEvent) : Prop :=
  match event with ANode nd => ∃ t, records (rn_kv nd) t | _ => True end.
Lemma step_sound s event : readable event → sound (as_members s) → sound (as_members (app_step is_MsgSnap msg_Snapshot dial rpc close left_in s event)).
Proof.
  intros Hev Hs. destruct event as [ready|limit now scan propose leader|service failed|nd]; cbn [app_step].
  - unfold forward_ready. apply (entries_sound (r_CommittedEntries ready)) in Hs as [Ht Hnum].
    set (m := applyCommittedControlEntries left_in close _ _) in *. pose proof (Forward_book ready (am_peers m)) as Hf.
    destruct (Forward _ _ _ _ ready (am_peers m)) as [peers r]. cbn [fst] in Hf. split; [done|]. unfold book. cbn. by rewrite Hf.
  - unfold cleanup_tick. destruct (leads _); [|done]. by destruct (CleanupExpiredRegistry _ _ _ _ _ _) as [[cursor cmds] r].
  - unfold serve_end, pushErr. by destruct failed.
  - by destruct Hs.
Qed.
Lemma step_shutdown s event : as_shutdown (app_step is_MsgSnap msg_Snapshot dial rpc close left_in s event) = as_shutdown s.
Proof.
  destruct event as [ready|limit now scan propose leader|service failed|nd]; cbn [app_step].
  - unfold forward_ready. by destruct (Forward _ _ _ _ ready _).
  - unfold cleanup_tick. destruct (leads _); [|done]. by destruct (CleanupExpiredRegistry _ _ _ _ _ _) as [[cursor cmds] r].
  - unfold serve_end, pushErr. by destruct failed.
  - done.
Qed.
(** C37: A clean stop keeps the addresses.  However long the application ran and whatever its loops
    and its node did, when it stops without an error the records of the store are exactly its book; and the
    next start of a node with these records, with any configuration, has every address of the
    book again, up to those it configures anew. *)
Theorem stop_keeps_addresses s0 events fails s' next next' u :
  let s := fold_left (app_step is_MsgSnap msg_Snapshot dial rpc close left_in) events s0 in
  Forall readable events → sound (as_members s0) → as_shutdown s0 = false → app_Stop close fails s = (s', Ok []) →
  store_map (rn_kv (am_node next)) = store_map (rn_kv (am_node (as_members s'))) → numbered (book next) →
  start_addresses (E:=NodeErr) next = (next', Ok u) →
  (∃ t', table s' t' ∧ dom t' = book_ids (the_book s) ∧ ∀ id, recorded_addrs t' id = addrs_of (the_book s) id) ∧
  ∀ id, addrs_of (book next') id = filled_from (addrs_of (book next) id) (addrs_of (the_book s) id).
Proof.
  intros s Hread Hsound Hdown Hstop Hkv Hnext Hstart.
  assert (sound (as_members s) ∧ as_shutdown s = false) as [[[t0 Ht] Hnum] Hs].
  { subst s. clear Hstop. revert s0 Hsound Hdown; induction Hread as [|e events He _ IH]; intros s0 Hsound Hdown; [done|].
    cbn [fold_left]. apply IH; [by apply step_sound|by rewrite step_shutdown]. }
  destruct (Stop_writes fails s s' t0 Ht Hnum Hs Hstop) as (t'&Ht'&Hdom&Hrec&_). split; [by exists t'|].
  intros id. destruct (start_ok (MB:=node_members) storable_all next next' u t') as [Hb _]; [by eapply records_same|done|done|].
  by rewrite Hb, Hrec.
Qed.
(** ** A signal ends the node, too *)
Lemma ctx_done_closes nd : rn_started nd = true → rn_stopped nd = false → rn_node nd ≠ None →
  ps_open (rn_kv (ctx_done nd)) = false ∧ ps_db (rn_kv (ctx_done nd)) = ps_db (rn_kv nd).
Proof.
  intros Hs Hst Hn. unfold ctx_done, RaftNode.Stop, run_exit, closeStores, drop_err, node_call, mbind, ST_bind, st_get, st_modify.
  rewrite Hs, Hst. cbn. destruct (rn_node nd) as [calls|]; [|done]. cbn. destruct (call_result calls CStop); cbn; unfold on_wal; cbn;
    by destruct (Wal.Close (rn_wal nd)) as [w [a|e]].
Qed.
Lemma persist_closed (m : Members RaftNode) : ps_open (rn_kv (am_node m)) = false →
  ∃ e, persistCurrentAddressBook (E:=NodeErr) m = (m, Err e).
Proof.
  intros Hopen. destruct m as [nd peers]. cbn in Hopen. eexists. unfold persistCurrentAddressBook, mbind, ST_bind, st_get, on_store. cbn.
  unfold node_ListMemberAddresses, on_kv_read, Pebble.ListMemberAddresses, getDB. by rewrite Hopen.
Qed.
Lemma joining_err {A} (m : ST AppState AppErr A) errs s s' e : m s = (s', Err e) → joining m errs s = (s', Ok (errs ++ [e])).
Proof. intros Hm. unfold joining. by rewrite Hm. Qed.
Lemma joining_run {A} (m : ST AppState AppErr A) errs s : ∃ more, joining m errs s = ((m s).1, Ok (errs ++ more)) ∧ (is_ok (m s).2 ∨ more ≠ []).
Proof.
  unfold joining. destruct (m s) as [s' [a|e]]; [exists []|exists [e]; split; [done|by right]]. rewrite app_nil_r. split; [done|]. left. by eexists.
Qed.
(** Whatever fails, every step of the stop runs; the first is the one that writes the book. *)
Lemma Stop_runs fails s : as_shutdown s = false → ∃ s' errs, app_Stop close fails s = (s', Ok errs) ∧
  rn_kv (am_node (as_members s')) = rn_kv (am_node (persistCurrentAddressBook (E:=NodeErr) (as_members s)).1) ∧
  ((∃ e, (persistCurrentAddressBook (E:=NodeErr) (as_members s)).2 = Err e) → errs ≠ []).
Proof.
  intros Hdown. unfold app_Stop. unfold mbind, ST_bind, st_get, st_modify. rewrite Hdown.
  set (s1 := set_life _ _ _ s). destruct (joining_run (on_members persistCurrentAddressBook) [] s1) as (e1&->&He1). cbn [app].
  destruct (on_members_run persistCurrentAddressBook s1) as [Hm Hr]. set (s2 := (on_members persistCurrentAddressBook s1).1) in *.
  assert (Hserve : ∀ service b st, (shutdown_server (C:=C) service b st).1 = st) by (by intros ? []).
  destruct (joining_run (shutdown_server (C:=C) ServiceHTTP (fails ServiceHTTP)) e1 s2) as (e2&->&_). rewrite Hserve.
  destruct (joining_run (shutdown_server (C:=C) ServiceAdmin (fails ServiceAdmin)) (e1 ++ e2) s2) as (e3&->&_). rewrite Hserve.
  destruct (joining_run (shutdown_server (C:=C) ServiceGRPC (fails ServiceGRPC)) ((e1 ++ e2) ++ e3) s2) as (e4&->&_). rewrite Hserve.
  unfold close_peers. destruct (Transport.Close close (am_peers (as_members s2))) as [peers closed].
  match goal with |- context [joining stop_node ?errs ?st] => destruct (joining_run (stop_node (C:=C)) errs st) as (e5&->&_) end.
  do 2 eexists. split; [reflexivity|]. split.
  - rewrite (proj1 (stop_node_keeps _)). cbn [set_members as_members am_node]. by rewrite Hm.
  - intros [e He]. change (as_members s) with (as_members s1) in He. rewrite Hr, He in He1.
    destruct He1 as [[a Ha]|He1]; [done|]. by destruct e1.
Qed.
(** C39: A signal may keep the book from being written.  The context that a signal ends is the one the node was started
    with: when the node has stopped itself before [Stop] comes to write, the stores are closed, the
    process ends with exit code 1, and the records are those from before the signal. *)
Theorem signal_loses_book fails s : rn_started (am_node (as_members s)) = true → rn_stopped (am_node (as_members s)) = false →
  rn_node (am_node (as_members s)) ≠ None → as_shutdown s = false →
  ∃ s', main_ends close fails (WSignal true) s = (s', 1%Z) ∧
    store_map (rn_kv (am_node (as_members s'))) = store_map (rn_kv (am_node (as_members s))).
Proof.
  intros Hs Hst Hn Hdown. destruct (ctx_done_closes _ Hs Hst Hn) as [Hopen Hdb]. unfold main_ends.
  set (s1 := set_members _ s). destruct (persist_closed (as_members s1) Hopen) as [e He].
  destruct (Stop_runs fails s1 Hdown) as (s'&errs&->&Hkv&Herr). rewrite He in Hkv, Herr. exists s'. split.
  - destruct errs; [|done]. by destruct Herr; [by exists e|].
  - rewrite Hkv. cbn [fst]. subst s1. cbn [set_members as_members am_node]. unfold store_map. by rewrite Hdb.
Qed.
End facts.
