(* ===== verification/AppLifeSamples.v ===== *)
(** * A node that runs, stops and starts again *)
From Stdlib Require Import Ascii ZArith.
From stdpp Require Import gmap strings countable list.
From S2P Require Import Prelude GoStrings Codec Wal WalLog Engine StateMachine Pebble Snapshot RaftConfig Raft RaftNode RaftReads Restart RegistryModel WatchHub ReplicationModel Cleanup Transport AddressBook Dto Watch Membership MembershipFacts MembershipSamples Http Region RegionSamples Control ControlSamples AppLife AppLifeFacts.


#[local] Existing Instances bits_raftpb memory_raft quiet_node memory_engine member_json payload_json items_json range_by_key change_json command_json sample_json.
#[local] Instance value_bits : Json Value := bits_json (byte 123) brace_tag.
(** The request left in a committed change; the node ids of the message are 64-bit fields. *)
Definition left_request (data : str) : MemberChangeRequestDTO :=
  let request := left_over data in if bool_decide (is_u64 (mc_NodeID request)) then request else MkMemberChange 0 [] [] [].
Lemma left_request_u64 data : is_u64 (mc_NodeID (left_request data)).
Proof. unfold left_request. case_bool_decide; [done|]. by vm_compute. Qed.
(** The node 1 leads; the node 3 is recorded, the node 4 joins while the application runs. *)
Definition recorded_node : RaftNode := MkNode
  (rn_cfg idle_node) (rn_status idle_node) (rn_node idle_node) NewMemoryStorage (NewFileWAL ∅) (NewFileStore ∅) member_store
  [] ∅ ∅ false 0 true false.
Definition no_messages (m : Message) : bool := false.
Definition running_app : AppState (C:=unit) :=
  MkAppState (MkMembers recorded_node (configured {[ 1%Z := lit "h:0" ]})) true true false [] [] (MkCursor []).
Definition no_snapshot (m : Message) : RaftSnapshot := MkRaftSnapshot [] 0 0 (MkConfState [] [] [] [] false).
Abbreviation run_step := (app_step (C:=unit) no_messages no_snapshot (λ _, None) (λ _ _, None) no_close left_request).
Definition join_events : list AppEvent := [
  AServe ServiceHTTP true;
  AReady (MkReady (MkSoftState 1 RoleLeader) zero_state [] [learner_entry] [] None false);
  ACleanup 10 100 (λ _ _ _, Ok []) (λ _, None) (λ _, true) ].
Abbreviation ran_app := (fold_left run_step join_events running_app).
Definition stopped_app : AppState (C:=unit) := (app_Stop no_close (λ _, false) ran_app).1.
(** The node starts again with no peer configured. *)
Abbreviation next_node := (MkMembers (am_node (as_members stopped_app)) (configured ∅)).
Lemma none_numbered (nd : RaftNode) : numbered (book (MkMembers nd (configured ∅))).
Proof. intros id. unfold book_ids. cbn. rewrite !dom_empty. set_solver. Qed.
Lemma same_records (nd : RaftNode) t : store_map (rn_kv (am_node (MkMembers nd t))) = store_map (rn_kv nd).
Proof. reflexivity. Qed.
Lemma no_errors_unpack {S E A} (p : S * result E (list A)) : match p.2 with Ok [] => true | _ => false end = true → p = (p.1, Ok []).
Proof. by destruct p as [s [[]|]]. Qed.
Lemma stopped_eq : app_Stop no_close (λ _, false) ran_app = (stopped_app, Ok []).
Proof. unfold stopped_app. apply no_errors_unpack. vm_compute. reflexivity. Qed.
Lemma restarted_eq : start_addresses (E:=NodeErr) next_node = ((start_addresses (E:=NodeErr) next_node).1, Ok tt).
Proof. apply run_unpack. vm_compute. reflexivity. Qed.
Lemma stop_keeps_addresses_witness :
  addrs_of (book (as_members ran_app)) 4 = (lit "h:4", lit "g:4", []) ∧
  (∃ t, records (rn_kv (am_node (as_members stopped_app))) t ∧
    dom t = book_ids (book (as_members ran_app)) ∧
    ∀ id, recorded_addrs t id = addrs_of (book (as_members ran_app)) id) ∧
  ∀ id, addrs_of (book (start_addresses (E:=NodeErr) next_node).1) id =
    filled_from (addrs_of (book next_node) id) (addrs_of (book (as_members ran_app)) id).
Proof.
  split; [apply (bool_decide_unpack _); vm_compute; reflexivity|].
  apply (stop_keeps_addresses no_messages no_snapshot (λ _, None) (λ _ _, None) no_close left_request) with
    (s0:=running_app) (events:=join_events) (fails:=λ _, false) (s':=stopped_app) (next:=next_node) (next':=(start_addresses (E:=NodeErr) next_node).1) (u:=tt).
  - intros a. exact I.
  - apply left_request_u64.
  - done.
  - apply cc2_of_bits_u64.
  - repeat constructor.
  - split; [exists table3; apply records3|exact (one_numbered member_store (lit "h:0"))].
  - reflexivity.
  - exact stopped_eq.
  - exact (same_records (am_node (as_members stopped_app)) _).
  - apply none_numbered.
  - exact restarted_eq.
Defined.

(** A signal, and the node is done first: the node 4 of the book is not in the records. *)
Lemma signal_loses_book_witness :
  recorded_addrs table3 4 = ([], [], []) ∧
  ∃ s', main_ends no_close (λ _, false) (WSignal true) ran_app = (s', 1%Z) ∧
    store_map (rn_kv (am_node (as_members s'))) = store_map (rn_kv (am_node (as_members ran_app))).
Proof.
  split; [reflexivity|]. apply (signal_loses_book no_close (λ _, false) ran_app).
  - vm_compute. reflexivity.
  - vm_compute. reflexivity.
  - intros Hn. apply (f_equal (@length _ ∘ default [])) in Hn. vm_compute in Hn. discriminate.
  - vm_compute. reflexivity.
Defined.
