(* ===== verification/Logging.v ===== *)
(** * The configuration of the logs ([internal/logging])

    What the daemon asks of the logging runtime, and how it closes it.  The runtime and its
    configuration type are third-party code: the record has the fields that [buildConfig] touches and
    the rest as it is; defaults, environment and normalisation are parameters.  The loggers
    themselves are in [LogAdapters]. *)
From Stdlib Require Import Ascii ZArith.
From stdpp Require Import gmap strings list.
From S2P Require Import Prelude GoStrings Selector Daemon.

Definition daemonServiceName : str := lit "stellmapd".
Definition daemonServiceNamespace : str := lit "stellhub.stellmap".
Definition localEnvironmentName : str := lit "local".
Inductive LogOutput := OutputStdout | OutputOTLP | OutputOther (name : str).
Inductive LogFormat := FormatConsole | FormatJSON | FormatOther (name : str).
Section logging.
Context `{CaseTable} {Rest Err : Type}.
Record LogConfig := MkLogConfig {
  lc_ServiceName : str; lc_ServiceNamespace : str; lc_ServiceVersion : str; lc_ServiceInstanceID : str; lc_Region : str;
  lc_ResourceAttributes : option (gmap str str); lc_Environment : str; lc_Development : bool; lc_Output : LogOutput; lc_Format : LogFormat;
  lc_Endpoint : str; lc_rest : Rest
}.
(** [stellspecconfig.Default] with the environment applied, [Normalize], the version and the process id. *)
Context (from_env : result Err LogConfig) (Normalize : LogConfig → result Err LogConfig) (Version : str) (pid : Z).
Definition normalizeEnvironment (environment : str) : str := ToLower (TrimSpace environment).
Definition buildServiceInstanceID (nodeID : Z) : str :=
  if (0 <? nodeID)%Z then daemonServiceName ++ lit "-" ++ FormatUint nodeID else daemonServiceName ++ lit "-pid-" ++ FormatUint pid.
Definition or_blank (field fallback : str) : str := if bool_decide (TrimSpace field = []) then fallback else field.
Definition attribute (b : bool) (key : string) (value : str) (m : gmap str str) : gmap str str := if b then <[lit key := value]> m else m.
Definition address (key : string) (addr : str) : gmap str str → gmap str str :=
  attribute (negb (bool_decide (TrimSpace addr = []))) key (TrimSpace addr).
Definition resource_attributes (cfg : DaemonConfig) (m : gmap str str) : gmap str str :=
  let m := attribute (0 <? dc_NodeID cfg)%Z "stellmap.node_id" (FormatUint (dc_NodeID cfg)) m in
  let m := attribute (0 <? dc_ClusterID cfg)%Z "stellmap.cluster_id" (FormatUint (dc_ClusterID cfg)) m in
  let m := address "stellmap.http_addr" (dc_HTTPAddr cfg) m in
  let m := address "stellmap.admin_addr" (dc_AdminAddr cfg) m in
  address "stellmap.grpc_addr" (dc_GRPCAddr cfg) m.
Definition local_environment (environment : str) : bool :=
  existsb (λ name, bool_decide (normalizeEnvironment environment = lit name)) [""; "dev"; "local"; "development"]%string.
Definition wanted_config (cfg : DaemonConfig) (c : LogConfig) : LogConfig :=
  let here := local_environment (lc_Environment c) in
  MkLogConfig (or_blank (lc_ServiceName c) daemonServiceName) (or_blank (lc_ServiceNamespace c) daemonServiceNamespace)
    (or_blank (lc_ServiceVersion c) Version) (or_blank (lc_ServiceInstanceID c) (buildServiceInstanceID (dc_NodeID cfg)))
    (or_blank (lc_Region c) (TrimSpace (dc_Region cfg)))
    (Some (resource_attributes cfg (default ∅ (lc_ResourceAttributes c))))
    (if here then localEnvironmentName else lc_Environment c) here
    (if here then OutputStdout else OutputOTLP) (if here then FormatConsole else FormatJSON)
    (if here then [] else lc_Endpoint c) (lc_rest c).
Definition buildConfig (cfg : DaemonConfig) : result Err LogConfig :=
  c ← from_env;
  Normalize (wanted_config cfg c).
Definition EffectiveShutdownTimeout (cfg : DaemonConfig) : Z :=
  if (0 <? dc_ShutdownTimeout cfg)%Z then dc_ShutdownTimeout cfg else 5000000000.

(** ** Closing: the message of an error of [Sync], and whether it is [os.ErrInvalid] *)
Definition isIgnorableLoggerSyncError (err : option (str * bool)) : bool :=
  match err with
  | None => false
  | Some (text, invalid) =>
      let message := ToLower text in
      Contains message (lit "invalid argument") || Contains message (lit "inappropriate ioctl for device") || invalid
  end.
(** What [Sync] and [Shutdown] return, where they are called. *)
Definition runtime_Close (sync shutdown : option (option (str * bool))) : list (str * bool) :=
  match sync with
  | Some (Some err) => if isIgnorableLoggerSyncError (Some err) then [] else [err]
  | _ => []
  end ++ match shutdown with Some (Some err) => [err] | _ => [] end.

Lemma attribute_other b key value m k : lit key ≠ k → attribute b key value m !! k = m !! k.
Proof. intros Hk. unfold attribute. destruct b; [by rewrite lookup_insert_ne|done]. Qed.
(** Logs of a development environment stay in the process: they go to the standard output and to no
    endpoint; all others go to the collector.  The node is always named. *)
Lemma buildConfig_output cfg c c' : from_env = Ok c → buildConfig cfg = Ok c' →
  ∃ w, Normalize w = Ok c' ∧ TrimSpace (lc_ServiceName w) ≠ [] ∧
    (lc_Output w = OutputStdout ↔ local_environment (lc_Environment c) = true) ∧
    (lc_Output w = OutputStdout → lc_Endpoint w = [] ∧ lc_Environment w = localEnvironmentName) ∧
    ((0 < dc_NodeID cfg)%Z → from_option (λ m : gmap str str, m !! lit "stellmap.node_id" = Some (FormatUint (dc_NodeID cfg))) False (lc_ResourceAttributes w)).
Proof.
  intros Henv Hrun. unfold buildConfig in Hrun. rewrite Henv in Hrun. exists (wanted_config cfg c). split; [done|]. unfold wanted_config. cbn [lc_ServiceName lc_Output lc_Endpoint lc_Environment lc_ResourceAttributes from_option].
  split; [unfold or_blank; case_bool_decide as E; [by vm_compute|done]|]. split; [by destruct (local_environment (lc_Environment c))|].
  split; [by destruct (local_environment (lc_Environment c))|]. intros Hid. unfold resource_attributes, address.
  do 4 (rewrite attribute_other; [|intros E; vm_compute in E; discriminate]). unfold attribute. rewrite (proj2 (Z.ltb_lt _ _) Hid). by rewrite lookup_insert_eq.
Qed.
End logging.
