(* ===== verification/LogAdapters.v ===== *)
(** * The loggers of raft and gRPC, and the logging runtime ([internal/logging])

    The adapters turn a call of raft or gRPC into one call of the zap logger; the runtime takes over
    the global loggers of the process when it starts and gives them back when it closes.  zap, its bridge
    and the stellspec runtime are third-party code: loggers are an abstract type, and a method of
    an adapter is the call it makes on its logger. *)
From Stdlib Require Import Ascii ZArith.
From stdpp Require Import gmap strings list.
From S2P Require Import Prelude GoStrings Selector Daemon Logging.

(** ** [fmt] *)
(** An operand: its text under [%v], and whether it is a string. *)
Record Operand := MkOperand { op_text : str; op_string : bool }.
(** [fmt.Sprint]: a space between two operands when neither is a string. *)
Fixpoint Sprint (args : list Operand) : str :=
  match args with
  | [] => []
  | a :: rest =>
      op_text a ++ match rest with
      | [] => []
      | b :: _ => (if negb (op_string a) && negb (op_string b) then [byte 32] else []) ++ Sprint rest
      end
  end.
Definition newline : ascii := byte 10.
(** [fmt.Sprintln]: always spaces, and a newline. *)
Definition Sprintln (args : list Operand) : str := Join (op_text <$> args) [byte 32] ++ [newline].
(** [strings.TrimRight] with a set of single-byte characters. *)
Fixpoint trim_front_set (set s : str) : str :=
  match s with
  | c :: s' => if bool_decide (c ∈ set) then trim_front_set set s' else s
  | [] => []
  end.
Definition TrimRight (s set : str) : str := rev (trim_front_set set (rev s)).
Definition line_ends : str := [byte 13; newline].
Definition trimTrailingNewline (message : str) : str := TrimRight message line_ends.

(** ** zap *)
Class Zap := {
  ZapLogger : Type;
  zap_Named : ZapLogger → str → ZapLogger;
  zap_WithString : ZapLogger → str → str → ZapLogger;
  zap_AddCallerSkip : ZapLogger → Z → ZapLogger
}.
Inductive LogLevel := DebugLevel | InfoLevel | WarnLevel | ErrorLevel | PanicLevel | FatalLevel.
#[export] Instance LogLevel_eq_dec : EqDecision LogLevel.
Proof. solve_decision. Defined.

Section adapters.
Context `{Zap} (Sprintf : str → list Operand → str).
Record ZapCall := MkZapCall { zc_logger : ZapLogger; zc_level : LogLevel; zc_message : str }.
Definition component_logger (base : ZapLogger) (name : string) : ZapLogger :=
  zap_WithString (zap_Named base (lit name)) (lit "component") (lit name).

(** *** [raft_logger.go] *)
Record raftLogger := MkRaftLogger { rl_logger : ZapLogger }.
Definition newRaftLogger (base : ZapLogger) : raftLogger := MkRaftLogger (component_logger base "raft").
Definition raft_Debug (l : raftLogger) (v : list Operand) : ZapCall := MkZapCall (rl_logger l) DebugLevel (Sprint v).
Definition raft_Debugf (l : raftLogger) (format : str) (v : list Operand) : ZapCall := MkZapCall (rl_logger l) DebugLevel (Sprintf format v).
Definition raft_Error (l : raftLogger) (v : list Operand) : ZapCall := MkZapCall (rl_logger l) ErrorLevel (Sprint v).
Definition raft_Errorf (l : raftLogger) (format : str) (v : list Operand) : ZapCall := MkZapCall (rl_logger l) ErrorLevel (Sprintf format v).
Definition raft_Info (l : raftLogger) (v : list Operand) : ZapCall := MkZapCall (rl_logger l) InfoLevel (Sprint v).
Definition raft_Infof (l : raftLogger) (format : str) (v : list Operand) : ZapCall := MkZapCall (rl_logger l) InfoLevel (Sprintf format v).
Definition raft_Warning (l : raftLogger) (v : list Operand) : ZapCall := MkZapCall (rl_logger l) WarnLevel (Sprint v).
Definition raft_Warningf (l : raftLogger) (format : str) (v : list Operand) : ZapCall := MkZapCall (rl_logger l) WarnLevel (Sprintf format v).
Definition raft_Fatal (l : raftLogger) (v : list Operand) : ZapCall := MkZapCall (rl_logger l) FatalLevel (Sprint v).
Definition raft_Fatalf (l : raftLogger) (format : str) (v : list Operand) : ZapCall := MkZapCall (rl_logger l) FatalLevel (Sprintf format v).
Definition raft_Panic (l : raftLogger) (v : list Operand) : ZapCall := MkZapCall (rl_logger l) PanicLevel (Sprint v).
Definition raft_Panicf (l : raftLogger) (format : str) (v : list Operand) : ZapCall := MkZapCall (rl_logger l) PanicLevel (Sprintf format v).

(** *** [grpc_logger.go] *)
Record grpcLogger := MkGrpcLogger { gl_logger : ZapLogger; gl_verbosity : Z }.
(** The value of the environment variable; an [int] of 64 bits. *)
Definition grpcVerbosityFromEnv (env : str) : Z :=
  let raw := TrimSpace env in
  if bool_decide (raw = []) then 0
  else match Atoi raw with
       | None => 0
       | Some value => if (value <? 0)%Z then 0 else value
       end.
Definition newGRPCLogger (env : str) (base : ZapLogger) : grpcLogger :=
  MkGrpcLogger (component_logger base "grpc") (grpcVerbosityFromEnv env).
Definition grpc_Info (l : grpcLogger) (args : list Operand) : ZapCall := MkZapCall (gl_logger l) InfoLevel (Sprint args).
Definition grpc_Infoln (l : grpcLogger) (args : list Operand) : ZapCall := MkZapCall (gl_logger l) InfoLevel (trimTrailingNewline (Sprintln args)).
Definition grpc_Infof (l : grpcLogger) (format : str) (args : list Operand) : ZapCall := MkZapCall (gl_logger l) InfoLevel (Sprintf format args).
Definition grpc_Warning (l : grpcLogger) (args : list Operand) : ZapCall := MkZapCall (gl_logger l) WarnLevel (Sprint args).
Definition grpc_Warningln (l : grpcLogger) (args : list Operand) : ZapCall := MkZapCall (gl_logger l) WarnLevel (trimTrailingNewline (Sprintln args)).
Definition grpc_Warningf (l : grpcLogger) (format : str) (args : list Operand) : ZapCall := MkZapCall (gl_logger l) WarnLevel (Sprintf format args).
Definition grpc_Error (l : grpcLogger) (args : list Operand) : ZapCall := MkZapCall (gl_logger l) ErrorLevel (Sprint args).
Definition grpc_Errorln (l : grpcLogger) (args : list Operand) : ZapCall := MkZapCall (gl_logger l) ErrorLevel (trimTrailingNewline (Sprintln args)).
Definition grpc_Errorf (l : grpcLogger) (format : str) (args : list Operand) : ZapCall := MkZapCall (gl_logger l) ErrorLevel (Sprintf format args).
Definition grpc_Fatal (l : grpcLogger) (args : list Operand) : ZapCall := MkZapCall (gl_logger l) FatalLevel (Sprint args).
Definition grpc_Fatalln (l : grpcLogger) (args : list Operand) : ZapCall := MkZapCall (gl_logger l) FatalLevel (trimTrailingNewline (Sprintln args)).
Definition grpc_Fatalf (l : grpcLogger) (format : str) (args : list Operand) : ZapCall := MkZapCall (gl_logger l) FatalLevel (Sprintf format args).
Definition grpc_V (l : grpcLogger) (level : Z) : bool := (level <=? gl_verbosity l)%Z.
Definition withDepth (l : grpcLogger) (depth : Z) : ZapLogger :=
  if (depth <=? 0)%Z then gl_logger l else zap_AddCallerSkip (gl_logger l) depth.
Definition grpc_InfoDepth (l : grpcLogger) (depth : Z) (args : list Operand) : ZapCall := MkZapCall (withDepth l depth) InfoLevel (trimTrailingNewline (Sprintln args)).
Definition grpc_WarningDepth (l : grpcLogger) (depth : Z) (args : list Operand) : ZapCall := MkZapCall (withDepth l depth) WarnLevel (trimTrailingNewline (Sprintln args)).
Definition grpc_ErrorDepth (l : grpcLogger) (depth : Z) (args : list Operand) : ZapCall := MkZapCall (withDepth l depth) ErrorLevel (trimTrailingNewline (Sprintln args)).
Definition grpc_FatalDepth (l : grpcLogger) (depth : Z) (args : list Operand) : ZapCall := MkZapCall (withDepth l depth) FatalLevel (trimTrailingNewline (Sprintln args)).
End adapters.

(** ** The runtime ([runtime.go]) *)
Inductive ZapField := FieldString (key : string) (value : str) | FieldUint64 (key : string) (value : Z).
Record BridgeOptions := MkBridgeOptions { bo_Name : str; bo_AddCaller : bool; bo_AddStacktrace : bool; bo_Fields : list ZapField }.
Definition bridge_options (cfg : DaemonConfig) : BridgeOptions :=
  MkBridgeOptions daemonServiceName true true
    [FieldString "service" daemonServiceName; FieldUint64 "node_id" (dc_NodeID cfg); FieldUint64 "cluster_id" (dc_ClusterID cfg);
     FieldString "region" (dc_Region cfg); FieldString "http_addr" (dc_HTTPAddr cfg); FieldString "admin_addr" (dc_AdminAddr cfg);
     FieldString "grpc_addr" (dc_GRPCAddr cfg); FieldString "data_dir" (dc_DataDir cfg)].

Section runtime.
Context `{Zap, CaseTable} {Rest E SDK : Type}.
Context (from_env : result E (LogConfig (Rest:=Rest))) (Normalize : LogConfig (Rest:=Rest) → result E (LogConfig (Rest:=Rest))) (Version : str) (pid : Z).
(** [sdk.New], [zapbridge.NewLogger], and the verbosity variable of gRPC. *)
Context (sdk_New : LogConfig (Rest:=Rest) → result E SDK) (bridge_NewLogger : SDK → BridgeOptions → result E ZapLogger) (verbosity_env : str).

(** The loggers of the process, and the runtimes shut down so far.  [None]: the library's default. *)
Record LogGlobals := MkGlobals {
  g_raft : option raftLogger; g_grpc : option grpcLogger; g_std : option ZapLogger; g_zap : option ZapLogger; g_shutdown : list SDK
}.
(** [rt_restoreStdLog] and [rt_restoreGlobals] are closures: the second puts back the logger it replaced. *)
Record Runtime := MkRuntime {
  rt_runtime : option SDK; rt_logger : option ZapLogger; rt_restoreStdLog : bool; rt_restoreGlobals : option (option ZapLogger)
}.
Inductive LogErr := ErrBuildConfig (e : E) | ErrInitRuntime (e : E) | ErrBridge (e : E).
Definition runtime_New (cfg : DaemonConfig) (g : LogGlobals) : LogGlobals * result LogErr Runtime :=
  match buildConfig from_env Normalize Version pid cfg with
  | Err e => (g, Err (ErrBuildConfig e))
  | Ok logCfg =>
      match sdk_New logCfg with
      | Err e => (g, Err (ErrInitRuntime e))
      | Ok runtime =>
          match bridge_NewLogger runtime (bridge_options cfg) with
          | Err e => (MkGlobals (g_raft g) (g_grpc g) (g_std g) (g_zap g) (g_shutdown g ++ [runtime]), Err (ErrBridge e))
          | Ok logger =>
              (MkGlobals (Some (newRaftLogger logger)) (Some (newGRPCLogger verbosity_env logger)) (Some logger) (Some logger) (g_shutdown g),
               Ok (MkRuntime (Some runtime) (Some logger) true (Some (g_zap g))))
          end
      end
  end.
(** [Close]: what [Sync] and [Shutdown] answer is given, their errors are joined. *)
Definition close_globals (r : Runtime) (g : LogGlobals) : LogGlobals :=
  MkGlobals None (g_grpc g) (if rt_restoreStdLog r then None else g_std g) (default (g_zap g) (rt_restoreGlobals r))
    (g_shutdown g ++ option_list (rt_runtime r)).
Definition Runtime_Close (sync : ZapLogger → option (str * bool)) (shutdown : SDK → option (str * bool)) (r : option Runtime) (g : LogGlobals) :
    LogGlobals * list (str * bool) :=
  match r with
  | None => (g, [])
  | Some r => (close_globals r g, runtime_Close (sync <$> rt_logger r) (shutdown <$> rt_runtime r))
  end.
End runtime.

(** ** Messages *)
Lemma rev_reverse {A} (l : list A) : reverse l = rev l.
Proof. symmetry. apply rev_alt. Qed.
Lemma trim_front_set_spec set s : ∃ p, s = p ++ trim_front_set set s ∧ Forall (λ c, c ∈ set) p.
Proof.
  induction s as [|c s [p [IH Hp]]]; [by exists []|]. cbn. case_bool_decide; [|by exists []].
  exists (c :: p). split; [cbn; by rewrite <-IH|by constructor].
Qed.
Lemma trim_front_set_stop set s c s' : trim_front_set set s = c :: s' → c ∉ set.
Proof. induction s as [|d s IH]; cbn; [done|]. case_bool_decide; [done|]. by intros [= -> ->]. Qed.
Lemma TrimRight_spec s set : ∃ p, s = TrimRight s set ++ p ∧ Forall (λ c, c ∈ set) p.
Proof.
  destruct (trim_front_set_spec set (rev s)) as (p&E&Hp). exists (rev p). split.
  - unfold TrimRight. rewrite <-rev_app_distr, <-E. by rewrite rev_involutive.
  - rewrite <-rev_reverse. by apply Forall_reverse.
Qed.
Lemma TrimRight_last s set c : last (TrimRight s set) = Some c → c ∉ set.
Proof.
  intros Hl. unfold TrimRight in Hl. rewrite <-rev_reverse, last_reverse in Hl.
  destruct (trim_front_set set (rev s)) as [|d t] eqn:E; [done|]. injection Hl as ->. by apply trim_front_set_stop in E.
Qed.
Lemma trim_front_set_id set s : (∀ c, head s = Some c → c ∉ set) → trim_front_set set s = s.
Proof. destruct s as [|c s]; [done|]. intros Hc. cbn. by rewrite bool_decide_false by (by apply Hc). Qed.
Lemma TrimRight_snoc set s c : c ∈ set → TrimRight (s ++ [c]) set = TrimRight s set.
Proof. intros Hc. unfold TrimRight. rewrite rev_app_distr. cbn. by rewrite bool_decide_true. Qed.
Lemma TrimRight_id set s : (∀ c, last s = Some c → c ∉ set) → TrimRight s set = s.
Proof.
  intros Hl. unfold TrimRight. rewrite trim_front_set_id; [by rewrite rev_involutive|].
  intros c Hc. apply Hl. by rewrite <-(reverse_involutive s), last_reverse, rev_reverse.
Qed.
Section messages.
Context `{Zap}.
(** A line of gRPC is the operands with spaces between them: what [Sprintln] and the caller put at the
    end is taken off again, so that no line ends in a line break. *)
Theorem grpc_line args : let line := trimTrailingNewline (Sprintln args) in
  (∃ p, Join (op_text <$> args) [byte 32] = line ++ p ∧ Forall (λ c, c ∈ line_ends) p) ∧
  (∀ c, last line = Some c → c ∉ line_ends) ∧
  ((∀ c, last (Join (op_text <$> args) [byte 32]) = Some c → c ∉ line_ends) → line = Join (op_text <$> args) [byte 32]).
Proof.
  unfold trimTrailingNewline, Sprintln.
  rewrite TrimRight_snoc by (apply (bool_decide_eq_true_1 _); vm_compute; reflexivity).
  split; [apply TrimRight_spec|]. split; [intros c; apply TrimRight_last|apply TrimRight_id].
Qed.
(** The verbosity is the decimal number of the variable, and 0 for anything else, negative
    numbers included; level 0 is always on. *)
Theorem grpc_verbosity env base level : let l := newGRPCLogger env base in
  grpc_V l 0 = true ∧
  (grpc_V l level = true ↔ (level ≤ 0 ∨ ∃ n, Atoi (TrimSpace env) = Some n ∧ level ≤ n)%Z).
Proof.
  unfold newGRPCLogger, grpc_V, grpcVerbosityFromEnv. cbn [gl_verbosity]. case_bool_decide as E.
  { rewrite E. split; [done|]. rewrite Z.leb_le. split; [by left|]. intros [|(n&Hn&_)]; [done|]. by vm_compute in Hn. }
  destruct (Atoi (TrimSpace env)) as [n|].
  - destruct (Z.ltb_spec n 0); rewrite !Z.leb_le; (split; [lia|]).
    + split; [by left|]. intros [|(?&[= <-]&?)]; lia.
    + split; [intros Hl; right; by exists n|]. intros [|(?&[= <-]&?)]; lia.
  - split; [done|]. rewrite Z.leb_le. split; [by left|]. intros [|(?&?&_)]; done.
Qed.
End messages.

(** ** The life of the runtime *)
Section life.
Context `{Zap, CaseTable} {Rest E SDK : Type}.
Context (from_env : result E (LogConfig (Rest:=Rest))) (Normalize : LogConfig (Rest:=Rest) → result E (LogConfig (Rest:=Rest))) (Version : str) (pid : Z).
Context (sdk_New : LogConfig (Rest:=Rest) → result E SDK) (bridge_NewLogger : SDK → BridgeOptions → result E ZapLogger) (verbosity_env : str).
(** The logging runtime.  When it does not come up the loggers of the process are as before, and a
    runtime that was already started is shut down.  When it does, raft, gRPC, the standard log and zap
    all write to its logger, and closing it gives raft, the standard log and zap back and shuts
    the runtime down once; gRPC however keeps writing to the logger of the runtime that was shut down. *)
Theorem log_runtime_life sync shutdown cfg g g' r : runtime_New from_env Normalize Version pid sdk_New bridge_NewLogger verbosity_env cfg g = (g', r) →
  g_std g = None →
  match r with
  | Err e =>
      g_raft g' = g_raft g ∧ g_grpc g' = g_grpc g ∧ g_std g' = g_std g ∧ g_zap g' = g_zap g ∧
      ∃ down, g_shutdown g' = g_shutdown g ++ down ∧
        ∀ c rt, buildConfig from_env Normalize Version pid cfg = Ok c → sdk_New c = Ok rt → down = [rt]
  | Ok rt => ∃ logger runtime,
      g_raft g' = Some (newRaftLogger logger) ∧ g_grpc g' = Some (newGRPCLogger verbosity_env logger) ∧
      g_std g' = Some logger ∧ g_zap g' = Some logger ∧
      let '(g'', errs) := Runtime_Close sync shutdown (Some rt) g' in
      g_raft g'' = None ∧ g_std g'' = g_std g ∧ g_zap g'' = g_zap g ∧ g_shutdown g'' = g_shutdown g ++ [runtime] ∧
      g_grpc g'' = Some (newGRPCLogger verbosity_env logger) ∧
      errs = (match sync logger with
              | Some e => if isIgnorableLoggerSyncError (Some e) then [] else [e]
              | None => []
              end) ++ option_list (shutdown runtime)
  end.
Proof.
  unfold runtime_New. intros Hrun Hstd.
  destruct (buildConfig _ _ _ _ cfg) as [c|e] eqn:Ec.
  2: { injection Hrun as <- <-. split_and!; [done..|]. exists []. by rewrite app_nil_r. }
  destruct (sdk_New c) as [rt|e] eqn:En.
  2: { injection Hrun as <- <-. split_and!; [done..|]. exists []. rewrite app_nil_r. split; [done|]. intros ?? [= <-]. congruence. }
  destruct (bridge_NewLogger rt _) as [logger|e]; injection Hrun as <- <-.
  - exists logger, rt. split_and!; [done..|]. cbn. split_and!; [done..|]. by destruct (sync logger), (shutdown rt).
  - split_and!; [done..|]. exists [rt]. split; [done|]. intros ?? [= <-]. congruence.
Qed.
End life.
