(* ===== verification/Metrics.v ===== *)
(** * Metrics ([internal/metrics], [replication/collector.go], and the hooks of the handlers)

    The client library keeps one cell per tuple of label values; [WithLabelValues] refuses (it
    panics) a wrong number of values and a value that is not valid UTF-8 ([valid_label]).  A
    histogram is the list of what it observed.  Numbers of collected metrics go through [float64]. *)
From Stdlib Require Import Ascii ZArith.
From stdpp Require Import gmap strings list.
From S2P Require Import Prelude GoStrings Selector Codec Snapshot Engine StateMachine Pebble RegistryModel AddressBook Transport Tracker Dto DataNode Http Watch.

(** [sum_Z]: the bytes of a batch. *)
Definition sum_Z (l : list Z) : Z := foldr Z.add 0%Z l.

Section vectors.
Context (valid_label : str → bool).
(** ** Vectors: label names, and a cell per tuple of values *)
Record Vec (A : Type) := MkVec { vec_labels : list str; vec_cells : gmap (list str) A }.
#[global] Arguments MkVec {A}. #[global] Arguments vec_labels {A}. #[global] Arguments vec_cells {A}.
Definition new_vec {A} (labels : list string) : Vec A := MkVec (lit <$> labels) ∅.
Definition accepts {A} (v : Vec A) (values : list str) : bool :=
  (length values =? length (vec_labels v))%nat && forallb valid_label values.
Definition with_values {A} (zero : A) (f : A → A) (values : list str) (v : Vec A) : option (Vec A) :=
  if accepts v values then Some (MkVec (vec_labels v) (<[values := f (default zero (vec_cells v !! values))]> (vec_cells v))) else None.
Definition Inc : list str → Vec Z → option (Vec Z) := with_values 0%Z (λ n, n + 1)%Z.
Definition Dec : list str → Vec Z → option (Vec Z) := with_values 0%Z (λ n, n - 1)%Z.
Definition Observe (x : Z) : list str → Vec (list Z) → option (Vec (list Z)) := with_values [] (λ xs, xs ++ [x]).
Definition cell (v : Vec Z) (values : list str) : Z := default 0%Z (vec_cells v !! values).

(** ** The registry metrics *)
Definition unknownLabelValue : str := lit "unknown".
Definition labelValue (value : str) : str :=
  let value := TrimSpace value in if bool_decide (value = []) then unknownLabelValue else value.
Record RegistryIdentity := MkRegIdentity { id_Namespace : str; id_Identity : Identity; id_Zone : str }.
Record RegistryWatchTarget := MkTarget { wt_Namespace : str; wt_Service : str; wt_Scope : str }.
Record RegistryMetrics := MkRegMetrics {
  registerRequests : Vec Z; heartbeatRequests : Vec Z; deregisterRequests : Vec Z; watchSessions : Vec Z
}.
Definition identityLabels : list string :=
  ["namespace"; "service"; "organization"; "business_domain"; "capability_domain"; "application"; "role"]%string.
Definition NewRegistryMetrics : RegistryMetrics :=
  let requestLabels := identityLabels ++ ["zone"; "code"]%string in
  let watchLabels := ["watch_kind"; "caller_namespace"; "caller_service"; "caller_organization"; "caller_business_domain";
    "caller_capability_domain"; "caller_application"; "caller_role"; "target_namespace"; "target_service"; "target_scope"]%string in
  MkRegMetrics (new_vec requestLabels) (new_vec requestLabels) (new_vec requestLabels) (new_vec watchLabels).
Definition identity_values (namespace : str) (i : Identity) : list str :=
  [labelValue namespace; labelValue (Service i); labelValue (Organization (dims i)); labelValue (BusinessDomain (dims i));
   labelValue (CapabilityDomain (dims i)); labelValue (Application (dims i)); labelValue (RegistryModel.Role (dims i))].
Definition requestLabels (identity : RegistryIdentity) : list str :=
  identity_values (id_Namespace identity) (id_Identity identity) ++ [labelValue (id_Zone identity)].
Definition watchLabels (watchKind : str) (caller : RegistryIdentity) (target : RegistryWatchTarget) : list str :=
  labelValue watchKind :: identity_values (id_Namespace caller) (id_Identity caller) ++
  [labelValue (wt_Namespace target); labelValue (wt_Service target); labelValue (wt_Scope target)].
Definition ObserveRegister (identity : RegistryIdentity) (statusCode : Z) (m : RegistryMetrics) : option RegistryMetrics :=
  v ← Inc (requestLabels identity ++ [FormatUint statusCode]) (registerRequests m);
  Some (MkRegMetrics v (heartbeatRequests m) (deregisterRequests m) (watchSessions m)).
Definition ObserveHeartbeat (identity : RegistryIdentity) (statusCode : Z) (m : RegistryMetrics) : option RegistryMetrics :=
  v ← Inc (requestLabels identity ++ [FormatUint statusCode]) (heartbeatRequests m);
  Some (MkRegMetrics (registerRequests m) v (deregisterRequests m) (watchSessions m)).
Definition ObserveDeregister (identity : RegistryIdentity) (statusCode : Z) (m : RegistryMetrics) : option RegistryMetrics :=
  v ← Inc (requestLabels identity ++ [FormatUint statusCode]) (deregisterRequests m);
  Some (MkRegMetrics (registerRequests m) (heartbeatRequests m) v (watchSessions m)).
(** The start of a session, and the function it returns for its end. *)
Definition with_sessions (m : RegistryMetrics) (v : Vec Z) : RegistryMetrics :=
  MkRegMetrics (registerRequests m) (heartbeatRequests m) (deregisterRequests m) v.
Definition TrackWatchSession (watchKind : str) (caller : RegistryIdentity) (target : RegistryWatchTarget) (m : RegistryMetrics) :
    option (RegistryMetrics * (RegistryMetrics → option RegistryMetrics)) :=
  let labels := watchLabels watchKind caller target in
  v ← Inc labels (watchSessions m);
  Some (with_sessions m v, λ m, v ← Dec labels (watchSessions m); Some (with_sessions m v)).

(** *** What the handlers pass *)
Definition registryIdentityFromRegisterInput (input : RegisterInput) : RegistryIdentity :=
  MkRegIdentity (ri_Namespace input) (ri_Identity input) (ri_Zone input).
Definition registryIdentityFromDeregisterRequest (request : DeregisterRequestDTO) : RegistryIdentity :=
  MkRegIdentity (dr_Namespace request) (dr_Identity request) [].
Definition registryIdentityFromHeartbeatRequest (request : HeartbeatRequestDTO) : RegistryIdentity :=
  MkRegIdentity (hr_Namespace request) (hr_Identity request) [].
Definition caller_identity (caller : str * Identity) : RegistryIdentity := MkRegIdentity caller.1 caller.2 [].
Definition registryWatchTargetFromQuery (query : Query) : RegistryWatchTarget :=
  if negb (bool_decide (q_Service query = [])) && (length (q_Services query) <=? 1)%nat && (length (q_ServicePrefixes query) =? 0)%nat
  then MkTarget (q_Namespace query) (q_Service query) (lit "service")
  else if (1 <? length (q_Services query))%nat then MkTarget (q_Namespace query) (lit "multiple") (lit "service_set")
  else match q_ServicePrefixes query with
       | [] => MkTarget (q_Namespace query) [] (lit "namespace")
       | [prefix] => MkTarget (q_Namespace query) prefix (lit "service_prefix")
       | _ => MkTarget (q_Namespace query) (lit "multiple") (lit "service_prefix")
       end.

(** ** The active instances *)
Section active.
Context `{Json Value, GoRange} {F : Type} (float64 : Z → F).
Definition decodeRegistryValue (raw : str) : option Value := if (length raw =? 0)%nat then None else json_unmarshal raw.
Definition active_labels (value : Value) : list str :=
  identity_values (v_Namespace value) (v_Identity value) ++ [labelValue (v_Zone value)].
(** The two maps of the collection: a count and the label values per joined key. *)
Record Counting := MkCounting { counts : gmap str Z; labelsByKey : gmap str (list str) }.
Definition count_labels (c : Counting) (labels : list str) : Counting :=
  let key := Join labels [zero] in
  MkCounting (<[key := (default 0 (counts c !! key) + 1)%Z]> (counts c)) (<[key := labels]> (labelsByKey c)).
Definition count_item (now : Z) (c : Counting) (item : KV) : Counting :=
  match decodeRegistryValue (kv_Value item) with
  | None => c
  | Some value => if IsAlive value now then count_labels c (active_labels value) else c
  end.
(** [None]: the scan failed and an invalid metric is sent. *)
Definition Collect {E} (scan : str → str → Z → result E (list KV)) (now : Z) : option (list (list str * F)) :=
  match scan RootPrefix (prefixUpperBound RootPrefix) 0%Z with
  | Err _ => None
  | Ok items =>
      let c := fold_left (count_item now) items (MkCounting ∅ ∅) in
      Some ((λ '(key, count), (default [] (labelsByKey c !! key), float64 count)) <$> range (counts c))
  end.

(** ** The replication status *)
Record Collected := MkCollected { cm_Name : str; cm_Value : F; cm_Labels : list str }.
Definition collect_status (item : Status) : list Collected :=
  let labels := [SourceRegion item; SourceClusterID item; Namespace item; ServiceName item] in
  [MkCollected (lit "stellmap_replication_connected") (float64 (if Connected item then 1 else 0)) labels;
   MkCollected (lit "stellmap_replication_last_applied_revision") (float64 (LastAppliedRevision item)) labels;
   MkCollected (lit "stellmap_replication_last_snapshot_revision") (float64 (LastSnapshotRevision item)) labels;
   MkCollected (lit "stellmap_replication_last_sync_unixtime") (float64 (LastSyncUnix item)) labels;
   MkCollected (lit "stellmap_replication_error_total") (float64 (ErrorCount item)) labels].
Definition replication_Collect (tracker : option Tracker) : list Collected :=
  from_option (λ t, List t ≫= collect_status) [] tracker.
End active.

(** *** The write handlers count the requests that they accept as well formed, by the status written *)
Section handlers.
Context `{DN : DataNode Nd E} `{GoRange, CaseTable, Json Value, Json ReplicatedValue} (decode_register : str → option RegisterRequestDTO)
  (decode_deregister : str → option DeregisterRequestDTO) (decode_heartbeat : str → option HeartbeatRequestDTO).
Abbreviation Handled := (Nd * RegistryMetrics → option ((Nd * RegistryMetrics) * Response)).
Definition observed (subject : option RegistryIdentity) (observe : RegistryIdentity → Z → RegistryMetrics → option RegistryMetrics)
    (handler : ST Nd Response Response) : Handled := λ '(s, m),
  let '(s, rsp) := serve handler s in
  match subject with
  | None => Some ((s, m), rsp)
  | Some client => m ← observe client (rsp_Status rsp) m; Some ((s, m), rsp)
  end.
Definition register_identity (r : Request) : option RegistryIdentity :=
  if negb (bool_decide (rq_Method r = lit "POST")) then None
  else request ← decode_register (rq_Body r);
    match NormalizeRegisterInput (registryRegisterInputFromDTO request) with
    | Err _ => None
    | Ok input => if named (ri_Namespace input) (Service (ri_Identity input)) (ri_InstanceID input)
                  then Some (registryIdentityFromRegisterInput input) else None
    end.
Definition deregister_identity (r : Request) : option RegistryIdentity :=
  if negb (bool_decide (rq_Method r = lit "POST")) then None
  else request ← decode_deregister (rq_Body r);
    match NormalizeStructuredServiceIdentity (dr_Identity request) with
    | Err _ => None
    | Ok identity =>
        let request := MkDeregisterRequest (TrimSpace (dr_Namespace request)) identity (TrimSpace (dr_InstanceID request)) in
        if named (dr_Namespace request) (Service identity) (dr_InstanceID request)
        then Some (registryIdentityFromDeregisterRequest request) else None
    end.
Definition heartbeat_identity (r : Request) : option RegistryIdentity :=
  if negb (bool_decide (rq_Method r = lit "POST")) then None
  else request ← decode_heartbeat (rq_Body r);
    match NormalizeStructuredServiceIdentity (hr_Identity request) with
    | Err _ => None
    | Ok identity =>
        let request := MkHeartbeatRequest (TrimSpace (hr_Namespace request)) identity (TrimSpace (hr_InstanceID request)) (hr_LeaseTTLSeconds request) in
        if named (hr_Namespace request) (Service identity) (hr_InstanceID request) && (0 <=? hr_LeaseTTLSeconds request)%Z
        then Some (registryIdentityFromHeartbeatRequest request) else None
    end.
Definition observeRegisterRequestMetrics (h : RegistryAPI) (now : Z) (r : Request) : Handled :=
  observed (register_identity r) ObserveRegister (Register decode_register h now r).
Definition observeDeregisterRequestMetrics (h : RegistryAPI) (r : Request) : Handled :=
  observed (deregister_identity r) ObserveDeregister (Deregister decode_deregister h r).
Definition observeHeartbeatRequestMetrics (h : RegistryAPI) (now : Z) (r : Request) : Handled :=
  observed (heartbeat_identity r) ObserveHeartbeat (Heartbeat decode_heartbeat h now r).
End handlers.

(** ** The gRPC server *)
Section grpc.
Context `{TransportNode Nd Msg E} (status_Code : option (TransportErr E) → str).
Record GRPCServerMetrics := MkGRPCMetrics {
  gm_inflight : Vec Z; gm_requests : Vec Z; gm_latency : Vec (list Z); gm_raftBatchMessages : Vec (list Z);
  gm_raftBatchBytes : Vec (list Z); gm_snapshotChunkCount : Vec (list Z); gm_snapshotBytes : Vec (list Z)
}.
Definition newGRPCServerMetrics : GRPCServerMetrics :=
  MkGRPCMetrics (new_vec ["method"; "rpc_type"]%string) (new_vec ["method"; "rpc_type"; "code"]%string)
    (new_vec ["method"; "rpc_type"; "code"]%string) (new_vec ["method"]%string) (new_vec ["method"]%string)
    (new_vec ["method"; "direction"]%string) (new_vec ["method"; "direction"]%string).
Definition set_inflight (m : GRPCServerMetrics) (v : Vec Z) : GRPCServerMetrics :=
  MkGRPCMetrics v (gm_requests m) (gm_latency m) (gm_raftBatchMessages m) (gm_raftBatchBytes m) (gm_snapshotChunkCount m) (gm_snapshotBytes m).
Definition grpc_IncInflight (method rpcType : str) (m : GRPCServerMetrics) : option GRPCServerMetrics :=
  set_inflight m <$> Inc [method; rpcType] (gm_inflight m).
Definition grpc_DecInflight (method rpcType : str) (m : GRPCServerMetrics) : option GRPCServerMetrics :=
  set_inflight m <$> Dec [method; rpcType] (gm_inflight m).
Definition grpc_ObserveRequest (method rpcType : str) (err : option (TransportErr E)) (duration : Z) (m : GRPCServerMetrics) :
    option GRPCServerMetrics :=
  let values := [method; rpcType; status_Code err] in
  requests ← Inc values (gm_requests m);
  latency ← Observe duration values (gm_latency m);
  Some (MkGRPCMetrics (gm_inflight m) requests latency (gm_raftBatchMessages m) (gm_raftBatchBytes m) (gm_snapshotChunkCount m) (gm_snapshotBytes m)).
Definition ObserveRaftBatch (method : str) (messages bytes : Z) (m : GRPCServerMetrics) : option GRPCServerMetrics :=
  count ← Observe messages [method] (gm_raftBatchMessages m);
  size ← Observe bytes [method] (gm_raftBatchBytes m);
  Some (MkGRPCMetrics (gm_inflight m) (gm_requests m) (gm_latency m) count size (gm_snapshotChunkCount m) (gm_snapshotBytes m)).
Definition observeSnapshotTransfer (method direction : str) (chunks bytes : Z) (m : GRPCServerMetrics) : option GRPCServerMetrics :=
  count ← Observe chunks [method; direction] (gm_snapshotChunkCount m);
  size ← Observe bytes [method; direction] (gm_snapshotBytes m);
  Some (MkGRPCMetrics (gm_inflight m) (gm_requests m) (gm_latency m) (gm_raftBatchMessages m) (gm_raftBatchBytes m) count size).
Definition snapshotDirectionRecv : str := lit "recv".
Definition snapshotDirectionSend : str := lit "send".
Definition ObserveSnapshotRecv (method : str) := observeSnapshotTransfer method snapshotDirectionRecv.
Definition ObserveSnapshotSend (method : str) := observeSnapshotTransfer method snapshotDirectionSend.

(** *** The hooks of [Server]: around an RPC, in the order of its deferred calls *)
Definition methodRaftSend : str := lit "/stellmap.v1.RaftTransport/Send".
Definition methodSnapshotInstall : str := lit "/stellmap.v1.SnapshotService/Install".
Definition methodSnapshotDownload : str := lit "/stellmap.v1.SnapshotService/Download".
Definition rpcTypeUnary : str := lit "unary".
Definition rpcTypeClientStream : str := lit "client_stream".
Definition rpcTypeServerStream : str := lit "server_stream".
Definition error_of {A} (r : result (TransportErr E) A) : option (TransportErr E) := match r with Ok _ => None | Err e => Some e end.
(** [body] is the RPC between [beginRPC] and the function that it returned, with its own hooks. *)
Definition beginRPC {S A} (method rpcType : str) (elapsed : Z)
    (body : S * GRPCServerMetrics → option ((S * GRPCServerMetrics) * result (TransportErr E) A)) :
    S * GRPCServerMetrics → option ((S * GRPCServerMetrics) * result (TransportErr E) A) := λ '(s, m),
  m ← grpc_IncInflight method rpcType m;
  out ← body (s, m);
  let '(s, m, r) := out in
  m ← grpc_DecInflight method rpcType m;
  m ← grpc_ObserveRequest method rpcType (error_of r) elapsed m;
  Some ((s, m), r).
Definition observeRaftBatch (method : str) (batch : RaftMessageBatch) : GRPCServerMetrics → option GRPCServerMetrics :=
  ObserveRaftBatch method (Z.of_nat (length (b_Messages batch))) (sum_Z ((λ e, Z.of_nat (length (env_Payload e))) <$> b_Messages batch)).
Definition observed_Send (elapsed : Z) (batch : option pb_RaftMessageBatch) :=
  beginRPC (S:=InternalTransportService Nd) methodRaftSend rpcTypeUnary elapsed (λ '(s, m),
    m ← observeRaftBatch methodRaftSend (fromProtoRaftBatch batch) m;
    let '(s, r) := Send batch s in Some ((s, m), r)).
(** The chunks and bytes that [Install] had received when it returned. *)
Fixpoint received (stream : list (option pb_SnapshotChunk)) (s : InternalTransportService Nd) : Z * Z :=
  match stream with
  | [] => (0, 0)%Z
  | chunk :: stream =>
      let bytes := Z.of_nat (length (sc_Data (fromProtoInstallChunk chunk))) in
      match InstallSnapshotChunk (fromProtoInstallChunk chunk) s with
      | (s, Ok _) => if sc_EOF (fromProtoInstallChunk chunk) then (1, bytes)%Z
                     else let '(n, b) := received stream s in (1 + n, bytes + b)%Z
      | (_, Err _) => (1, bytes)%Z
      end
  end.
Definition observed_Install (elapsed : Z) (stream : list (option pb_SnapshotChunk)) (clean : bool) :=
  beginRPC methodSnapshotInstall rpcTypeClientStream elapsed (λ '(s, m),
    let '(chunkCount, byteCount) := received stream s in
    let '(s, r) := Install stream clean s in
    m ← ObserveSnapshotRecv methodSnapshotInstall chunkCount byteCount m;
    Some ((s, m), r)).
Definition observeSnapshotSend (method : str) (chunks : list SnapshotChunk) : GRPCServerMetrics → option GRPCServerMetrics :=
  ObserveSnapshotSend method (Z.of_nat (length chunks)) (sum_Z ((λ c, Z.of_nat (length (sc_Data c))) <$> chunks)).
Definition observed_Download `{Json Metadata} (elapsed : Z) (term index : Z) :=
  beginRPC (S:=FileStore) methodSnapshotDownload rpcTypeServerStream elapsed (λ '(store, m),
    match DownloadSnapshot (E:=E) store term index with
    | Err e => Some ((store, m), Err e)
    | Ok chunks => m ← observeSnapshotSend methodSnapshotDownload chunks m; Some ((store, m), Download store term index)
    end).
End grpc.
End vectors.
