(* ===== verification/MetricsFacts.v ===== *)
(** * What the metrics count *)
From Stdlib Require Import Ascii ZArith.
From stdpp Require Import gmap strings list.
From S2P Require Import Prelude GoStrings Selector Codec Snapshot Engine StateMachine Pebble RegistryModel AddressBook Transport Tracker Dto DataNode Http Watch Metrics.

(** ** The active instances *)
Section active.
Context `{Json Value, GoRange} {F : Type} (float64 : Z → F).
Definition join_key (labels : list str) : str := Join labels [zero].
(** The label values of the live instances among scanned items, one tuple per instance. *)
Definition live_labels (now : Z) (items : list KV) : list (list str) :=
  omap (λ item, value ← decodeRegistryValue (kv_Value item); if IsAlive value now then Some (active_labels value) else None) items.
Definition occurs (key : str) (tuples : list (list str)) : nat := length (filter (λ labels, join_key labels = key) tuples).
Lemma fold_items now items c : fold_left (count_item now) items c = fold_left count_labels (live_labels now items) c.
Proof.
  revert c; induction items as [|item items IH]; intros c; [done|]. cbn [fold_left]. rewrite IH. unfold count_item, live_labels. cbn.
  destruct (decodeRegistryValue (kv_Value item)) as [value|]; [|done]. cbn. by destruct (IsAlive value now).
Qed.
(** The counts are those of the tuples, and every key has the values of one of them. *)
Record counted (tuples : list (list str)) (c : Counting) : Prop := {
  counted_counts key : counts c !! key = if (occurs key tuples =? 0)%nat then None else Some (Z.of_nat (occurs key tuples));
  counted_labels key : from_option (λ labels, labels ∈ tuples ∧ join_key labels = key) (occurs key tuples = 0)%nat (labelsByKey c !! key)
}.
Lemma occurs_snoc key tuples labels : occurs key (tuples ++ [labels]) = (occurs key tuples + if decide (join_key labels = key) then 1 else 0)%nat.
Proof. unfold occurs. rewrite filter_app, length_app, filter_cons. by case_decide. Qed.
Lemma counted_step tuples c labels : counted tuples c → counted (tuples ++ [labels]) (count_labels c labels).
Proof.
  intros [Hc Hl]. split; intros key; unfold count_labels; cbn [counts labelsByKey]; rewrite occurs_snoc; fold (join_key labels).
  - case_decide as E.
    + rewrite E, lookup_insert_eq, Hc. destruct (occurs key tuples); cbn [Nat.eqb default Nat.add]; [done|].
      destruct (Nat.eqb_spec (S n + 1) 0); [lia|]. f_equal. cbn. lia.
    + by rewrite lookup_insert_ne, Hc, Nat.add_0_r.
  - case_decide as E.
    + rewrite E, lookup_insert_eq. cbn. split; [set_solver|done].
    + rewrite lookup_insert_ne by done. specialize (Hl key). destruct (labelsByKey c !! key) as [other|]; cbn in *; [set_solver|lia].
Qed.
Lemma counted_fold tuples : counted tuples (fold_left count_labels tuples (MkCounting ∅ ∅)).
Proof.
  induction tuples as [|labels tuples IH] using rev_ind; [by split; intros key; cbn; rewrite lookup_empty|].
  rewrite fold_left_app. by apply counted_step.
Qed.
Lemma sum_Z_perm l l' : l ≡ₚ l' → sum_Z l = sum_Z l'.
Proof. unfold sum_Z. induction 1; cbn [foldr]; lia. Qed.
Definition total (m : gmap str Z) : Z := sum_Z (map_to_list m).*2.
Lemma total_insert m key n : m !! key = None → total (<[key := n]> m) = (n + total m)%Z.
Proof. intros Hk. unfold total. by rewrite (sum_Z_perm _ ((key, n) :: map_to_list m).*2); [|rewrite map_to_list_insert]. Qed.
Lemma total_count m key : total (<[key := (default 0 (m !! key) + 1)%Z]> m) = (total m + 1)%Z.
Proof.
  destruct (m !! key) as [n|] eqn:Hk; [|rewrite total_insert by done; change (default 0%Z None) with 0%Z; lia].
  assert (Hm : total m = (n + total (delete key m))%Z).
  { rewrite <- (insert_delete_id m key n) at 1 by done. apply total_insert, lookup_delete_eq. }
  rewrite <- insert_delete_eq, total_insert, Hm by apply lookup_delete_eq. change (default 0%Z (Some n)) with n. lia.
Qed.
Lemma total_fold tuples c : total (counts (fold_left count_labels tuples c)) = (total (counts c) + Z.of_nat (length tuples))%Z.
Proof.
  revert c; induction tuples as [|labels tuples IH]; intros c; [cbn; lia|]. cbn [fold_left length]. rewrite IH.
  unfold count_labels. cbn [counts]. rewrite total_count. lia.
Qed.
(** The label values of an instance are eight. *)
Lemma live_eight now items : Forall (λ labels, length labels = 8) (live_labels now items).
Proof.
  apply Forall_forall. intros labels (item&_&Hl)%list_elem_of_omap. destruct (decodeRegistryValue _) as [v|]; [|done]. cbn in Hl.
  destruct (IsAlive v now); [|done]. by injection Hl as <-.
Qed.
Lemma join_key_inj a b : length a = 8 → length b = 8 → Forall (λ l, zero ∉ l) a → Forall (λ l, zero ∉ l) b → join_key a = join_key b → a = b.
Proof.
  intros Ha Hb Hza Hzb E. apply (f_equal (λ s, Split s [zero])) in E. unfold join_key in E.
  rewrite !Split_Join in E; try done; by intros ->.
Qed.
Lemma occurs_exact live labels : (∀ l, l ∈ live → join_key l = join_key labels → l = labels) →
  occurs (join_key labels) live = length (filter (λ l, l = labels) live).
Proof.
  unfold occurs. induction live as [|l live IH]; intros Hinj; [done|]. rewrite !filter_cons.
  specialize (IH (λ l Hl, Hinj l (list_elem_of_further _ _ _ Hl))).
  destruct (decide (join_key l = join_key labels)) as [E|E], (decide (l = labels)) as [E'|E']; cbn; try congruence.
  by destruct E'; apply Hinj; [left|].
Qed.

(** C40: The gauge of active instances.  Over whatever the scan returns, the sum of what is collected
    is the number of live instances with a readable value; no tuple of label values is sent twice,
    so the collection is never refused as inconsistent; and as long as no label holds a zero byte,
    each tuple is sent with exactly the number of live instances that have these labels. *)
Theorem active_instances_counted {E} (scan : str → str → Z → result E (list KV)) now items :
  scan RootPrefix (prefixUpperBound RootPrefix) 0%Z = Ok items →
  let live := live_labels now items in
  ∃ sent : list (list str * Z), Collect float64 scan now = Some ((λ '(labels, n), (labels, float64 n)) <$> sent) ∧
    sum_Z sent.*2 = Z.of_nat (length live) ∧ NoDup sent.*1 ∧
    (Forall (Forall (λ l, zero ∉ l)) live →
     ∀ labels n, (labels, n) ∈ sent ↔ labels ∈ live ∧ n = Z.of_nat (length (filter (λ l, l = labels) live))).
Proof.
  intros Hscan live. unfold Collect. rewrite Hscan, fold_items. fold live.
  destruct (counted_fold live) as [Hc Hl]. pose proof (total_fold live (MkCounting ∅ ∅)) as Htotal.
  set (c := fold_left count_labels live _) in *. change (total (counts (MkCounting ∅ ∅))) with 0%Z in Htotal.
  exists ((λ '(key, n), (default [] (labelsByKey c !! key), n)) <$> range (counts c)).
  assert (Hkeys : ∀ key n, (key, n) ∈ range (counts c) → ∃ labels, labelsByKey c !! key = Some labels ∧ labels ∈ live ∧
    join_key labels = key ∧ n = Z.of_nat (occurs key live)).
  { intros key n Hin. rewrite range_perm, elem_of_map_to_list, Hc in Hin. specialize (Hl key).
    destruct (Nat.eqb_spec (occurs key live) 0) as [|Hne]; [done|]. injection Hin as <-.
    destruct (labelsByKey c !! key) as [labels|]; [|by destruct Hne]. exists labels. by destruct Hl. }
  split; [rewrite <- list_fmap_compose; f_equal; apply list_fmap_ext; by intros ? [? ?] _|]. split; [|split].
  - rewrite <- list_fmap_compose, <- (Z.add_0_l (Z.of_nat _)), <- Htotal. unfold total. apply sum_Z_perm.
    rewrite range_perm. erewrite list_fmap_ext; [reflexivity|]. by intros ? [? ?] _.
  - apply (NoDup_fmap_1 join_key). rewrite <- !list_fmap_compose.
    rewrite (list_fmap_ext _ fst); [rewrite range_perm; apply NoDup_fst_map_to_list|].
    intros i [key n] Hi%list_elem_of_lookup_2. by destruct (Hkeys key n Hi) as (labels&Hlab&_&<-&_); cbn; rewrite Hlab.
  - intros Hzero labels n. rewrite list_elem_of_fmap.
    assert (Hinj : ∀ a b, a ∈ live → b ∈ live → join_key a = join_key b → a = b).
    { intros a b Ha Hb. pose proof (live_eight now items) as H8. rewrite Forall_forall in H8, Hzero.
      apply join_key_inj; [by apply H8|by apply H8|by apply Hzero|by apply Hzero]. }
    split.
    + intros ([key m]&[= -> ->]&Hin). destruct (Hkeys key m Hin) as (t&Hlab&Ht&<-&->). rewrite Hlab. cbn. split; [done|].
      rewrite occurs_exact; [done|]. intros l Hlive. by apply Hinj.
    + intros [Hin ->]. exists (join_key labels, Z.of_nat (occurs (join_key labels) live)).
      assert (Hocc : occurs (join_key labels) live ≠ 0).
      { unfold occurs. intros Hnil%length_zero_iff_nil. assert (Hf : labels ∈ filter (λ l, join_key l = join_key labels) live) by (by apply list_elem_of_filter).
        rewrite Hnil in Hf. by apply not_elem_of_nil in Hf. }
      assert (Hr : (join_key labels, Z.of_nat (occurs (join_key labels) live)) ∈ range (counts c)).
      { rewrite range_perm, elem_of_map_to_list, Hc. by destruct (Nat.eqb_spec (occurs (join_key labels) live) 0). }
      split; [|done]. destruct (Hkeys _ _ Hr) as (t&Hlab&Ht&Hk&_). rewrite Hlab. cbn. apply Hinj in Hk as ->; [|done|done].
      f_equal. rewrite occurs_exact; [done|]. intros l Hlive. by apply Hinj.
Qed.
End active.

(** ** The hooks of the gRPC server *)
Section grpc.
Context (valid_label : str → bool) `{TransportNode Nd Msg E} (status_Code : option (TransportErr E) → str).
(** The vectors have their label names, and the values that the server passes are valid. *)
Definition shaped (m : GRPCServerMetrics) : Prop :=
  length (vec_labels (gm_inflight m)) = 2 ∧ length (vec_labels (gm_requests m)) = 3 ∧ length (vec_labels (gm_latency m)) = 3 ∧
  length (vec_labels (gm_raftBatchMessages m)) = 1 ∧ length (vec_labels (gm_raftBatchBytes m)) = 1 ∧
  length (vec_labels (gm_snapshotChunkCount m)) = 2 ∧ length (vec_labels (gm_snapshotBytes m)) = 2.
Definition server_labels : list str :=
  [methodRaftSend; methodSnapshotInstall; methodSnapshotDownload; rpcTypeUnary; rpcTypeClientStream; rpcTypeServerStream;
   snapshotDirectionRecv; snapshotDirectionSend].
Hypothesis labels_valid : Forall (λ l, valid_label l = true) server_labels.
Hypothesis codes_valid : ∀ err, valid_label (status_Code err) = true.
Lemma valid_in l : l ∈ server_labels → valid_label l = true.
Proof. revert l. by apply Forall_forall. Qed.
(** After an RPC with this outcome: nothing more in flight, one more request with its code. *)
Definition settled {A} (method rpcType : str) (r : result (TransportErr E) A) (m m' : GRPCServerMetrics) : Prop :=
  (∀ labels, cell (gm_inflight m') labels = cell (gm_inflight m) labels) ∧
  ∀ labels, cell (gm_requests m') labels =
    (cell (gm_requests m) labels + if bool_decide (labels = [method; rpcType; status_Code (error_of r)]) then 1 else 0)%Z.
Lemma accepted {A} (zero : A) f values (v : Vec A) : length (vec_labels v) = length values → Forall (λ l, valid_label l = true) values →
  with_values valid_label zero f values v = Some (MkVec (vec_labels v) (<[values := f (default zero (vec_cells v !! values))]> (vec_cells v))).
Proof.
  intros Hlen Hv. unfold with_values, accepts. rewrite Hlen, Nat.eqb_refl, (proj2 (forallb_forall _ _)); [done|].
  rewrite Forall_forall in Hv. intros l Hl%list_elem_of_In. by apply Hv.
Qed.
Lemma cell_update labels values n cells l :
  cell (MkVec labels (<[values := n]> cells)) l = if bool_decide (l = values) then n else default 0%Z (cells !! l).
Proof. unfold cell. cbn [vec_cells]. case_bool_decide as Hl; [by rewrite Hl, lookup_insert_eq|by rewrite lookup_insert_ne]. Qed.
(** The frame of an RPC: a body that answers and leaves the two vectors alone. *)
Lemma beginRPC_settles {S A} method rpcType elapsed (body : S * GRPCServerMetrics → option ((S * GRPCServerMetrics) * result (TransportErr E) A))
    (plain : S → S * result (TransportErr E) A) s m :
  method ∈ server_labels → rpcType ∈ server_labels → shaped m →
  (∀ m1, shaped m1 → ∃ m2, body (s, m1) = Some (((plain s).1, m2), (plain s).2) ∧ shaped m2 ∧
    gm_inflight m2 = gm_inflight m1 ∧ gm_requests m2 = gm_requests m1) →
  ∃ m', beginRPC valid_label status_Code method rpcType elapsed body (s, m) = Some (((plain s).1, m'), (plain s).2) ∧ shaped m' ∧
    settled method rpcType (plain s).2 m m'.
Proof.
  intros Hmethod%valid_in Htype%valid_in Hm Hbody. unfold beginRPC, grpc_IncInflight, Inc. rewrite accepted; [|by destruct Hm as [-> _]|by repeat constructor].
  cbn [fmap option_fmap option_map mbind option_bind]. match goal with |- context [set_inflight m ?v] => set (m1 := set_inflight m v) end.
  destruct (Hbody m1) as (m2&Hrun&Hshape&Hin&Hreq); [by destruct Hm as (?&?&?&?&?&?&?)|].
  rewrite Hrun. cbn [mbind option_bind]. unfold grpc_DecInflight, Dec.
  pose proof Hshape as (H2&H3&H3'&_). rewrite accepted; [|exact H2|by repeat constructor].
  cbn [fmap option_fmap option_map mbind option_bind]. unfold grpc_ObserveRequest, Inc, Observe. cbn [set_inflight gm_requests gm_latency].
  rewrite accepted; [|exact H3'|by repeat constructor]. cbn [mbind option_bind].
  rewrite accepted; [|exact H3|by repeat constructor]. cbn [mbind option_bind].
  eexists. split; [reflexivity|]. split; [by destruct Hshape as (?&?&?&?&?&?&?)|]. split; intros labels; cbn [gm_inflight gm_requests].
  - cbn [set_inflight gm_inflight]. rewrite cell_update, Hin. subst m1. cbn [set_inflight gm_inflight vec_cells]. unfold cell.
    destruct (decide (labels = [method; rpcType])) as [->|Hne]; [|by rewrite bool_decide_false, lookup_insert_ne].
    rewrite bool_decide_true, lookup_insert_eq by done. cbn [from_option]. unfold id. lia.
  - rewrite cell_update. cbn [set_inflight gm_requests]. rewrite Hreq. subst m1. cbn [set_inflight gm_requests]. unfold cell. case_bool_decide as Hl; [rewrite Hl|]; lia.
Qed.
Definition same_rpcs (m m' : GRPCServerMetrics) : Prop := gm_inflight m' = gm_inflight m ∧ gm_requests m' = gm_requests m.
Lemma raft_batch_observed method messages bytes m : method ∈ server_labels → shaped m →
  ∃ m', ObserveRaftBatch valid_label method messages bytes m = Some m' ∧ shaped m' ∧ same_rpcs m m'.
Proof.
  intros Hmethod%valid_in (H2&H3&H3'&H1&H1'&Hs). unfold ObserveRaftBatch, Observe.
  rewrite accepted; [|done|by repeat constructor]. cbn [mbind option_bind]. rewrite accepted; [|done|by repeat constructor].
  by eexists; split; [reflexivity|].
Qed.
Lemma transfer_observed method direction chunks bytes m : method ∈ server_labels → direction ∈ server_labels → shaped m →
  ∃ m', observeSnapshotTransfer valid_label method direction chunks bytes m = Some m' ∧ shaped m' ∧ same_rpcs m m'.
Proof.
  intros Hmethod%valid_in Hdirection%valid_in (H2&H3&H3'&H1&H1'&Hs&Hs'). unfold observeSnapshotTransfer, Observe.
  rewrite accepted; [|done|by repeat constructor]. cbn [mbind option_bind]. rewrite accepted; [|done|by repeat constructor].
  by eexists; split; [reflexivity|].
Qed.
(** The metrics of the transport only watch.  With the label values that the server passes,
    each of its three RPCs answers what it answers without metrics and leaves the same state; it
    counts as one request under its method and status code, whatever the outcome, and nothing
    stays in flight. *)
Theorem rpcs_observed `{Json Metadata} m (s : InternalTransportService Nd) (store : FileStore) batch stream clean term index elapsed :
  shaped m →
  (∃ m', observed_Send valid_label status_Code elapsed batch (s, m) = Some (((Send batch s).1, m'), (Send batch s).2) ∧ shaped m' ∧
    settled methodRaftSend rpcTypeUnary (Send batch s).2 m m') ∧
  (∃ m', observed_Install valid_label status_Code elapsed stream clean (s, m) = Some (((Install stream clean s).1, m'), (Install stream clean s).2) ∧
    shaped m' ∧ settled methodSnapshotInstall rpcTypeClientStream (Install stream clean s).2 m m') ∧
  ∃ m', observed_Download valid_label status_Code elapsed term index (store, m) = Some ((store, m'), Download store term index) ∧ shaped m' ∧
    settled methodSnapshotDownload rpcTypeServerStream (Download (E:=E) store term index) m m'.
Proof.
  intros Hm. split; [|split].
  - apply (beginRPC_settles _ _ _ _ (Send batch)); [set_solver|set_solver|done|]. intros m1 Hm1. unfold observeRaftBatch.
    destruct (raft_batch_observed methodRaftSend (Z.of_nat (length (b_Messages (fromProtoRaftBatch batch))))
      (sum_Z ((λ e, Z.of_nat (length (env_Payload e))) <$> b_Messages (fromProtoRaftBatch batch))) m1) as (m2&->&Hm2&Hsame); [set_solver|done|].
    exists m2. cbn [mbind option_bind]. by destruct (Send batch s).
  - apply (beginRPC_settles _ _ _ _ (Install stream clean)); [set_solver|set_solver|done|]. intros m1 Hm1.
    destruct (received stream s) as [n b]. destruct (Install stream clean s) as [s' r].
    destruct (transfer_observed methodSnapshotInstall snapshotDirectionRecv n b m1) as (m2&Hrun&Hm2&Hsame); [set_solver|set_solver|done|].
    exists m2. unfold ObserveSnapshotRecv. by rewrite Hrun.
  - apply (beginRPC_settles _ _ _ _ (λ store, (store, Download store term index))); [set_solver|set_solver|done|]. intros m1 Hm1.
    unfold Download. destruct (DownloadSnapshot store term index) as [chunks|e]; [|by exists m1].
    destruct (transfer_observed methodSnapshotDownload snapshotDirectionSend (Z.of_nat (length chunks))
      (sum_Z ((λ c, Z.of_nat (length (sc_Data c))) <$> chunks)) m1) as (m2&Hrun&Hm2&Hsame); [set_solver|set_solver|done|].
    exists m2. unfold observeSnapshotSend, ObserveSnapshotSend. by rewrite Hrun.
Qed.
End grpc.
