(* ===== verification/MetricsSamples.v ===== *)
(** * Metrics at work *)
From Stdlib Require Import Ascii ZArith.
From stdpp Require Import gmap strings list.
From S2P Require Import Prelude GoStrings Selector Codec Snapshot Engine StateMachine Pebble RegistryModel AddressBook Transport Tracker Dto DataNode Http Watch Samples WriteSamples Metrics MetricsFacts.

#[local] Existing Instances range_by_key identity_case value_json recorder sample_json.
(** Two readable values, one of them expired at the time of the collection, and one unreadable. *)
Definition scanned : list KV := [MkKV (lit "a") data_v; MkKV (lit "b") data_v'; MkKV (lit "c") (lit "?")].
Definition sample_scan (start end_ : str) (limit : Z) : result unit (list KV) := Ok scanned.
Lemma active_instances_counted_witness :
  live_labels 1035 scanned = [active_labels sample_v'] ∧
  ∃ sent : list (list str * Z), Collect id sample_scan 1035 = Some ((λ '(labels, n), (labels, n)) <$> sent) ∧
    (active_labels sample_v', 1%Z) ∈ sent.
Proof.
  split; [apply (bool_decide_unpack _); vm_compute; exact I|].
  destruct (active_instances_counted id sample_scan 1035 scanned eq_refl) as (sent&Hrun&_&_&Hsent).
  exists sent. split; [exact Hrun|]. apply Hsent.
  - apply (bool_decide_unpack _). vm_compute. exact I.
  - apply (bool_decide_unpack _). vm_compute. exact I.
Defined.

Definition plain_code (err : option (TransportErr Empty_set)) : str := if err is Some _ then lit "Unknown" else lit "OK".
Definition short_label (l : str) : bool := (length l <? 64)%nat.
Definition sample_chunk : option pb_SnapshotChunk := Some (PbChunk (Some (PbSnapMeta 2 7 [] [] 2)) (lit "ab") 0 true).
Lemma rpcs_observed_witness :
  Send (Some (PbBatch [])) (NewInternalTransportService []) = (NewInternalTransportService [], Ok tt) ∧
  ∃ m', observed_Install short_label plain_code 1 [sample_chunk] true (NewInternalTransportService [], newGRPCServerMetrics) =
    Some (((Install [sample_chunk] true (NewInternalTransportService [])).1, m'), (Install [sample_chunk] true (NewInternalTransportService [])).2) ∧
    cell (gm_requests m') [methodSnapshotInstall; rpcTypeClientStream; lit "OK"] = 1%Z.
Proof.
  split; [reflexivity|].
  destruct (rpcs_observed short_label plain_code) with (H0:=sample_json) (m:=newGRPCServerMetrics) (s:=NewInternalTransportService ([] : list (Metadata * str)))
    (store:=NewFileStore ∅) (batch:=Some (PbBatch [])) (stream:=[sample_chunk]) (clean:=true) (term:=0%Z) (index:=0%Z) (elapsed:=1%Z)
    as (_&(m'&Hrun&_&_&Hcells)&_).
  - by repeat constructor.
  - by intros [].
  - by repeat split.
  - exists m'. split; [exact Hrun|]. rewrite Hcells. reflexivity.
Defined.
