(* ===== verification/Sessions.v ===== *)
(** * Watch sessions ([WatchInstances] and [WatchReplication] around their streams)

    Every stream holds a subscription of the hub and a cell of the session gauge, from its start to the deferred
    calls at its end.  Sessions, publications and readers interleave; the gauge is the number of open
    sessions. *)
From Stdlib Require Import Ascii ZArith.
From stdpp Require Import gmap strings list.
From S2P Require Import Prelude GoStrings Selector Codec RegistryModel WatchHub Dto DataNode Http Watch Metrics.

Section sessions.
Context (valid_label : str → bool).
(** The function returned counts the session off again; without metrics it does nothing.  [None]: a panic. *)
Definition trackWatchSessionMetrics (metrics : option RegistryMetrics) (watchKind : str) (caller : RegistryIdentity) (target : RegistryWatchTarget) :
    option (option RegistryMetrics * (option RegistryMetrics → option (option RegistryMetrics))) :=
  match metrics with
  | None => Some (None, Some)
  | Some m =>
      r ← TrackWatchSession valid_label watchKind caller target m;
      Some (Some r.1, λ now, match now with Some m => Some <$> r.2 m | None => Some None end)
  end.
(** An open session; the labels are a history variable. *)
Record Session := MkWatchSession { ws_close : option RegistryMetrics → option (option RegistryMetrics); ws_labels : list str }.
Record Sessions := MkSessions { sx_hub : Hub; sx_metrics : option RegistryMetrics; sx_open : gmap Z Session }.
(** The start of a stream; when the gauge refuses the labels, the deferred [unsubscribe] runs all the same. *)
Definition session_open (watchKind : str) (caller : RegistryIdentity) (target : RegistryWatchTarget) (since : Z) (x : Sessions) : Sessions :=
  let '(h, (id, _, _)) := SubscribeSince (sx_hub x) 128 since in
  match trackWatchSessionMetrics (sx_metrics x) watchKind caller target with
  | None => MkSessions (unsubscribe h id) (sx_metrics x) (sx_open x)
  | Some (m, closeWatchMetrics) => MkSessions h m (<[id := MkWatchSession closeWatchMetrics (watchLabels watchKind caller target)]> (sx_open x))
  end.
(** Its end, however the stream ended: the deferred calls in reverse order. *)
Definition session_close (id : Z) (x : Sessions) : option Sessions :=
  s ← sx_open x !! id;
  Some (MkSessions (unsubscribe (sx_hub x) id) (default (sx_metrics x) (ws_close s (sx_metrics x))) (delete id (sx_open x))).
Inductive SessionEvent :=
  | SOpen (watchKind : str) (caller : RegistryIdentity) (target : RegistryWatchTarget) (since : Z)
  | SClose (id : Z)
  | SHub (l : Label).
(** Only sessions subscribe and unsubscribe; a process whose publisher panicked is gone. *)
Definition session_step (e : SessionEvent) (x : Sessions) : option Sessions :=
  if decide (h_pub (sx_hub x) = Panicked) then None else
  match e with
  | SOpen watchKind caller target since => Some (session_open watchKind caller target since x)
  | SClose id => session_close id x
  | SHub (LSubscribe _ _) | SHub (LUnsubscribe _) => None
  | SHub l => h ← hub_step l (sx_hub x); Some (MkSessions h (sx_metrics x) (sx_open x))
  end.
Fixpoint session_run (es : list SessionEvent) (x : Sessions) : option Sessions :=
  match es with
  | [] => Some x
  | e :: es => x' ← session_step e x; session_run es x'
  end.
Definition no_sessions : Sessions := MkSessions NewWatchHub (Some NewRegistryMetrics) ∅.

(** ** The invariant *)
Definition end_session (labels : list str) (now : option RegistryMetrics) : option (option RegistryMetrics) :=
  match now with
  | Some m => Some <$> (v ← Dec valid_label labels (watchSessions m); Some (with_sessions m v))
  | None => Some None
  end.
Definition with_labels (labels : list str) (p : Z * Session) : Prop := ws_labels p.2 = labels.
#[local] Instance with_labels_dec labels p : Decision (with_labels labels p).
Proof. unfold with_labels. apply _. Defined.
Definition open_sessions (x : Sessions) (labels : list str) : nat := size (filter (with_labels labels) (sx_open x)).
Record sessions_ok (n : Z) (m : RegistryMetrics) (x : Sessions) : Prop := {
  so_hub : hub_inv n (sx_hub x);
  so_metrics : sx_metrics x = Some m;
  so_vec : vec_labels (watchSessions m) = vec_labels (watchSessions NewRegistryMetrics);
  so_open : ∀ id s, sx_open x !! id = Some s → is_Some (h_chans (sx_hub x) !! id) ∧
    ws_close s = end_session (ws_labels s) ∧ accepts valid_label (watchSessions m) (ws_labels s) = true;
  so_watchers : ∀ id, id ∈ h_watchers (sx_hub x) → is_Some (sx_open x !! id);
  so_count : ∀ labels, cell (watchSessions m) labels = Z.of_nat (open_sessions x labels)
}.
Lemma no_sessions_ok : sessions_ok 0 NewRegistryMetrics no_sessions.
Proof.
  split; [apply NewWatchHub_inv|done|done|by intros id s Hs; cbn in Hs; rewrite lookup_empty in Hs| |].
  - intros id. cbn. set_solver.
  - intros labels. unfold open_sessions. cbn. by rewrite map_filter_empty, map_size_empty.
Qed.
Lemma accepts_labels {A B} (v : Vec A) (w : Vec B) values : vec_labels v = vec_labels w →
  accepts valid_label v values = accepts valid_label w values.
Proof. unfold accepts. by intros ->. Qed.
(** Counting one on, one off. *)
Lemma step_cell d values m : accepts valid_label (watchSessions m) values = true →
  with_values valid_label 0%Z (λ n, n + d)%Z values (watchSessions m) =
    Some (MkVec (vec_labels (watchSessions m)) (<[values := (cell (watchSessions m) values + d)%Z]> (vec_cells (watchSessions m)))).
Proof. unfold with_values. by intros ->. Qed.
Lemma cell_insert labels values n (v : Vec Z) :
  cell (MkVec (vec_labels v) (<[values := n]> (vec_cells v))) labels = if decide (values = labels) then n else cell v labels.
Proof.
  unfold cell. cbn [vec_cells]. destruct (decide (values = labels)) as [->|]; [by rewrite lookup_insert_eq|by rewrite lookup_insert_ne].
Qed.
Lemma open_insert x h m id s labels : sx_open x !! id = None →
  open_sessions (MkSessions h m (<[id := s]> (sx_open x))) labels =
    open_sessions x labels + if decide (ws_labels s = labels) then 1 else 0.
Proof.
  intros Hid. unfold open_sessions. cbn [sx_open]. destruct (decide (ws_labels s = labels)) as [Hs|Hs].
  - rewrite map_filter_insert_True by done. rewrite map_size_insert_None; [lia|]. by apply map_lookup_filter_None; left.
  - rewrite map_filter_insert_False by done. rewrite delete_id by done. lia.
Qed.
Lemma open_delete x h m id s labels : sx_open x !! id = Some s →
  open_sessions x labels = open_sessions (MkSessions h m (delete id (sx_open x))) labels + if decide (ws_labels s = labels) then 1 else 0.
Proof.
  intros Hid. rewrite <-(open_insert (MkSessions h m (delete id (sx_open x))) h m id s labels) by apply lookup_delete_eq.
  cbn [sx_open]. unfold open_sessions. cbn [sx_open]. by rewrite insert_delete_id.
Qed.

Lemma track_spec m watchKind caller target : let labels := watchLabels watchKind caller target in
  trackWatchSessionMetrics (Some m) watchKind caller target =
    if accepts valid_label (watchSessions m) labels
    then Some (Some (with_sessions m (MkVec (vec_labels (watchSessions m))
           (<[labels := (cell (watchSessions m) labels + 1)%Z]> (vec_cells (watchSessions m))))), end_session labels)
    else None.
Proof.
  cbn. unfold TrackWatchSession, Inc. destruct (accepts _ _ _) eqn:Ha.
  - rewrite (step_cell 1) by done. cbn. done.
  - unfold with_values. by rewrite Ha.
Qed.
Lemma unsubscribe_watchers h id i : i ∈ h_watchers (unsubscribe h id) ↔ i ∈ h_watchers h ∧ i ≠ id.
Proof. unfold unsubscribe. destruct (decide _); cbn; set_solver. Qed.
Lemma unsubscribe_chans h id i : is_Some (h_chans h !! i) → is_Some (h_chans (unsubscribe h id) !! i).
Proof.
  intros [c Hc]. unfold unsubscribe. destruct (decide _); cbn; [|by exists c].
  destruct (decide (id = i)) as [->|]; [rewrite lookup_alter_eq, Hc; by eexists|rewrite lookup_alter_ne by done; by exists c].
Qed.
(** The other steps of the hub add no watcher. *)
Lemma hub_watchers l h h' : (match l with LSubscribe _ _ => False | _ => True end) → hub_step l h = Some h' → h_watchers h' ⊆ h_watchers h.
Proof.
  intros Hl. unfold hub_step. destruct (decide _); [done|]. destruct l as [buffer since|id|event|id| |id]; [done|..].
  - intros [= <-] i Hi. by apply unsubscribe_watchers in Hi as [??].
  - destruct (h_pub h); [|done..]. by intros [= <-].
  - destruct (h_pub h) as [|e todo slow|]; [done| |done]. destruct (decide _); [|done]. unfold publish_send.
    destruct (h_chans h !! id) as [c|]; [|done]. cbn. intros [= <-]. destruct (ch_closed c); [done|]. by destruct (decide _).
  - destruct (h_pub h) as [|e todo slow|]; [done| |done]. destruct (decide _); [|done]. intros [= <-]. cbn. set_solver.
  - unfold receive. destruct (h_chans h !! id) as [c|]; [|done]. cbn. destruct (ch_buf c); [done|]. by intros [= <-].
Qed.
Lemma close_step n m x id s : sessions_ok n m x → sx_open x !! id = Some s →
  ∃ m', end_session (ws_labels s) (Some m) = Some (Some m') ∧
    sessions_ok n m' (MkSessions (unsubscribe (sx_hub x) id) (Some m') (delete id (sx_open x))).
Proof.
  intros [Hh Hm Hv Ho Hw Hc] Hs. destruct (Ho id s Hs) as (_&_&Ha).
  eexists. split; [unfold end_session, Dec; rewrite (step_cell (-1)) by done; reflexivity|].
  split; [by apply unsubscribe_inv|done|done| | |].
  - intros i s0 Hs0. cbn [sx_open] in Hs0. apply lookup_delete_Some in Hs0 as [Hi Hs0]. destruct (Ho i s0 Hs0) as (?&?&Hacc). split; [by apply unsubscribe_chans|].
    split; [done|]. by rewrite <-Hacc; apply accepts_labels.
  - intros i [Hi Hne]%unsubscribe_watchers. cbn [sx_open]. rewrite lookup_delete_ne by done. by apply Hw.
  - intros labels. cbn [with_sessions watchSessions]. rewrite cell_insert, !Hc.
    rewrite (open_delete x (unsubscribe (sx_hub x) id) (Some m) id s labels Hs), (open_delete x (unsubscribe (sx_hub x) id) (Some m) id s (ws_labels s) Hs).
    unfold open_sessions. cbn [sx_open]. rewrite (decide_True (P:=ws_labels s = ws_labels s)) by done. destruct (decide _) as [<-|]; lia.
Qed.
Lemma open_step n m x watchKind caller target since : (n + 1 < 2 ^ 64)%Z → sessions_ok n m x →
  ∃ m', sessions_ok (n + 1) m' (session_open watchKind caller target since x).
Proof.
  intros Hn [Hh Hm Hv Ho Hw Hc]. pose proof (subscribe_inv n (sx_hub x) Hh 128 since Hn) as Hi.
  pose proof (next_fresh n (sx_hub x) Hh) as Hf. unfold session_open. unfold SubscribeSince in *. rewrite (next_id n) in * by done.
  destruct (replaySinceLocked _ _) as [replay exact]. cbn [fst] in Hi. set (id := (h_nextID (sx_hub x) + 1)%Z) in *. set (h := MkHub id _ _ _ _ _) in *.
  assert (sx_open x !! id = None) as Hid.
  { destruct (sx_open x !! id) as [s|] eqn:E; [|done]. destruct (Ho id s E) as [[c Hch] _]. congruence. }
  assert (∀ i, is_Some (h_chans (sx_hub x) !! i) → is_Some (h_chans h !! i)) as Hch.
  { intros i Hi'. cbn. apply lookup_insert_is_Some'. by right. }
  rewrite Hm, track_spec. destruct (accepts _ _ (watchLabels watchKind caller target)) eqn:Ha.
  - eexists. split; [exact Hi|done|done| | |].
    + intros i s. cbn [sx_open]. rewrite lookup_insert_Some. intros [[<- <-]|[Hne Hs]].
      * split; [cbn; rewrite lookup_insert_eq; by eexists|]. split; [done|]. by rewrite <-Ha; apply accepts_labels.
      * destruct (Ho i s Hs) as (?&?&Hacc). split; [by apply Hch|]. split; [done|]. by rewrite <-Hacc; apply accepts_labels.
    + intros i. cbn. rewrite elem_of_union, elem_of_singleton, lookup_insert_is_Some'. intros [->|?]; [by left|right; by apply Hw].
    + intros labels. cbn [with_sessions watchSessions]. rewrite cell_insert, !Hc, open_insert by done. cbn [ws_labels].
      destruct (decide _) as [<-|]; lia.
  - exists m. split; [by apply unsubscribe_inv|done|done| | |done].
    + intros i s Hs. destruct (Ho i s Hs) as (?&?&?). split; [by apply unsubscribe_chans, Hch|done].
    + intros i [Hi' Hne]%unsubscribe_watchers. cbn in Hi'. apply Hw. set_solver.
Qed.
Lemma step_ok n m x e x' : (n + 1 < 2 ^ 64)%Z → sessions_ok n m x → session_step e x = Some x' → ∃ m', sessions_ok (n + 1) m' x'.
Proof.
  intros Hn Hok. unfold session_step. destruct (decide _); [done|]. destruct e as [watchKind caller target since|id|l].
  - intros [= <-]. by apply (open_step n m).
  - unfold session_close. destruct (sx_open x !! id) as [s|] eqn:Hs; [|done]. cbn. intros [= <-].
    destruct (close_step n m x id s Hok Hs) as (m'&Ee&[Hh' ? ? ? ? ?]). exists m'.
    rewrite (so_metrics _ _ _ Hok), (proj1 (proj2 (so_open _ _ _ Hok id s Hs))), Ee. cbn. split; [|done..]. by apply (hub_inv_mono n); [lia|].
  - intros Hs. assert (∃ h, hub_step l (sx_hub x) = Some h ∧ x' = MkSessions h (sx_metrics x) (sx_open x) ∧
      match l with LSubscribe _ _ => False | _ => True end) as (h&Hst&->&Hl).
    { destruct l; try done; destruct (hub_step _ _) as [h|]; try done; injection Hs as <-; by exists h. }
    destruct Hok as [Hh Hm Hv Ho Hw Hc]. exists m. split; [by eapply hub_step_inv|done|done| | |done].
    + intros i s Hi. destruct (Ho i s Hi) as ([c Hcc]&?&?). split; [|done].
      destruct (hf_start _ _ (hub_step_frame _ _ _ _ Hn Hh Hst) i c Hcc) as (c'&?&_). by exists c'.
    + intros i Hi. apply Hw. by apply (hub_watchers l (sx_hub x) h Hl Hst).
Qed.
Lemma run_ok n m x es x' : (n + Z.of_nat (length es) < 2 ^ 64)%Z → sessions_ok n m x → session_run es x = Some x' →
  ∃ n' m', sessions_ok n' m' x'.
Proof.
  revert n m x; induction es as [|e es IH]; intros n m x Hn Hok; cbn [session_run length] in *; [intros [= <-]; by exists n, m|].
  destruct (session_step e x) as [x1|] eqn:E; [|done]. cbn. intros Hr.
  destruct (step_ok n m x e x1 ltac:(lia) Hok E) as [m1 Hok1]. apply (IH (n + 1)%Z m1 x1); [lia|done|done].
Qed.

(** C10: The session gauge.  In every interleaving of sessions that start and end with publications and readers, the
    gauge of each tuple of labels is the number of open sessions with these labels; the hub holds no
    watcher without an open session, not even of one whose labels the gauge refused; the end of a
    session never fails; and when the last session has ended the hub has no watcher and every gauge is zero. *)
Theorem sessions_counted es x : (Z.of_nat (length es) < 2 ^ 64)%Z → session_run es no_sessions = Some x →
  ∃ m, sx_metrics x = Some m ∧
    (∀ labels, cell (watchSessions m) labels = Z.of_nat (open_sessions x labels)) ∧
    (∀ id, id ∈ h_watchers (sx_hub x) → is_Some (sx_open x !! id)) ∧
    (∀ id s, sx_open x !! id = Some s → is_Some (ws_close s (Some m))) ∧
    (sx_open x = ∅ → h_watchers (sx_hub x) = ∅ ∧ ∀ labels, cell (watchSessions m) labels = 0%Z).
Proof.
  intros Hlen Hrun. destruct (run_ok 0 NewRegistryMetrics no_sessions es x ltac:(lia) no_sessions_ok Hrun) as (n&m&Hok).
  exists m. pose proof Hok as [_ Hm _ Ho Hw Hc]. split_and!; [done|done|done| |].
  - intros id s Hs. destruct (close_step n m x id s Hok Hs) as (m'&E&_). rewrite (proj1 (proj2 (Ho id s Hs))), E. by eexists.
  - intros Hx. split.
    + apply set_eq. intros id. split; [|set_solver]. intros Hid%Hw. rewrite Hx, lookup_empty in Hid. by destruct Hid.
    + intros labels. rewrite Hc. unfold open_sessions. by rewrite Hx, map_filter_empty, map_size_empty.
Qed.
End sessions.

(** ** An example: two sessions with the same labels, one of them ended *)
Definition any_label (value : str) : bool := true.
Definition sample_caller : RegistryIdentity := MkRegIdentity (lit "prod") (MkIdentity (lit "orders") empty_dims) [].
Definition sample_target : RegistryWatchTarget := MkTarget (lit "prod") (lit "stock") (lit "service").
Definition sample_sessions : list SessionEvent :=
  [SOpen (lit "instances") sample_caller sample_target 0; SOpen (lit "instances") sample_caller sample_target 0;
   SHub (LPublish (sample_event 5)); SHub (LSend 1); SHub (LSend 2); SHub LPublished; SClose 1].
Definition sample_after : Sessions := default no_sessions (session_run any_label sample_sessions no_sessions).
Lemma sessions_counted_witness : ∃ m, sx_metrics sample_after = Some m ∧
  cell (watchSessions m) (watchLabels (lit "instances") sample_caller sample_target) = 1%Z.
Proof.
  destruct (sessions_counted any_label sample_sessions sample_after) as (m&Hm&Hc&_).
  - vm_compute. reflexivity.
  - reflexivity.
  - exists m. split; [exact Hm|]. rewrite Hc. vm_compute. reflexivity.
Defined.
