(* ===== verification/MetricsRegister.v ===== *)
(** * Registering the metrics ([internal/metrics], [replication/collector.go], [newServerApp])

    What the daemon puts into the registry of the Prometheus client library before it serves it.
    The registry is a class with the documented behaviour of [Register]: new names are taken, a
    collector that is already there is reported as such.  A collector is what its [Describe] sends. *)
From Stdlib Require Import Ascii ZArith.
From stdpp Require Import gmap strings list.
From S2P Require Import Prelude GoStrings Selector Codec Snapshot Engine StateMachine Pebble RegistryModel AddressBook Transport Tracker Dto DataNode Http Control Server Watch Metrics.

Record Desc := MkDesc { d_name : str; d_labels : list str }.
#[export] Instance Desc_eq_dec : EqDecision Desc.
Proof. solve_decision. Defined.
Abbreviation Collector := (list Desc).
Inductive RegisterErr := AlreadyRegistered | RegisterOther.
(** The names that the library accepts in any version. *)
Definition name_char (c : ascii) : bool :=
  let n := bval c in ((97 <=? n) && (n <=? 122) || (65 <=? n) && (n <=? 90) || (n =? 95))%N.
Definition digit_char (c : ascii) : bool := ((48 <=? bval c) && (bval c <=? 57))%N.
Definition valid_name (s : str) : bool :=
  match s with [] => false | c :: s => name_char c && forallb (λ c, name_char c || digit_char c) s end.
Definition valid_desc (d : Desc) : bool :=
  valid_name (d_name d) && forallb valid_name (d_labels d) && bool_decide (NoDup (d_labels d)).
Class Registerer := {
  PromRegistry : Type;
  NewRegistry : PromRegistry;
  reg_names : PromRegistry → gset str;
  reg_has : PromRegistry → Collector → Prop;
  reg_Register : PromRegistry → Collector → PromRegistry * option RegisterErr;
  reg_new : reg_names NewRegistry = ∅;
  reg_fresh r ds : forallb valid_desc ds = true → NoDup (d_name <$> ds) → (∀ d, d ∈ ds → d_name d ∉ reg_names r) →
    ∃ r', reg_Register r ds = (r', None) ∧ reg_names r' = reg_names r ∪ list_to_set (d_name <$> ds) ∧
      reg_has r' ds ∧ ∀ ds', reg_has r ds' → reg_has r' ds';
  reg_again r ds : ds ≠ [] → reg_has r ds → reg_Register r ds = (r, Some AlreadyRegistered)
}.

(** ** The collectors *)
Definition vec_desc {A} (name : string) (v : Vec A) : Collector := [MkDesc (lit name) (vec_labels v)].
(** [activeInstancesCollector] and its [Describe]. *)
Definition newActiveInstancesCollector : Desc :=
  MkDesc (lit "stellmap_registry_active_instances")
    (lit <$> ["namespace"; "service"; "organization"; "business_domain"; "capability_domain"; "application"; "role"; "zone"]%string).
Definition active_Describe : Collector := [newActiveInstancesCollector].
Definition registry_collectors (m : RegistryMetrics) : list Collector :=
  [active_Describe; vec_desc "stellmap_registry_register_requests_total" (registerRequests m);
   vec_desc "stellmap_registry_heartbeat_requests_total" (heartbeatRequests m);
   vec_desc "stellmap_registry_deregister_requests_total" (deregisterRequests m);
   vec_desc "stellmap_registry_watch_sessions" (watchSessions m)].
(** The cells of the HTTP metrics are keyed by the values of these labels. *)
Definition http_collectors (m : option HTTPServerMetrics) : list Collector :=
  match m with
  | None => []
  | Some _ => [[MkDesc (lit "stellmap_http_server_inflight_requests") [lit "route"]];
               [MkDesc (lit "stellmap_http_server_requests_total") [lit "route"; lit "method"; lit "code"]];
               [MkDesc (lit "stellmap_http_server_request_duration_seconds") [lit "route"; lit "method"; lit "code"]]]
  end.
Definition grpc_collectors (m : option GRPCServerMetrics) : list Collector :=
  match m with
  | None => []
  | Some m => [vec_desc "stellmap_grpc_server_inflight_requests" (gm_inflight m); vec_desc "stellmap_grpc_server_requests_total" (gm_requests m);
               vec_desc "stellmap_grpc_server_request_duration_seconds" (gm_latency m);
               vec_desc "stellmap_grpc_server_raft_batch_messages" (gm_raftBatchMessages m);
               vec_desc "stellmap_grpc_server_raft_batch_payload_bytes" (gm_raftBatchBytes m);
               vec_desc "stellmap_grpc_server_snapshot_chunks" (gm_snapshotChunkCount m);
               vec_desc "stellmap_grpc_server_snapshot_bytes" (gm_snapshotBytes m)]
  end.
Record TransportMetrics := MkTransportMetrics { tm_http : option HTTPServerMetrics; tm_grpc : option GRPCServerMetrics }.
Definition NewTransportMetrics : TransportMetrics := MkTransportMetrics (Some newHTTPServerMetrics) (Some newGRPCServerMetrics).
Definition tm_HTTP (m : option TransportMetrics) : option HTTPServerMetrics := m ≫= tm_http.
Definition tm_GRPC (m : option TransportMetrics) : option GRPCServerMetrics := m ≫= tm_grpc.
(** [replication.NewCollector] and its [Describe]. *)
Definition replication_Describe : Collector :=
  (λ name, MkDesc (lit name) (lit <$> ["source_region"; "source_cluster"; "namespace"; "service"]%string)) <$>
    ["stellmap_replication_connected"; "stellmap_replication_last_applied_revision"; "stellmap_replication_last_snapshot_revision";
     "stellmap_replication_last_sync_unixtime"; "stellmap_replication_error_total"]%string.

Section register.
Context `{Registerer}.
(** ** Registering *)
(** The loop of both [Register]: what is already there is passed over, other errors are joined. *)
Fixpoint register_loop (cs : list Collector) (r : PromRegistry) : PromRegistry * list RegisterErr :=
  match cs with
  | [] => (r, [])
  | c :: cs =>
      let '(r, err) := reg_Register r c in
      let '(r, errs) := register_loop cs r in
      (r, match err with None | Some AlreadyRegistered => errs | Some e => e :: errs end)
  end.
(** [None]: a nil receiver, or a nil registerer. *)
Definition registry_Register (m : option RegistryMetrics) (r : option PromRegistry) : option PromRegistry * list RegisterErr :=
  match m, r with
  | Some m, Some r => let '(r, errs) := register_loop (registry_collectors m) r in (Some r, errs)
  | _, _ => (r, [])
  end.
Definition transport_Register (m : option TransportMetrics) (r : option PromRegistry) : option PromRegistry * list RegisterErr :=
  match m, r with
  | Some m, Some r => let '(r, errs) := register_loop (http_collectors (tm_http m) ++ grpc_collectors (tm_grpc m)) r in (Some r, errs)
  | _, _ => (r, [])
  end.
(** The registrations of [newServerApp], their errors dropped there; the collectors of the Go runtime and the process
    belong to the library. *)
Definition register_metrics (go_collector process_collector : Collector) : PromRegistry * list RegisterErr :=
  let r := NewRegistry in
  let '(r, e1) := reg_Register r go_collector in
  let '(r, e2) := reg_Register r process_collector in
  let '(r, e3) := reg_Register r replication_Describe in
  let '(r', e4) := transport_Register (Some NewTransportMetrics) (Some r) in
  let '(r', e5) := registry_Register (Some NewRegistryMetrics) r' in
  (default r r', option_list e1 ++ option_list e2 ++ option_list e3 ++ e4 ++ e5).
Definition own_collectors : list Collector :=
  (http_collectors (tm_http NewTransportMetrics) ++ grpc_collectors (tm_grpc NewTransportMetrics)) ++ registry_collectors NewRegistryMetrics.
Definition names_in (cs : list Collector) : list str := d_name <$> concat cs.

(** The registry takes all of [cs], one after the other. *)
Fixpoint taken (cs : list Collector) (r r' : PromRegistry) : Prop :=
  match cs with
  | [] => r' = r
  | c :: cs => ∃ r1, reg_Register r c = (r1, None) ∧ taken cs r1 r'
  end.
Lemma taken_app cs1 cs2 r r' : taken (cs1 ++ cs2) r r' → ∃ r1, taken cs1 r r1 ∧ taken cs2 r1 r'.
Proof.
  revert r; induction cs1 as [|c cs1 IH]; intros r; cbn; [by exists r|].
  intros (r1&Hc&(r2&H1&H2)%IH). exists r2. split; [by exists r1|done].
Qed.
Lemma taken_loop cs r r' : taken cs r r' → register_loop cs r = (r', []).
Proof. revert r; induction cs as [|c cs IH]; intros r; cbn; [by intros ->|]. intros (r1&->&Hc). by rewrite (IH _ Hc). Qed.
Lemma taken_fresh cs r : forallb (forallb valid_desc) cs = true → NoDup (names_in cs) →
  (∀ n, n ∈ names_in cs → n ∉ reg_names r) →
  ∃ r', taken cs r r' ∧ reg_names r' = reg_names r ∪ list_to_set (names_in cs) ∧
    Forall (reg_has r') cs ∧ ∀ ds, reg_has r ds → reg_has r' ds.
Proof.
  revert r; induction cs as [|c cs IH]; intros r Hv Hnd Hfresh.
  { exists r. split_and!; [done|set_solver|constructor|done]. }
  cbn [forallb] in Hv. apply andb_true_iff in Hv as [Hc Hv]. unfold names_in in *. cbn [concat] in *.
  rewrite fmap_app in *. apply NoDup_app in Hnd as (Hndc&Hsep&Hnd).
  destruct (reg_fresh r c Hc Hndc) as (r1&E1&Hn1&Hh1&Hk1).
  { intros d Hd. apply Hfresh, elem_of_app. left. by apply list_elem_of_fmap_2. }
  destruct (IH r1 Hv Hnd) as (r2&E2&Hn2&Hh2&Hk2).
  { intros n Hn. rewrite Hn1. intros [Hr|Hr]%elem_of_union.
    - revert Hr. apply Hfresh, elem_of_app. by right.
    - apply elem_of_list_to_set in Hr. by apply (Hsep n). }
  exists r2. split_and!; [by exists r1| | |].
  - rewrite Hn2, Hn1. rewrite list_to_set_app_L. set_solver.
  - constructor; [by apply Hk2|done].
  - intros ds Hds. by apply Hk2, Hk1.
Qed.
Lemma register_loop_again cs r : Forall (λ c, c ≠ []) cs → Forall (reg_has r) cs → register_loop cs r = (r, []).
Proof.
  induction cs as [|c cs IH]; intros Hne Hh; [done|]. apply Forall_cons in Hne as [Hc Hne], Hh as [Hh1 Hh2].
  cbn. rewrite reg_again by done. by rewrite IH.
Qed.

(** Every metric of the program reaches the registry: beside the collectors of the library, which use none of
    its names, all registrations of [newServerApp] succeed, so that dropping their errors loses nothing; the
    names are distinct and well formed; and registering the metrics once more changes nothing. *)
Theorem metrics_registered go_collector process_collector :
  forallb valid_desc (go_collector ++ process_collector) = true → NoDup (names_in [go_collector; process_collector]) →
  (∀ n, n ∈ names_in [go_collector; process_collector] → n ∉ names_in (replication_Describe :: own_collectors)) →
  ∃ r, register_metrics go_collector process_collector = (r, []) ∧
    reg_names r = list_to_set (names_in ([go_collector; process_collector; replication_Describe] ++ own_collectors)) ∧
    NoDup (names_in (replication_Describe :: own_collectors)) ∧ length (names_in (replication_Describe :: own_collectors)) = 20 ∧
    transport_Register (Some NewTransportMetrics) (Some r) = (Some r, []) ∧
    registry_Register (Some NewRegistryMetrics) (Some r) = (Some r, []).
Proof.
  intros Hv Hnd Hsep. set (all := [go_collector; process_collector; replication_Describe] ++ own_collectors).
  assert (NoDup (names_in (replication_Describe :: own_collectors))) as Hown
    by (apply (bool_decide_eq_true_1 _); vm_compute; reflexivity).
  destruct (taken_fresh all NewRegistry) as (r&E&Hn&Hh&_).
  { rewrite forallb_app in Hv. apply andb_true_iff in Hv as [H1 H2]. cbn [all app forallb]. rewrite H1, H2. vm_compute. reflexivity. }
  { change (names_in all) with (d_name <$> (go_collector ++ process_collector ++ concat (replication_Describe :: own_collectors))).
      unfold names_in in *. cbn [concat] in Hnd, Hsep. rewrite app_nil_r in Hnd, Hsep. rewrite app_assoc, fmap_app. apply NoDup_app. by split_and!. }
  { intros n _. rewrite reg_new. set_solver. }
  assert (Forall (λ c : Collector, c ≠ []) own_collectors) as Hne by (by repeat constructor).
  unfold all in Hh. rewrite reg_new, union_empty_l_L in Hn.
  apply Forall_app in Hh as [_ Hh]. unfold own_collectors in Hh, Hne.
  apply Forall_app in Hh as [Hh1 Hh2]. apply Forall_app in Hne as [Hne1 Hne2].
  exists r. split; [|split; [exact Hn|split; [done|split; [done|]]]].
  - destruct E as (r1&E1&r2&E2&r3&E3&E).
    change (taken own_collectors r3 r) in E. apply taken_app in E as (r4&E4%taken_loop&E5%taken_loop).
    unfold register_metrics. rewrite E1, E2, E3. unfold transport_Register, registry_Register. by rewrite E4, E5.
  - unfold transport_Register, registry_Register. by rewrite !register_loop_again.
Qed.
End register.

(** ** A registry as the list of its collectors *)
#[refine] Definition memory_registry : Registerer := {|
  PromRegistry := list Collector; NewRegistry := [];
  reg_names r := list_to_set (names_in r); reg_has r ds := ds ∈ r;
  reg_Register r ds := if bool_decide (ds = [] ∨ ds ∉ r) then (r ++ [ds], None) else (r, Some AlreadyRegistered)
|}.
Proof.
  - done.
  - intros r ds _ _ Hf. exists (r ++ [ds]). rewrite bool_decide_true.
    + split_and!; [done| |set_solver|set_solver]. unfold names_in. rewrite concat_app, fmap_app, list_to_set_app_L. cbn. by rewrite app_nil_r.
    + destruct ds as [|d ds]; [by left|]. right. intros Hd. apply (Hf d); [by left|].
      apply elem_of_list_to_set. unfold names_in. apply list_elem_of_fmap_2. apply list_elem_of_In, in_concat.
      exists (d :: ds). split; [by apply list_elem_of_In|by left].
  - intros r ds Hne Hd. rewrite bool_decide_false; [done|]. intros [|]; done.
Defined.
Definition go_descs : Collector := [MkDesc (lit "go_goroutines") []].
Definition process_descs : Collector := [MkDesc (lit "process_open_fds") []].
#[local] Existing Instance memory_registry.
Lemma metrics_registered_witness : ∃ r, register_metrics go_descs process_descs = (r, []) ∧
  registry_Register (Some NewRegistryMetrics) (Some r) = (Some r, []) ∧ lit "stellmap_registry_watch_sessions" ∈ reg_names r.
Proof.
  destruct (metrics_registered go_descs process_descs) as (r&Hr&Hn&_&_&_&Hagain).
  - vm_compute. reflexivity.
  - apply (bool_decide_eq_true_1 _). vm_compute. reflexivity.
  - apply Forall_forall. apply (bool_decide_eq_true_1 _). vm_compute. reflexivity.
  - exists r. split; [exact Hr|]. split; [exact Hagain|]. rewrite Hn. apply elem_of_list_to_set.
    apply (bool_decide_eq_true_1 _). vm_compute. reflexivity.
Defined.
