(* ===== verification/Main.v ===== *)
(** * The process ([cmd/stellmapd/main.go])

    [main] from its flags to its exit code: the configuration, the logs, the application, what wakes it and how
    it ends.  [log.Fatalf] leaves the process at once, without the deferred calls. *)
From Stdlib Require Import Ascii ZArith.
From stdpp Require Import gmap strings list.
From S2P Require Import Prelude GoStrings Selector Codec Wal Engine StateMachine Pebble Snapshot RaftConfig Raft RaftNode RegistryModel Cleanup Transport AddressBook Dto Http Replication Membership Daemon AppLife AppLifeFacts Logging LogAdapters.

Section main.
Context `{Raftpb, !Raft, !RaftBehaviour, PebbleEngine, GoRange, Zap, CaseTable}.
Context `{Json MemberAddress, Json snapshotPayload, Json (list KV), Json Command, Json Snapshot.Metadata, Json Value, Json (list ReplicationTarget)}.
Context {C Rest E SDK : Type}.
(** Flags and configuration file. *)
Context (toml_DecodeFile : str → option configFile) (ParseDuration : str → option Z) (fs_Parse : list str → option (str * DaemonConfig * list string)).
(** The logging runtime. *)
Context (from_env : result E (LogConfig (Rest:=Rest))) (Normalize : LogConfig (Rest:=Rest) → result E (LogConfig (Rest:=Rest))) (Version : str) (pid : Z).
Context (sdk_New : LogConfig (Rest:=Rest) → result E SDK) (bridge_NewLogger : SDK → BridgeOptions → result E ZapLogger) (verbosity_env : str).
Context (sync : ZapLogger → option (str * bool)) (shutdown : SDK → option (str * bool)).
(** The file system, the network and the peers. *)
Context (mkdir : str → bool) (read_file : str → option str) (metricsHandler : Request → Response).
Context (is_MsgSnap : Message → bool) (msg_Snapshot : Message → RaftSnapshot).
Context (dial : str → option C) (rpc : list Rpc → Rpc → option C) (close : str → option C) (left_in : str → MemberChangeRequestDTO).

(** The application before its start. *)
Definition new_state (app : App) : AppState (C:=C) := MkAppState (ap_members app) false false false [] [] (MkCursor []).
Record Process := MkProcess { pr_logs : LogGlobals (SDK:=SDK); pr_app : option (AppState (C:=C)); pr_exit : Z }.
Definition fatal (g : LogGlobals (SDK:=SDK)) (app : option (AppState (C:=C))) : Process := MkProcess g app 1.
(** The deferred call; its error is only logged. *)
Definition close_logs (r : Runtime) (g : LogGlobals (SDK:=SDK)) : LogGlobals := (Runtime_Close sync shutdown (Some r) g).1.
(** [listens], [events], [fails] and [wake] are what the environment does to the application. *)
Definition main (args : list str) (disk : Disk) (listens : bool) (events : list AppEvent) (fails : Service → bool) (wake : Wake)
    (g : LogGlobals (SDK:=SDK)) : Process :=
  match parseFlags toml_DecodeFile ParseDuration fs_Parse args with
  | Err _ => fatal g None
  | Ok cfg =>
      match runtime_New from_env Normalize Version pid sdk_New bridge_NewLogger verbosity_env cfg g with
      | (g, Err _) => fatal g None
      | (g, Ok logs) =>
          match newServerApp mkdir read_file metricsHandler disk cfg with
          | Err _ => fatal g None
          | Ok app =>
              match app_Start listens (new_state app) with
              | (s, Err _) => fatal g (Some s)
              | (s, Ok _) =>
                  match main_ends close fails wake (fold_left (app_step is_MsgSnap msg_Snapshot dial rpc close left_in) events s) with
                  | (s, code) => if (code =? 0)%Z then MkProcess (close_logs logs g) (Some s) 0 else fatal g (Some s)
                  end
              end
          end
      end
  end.

Lemma runtime_New_logs cfg g g' rt : runtime_New from_env Normalize Version pid sdk_New bridge_NewLogger verbosity_env cfg g = (g', Ok rt) →
  ∃ logger runtime, bridge_NewLogger runtime (bridge_options cfg) = Ok logger ∧
    g' = MkGlobals (Some (newRaftLogger logger)) (Some (newGRPCLogger verbosity_env logger)) (Some logger) (Some logger) (g_shutdown g) ∧
    rt = MkRuntime (Some runtime) (Some logger) true (Some (g_zap g)).
Proof.
  unfold runtime_New. destruct (buildConfig _ _ _ _ cfg) as [c|]; [|done]. destruct (sdk_New c) as [sdk|]; [|done].
  destruct (bridge_NewLogger sdk _) as [logger|] eqn:Hb; [|done]. intros [= <- <-]. by exists logger, sdk.
Qed.
(** Nothing before the stop marks the application as shut down. *)
Lemma Start_shutdown listens (s : AppState (C:=C)) : as_shutdown (app_Start listens s).1 = as_shutdown s.
Proof.
  assert (Hm : ∀ A (m : ST (Members RaftNode) NodeErr A), keeps (as_shutdown (C:=C)) (on_members m)) by (intros A m t; unfold on_members; by destruct (m _)).
  assert (Hs : ∀ A (m : ST (AppState (C:=C)) AppErr A), keeps as_shutdown m → keeps as_shutdown (or_stop m)).
  { intros A m Hk t. specialize (Hk t). unfold or_stop. destruct (m t) as [t' [a|e]]; cbn in *; [done|]. rewrite <- Hk. apply Hm. }
  unfold app_Start. apply (keeps_bind as_shutdown); [apply Hm|]. intros _. apply (keeps_bind as_shutdown); [apply Hs, Hm|]. intros _.
  apply (keeps_bind as_shutdown); [apply Hs, Hm|]. intros _. apply (keeps_bind as_shutdown); [|done].
  apply Hs. by destruct listens.
Qed.
Lemma run_shutdown events (s : AppState (C:=C)) :
  as_shutdown (fold_left (app_step is_MsgSnap msg_Snapshot dial rpc close left_in) events s) = as_shutdown s.
Proof. revert s; induction events as [|e events IH]; intros s; [done|]. cbn [fold_left]. by rewrite IH, step_shutdown. Qed.
Lemma main_ends_stopped fails wake (s s' : AppState (C:=C)) code : as_shutdown s = false →
  main_ends close fails wake s = (s', code) → code = 1%Z ∨ code = 0%Z ∧ app_stopped s'.
Proof.
  intros Hdown. unfold main_ends. set (s1 := match wake with WSignal true => _ | _ => _ end).
  assert (Hs1 : as_shutdown s1 = false) by (unfold s1; by repeat case_match).
  destruct (app_Stop close fails s1) as [s2 [[|e errs]|[]]] eqn:Hstop; intros [= <- <-]; [right|by left].
  split; [done|]. by eapply Stop_stops.
Qed.
(** C38: The end of the process.  A process that ends with exit code 0 has stopped its application - servers,
    clients and node, without an error -, has given the loggers of raft, of the standard library and of zap
    back, and has shut the logging runtime down, once; gRPC alone keeps writing to the logger of the runtime that
    is shut down.  One that ends with exit code 1 after the logs came up (a bad configuration of a part, a
    failed start, a stop that reports an error) leaves through [log.Fatalf]: the reason is written to
    the runtime, which is never flushed or shut down. *)
Theorem exit_and_logs args disk listens events fails wake g :
  let p := main args disk listens events fails wake g in
  (pr_exit p = 0%Z ∨ pr_exit p = 1%Z) ∧
  (pr_exit p = 0%Z → ∃ cfg logger runtime s,
    parseFlags toml_DecodeFile ParseDuration fs_Parse args = Ok cfg ∧ bridge_NewLogger runtime (bridge_options cfg) = Ok logger ∧
    pr_logs p = MkGlobals None (Some (newGRPCLogger verbosity_env logger)) None (g_zap g) (g_shutdown g ++ [runtime]) ∧
    pr_app p = Some s ∧ app_stopped s) ∧
  (∀ cfg g' logs, parseFlags toml_DecodeFile ParseDuration fs_Parse args = Ok cfg →
    runtime_New from_env Normalize Version pid sdk_New bridge_NewLogger verbosity_env cfg g = (g', Ok logs) → pr_exit p = 1%Z →
    g_shutdown (pr_logs p) = g_shutdown g ∧ ∃ logger, g_std (pr_logs p) = Some logger ∧ g_raft (pr_logs p) = Some (newRaftLogger logger)).
Proof.
  intros p. subst p. unfold main, fatal.
  destruct (parseFlags _ _ _ args) as [cfg|]; [|cbn; split; [by right|by split]].
  destruct (runtime_New _ _ _ _ _ _ _ cfg g) as [g1 [logs|]] eqn:En; [|cbn; split; [by right|split; [done|congruence]]].
  destruct (runtime_New_logs _ _ _ _ En) as (logger&runtime&Hb&->&->). set (g1 := MkGlobals _ _ _ _ _) in *.
  set (Q := λ p : Process, (pr_exit p = 0%Z ∨ pr_exit p = 1%Z) ∧
    (pr_exit p = 0%Z → ∃ cfg0 logger0 runtime0 s, Ok cfg = (Ok cfg0 : result DaemonErr _) ∧ bridge_NewLogger runtime0 (bridge_options cfg0) = Ok logger0 ∧
      pr_logs p = MkGlobals None (Some (newGRPCLogger verbosity_env logger0)) None (g_zap g) (g_shutdown g ++ [runtime0]) ∧
      pr_app p = Some s ∧ app_stopped s) ∧
    (∀ cfg0 g' logs0, Ok cfg = (Ok cfg0 : result DaemonErr _) → runtime_New from_env Normalize Version pid sdk_New bridge_NewLogger verbosity_env cfg0 g = (g', Ok logs0) → pr_exit p = 1%Z →
      g_shutdown (pr_logs p) = g_shutdown g ∧ ∃ logger, g_std (pr_logs p) = Some logger ∧ g_raft (pr_logs p) = Some (newRaftLogger logger))).
  assert (Hfatal : ∀ s, Q (MkProcess g1 s 1)).
  { intros s. subst Q. cbn. split; [by right|]. split; [done|]. intros _ _ _ _ _ _. split; [done|]. by exists logger. }
  change (Q (match newServerApp mkdir read_file metricsHandler disk cfg with
             | Err _ => MkProcess g1 None 1
             | Ok app => match app_Start listens (new_state app) with
                 | (s, Err _) => MkProcess g1 (Some s) 1
                 | (s, Ok _) => match main_ends close fails wake (fold_left (app_step is_MsgSnap msg_Snapshot dial rpc close left_in) events s) with
                     | (s, code) => if (code =? 0)%Z then MkProcess (close_logs (MkRuntime (Some runtime) (Some logger) true (Some (g_zap g))) g1) (Some s) 0 else MkProcess g1 (Some s) 1
                     end
                 end
             end)).
  destruct (newServerApp _ _ _ disk cfg) as [app|]; [|by apply Hfatal].
  pose proof (Start_shutdown listens (new_state app)) as Hstart. destruct (app_Start listens _) as [s [u|]]; [|by apply Hfatal]. cbn [fst] in Hstart.
  destruct (main_ends _ _ _ _) as [s' code] eqn:Hend. apply main_ends_stopped in Hend; [|by rewrite run_shutdown, Hstart].
  destruct Hend as [->|[-> Hstop]]; cbn [Z.eqb Pos.eqb]; [by apply Hfatal|]. subst Q. cbn [pr_exit pr_logs pr_app]. split; [by left|]. split; [|done].
  intros _. by exists cfg, logger, runtime, s'.
Qed.
End main.
