(* ===== verification/MainSamples.v ===== *)
(** * A process that does not come up, and the loggers of a runtime *)
From Stdlib Require Import Ascii ZArith.
From stdpp Require Import gmap strings countable list.
From S2P Require Import Prelude GoStrings Selector Codec Wal WalLog Engine StateMachine Pebble Snapshot RaftConfig Raft RaftNode RaftReads Restart RegistryModel WatchHub Cleanup Transport AddressBook Dto Watch Http Replication Region RegionSamples Membership MembershipSamples Control Daemon DaemonSamples AppLife AppLifeFacts AppLifeSamples Logging LogAdapters Main.

#[local] Existing Instances bits_raftpb memory_raft quiet_node memory_engine member_json payload_json items_json range_by_key command_json sample_json value_bits targets_json identity_case.
(** A logger as the path of its names. *)
#[local] Instance path_zap : Zap := {|
  ZapLogger := list str; zap_Named l name := l ++ [name]; zap_WithString l key value := l ++ [key; value]; zap_AddCallerSkip l n := l
|}.
Definition flag_names : list string := ["node-id"; "cluster-id"; "region"; "data-dir"; "http-addr"; "admin-addr"; "admin-token";
  "replication-token"; "prometheus-sd-token"; "grpc-addr"; "peer-ids"; "peer-http-addrs"; "request-timeout"; "shutdown-timeout";
  "registry-cleanup-interval"; "registry-cleanup-delete-limit"]%string.
Definition given_flags (args : list str) : option (str * DaemonConfig * list string) := Some ([], node_config, flag_names).
Definition env_config : result unit (LogConfig (Rest:=unit)) :=
  Ok (MkLogConfig [] [] [] [] [] None (lit "prod") false (OutputOther []) (FormatOther []) [] tt).
Definition sample_runtime (c : LogConfig (Rest:=unit)) : result unit unit := Ok tt.
Definition sample_bridge (runtime : unit) (o : BridgeOptions) : result unit ZapLogger := Ok ([bo_Name o] : list str).
Definition sample_logger : ZapLogger := ([daemonServiceName] : list str).
Definition no_globals : LogGlobals (SDK:=unit) := MkGlobals None None None None [].
Definition silent {A} (a : A) : option (str * bool) := None.
Definition sample_main (listens : bool) : Process (C:=unit) (SDK:=unit) :=
  main (λ _, None) (λ _, None) given_flags env_config Ok (lit "dev") 7 sample_runtime sample_bridge [] silent silent
    (λ _, true) (λ _, None) no_metrics AppLifeSamples.no_messages no_snapshot (λ _, None) (λ _ _, None) no_close left_request
    [] empty_disk listens [] (λ _, false) (WSignal false) no_globals.
Lemma exit_and_logs_witness :
  pr_exit (sample_main false) = 1%Z ∧ g_shutdown (pr_logs (sample_main false)) = [] ∧
  (∃ logger, g_std (pr_logs (sample_main false)) = Some logger ∧ g_raft (pr_logs (sample_main false)) = Some (newRaftLogger logger)) ∧
  pr_exit (sample_main true) = 0%Z ∧
  ∃ logger runtime s, pr_logs (sample_main true) = MkGlobals None (Some (newGRPCLogger [] logger)) None None [runtime] ∧
    pr_app (sample_main true) = Some s ∧ app_stopped s.
Proof.
  assert (pr_exit (sample_main false) = 1%Z) as E1 by (vm_compute; reflexivity).
  assert (pr_exit (sample_main true) = 0%Z) as E0 by (vm_compute; reflexivity).
  split; [exact E1|].
  destruct (exit_and_logs (λ _, None) (λ _, None) given_flags env_config Ok (lit "dev") 7 sample_runtime sample_bridge [] silent silent
    (λ _, true) (λ _, None) no_metrics AppLifeSamples.no_messages no_snapshot (λ _, None) (λ _ _, None) no_close left_request
    [] empty_disk false [] (λ _, false) (WSignal false) no_globals) as (_&_&Hfatal).
  destruct (exit_and_logs (λ _, None) (λ _, None) given_flags env_config Ok (lit "dev") 7 sample_runtime sample_bridge [] silent silent
    (λ _, true) (λ _, None) no_metrics AppLifeSamples.no_messages no_snapshot (λ _, None) (λ _ _, None) no_close left_request
    [] empty_disk true [] (λ _, false) (WSignal false) no_globals) as (_&Hok&_).
  destruct (Hfatal node_config (runtime_New env_config Ok (lit "dev") 7 sample_runtime sample_bridge [] node_config no_globals).1
    (MkRuntime (Some tt) (Some sample_logger) true (Some None))) as [Hd Hl]; [reflexivity|reflexivity|exact E1|].
  split; [exact Hd|]. split; [exact Hl|]. split; [exact E0|].
  destruct (Hok E0) as (cfg&logger&runtime&s&_&_&Hlogs&Happ&Hstop). exists logger, runtime, s. split; [exact Hlogs|]. split; [exact Happ|exact Hstop].
Defined.
